(* ===== verification/_CoqProject ===== *)
-Q . S2P
Prelude.v
Codec.v
BTree.v
Crypto.v
Epocher.v
Account.v
ExecutionRequest.v
ProtocolParams.v
Withdrawal.v
SszTree.v
SszTreeFacts.v
SszCollections.v
SszHash.v
SszStateTree.v
SszStateTreeFacts.v
StateProof.v
ConsensusState.v
StateSync.v
StateCodec.v
StateDecode.v
StateRun.v
StatePayouts.v
Block.v
Execution.v
StateInvariant.v
StateProcess.v
StateBoundary.v
StateSigners.v
ExecutionFacts.v
Chain.v
Committee.v
Genesis.v
CheckpointChain.v
CheckpointFacts.v
CheckpointDemo.v
ObserverKeys.v
Db.v
DbFacts.v
Finalizer.v
FinalizerRun.v
FinalizerFacts.v
FinalizerLoop.v
FinalizerWaiters.v
FinalizerProgress.v
FinalizerDemo.v
Application.v
ApplicationFacts.v
ApplicationDemo.v
Startup.v
StartupFacts.v
StartupDemo.v
