(* ===== verification/Prelude.v ===== *)
(** * Summit: a verification library

    Summit is a consensus client for an EVM chain.  Validators agree on blocks with a
    BFT engine, an execution client runs the payloads, and the node keeps a replicated
    consensus state: validator accounts, deposit and withdrawal queues, protocol
    parameters, the schedule of epochs and a Merkle tree that commits to all of it.
    This library models the state machine of the node and the actors that drive it,
    and proves what makes them correct.

    ** The parts and how they interact

    The application actor (application/src/actor.rs) proposes blocks and votes on them.
    It asks the finalizer actor (finalizer/src/actor.rs) for the auxiliary data of a
    block: withdrawals, checkpoint hash, committee changes.  Notarized and finalized
    blocks go to the finalizer, which asks the execution client about them, applies them
    to its consensus states (types/src/consensus_state/mod.rs) and, at the end of an
    epoch, stores the state, the header and a checkpoint in its database
    (finalizer/src/db.rs).  A new node starts from the genesis file
    (types/src/genesis.rs) or from a checkpoint it verifies against the finalized
    headers (types/src/checkpoint.rs).

    ** Files

    Shared: Prelude (machine integers, byte strings, loops, results, records), Codec
    (readers and writers of byte buffers), BTree (ordered maps), Crypto (keys,
    signatures and hashes as a class).

    Data of the types crate: Epocher (dynamic_epocher.rs), Account (account.rs),
    ExecutionRequest (execution_request.rs), ProtocolParams (protocol_params.rs and
    utils.rs), Withdrawal (withdrawal.rs), Block (header.rs and block.rs), ObserverKeys
    (ext_private_key.rs), Genesis (genesis.rs, lib.rs and [get_initial_state] of
    node/src/args.rs).

    The Merkle tree of the state: SszTree and SszTreeFacts (ssz_tree.rs),
    SszCollections, SszHash (ssz_hash.rs), SszStateTree and SszStateTreeFacts
    (ssz_state_tree.rs up to the proofs), StateProof (its proofs).

    The consensus state: ConsensusState (its operations, one definition per method),
    StateCodec and StateDecode (its persistence), StateSync and StateRun (sequences of
    operations), StatePayouts, StateInvariant, StateProcess, StateBoundary (the
    invariant of block processing), StateSigners (the committee of an epoch).

    The finalizer: Execution and ExecutionFacts (executing a block, the epoch boundary),
    Chain (a chain of finalized blocks), Db and DbFacts (the database and crashes),
    Finalizer (handlers of blocks), FinalizerRun (requests and the main loop),
    FinalizerFacts, FinalizerLoop, FinalizerWaiters, FinalizerProgress (its theorems).

    Checkpoints: Committee (committees along a chain), CheckpointChain
    ([verify_checkpoint_chain]), CheckpointFacts.  Startup and
    StartupFacts (finalizer/src/startup.rs) choose the state a node starts from.

    The application: Application and ApplicationFacts.

    FinalizerDemo, CheckpointDemo, ApplicationDemo, StartupDemo and the Demo and Toy
    modules run the definitions on small concrete inputs.

    ** Conventions

    A [u64] is a [Z] in range; plain additions and subtractions wrap around, as they do
    in a release build, and checked and saturating ones are written as such; a [usize]
    is a [nat].  A panic, an [expect] or an [unwrap] that fails is [None]; an error is
    [Err].  A [BTreeMap] is a sorted association list, a [HashMap] a [gmap].  The
    actors are state monads over a record of their fields, with the messages they send
    as a list of events.  The consensus state is polymorphic in its tree: with [unit] as
    tree it is the data alone, which is how most invariants are proved before they are
    lifted to the state with its tree.

    Code outside the repository is a class of operations ([Crypto], [SszLib],
    [BlockLib], [PayloadLib], [KvStore], [EngineClient], [BuilderClient], [GenesisLib],
    [Curve], [CertificateLib], [MultisigLib],
    [CertificateRounds]), with a second class of what its documentation
    promises where a theorem needs it ([CryptoOk], [BlockLibOk], [KvStoreOk], ...).  No
    hash is assumed injective: a theorem that depends on it has a collision of two
    strings at hand ([clash]) as an explicit alternative.

    ** What the theorems show

    The finalizer (C1, C2, C11, C12): whatever is notarized and however the execution
    client answers, the canonical state is the state of the finalized chain; with
    services that work every finalized block is executed; waiting proposers are
    answered exactly once; the loop over notarized blocks stops.  Blocks (C3, C4, C5):
    a block is executed completely or not at all, a block that passed the vote is
    executed, an honest proposal passes the vote.  Checkpoints (C6, C7): what the
    verification of a checkpoint accepts is the canonical checkpoint, and the canonical
    checkpoint is accepted; the committees rebuilt from headers are those of the chain.
    The start of a node
    (C8, C9) never falls behind the stored state and completes an import that
    a crash interrupted.  The database (C10) survives crashes epoch by epoch.  The epoch boundary (C13) installs the
    staged committee, the genesis state (C14) is a state of a running chain, and the
    withdrawals paid equal the balances debited (C15).  The state (C16 to C20): its
    Merkle tree never influences its data and is always the rebuilt one, and encoding
    and decoding keep the commitments.  The tree and its proofs (C21 to C28): every
    incremental update gives the tree of the rebuilt state, proofs are sound and
    complete.  The remaining ones are about the withdrawal queue, requests, parameters,
    the epoch schedule, block digests, signature domains and observer keys.

    ** Bounds and fuel

    Recursion that is not structural is on fuel that is computed from the input and
    proved sufficient: the nesting of captured states in a decoder (the length of the
    buffer, [decoding_is_total]), the work list of notarized blocks (the number of
    buffered blocks, [notarized_loop_terminates]).  Nothing is bounded for the sake of
    the proofs; hypotheses of the form [capacity], [epoch_capacity] or [is_u64] say that
    counters and heights have not reached 2^64.

    ** Not modelled

    The syncer (syncer/) moves blocks between peers and archives of the consensus
    library; the finalizer's theorems take the order of its deliveries as input.  The
    orchestrator (orchestrator/) starts the consensus engine, which is library code.
    RPC, telemetry, key files and the command line are input and output.  Mailboxes are
    channels: the model has the messages, in any order.  Logs, metrics and the wall
    clock are left out, except where a time stamp enters a block.  The texts of errors
    are left out where nothing depends on them. *)

From stdpp Require Export prelude gmap.
From stdpp Require Export strings sorting.
From coqutil Require Export Byte.
From coqutil Require Export Word.LittleEndianList.

#[global] Set Default Goal Selector "!".
#[global] Unset Program Cases.

(** ** Bytes and machine integers *)

(** A Rust [u8] is a [Byte.byte]; slices, vectors and arrays of bytes are lists
    of them (an array's fixed length is part of the well-formedness predicate of
    the value that holds it). *)
Abbreviation byte := Init.Byte.byte.
Abbreviation bytes := (list Init.Byte.byte).

#[global] Instance byte_eq_decision : EqDecision byte := Byte.byte_eq_dec.

#[global] Instance byte_countable : Countable byte :=
  inj_countable Byte.to_N Byte.of_N Byte.of_to_N.

#[global] Instance byte_inhabited : Inhabited byte := populate Init.Byte.x00.

Declare Scope u64_scope.
Delimit Scope u64_scope with u64.

(** A [u64] is an integer [Z] in the range [is_u64]. *)
Definition u64_max : Z := 18446744073709551615.
Definition is_u64 (x : Z) : Prop := (0 ≤ x ≤ u64_max)%Z.

(** Plain [+] of the release profile (the workspace sets no [overflow-checks]):
    addition wraps modulo [2^64]. *)
Definition wrapping_add (x y : Z) : Z := ((x + y) mod (u64_max + 1))%Z.
Definition wrapping_sub (x y : Z) : Z := ((x - y) mod (u64_max + 1))%Z.
Definition saturating_add (x y : Z) : Z := Z.min (x + y) u64_max.
Definition saturating_sub (x y : Z) : Z := Z.max 0 (x - y).
Definition checked_add (x y : Z) : option Z :=
  if (x + y <=? u64_max)%Z then Some (x + y)%Z else None.
Definition checked_mul (x y : Z) : option Z :=
  if (x * y <=? u64_max)%Z then Some (x * y)%Z else None.

Notation "x +w y" := (wrapping_add x y) (at level 50, left associativity) : u64_scope.

(** [u64::to_le_bytes], [u64::from_le_bytes], and the big-endian [put_u64]
    and [put_u32] of the [bytes] crate. *)
Definition u64_to_le_bytes (x : Z) : bytes := le_split 8 x.
Definition u32_to_le_bytes (x : Z) : bytes := le_split 4 x.
Definition from_le_bytes (bs : bytes) : Z := le_combine bs.
Definition u64_to_be_bytes (x : Z) : bytes := rev (le_split 8 x).
Definition u32_to_be_bytes (x : Z) : bytes := rev (le_split 4 x).
Definition from_be_bytes (bs : bytes) : Z := le_combine (rev bs).
Definition u8_to_byte (x : Z) : byte := byte.of_Z x.
Definition byte_to_u8 (b : byte) : Z := byte.unsigned b.

(** The bytes of an ASCII literal. *)
Definition ascii_bytes (s : string) : bytes :=
  map (λ c, u8_to_byte (Z.of_N (Ascii.N_of_ascii c))) (String.list_ascii_of_string s).
Definition zero_bytes (n : nat) : bytes := replicate n Init.Byte.x00.

#[global] Arguments wrapping_add : simpl never.
#[global] Arguments wrapping_sub : simpl never.
#[global] Arguments saturating_add : simpl never.
#[global] Arguments saturating_sub : simpl never.
#[global] Arguments checked_add : simpl never.
#[global] Arguments checked_mul : simpl never.

Ltac u64_unfold :=
  unfold is_u64, wrapping_add, wrapping_sub, saturating_add, saturating_sub, u64_max in *.

(** [u64_solve] closes linear goals about machine integers. *)
Ltac u64_solve := u64_unfold; try lia.

Create HintDb u64.

Lemma wrapping_add_is_u64 x y : is_u64 (wrapping_add x y).
Proof. u64_unfold. pose proof (Z.mod_pos_bound (x + y) (18446744073709551615 + 1)). lia. Qed.

Lemma wrapping_add_small x y :
  is_u64 (x + y) → wrapping_add x y = (x + y)%Z.
Proof. u64_unfold. intros. apply Z.mod_small. lia. Qed.

Lemma wrapping_sub_is_u64 x y : is_u64 (wrapping_sub x y).
Proof. u64_unfold. pose proof (Z.mod_pos_bound (x - y) (18446744073709551615 + 1)). lia. Qed.

Lemma wrapping_sub_small x y :
  is_u64 (x - y) → wrapping_sub x y = (x - y)%Z.
Proof. u64_unfold. intros. apply Z.mod_small. lia. Qed.

Lemma saturating_add_is_u64 x y :
  is_u64 x → is_u64 y → is_u64 (saturating_add x y).
Proof. u64_solve. Qed.

Lemma saturating_sub_is_u64 x y :
  is_u64 x → is_u64 y → is_u64 (saturating_sub x y).
Proof. u64_solve. Qed.

Lemma checked_add_Some x y z : checked_add x y = Some z ↔ z = (x + y)%Z ∧ (x + y ≤ u64_max)%Z.
Proof. unfold checked_add. destruct (Z.leb_spec (x + y) u64_max); naive_solver lia. Qed.

Lemma checked_mul_Some x y z : checked_mul x y = Some z ↔ z = (x * y)%Z ∧ (x * y ≤ u64_max)%Z.
Proof. unfold checked_mul. destruct (Z.leb_spec (x * y) u64_max); naive_solver lia. Qed.

#[export] Hint Resolve wrapping_add_is_u64 wrapping_sub_is_u64 saturating_add_is_u64 saturating_sub_is_u64 : u64.

Lemma length_u64_to_le_bytes x : length (u64_to_le_bytes x) = 8%nat.
Proof. apply length_le_split. Qed.
Lemma length_u64_to_be_bytes x : length (u64_to_be_bytes x) = 8%nat.
Proof. unfold u64_to_be_bytes. by rewrite length_rev, length_le_split. Qed.
Lemma length_u32_to_be_bytes x : length (u32_to_be_bytes x) = 4%nat.
Proof. unfold u32_to_be_bytes. by rewrite length_rev, length_le_split. Qed.
Lemma length_u32_to_le_bytes x : length (u32_to_le_bytes x) = 4%nat.
Proof. apply length_le_split. Qed.
Lemma length_zero_bytes n : length (zero_bytes n) = n.
Proof. apply length_replicate. Qed.

#[export] Hint Rewrite length_u64_to_le_bytes length_u64_to_be_bytes
  length_u32_to_be_bytes length_u32_to_le_bytes length_zero_bytes : byte_length.

Lemma from_to_le_bytes x : is_u64 x → from_le_bytes (u64_to_le_bytes x) = x.
Proof.
  unfold from_le_bytes, u64_to_le_bytes. intros Hx. rewrite le_combine_split.
  apply Z.mod_small. u64_unfold. lia.
Qed.

Lemma from_to_be_bytes x : is_u64 x → from_be_bytes (u64_to_be_bytes x) = x.
Proof.
  unfold from_be_bytes, u64_to_be_bytes. rewrite rev_involutive. apply from_to_le_bytes.
Qed.

Lemma from_to_be_bytes_u32 x :
  (0 ≤ x < 2 ^ 32)%Z → from_be_bytes (u32_to_be_bytes x) = x.
Proof.
  unfold from_be_bytes, u32_to_be_bytes. rewrite rev_involutive. intros.
  rewrite le_combine_split. by apply Z.mod_small.
Qed.

Lemma from_le_bytes_is_u64 bs : length bs = 8%nat → is_u64 (from_le_bytes bs).
Proof. intros Hl. pose proof (le_combine_bound bs) as Hb. rewrite Hl in Hb. u64_unfold. unfold from_le_bytes. lia. Qed.

Lemma from_be_bytes_is_u64 bs : length bs = 8%nat → is_u64 (from_be_bytes bs).
Proof. intros Hl. apply (from_le_bytes_is_u64 (rev bs)). by rewrite length_rev. Qed.

Lemma from_be_bytes_bound bs : (0 ≤ from_be_bytes bs < 2 ^ (8 * Z.of_nat (length bs)))%Z.
Proof. unfold from_be_bytes. pose proof (le_combine_bound (rev bs)) as Hb. by rewrite length_rev in Hb. Qed.

Lemma u64_to_le_bytes_inj x y :
  is_u64 x → is_u64 y → u64_to_le_bytes x = u64_to_le_bytes y → x = y.
Proof. intros Hx Hy E. rewrite <-(from_to_le_bytes x), <-(from_to_le_bytes y) by done. by rewrite E. Qed.

Lemma byte_to_u8_of_Z x : (0 ≤ x < 256)%Z → byte_to_u8 (u8_to_byte x) = x.
Proof. intros. unfold byte_to_u8, u8_to_byte. rewrite byte.unsigned_of_Z. by apply Z.mod_small. Qed.

(** ** Results *)

(** Rust's [Result<T, E>]. *)
Inductive result (E A : Type) : Type :=
| Ok (a : A)
| Err (e : E).
Arguments Ok {E A} a.
Arguments Err {E A} e.

#[global] Instance result_ret {E} : MRet (result E) := @Ok E.
#[global] Instance result_bind {E} : MBind (result E) := λ A B f r,
  match r with Ok a => f a | Err e => Err e end.
#[global] Instance result_fmap {E} : FMap (result E) := λ A B f r,
  match r with Ok a => Ok (f a) | Err e => Err e end.

Definition is_ok {E A} (r : result E A) : bool := match r with Ok _ => true | Err _ => false end.

Lemma result_bind_Ok {E A B} (f : A → result E B) (r : result E A) b :
  (r ≫= f) = Ok b ↔ ∃ a, r = Ok a ∧ f a = Ok b.
Proof. destruct r; naive_solver. Qed.

Definition option_to_result {E A} (e : E) (o : option A) : result E A :=
  match o with Some a => Ok a | None => Err e end.

(** ** Loops

    A Rust computation that may panic is an [option]: [None] is the panic.
    [for_each f s l] is the loop [for x in l { s = f(s, x) }]. *)
Fixpoint for_each {S A} (f : S → A → option S) (s : S) (l : list A) : option S :=
  match l with
  | [] => Some s
  | a :: l => s' ← f s a; for_each f s' l
  end.

Section for_each.
Context {S A : Type} (f : S → A → option S).

Lemma for_each_app s l1 l2 :
  for_each f s (l1 ++ l2) = s' ← for_each f s l1; for_each f s' l2.
Proof. revert s. induction l1 as [|a l1 IH]; intros s; [done|]. simpl. destruct (f s a); [apply IH|done]. Qed.

(** The loop rule for total correctness: an invariant [P] indexed by the
    elements still to come. *)
Lemma for_each_total (P : S → list A → Prop) s l :
  P s l →
  (∀ s a l', P s (a :: l') → ∃ s', f s a = Some s' ∧ P s' l') →
  ∃ s', for_each f s l = Some s' ∧ P s' [].
Proof.
  intros HP Hstep. revert s HP. induction l as [|a l IH]; intros s HP; simpl; [eauto|].
  destruct (Hstep _ _ _ HP) as (s' & -> & HP'). simpl. by apply IH.
Qed.

(** The loop rule for partial correctness. *)
Lemma for_each_partial (P : S → list A → Prop) s l s' :
  P s l →
  (∀ s a l' s', P s (a :: l') → f s a = Some s' → P s' l') →
  for_each f s l = Some s' → P s' [].
Proof.
  intros HP Hstep. revert s HP. induction l as [|a l IH]; intros s HP; simpl.
  { by intros [= <-]. }
  destruct (f s a) as [s1|] eqn:E; simpl; [|done]. apply IH. by eapply Hstep.
Qed.

Lemma for_each_inv (P : S → Prop) s l s' :
  P s → (∀ s a s', a ∈ l → P s → f s a = Some s' → P s') →
  for_each f s l = Some s' → P s'.
Proof.
  revert s. induction l as [|a l IH]; intros s HP Hstep; simpl; [by intros [= <-]|].
  destruct (f s a) as [s1|] eqn:E; simpl; [|done]. apply IH.
  - eapply Hstep; [|done|done]. by left.
  - intros. eapply Hstep; [by right|done|done].
Qed.
Lemma for_each_ext (g : S → A → option S) s l :
  (∀ s a, f s a = g s a) → for_each f s l = for_each g s l.
Proof.
  intros Hfg. revert s. induction l as [|a l IH]; intros s; [done|]. simpl. rewrite Hfg.
  destruct (g s a); [apply IH|done].
Qed.
End for_each.

(** The half-open range [a..b] of a Rust [for] loop. *)
Definition range (a b : nat) : list nat := seq a (b - a).

Lemma range_empty i j : j ≤ i → range i j = [].
Proof. intros. unfold range. by replace (j - i) with 0 by lia. Qed.

(** ** Sums *)
Definition sum {A} (f : A → Z) (l : list A) : Z := foldr (λ a n, (f a + n)%Z) 0%Z l.

Lemma sum_app {A} (f : A → Z) l l' : sum f (l ++ l') = (sum f l + sum f l')%Z.
Proof. induction l; simpl; lia. Qed.

Lemma elem_of_range a b i : i ∈ range a b ↔ a ≤ i < b.
Proof. unfold range. rewrite elem_of_seq. lia. Qed.

(** ** Record update

    [r <| f := v |>] is the record [r] with the field [f] replaced by [v], as in
    an assignment [r.f = v].  A record opts in with an [Eta] instance that
    rebuilds it from its projections. *)
Class Eta (R : Type) := eta : R → R.
Class Update {R T : Type} (p : R → T) := update : T → R → R.
Arguments update {R T} p {_} v r /.

Ltac solve_update :=
  lazymatch goal with
  | |- @Update ?R ?T ?p =>
      let f := constr:(fun (v : T) (r : R) =>
        ltac:(let e := eval hnf in (@eta R _ r) in
              lazymatch eval pattern (p r) in e with
              | ?F _ => let x := eval cbv beta in (F v) in exact x
              end)) in
      exact f
  end.
#[global] Hint Extern 1 (Update _) => solve_update : typeclass_instances.

Notation "r <| p := v |>" := (update p v r)
  (at level 12, p at next level, left associativity, format "r  <| p  :=  v |>").

(** ** Tactics *)

(** Splits a run of the option monad that returned. *)
Ltac inv_bind :=
  repeat match goal with
  | H : (_ ≫= _) = Some _ |- _ => apply bind_Some in H as (?&?&?)
  | H : guard _ ≫= _ = Some _ |- _ => apply bind_Some in H as (?&?&?)
  | H : Some _ = Some _ |- _ => injection H as H
  | H : None = Some _ |- _ => discriminate H
  | H : Some _ = None |- _ => discriminate H
  end; subst.

(** ** Lists *)

Definition zsum (l : list Z) : Z := foldr Z.add 0%Z l.

Lemma zsum_app l1 l2 : zsum (l1 ++ l2) = (zsum l1 + zsum l2)%Z.
Proof. unfold zsum. induction l1 as [|x l1 IH]; simpl; [done|]. rewrite IH. lia. Qed.

Lemma zsum_nonneg l : Forall (λ x, 0 ≤ x)%Z l → (0 ≤ zsum l)%Z.
Proof. unfold zsum. induction 1; simpl; lia. Qed.

(** [iter().position(p)]. *)
Fixpoint position {A} (p : A → bool) (l : list A) : option nat :=
  match l with
  | [] => None
  | x :: l => if p x then Some 0 else S <$> position p l
  end.

Lemma position_Some {A} (p : A → bool) l i :
  position p l = Some i →
  ∃ l1 x l2, l = l1 ++ x :: l2 ∧ length l1 = i ∧ p x = true ∧ Forall (λ y, p y = false) l1.
Proof.
  revert i. induction l as [|y l IH]; intros i; simpl; [done|].
  destruct (p y) eqn:E.
  - intros [= <-]. exists [], y, l. by repeat constructor.
  - destruct (position p l) as [j|] eqn:Ej; simpl; [|done]. intros [= <-].
    destruct (IH j eq_refl) as (l1 & x & l2 & -> & <- & ? & ?).
    exists (y :: l1), x, l2. repeat split; [done|]. by constructor.
Qed.

Lemma position_None {A} (p : A → bool) l :
  position p l = None ↔ Forall (λ y, p y = false) l.
Proof.
  induction l as [|y l IH]; simpl; [by split|].
  rewrite Forall_cons. destruct (p y) eqn:E; [naive_solver|].
  rewrite fmap_None, IH. naive_solver.
Qed.

Lemma position_app {A} (p : A → bool) l1 x l2 :
  Forall (λ y, p y = false) l1 → p x = true → position p (l1 ++ x :: l2) = Some (length l1).
Proof.
  induction 1 as [|y l1 Hy Hl IH]; intros Hx; simpl; [by rewrite Hx|].
  rewrite Hy. by rewrite IH.
Qed.

(** [Vec::retain] / [iter().filter] with a boolean test. *)
Definition retain {A} (p : A → bool) (l : list A) : list A := List.filter p l.

Lemma elem_of_retain {A} (p : A → bool) l x : x ∈ retain p l ↔ x ∈ l ∧ p x = true.
Proof. unfold retain. by rewrite !list_elem_of_In, List.filter_In. Qed.

Lemma retain_app {A} (p : A → bool) l1 l2 : retain p (l1 ++ l2) = retain p l1 ++ retain p l2.
Proof. apply List.filter_app. Qed.

Lemma retain_all {A} (p : A → bool) l : Forall (λ x, p x = true) l → retain p l = l.
Proof. induction 1 as [|x l Hx Hl IH]; simpl; [done|]. rewrite Hx. by f_equal. Qed.

Lemma retain_none {A} (p : A → bool) l : Forall (λ x, p x = false) l → retain p l = [].
Proof. induction 1 as [|x l Hx Hl IH]; simpl; [done|]. by rewrite Hx. Qed.

(** [iter().take_while]. *)
Fixpoint take_while {A} (p : A → bool) (l : list A) : list A :=
  match l with
  | [] => []
  | x :: l => if p x then x :: take_while p l else []
  end.

Lemma take_while_prefix {A} (p : A → bool) l : take_while p l `prefix_of` l.
Proof.
  induction l as [|x l IH]; simpl; [done|].
  destruct (p x); [by apply prefix_cons|apply prefix_nil].
Qed.

Lemma take_while_Forall {A} (p : A → bool) l : Forall (λ x, p x = true) (take_while p l).
Proof. induction l as [|x l IH]; simpl; [done|]. destruct (p x) eqn:E; by constructor. Qed.

Lemma prefix_eq_take {A} (l1 l2 : list A) : l1 `prefix_of` l2 → l1 = take (length l1) l2.
Proof. intros [k ->]. by rewrite take_app_length. Qed.

Lemma take_while_take {A} (p : A → bool) n l :
  take n (take_while p l) = take (length (take n (take_while p l))) l.
Proof.
  apply prefix_eq_take. trans (take_while p l); [apply prefix_take|apply take_while_prefix].
Qed.

Lemma StronglySorted_impl {A} (R R' : A → A → Prop) l :
  (∀ x y, R x y → R' x y) → StronglySorted R l → StronglySorted R' l.
Proof.
  intros HR. induction 1 as [|x l Hs IH Hx]; constructor; [done|].
  eapply Forall_impl; [exact Hx|]. auto.
Qed.

Lemma StronglySorted_snoc {A} (R : A → A → Prop) l x :
  StronglySorted R l → Forall (λ y, R y x) l → StronglySorted R (l ++ [x]).
Proof.
  induction 1 as [|y l Hs IH Hy]; intros Hx; simpl; [repeat constructor|].
  apply Forall_cons in Hx as [Hyx Hx]. constructor; [by apply IH|].
  apply Forall_app. split; [done|by constructor].
Qed.

(** Filtering equals the prefix test on a list where the test is monotone. *)
Lemma take_while_filter {A} (p : A → bool) l :
  StronglySorted (λ x y, p y = true → p x = true) l → take_while p l = retain p l.
Proof.
  induction 1 as [|x l Hs IH Hx]; simpl; [done|].
  destruct (p x) eqn:E; [by rewrite IH|].
  symmetry. apply retain_none. eapply Forall_impl; [exact Hx|]. simpl.
  intros y Hy. destruct (p y); [|done]. specialize (Hy eq_refl). congruence.
Qed.

(** The integer encodings compute in witnesses but never unfold in a proof. *)
#[global] Opaque u64_to_le_bytes u32_to_le_bytes u64_to_be_bytes u32_to_be_bytes
  from_le_bytes from_be_bytes zero_bytes.
