(* ===== verification/Codec.v ===== *)
(** * Codec: the byte-buffer reader and writer of the [bytes] and
    [commonware_codec] crates as the types crate uses them.

    A value of type [reader A] is a computation on [&mut impl Buf]: it consumes a
    prefix of the buffer or fails with a [commonware_codec::Error].  The class
    [Codec] gathers a type's [Write] and [Read] implementations with the
    predicate [codec_wf] of the values Rust's types admit, and [CodecOk] is the
    round-trip law every implementation is shown to satisfy. *)
From S2P Require Import Prelude.

Inductive Error :=
| EndOfBuffer
| Invalid (ty reason : string)
| ExtraData (n : nat)
| InvalidVarint (n : nat).

Definition reader (A : Type) : Type := bytes → result Error (A * bytes).

#[global] Instance reader_ret : MRet reader := λ A a buf, Ok (a, buf).
#[global] Instance reader_bind : MBind reader := λ A B f r buf,
  match r buf with Ok (a, buf') => f a buf' | Err e => Err e end.

Definition fail {A} (e : Error) : reader A := λ _, Err e.

(** [if !c { return Err(e) }]. *)
Definition ensure (c : bool) (e : Error) : reader () :=
  if c then mret () else fail e.

Definition remaining : reader nat := λ buf, Ok (length buf, buf).

(** [try_copy_to_slice] into a fresh array of [n] bytes, with the [map_err] to
    [EndOfBuffer] every caller applies. *)
Definition take_bytes (n : nat) : reader bytes := λ buf,
  if decide (length buf < n) then Err EndOfBuffer else Ok (take n buf, drop n buf).

Definition try_get_u8 : reader Z := bs ← take_bytes 1; mret (from_be_bytes bs).
Definition try_get_u32 : reader Z := bs ← take_bytes 4; mret (from_be_bytes bs).
Definition try_get_u64 : reader Z := bs ← take_bytes 8; mret (from_be_bytes bs).
(** A little-endian [u64] read through an 8-byte array. *)
Definition get_u64_le : reader Z := bs ← take_bytes 8; mret (from_le_bytes bs).

Definition put_u8 (x : Z) : bytes := [u8_to_byte x].

#[global] Arguments ensure : simpl never.
#[global] Arguments take_bytes : simpl never.
#[global] Arguments try_get_u8 : simpl never.
#[global] Arguments try_get_u32 : simpl never.
#[global] Arguments try_get_u64 : simpl never.
#[global] Arguments get_u64_le : simpl never.

(** [for _ in 0..n { v.push(read(buf)?) }]. *)
Fixpoint read_n {A} (r : reader A) (n : nat) : reader (list A) :=
  match n with
  | 0 => mret []
  | S n => a ← r; l ← read_n r n; mret (a :: l)
  end.

(** [len as u32]: truncation of a [usize]. *)
Definition as_u32 (n : nat) : Z := (Z.of_nat n mod 2 ^ 32)%Z.

Definition put_len (n : nat) : bytes := u32_to_be_bytes (as_u32 n).
Definition get_len : reader nat := n ← try_get_u32; mret (Z.to_nat n).

#[global] Arguments get_len : simpl never.

Class Codec (A : Type) := {
  codec_wf : A → Prop;
  write : A → bytes;
  read_cfg : reader A
}.

Class CodecOk (A : Type) `{Codec A} : Prop :=
  read_write (a : A) rest : codec_wf a → read_cfg (write a ++ rest) = Ok (a, rest).

(** [DecodeExt::decode]: the whole buffer must be consumed. *)
Definition decode_all {A} (r : reader A) (buf : bytes) : result Error A :=
  match r buf with
  | Ok (a, []) => Ok a
  | Ok (a, rest) => Err (ExtraData (length rest))
  | Err e => Err e
  end.

(** ** Reading back what was written *)

#[local] Transparent u64_to_le_bytes u64_to_be_bytes from_le_bytes from_be_bytes.

Lemma reader_bind_Ok {A B} (f : A → reader B) (r : reader A) buf b buf'' :
  (r ≫= f) buf = Ok (b, buf'') ↔ ∃ a buf', r buf = Ok (a, buf') ∧ f a buf' = Ok (b, buf'').
Proof.
  unfold mbind, reader_bind. destruct (r buf) as [[a buf']|e]; naive_solver.
Qed.

Lemma reader_bind_step {A B} (f : A → reader B) (r : reader A) buf a buf' :
  r buf = Ok (a, buf') → (r ≫= f) buf = f a buf'.
Proof. unfold mbind, reader_bind. by intros ->. Qed.

Lemma ensure_true (c : bool) e buf : c = true → ensure c e buf = Ok ((), buf).
Proof. by intros ->. Qed.

Lemma ensure_Ok (c : bool) e buf u buf' : ensure c e buf = Ok (u, buf') ↔ c = true ∧ buf' = buf.
Proof. unfold ensure. destruct c, u; cbv; naive_solver. Qed.

Lemma take_bytes_app n bs rest : length bs = n → take_bytes n (bs ++ rest) = Ok (bs, rest).
Proof.
  intros <-. unfold take_bytes. rewrite length_app, decide_False by lia.
  by rewrite take_app_length, drop_app_length.
Qed.

Lemma take_bytes_Ok n buf bs buf' :
  take_bytes n buf = Ok (bs, buf') ↔ buf = bs ++ buf' ∧ length bs = n.
Proof.
  unfold take_bytes. split.
  - case_decide; [done|]. intros [= <- <-]. rewrite take_drop, length_take. split; [done|lia].
  - intros [-> <-]. rewrite length_app, decide_False by lia.
    by rewrite take_app_length, drop_app_length.
Qed.

Lemma try_get_u8_app x rest : (0 ≤ x < 256)%Z → try_get_u8 (put_u8 x ++ rest) = Ok (x, rest).
Proof.
  intros Hx. unfold try_get_u8. erewrite reader_bind_step; [|by apply take_bytes_app].
  unfold mret, reader_ret, put_u8, from_be_bytes. simpl rev.
  rewrite le_combine_1. by rewrite (byte_to_u8_of_Z x Hx : byte.unsigned _ = x).
Qed.

Lemma try_get_u64_app x rest : is_u64 x → try_get_u64 (u64_to_be_bytes x ++ rest) = Ok (x, rest).
Proof.
  intros Hx. unfold try_get_u64.
  erewrite reader_bind_step; [|apply take_bytes_app, length_u64_to_be_bytes].
  by rewrite from_to_be_bytes.
Qed.

Lemma try_get_u32_app x rest :
  (0 ≤ x < 2 ^ 32)%Z → try_get_u32 (u32_to_be_bytes x ++ rest) = Ok (x, rest).
Proof.
  intros Hx. unfold try_get_u32.
  erewrite reader_bind_step; [|apply take_bytes_app, length_u32_to_be_bytes].
  by rewrite from_to_be_bytes_u32.
Qed.

Lemma get_u64_le_app x rest : is_u64 x → get_u64_le (u64_to_le_bytes x ++ rest) = Ok (x, rest).
Proof.
  intros Hx. unfold get_u64_le.
  erewrite reader_bind_step; [|apply take_bytes_app, length_u64_to_le_bytes].
  by rewrite from_to_le_bytes.
Qed.

Definition len_ok (n : nat) : Prop := (Z.of_nat n < 2 ^ 32)%Z.

Lemma get_len_app n rest : len_ok n → get_len (put_len n ++ rest) = Ok (n, rest).
Proof.
  unfold len_ok. intros Hn. unfold get_len, put_len, as_u32. rewrite Z.mod_small by lia.
  erewrite reader_bind_step; [|apply try_get_u32_app; lia].
  by rewrite Nat2Z.id.
Qed.

Lemma try_get_u64_Ok buf x buf' :
  try_get_u64 buf = Ok (x, buf') → is_u64 x ∧ buf = u64_to_be_bytes x ++ buf'.
Proof.
  unfold try_get_u64. intros (bs & buf1 & [-> Hl]%take_bytes_Ok & [= <- <-])%reader_bind_Ok.
  split; [by apply from_be_bytes_is_u64|]. f_equal.
  unfold u64_to_be_bytes, from_be_bytes.
  rewrite split_le_combine' by by rewrite length_rev. by rewrite rev_involutive.
Qed.

Lemma get_u64_le_Ok buf x buf' :
  get_u64_le buf = Ok (x, buf') → is_u64 x ∧ buf = u64_to_le_bytes x ++ buf'.
Proof.
  unfold get_u64_le. intros (bs & buf1 & [-> Hl]%take_bytes_Ok & [= <- <-])%reader_bind_Ok.
  split; [by apply from_le_bytes_is_u64|]. f_equal.
  unfold u64_to_le_bytes, from_le_bytes. by rewrite split_le_combine'.
Qed.

Lemma read_n_app {A} (w : A → bytes) (r : reader A) (P : A → Prop) l rest :
  (∀ a rest, P a → r (w a ++ rest) = Ok (a, rest)) →
  Forall P l → read_n r (length l) (concat (w <$> l) ++ rest) = Ok (l, rest).
Proof.
  intros Hrw. induction 1 as [|a l Ha Hl IH]; [done|]. simpl. rewrite <-(assoc_L (++)).
  erewrite reader_bind_step; [|by apply Hrw]. by erewrite reader_bind_step.
Qed.

#[local] Opaque u64_to_le_bytes u64_to_be_bytes from_le_bytes from_be_bytes.

(** [codec] runs the readers at the head of the goal against the bytes the
    matching writers produced; side conditions are left to [u64] and the caller. *)
Create HintDb codec discriminated.
#[export] Hint Constants Opaque : codec.
#[export] Hint Resolve take_bytes_app try_get_u8_app try_get_u64_app try_get_u32_app
  get_u64_le_app get_len_app ensure_true length_u64_to_le_bytes length_u64_to_be_bytes : codec.

Ltac codec_step :=
  rewrite <-?(assoc_L (++));
  erewrite reader_bind_step; [|solve [eauto 3 with codec nocore]].
Ltac codec := repeat codec_step.

(** ** Sequences of a length-prefixed list *)
Definition write_list {A} (w : A → bytes) (l : list A) : bytes :=
  put_len (length l) ++ concat (w <$> l).
Definition read_list {A} (r : reader A) : reader (list A) :=
  n ← get_len; read_n r n.

Lemma read_list_app {A} (w : A → bytes) (r : reader A) (P : A → Prop) l rest :
  (∀ a rest, P a → r (w a ++ rest) = Ok (a, rest)) →
  len_ok (length l) → Forall P l → read_list r (write_list w l ++ rest) = Ok (l, rest).
Proof.
  intros Hrw Hl HP. unfold read_list, write_list. codec. by eapply read_n_app.
Qed.

Lemma decode_all_app {A} (r : reader A) buf a :
  r (buf ++ []) = Ok (a, []) → decode_all r buf = Ok a.
Proof. unfold decode_all. rewrite app_nil_r. by intros ->. Qed.

(** ** Slices

    Decoders that index a slice and decoders that consume a buffer read the same
    bytes. *)

(** [bytes[a..b]] *)
Definition slice (a b : nat) (bs : bytes) : bytes := take (b - a) (drop a bs).

Lemma length_slice a b bs : b ≤ length bs → a ≤ b → length (slice a b bs) = b - a.
Proof. intros. unfold slice. rewrite length_take, length_drop. lia. Qed.

Lemma slice_app_l a b bs rest : b ≤ length bs → a ≤ b → slice a b (bs ++ rest) = slice a b bs.
Proof.
  intros. unfold slice. rewrite drop_app_le by lia. rewrite take_app_le; [done|].
  rewrite length_drop. lia.
Qed.

Lemma slice_app_r n a b bs rest :
  length bs = n → n ≤ a → slice a b (bs ++ rest) = slice (a - n) (b - n) rest.
Proof.
  intros <- ?. unfold slice. rewrite drop_app_ge by lia. f_equal. lia.
Qed.

Lemma slice_all b bs : length bs = b → slice 0 b bs = bs.
Proof. intros <-. unfold slice. rewrite drop_0, Nat.sub_0_r. by apply take_ge. Qed.

(** Cuts a slice out of a concatenation of fields of known length. *)
Ltac slice_length := repeat rewrite length_app; autorewrite with byte_length; lia.
Ltac slice_solve :=
  repeat match goal with
  | |- context [slice ?a ?b (?x ++ ?y)] =>
      first
        [ rewrite (slice_app_l a b x y) by slice_length
        | let n := fresh in
          evar (n : nat);
          let Hn := fresh in
          assert (length x = n) as Hn by
            (subst n; first [eassumption | autorewrite with byte_length; reflexivity]);
          subst n;
          rewrite (slice_app_r _ a b x y Hn) by lia; clear Hn; simpl Nat.sub ]
  | |- context [slice 0 ?b ?x] => rewrite (slice_all b x) by (assumption || slice_length)
  end.

Lemma take_bytes_long n buf : n ≤ length buf → take_bytes n buf = Ok (take n buf, drop n buf).
Proof. intros. unfold take_bytes. by rewrite decide_False by lia. Qed.

Lemma take_bytes_drop n k buf :
  k + n ≤ length buf → take_bytes n (drop k buf) = Ok (slice k (k + n) buf, drop (k + n) buf).
Proof.
  intros. rewrite take_bytes_long by (rewrite length_drop; lia). rewrite drop_drop.
  unfold slice. do 3 f_equal. lia.
Qed.

Lemma get_u64_le_drop k buf :
  k + 8 ≤ length buf →
  get_u64_le (drop k buf) = Ok (from_le_bytes (slice k (k + 8) buf), drop (k + 8) buf).
Proof. intros. unfold get_u64_le. by erewrite reader_bind_step by by apply take_bytes_drop. Qed.

Lemma try_get_u8_drop k buf :
  k + 1 ≤ length buf →
  try_get_u8 (drop k buf) = Ok (from_le_bytes (slice k (k + 1) buf), drop (k + 1) buf).
Proof.
  intros. unfold try_get_u8. erewrite reader_bind_step by by apply take_bytes_drop.
  unfold slice. replace (k + 1 - k) with 1 by lia.
  destruct (drop k buf) as [|b l] eqn:E; [|done].
  apply (f_equal length) in E. rewrite length_drop in E. simpl in E. lia.
Qed.

Lemma length_put_len n : length (put_len n) = 4.
Proof. apply length_u32_to_be_bytes. Qed.
Lemma length_put_u8 x : length (put_u8 x) = 1.
Proof. done. Qed.
#[export] Hint Rewrite length_put_len length_put_u8 : byte_length.

Lemma length_concat_const {A} (w : A → bytes) k l :
  (∀ a, a ∈ l → length (w a) = k) → length (concat (w <$> l)) = length l * k.
Proof.
  induction l as [|a l IH]; [done|]. intros Hw. rewrite fmap_cons. simpl.
  rewrite length_app, Hw, IH; [done|set_solver..].
Qed.

#[global] Opaque put_u8 put_len.
