(* ===== verification/BTree.v ===== *)
(** * BTree: [std::collections::BTreeMap]

    The consensus state keeps its validator accounts and its scheduled
    activations in [BTreeMap]s and relies on their iteration order (the i-th
    account in key order owns the i-th block of leaves of the state tree).  A map
    is the list of its entries in strictly increasing key order; [sorted] is that
    invariant, which every operation preserves, and two sorted maps with the same
    lookups are equal. *)
From S2P Require Import Prelude.

(** Rust's [Ord] on a key type. *)
Class Ord (K : Type) := cmp : K → K → comparison.
Class OrdOk (K : Type) `{Ord K} : Prop := {
  cmp_eq (a b : K) : cmp a b = Eq ↔ a = b;
  cmp_antisym (a b : K) : cmp b a = CompOpp (cmp a b);
  cmp_lt_trans (a b c : K) : cmp a b = Lt → cmp b c = Lt → cmp a c = Lt
}.

#[global] Instance Z_ord : Ord Z := Z.compare.
#[global] Instance Z_ord_ok : OrdOk Z.
Proof.
  split; unfold cmp, Z_ord.
  - apply Z.compare_eq_iff.
  - intros. by rewrite Z.compare_antisym.
  - intros a b c. rewrite !Z.compare_lt_iff. lia.
Qed.

(** The lexicographic order of byte arrays. *)
Fixpoint bytes_compare (a b : bytes) : comparison :=
  match a, b with
  | [], [] => Eq
  | [], _ :: _ => Lt
  | _ :: _, [] => Gt
  | x :: a, y :: b =>
      match Z.compare (byte_to_u8 x) (byte_to_u8 y) with
      | Eq => bytes_compare a b
      | c => c
      end
  end.
#[global] Instance bytes_ord : Ord bytes := bytes_compare.
#[global] Instance bytes_ord_ok : OrdOk bytes.
Proof.
  split; unfold cmp, bytes_ord.
  - intros a. induction a as [|x a IH]; intros [|y b]; simpl; try done.
    destruct (Z.compare_spec (byte_to_u8 x) (byte_to_u8 y)) as [E|E|E].
    + apply byte.unsigned_inj in E as ->. rewrite IH. naive_solver.
    + split; [done|]. intros [= -> _]. lia.
    + split; [done|]. intros [= -> _]. lia.
  - intros a. induction a as [|x a IH]; intros [|y b]; simpl; try done.
    rewrite (Z.compare_antisym (byte_to_u8 x)).
    destruct (byte_to_u8 x ?= byte_to_u8 y)%Z; simpl; auto.
  - intros a. induction a as [|x a IH]; intros [|y b] [|z c]; simpl; try done.
    destruct (Z.compare_spec (byte_to_u8 x) (byte_to_u8 y)),
      (Z.compare_spec (byte_to_u8 y) (byte_to_u8 z)),
      (Z.compare_spec (byte_to_u8 x) (byte_to_u8 z)); try done; try lia; apply IH.
Qed.

(** Tuples compare lexicographically. *)
#[global] Instance prod_ord {A B} `{Ord A} `{Ord B} : Ord (A * B) := λ x y,
  match cmp x.1 y.1 with Eq => cmp x.2 y.2 | c => c end.
Lemma prod_cmp {A B} `{Ord A} `{Ord B} (a1 a2 : A) (b1 b2 : B) :
  cmp (a1, b1) (a2, b2) = match cmp a1 a2 with Eq => cmp b1 b2 | c => c end.
Proof. reflexivity. Qed.
#[global] Instance prod_ord_ok {A B} `{OrdOk A} `{OrdOk B} : OrdOk (A * B).
Proof.
  split.
  - intros [a1 b1] [a2 b2]. rewrite prod_cmp. destruct (cmp a1 a2) eqn:E.
    + apply cmp_eq in E as ->. rewrite cmp_eq. naive_solver.
    + split; [done|]. intros [= -> _]. by rewrite (proj2 (cmp_eq a2 a2) eq_refl) in E.
    + split; [done|]. intros [= -> _]. by rewrite (proj2 (cmp_eq a2 a2) eq_refl) in E.
  - intros [a1 b1] [a2 b2]. rewrite !prod_cmp, (cmp_antisym a1 a2).
    destruct (cmp a1 a2) eqn:E; simpl; [apply cmp_antisym|done..].
  - intros [a1 b1] [a2 b2] [a3 b3]. rewrite !prod_cmp.
    destruct (cmp a1 a2) eqn:E1; [|destruct (cmp a2 a3) eqn:E2|done]; try done.
    + apply cmp_eq in E1 as ->. destruct (cmp a2 a3) eqn:E2; try done. apply cmp_lt_trans.
    + apply cmp_eq in E2 as ->. by rewrite E1.
    + by rewrite (cmp_lt_trans _ _ _ E1 E2).
Qed.

Definition BTreeMap (K V : Type) : Type := list (K * V).

Section ops.
Context {K V : Type} `{Ord K}.
Implicit Type m : BTreeMap K V.

Fixpoint get m (k : K) : option V :=
  match m with
  | [] => None
  | (k', v) :: m => match cmp k k' with Eq => Some v | _ => get m k end
  end.

Fixpoint insert m (k : K) (v : V) : BTreeMap K V :=
  match m with
  | [] => [(k, v)]
  | (k', v') :: m' =>
      match cmp k k' with
      | Lt => (k, v) :: m
      | Eq => (k, v) :: m'
      | Gt => (k', v') :: insert m' k v
      end
  end.

Fixpoint remove m (k : K) : BTreeMap K V :=
  match m with
  | [] => []
  | (k', v') :: m => match cmp k k' with Eq => m | _ => (k', v') :: remove m k end
  end.

Definition contains_key m (k : K) : bool :=
  match get m k with Some _ => true | None => false end.
Definition keys m : list K := fst <$> m.
Definition values m : list V := snd <$> m.
(** [keys().position(|k'| k' == k)] *)
Definition slot_of m (k : K) : option nat :=
  position (λ k', match cmp k' k with Eq => true | _ => false end) (keys m).

Definition key_lt (e1 e2 : K * V) : Prop := cmp e1.1 e2.1 = Lt.
Definition sorted m : Prop := StronglySorted key_lt m.
End ops.

Create HintDb btree.

Section facts.
Context {K V : Type} `{OrdOk K}.
Implicit Type m : BTreeMap K V.

Lemma cmp_refl (k : K) : cmp k k = Eq.
Proof. by apply cmp_eq. Qed.

Lemma cmp_lt_irrefl (k : K) : cmp k k ≠ Lt.
Proof. by rewrite cmp_refl. Qed.

Lemma cmp_gt_lt (a b : K) : cmp a b = Gt ↔ cmp b a = Lt.
Proof. rewrite (cmp_antisym b a). destruct (cmp b a); done. Qed.

Lemma sorted_cons k v m : sorted ((k, v) :: m) ↔ sorted m ∧ Forall (λ e, cmp k e.1 = Lt) m.
Proof.
  unfold sorted. split; [inversion 1; subst; done|]. intros []. by constructor.
Qed.

Lemma sorted_app m1 m2 :
  sorted (m1 ++ m2) → sorted m1 ∧ sorted m2 ∧ ∀ e1 e2, e1 ∈ m1 → e2 ∈ m2 → key_lt e1 e2.
Proof.
  induction m1 as [|[k v] m1 IH]; simpl; [intros; split_and!; [constructor|done|set_solver]|].
  intros [Hs Hf]%sorted_cons. apply Forall_app in Hf as [Hf1 Hf2].
  destruct (IH Hs) as (H1 & H2 & H3). split_and!; [by apply sorted_cons|done|].
  intros e1 e2 [->|He1]%elem_of_cons He2; [|by apply H3].
  rewrite Forall_forall in Hf2. by apply Hf2.
Qed.

Lemma get_lt_None k m : Forall (λ e, cmp k e.1 = Lt) m → get m k = None.
Proof. induction 1 as [|[k' v] m Hk Hm IH]; simpl in *; [done|]. by rewrite Hk. Qed.

Lemma get_insert_eq m k v : get (insert m k v) k = Some v.
Proof.
  induction m as [|[k' v'] m IH]; simpl; [by rewrite cmp_refl|].
  destruct (cmp k k') eqn:E; simpl; rewrite ?cmp_refl, ?E; done.
Qed.

Lemma get_insert_ne m k k' v : k ≠ k' → get (insert m k v) k' = get m k'.
Proof.
  intros Hne. assert (cmp k' k ≠ Eq) by (rewrite cmp_eq; congruence).
  induction m as [|[k0 v0] m IH]; simpl.
  - by destruct (cmp k' k).
  - destruct (cmp k k0) eqn:E; simpl.
    + apply cmp_eq in E as ->. by destruct (cmp k' k0).
    + by destruct (cmp k' k).
    + by rewrite IH.
Qed.

Lemma get_remove_eq m k : sorted m → get (remove m k) k = None.
Proof.
  induction m as [|[k' v'] m IH]; simpl; [done|]. intros [Hs Hf]%sorted_cons.
  destruct (cmp k k') eqn:E; simpl; rewrite ?E; [|by auto..].
  apply cmp_eq in E as ->. by apply get_lt_None.
Qed.

Lemma get_remove_ne m k k' : k ≠ k' → get (remove m k) k' = get m k'.
Proof.
  intros Hne. assert (cmp k' k ≠ Eq) by (rewrite cmp_eq; congruence).
  induction m as [|[k0 v0] m IH]; simpl; [done|].
  destruct (cmp k k0) eqn:E; simpl; [|by rewrite IH..].
  apply cmp_eq in E as ->. by destruct (cmp k' k0).
Qed.

Lemma elem_of_get m k v : sorted m → (k, v) ∈ m ↔ get m k = Some v.
Proof.
  induction m as [|[k' v'] m IH]; simpl; [set_solver|]. intros [Hs Hf]%sorted_cons.
  rewrite elem_of_cons, IH by done. destruct (cmp k k') eqn:E.
  - apply cmp_eq in E as ->. rewrite (get_lt_None _ _ Hf). naive_solver.
  - split; [intros [[= -> ->]|]|]; [by rewrite cmp_refl in E|done|naive_solver].
  - split; [intros [[= -> ->]|]|]; [by rewrite cmp_refl in E|done|naive_solver].
Qed.

Lemma get_elem_of m k v : get m k = Some v → (k, v) ∈ m.
Proof.
  induction m as [|[k' v'] m IH]; simpl; [done|]. rewrite elem_of_cons.
  destruct (cmp k k') eqn:E; [|by auto..]. apply cmp_eq in E as ->. intros [= ->]. by left.
Qed.

Lemma elem_of_insert m k v e : e ∈ insert m k v → e = (k, v) ∨ e ∈ m.
Proof.
  induction m as [|[k' v'] m IH]; simpl; [set_solver|].
  destruct (cmp k k'); set_solver.
Qed.

Lemma elem_of_remove m k e : e ∈ remove m k → e ∈ m.
Proof.
  induction m as [|[k' v'] m IH]; simpl; [done|]. destruct (cmp k k'); set_solver.
Qed.

Lemma sorted_insert m k v : sorted m → sorted (insert m k v).
Proof.
  induction m as [|[k' v'] m IH]; simpl; [repeat constructor|].
  intros [Hs Hf]%sorted_cons. destruct (cmp k k') eqn:E.
  - apply cmp_eq in E as ->. by apply sorted_cons.
  - apply sorted_cons. split; [by apply sorted_cons|]. constructor; [done|].
    eapply Forall_impl; [exact Hf|]. intros e. simpl. by apply cmp_lt_trans.
  - apply sorted_cons. split; [by auto|]. apply Forall_forall. intros e.
    intros [->|He]%elem_of_insert; [by apply cmp_gt_lt|]. rewrite Forall_forall in Hf. auto.
Qed.

Lemma sorted_remove m k : sorted m → sorted (remove m k).
Proof.
  induction m as [|[k' v'] m IH]; simpl; [done|]. intros [Hs Hf]%sorted_cons.
  destruct (cmp k k'); [done| |].
  all: apply sorted_cons; split; [by auto|].
  all: apply Forall_forall; intros e He%elem_of_remove; rewrite Forall_forall in Hf; auto.
Qed.

Lemma sorted_keys_NoDup m : sorted m → NoDup (fst <$> m).
Proof.
  induction m as [|[k v] m IH]; [constructor|]. intros [Hs Hf]%sorted_cons. rewrite fmap_cons.
  apply NoDup_cons. split; [|by apply IH]. intros (e & Hk & He)%list_elem_of_fmap. simpl in Hk.
  rewrite Forall_forall in Hf. specialize (Hf e He). rewrite Hk in Hf. by apply cmp_lt_irrefl in Hf.
Qed.

(** Sorted maps are determined by their lookups. *)
Lemma sorted_ext m1 m2 : sorted m1 → sorted m2 → (∀ k, get m1 k = get m2 k) → m1 = m2.
Proof.
  revert m2. induction m1 as [|[k1 v1] m1 IH]; intros [|[k2 v2] m2] Hs1 Hs2 Hext.
  - done.
  - specialize (Hext k2). simpl in Hext. by rewrite cmp_refl in Hext.
  - specialize (Hext k1). simpl in Hext. by rewrite cmp_refl in Hext.
  - apply sorted_cons in Hs1 as [Hs1 Hf1]. apply sorted_cons in Hs2 as [Hs2 Hf2].
    assert (k1 = k2) as ->.
    { pose proof (Hext k1) as E1. pose proof (Hext k2) as E2. simpl in E1, E2.
      rewrite cmp_refl in E1, E2. destruct (cmp k1 k2) eqn:E; [by apply cmp_eq| |].
      - rewrite (get_lt_None k1 m2) in E1; [done|].
        eapply Forall_impl; [exact Hf2|]. intros e. by apply cmp_lt_trans.
      - apply cmp_gt_lt in E. rewrite E in E2. rewrite (get_lt_None k2 m1) in E2; [done|].
        eapply Forall_impl; [exact Hf1|]. intros e. by apply cmp_lt_trans. }
    pose proof (Hext k2) as E. simpl in E. rewrite cmp_refl in E. injection E as ->. f_equal.
    apply IH; [done..|]. intros k. specialize (Hext k). simpl in Hext.
    destruct (cmp k k2) eqn:E; [|done..]. apply cmp_eq in E as ->.
    by rewrite !get_lt_None.
Qed.

Lemma insert_insert m k v v' : insert (insert m k v) k v' = insert m k v'.
Proof.
  induction m as [|[k0 v0] m IH]; simpl; [by rewrite cmp_refl|].
  destruct (cmp k k0) eqn:E; simpl; rewrite ?cmp_refl, ?E, ?IH; done.
Qed.

(** Positions: an update replaces the entry at its slot, an insertion opens a
    slot, a removal closes one. *)
Lemma slot_of_split m1 k v m2 :
  sorted (m1 ++ (k, v) :: m2) → slot_of (m1 ++ (k, v) :: m2) k = Some (length m1).
Proof.
  intros (_ & _ & Hlt)%sorted_app. unfold slot_of, keys. rewrite fmap_app. simpl.
  rewrite position_app; [by rewrite length_fmap| |by rewrite cmp_refl].
  apply Forall_fmap, Forall_forall. intros e He. simpl.
  assert (cmp e.1 k = Lt) as -> by (by apply (Hlt e (k, v)); [|left]). done.
Qed.

Lemma get_Some_split m k v :
  sorted m → get m k = Some v →
  ∃ m1 m2, m = m1 ++ (k, v) :: m2 ∧
    (∀ v', insert m k v' = m1 ++ (k, v') :: m2) ∧ remove m k = m1 ++ m2.
Proof.
  induction m as [|[k' v'] m IH]; simpl; [done|]. intros [Hs Hf]%sorted_cons.
  destruct (cmp k k') eqn:E.
  - apply cmp_eq in E as ->. intros [= ->]. by exists [], m.
  - intros Hg. exfalso. apply get_elem_of in Hg. rewrite Forall_forall in Hf.
    specialize (Hf _ Hg). simpl in Hf. eapply cmp_lt_irrefl. by eapply cmp_lt_trans.
  - intros Hg. destruct (IH Hs Hg) as (m1 & m2 & -> & Hi & Hr).
    exists ((k', v') :: m1), m2. simpl. rewrite Hr. split_and!; [done| |done].
    intros w. by rewrite Hi.
Qed.

Lemma get_None_split m k :
  sorted m → get m k = None →
  ∃ m1 m2, m = m1 ++ m2 ∧ ∀ v, insert m k v = m1 ++ (k, v) :: m2.
Proof.
  induction m as [|[k' v'] m IH]; simpl; [intros; by exists [], []|].
  intros [Hs Hf]%sorted_cons. destruct (cmp k k') eqn:E; [done| |].
  - intros _. by exists [], ((k', v') :: m).
  - intros Hg. destruct (IH Hs Hg) as (m1 & m2 & -> & Hi).
    exists ((k', v') :: m1), m2. split; [done|]. intros w. simpl. by rewrite Hi.
Qed.

Lemma slot_of_insert m k v : sorted m → ∃ i, slot_of (insert m k v) k = Some i.
Proof.
  intros Hs. pose proof (sorted_insert m k v Hs) as Hs'.
  destruct (get m k) as [v0|] eqn:E.
  - destruct (get_Some_split m k v0 Hs E) as (m1 & m2 & -> & Hi & _).
    rewrite Hi in *. eexists. by apply slot_of_split.
  - destruct (get_None_split m k Hs E) as (m1 & m2 & -> & Hi).
    rewrite Hi in *. eexists. by apply slot_of_split.
Qed.

Lemma slot_of_None m k : sorted m → get m k = None → slot_of m k = None.
Proof.
  intros Hs Hg. unfold slot_of, keys. apply position_None, Forall_fmap, Forall_forall.
  intros [k' v] He. simpl. destruct (cmp k' k) eqn:E; [|done..]. apply cmp_eq in E as ->.
  apply elem_of_get in He; [|done]. congruence.
Qed.

Lemma insert_last m k v : Forall (λ e, cmp e.1 k = Lt) m → insert m k v = m ++ [(k, v)].
Proof.
  induction 1 as [|[k' v'] m Hk Hm IH]; [done|]. simpl in *. rewrite (cmp_antisym k' k), Hk. simpl.
  by rewrite IH.
Qed.

Lemma remove_None m k : get m k = None → remove m k = m.
Proof.
  induction m as [|[k' v] m IH]; simpl; [done|]. destruct (cmp k k'); [done|..];
    intros Hg; by rewrite IH.
Qed.

Lemma contains_key_true m k : contains_key m k = true ↔ is_Some (get m k).
Proof. unfold contains_key. destruct (get m k); naive_solver. Qed.

Lemma length_insert m k v : length (insert m k v) ≤ S (length m).
Proof. induction m as [|[k' v'] m IH]; simpl; [lia|]. destruct (cmp k k'); simpl; lia. Qed.

(** ** Entries that satisfy a test *)
Lemma sorted_retain (p : K * V → bool) m : sorted m → sorted (retain p m).
Proof.
  unfold sorted, retain. induction 1 as [|e m Hm IH Hf]; simpl; [constructor|].
  destruct (p e); [|done]. constructor; [done|]. rewrite Forall_forall in *. intros x Hx.
  apply Hf. apply elem_of_retain in Hx. by destruct Hx.
Qed.
Lemma get_retain (p : K * V → bool) m k :
  sorted m → get (retain p m) k = (v ← get m k; if p (k, v) then Some v else None).
Proof.
  intros Hs. destruct (get (retain p m) k) as [v|] eqn:E.
  - apply (elem_of_get _ _ _ (sorted_retain p m Hs)), elem_of_retain in E as [E Hp].
    apply (elem_of_get _ _ _ Hs) in E. rewrite E. simpl. by rewrite Hp.
  - destruct (get m k) as [v|] eqn:E1; [|done]. simpl. destruct (p (k, v)) eqn:Hp; [|done].
    apply (elem_of_get _ _ _ Hs) in E1.
    rewrite (proj1 (elem_of_get (retain p m) k v (sorted_retain p m Hs))) in E; [done|]. by apply elem_of_retain.
Qed.

(** ** Sums over the entries *)
Lemma sum_insert_Some (f : K * V → Z) m k v v' :
  sorted m → get m k = Some v → sum f (insert m k v') = (sum f m - f (k, v) + f (k, v'))%Z.
Proof.
  intros Hs Hg. destruct (get_Some_split m k v Hs Hg) as (m1 & m2 & -> & Hi & _).
  rewrite Hi, !sum_app. simpl. lia.
Qed.

Lemma sum_insert_None (f : K * V → Z) m k v' :
  sorted m → get m k = None → sum f (insert m k v') = (sum f m + f (k, v'))%Z.
Proof.
  intros Hs Hg. destruct (get_None_split m k Hs Hg) as (m1 & m2 & -> & Hi).
  rewrite Hi, !sum_app. simpl. lia.
Qed.

Lemma sum_remove_Some (f : K * V → Z) m k v :
  sorted m → get m k = Some v → sum f (remove m k) = (sum f m - f (k, v))%Z.
Proof.
  intros Hs Hg. destruct (get_Some_split m k v Hs Hg) as (m1 & m2 & -> & _ & Hr).
  rewrite Hr, !sum_app. simpl. lia.
Qed.
End facts.

#[export] Hint Resolve sorted_insert sorted_remove sorted_retain : btree.
