(* ===== verification/Crypto.v ===== *)
(** * Crypto: the cryptographic crates the program calls

    [commonware_cryptography] (ed25519 and BLS12-381 keys and signatures), [sha2]
    and [ethereum_hashing] are not part of the repository.  The development is
    parametric in them through the class [Crypto]; a public key is the byte array
    it decodes from and encodes to, and a key's validity is whether that decoding
    succeeds.  The laws a proof relies on are the fields of [CryptoOk]. *)
From S2P Require Import Prelude.

Class Crypto := {
  (** [ed25519::PublicKey::decode] accepts these 32 bytes. *)
  ed25519_valid : bytes → bool;
  (** [bls12381::PublicKey::decode] accepts these 48 bytes. *)
  bls_valid : bytes → bool;
  (** [ed25519::Signature::decode] / [bls12381::Signature::decode]. *)
  ed25519_sig_valid : bytes → bool;
  bls_sig_valid : bytes → bool;
  (** [PublicKey::verify(namespace, message, signature)]. *)
  ed25519_verify : bytes → bytes → bytes → bytes → bool;
  bls_verify : bytes → bytes → bytes → bytes → bool;
  (** [sha2::Sha256] of a message. *)
  sha256 : bytes → bytes;
  (** [ethereum_hashing::hash32_concat] of two 32-byte nodes. *)
  hash32_concat : bytes → bytes → bytes;
  (** [ethereum_hashing::ZERO_HASHES]. *)
  ZERO_HASHES : nat → bytes
}.

Class CryptoOk `{Crypto} : Prop := {
  length_sha256 m : length (sha256 m) = 32;
  length_hash32_concat a b : length (hash32_concat a b) = 32;
  ZERO_HASHES_0 : ZERO_HASHES 0 = zero_bytes 32;
  ZERO_HASHES_S d : ZERO_HASHES (S d) = hash32_concat (ZERO_HASHES d) (ZERO_HASHES d)
}.

(** A toy instance, so that statements about the parametric program can be
    evaluated: every key and signature of the right length is valid, and a hash
    mixes its arguments. *)
Module ToyCrypto.
Definition mix (bs : bytes) : Z :=
  foldl (λ acc b, Z.land (acc * 31 + Z.of_N (Byte.to_N b) + 7) 0xffffffffffffffff)%Z 1%Z bs.
Definition digest (bs : bytes) : bytes :=
  let m := u64_to_le_bytes (mix bs) in m ++ rev m ++ m ++ rev m.
Fixpoint zeros (d : nat) : bytes :=
  match d with 0 => zero_bytes 32 | S d => digest (zeros d ++ zeros d) end.
Definition toy : Crypto := {|
  ed25519_valid k := length k =? 32;
  bls_valid k := length k =? 48;
  ed25519_sig_valid s := length s =? 64;
  bls_sig_valid s := length s =? 96;
  ed25519_verify ns k m s := true;
  bls_verify ns k m s := true;
  sha256 := digest;
  hash32_concat a b := digest (a ++ b);
  ZERO_HASHES := zeros
|}.

Lemma length_digest bs : length (digest bs) = 32.
Proof. unfold digest. cbv zeta. rewrite !length_app, !length_rev. by autorewrite with byte_length. Qed.

Lemma toy_ok : @CryptoOk toy.
Proof. split; [exact length_digest|intros; apply length_digest|done|done]. Qed.
End ToyCrypto.
