(* ===== verification/Epocher.v ===== *)
(** * Epocher: the dynamic epoch schedule (types/src/dynamic_epocher.rs)

    A [DynamicEpocher] cuts block heights into epochs.  It keeps a list of
    segments, each giving the length of the epochs from its [start_epoch] on; a
    new length is registered for [current_epoch + 2], and only epochs up to
    [current_epoch + 1] can be queried.

    [len_at] and [start_at] give the abstract schedule of a segment list (the
    length of every epoch and, as their running sum, its first height); the
    queries are shown to compute it and an update to leave every queryable epoch
    as it was.  The handle is an [Arc<RwLock<..>>]: [Handles] models the shared
    cells, where a clone aliases and a [snapshot] does not.  A panic ([unreachable!],
    division by zero) is [None]. *)
From S2P Require Import Prelude Codec.

Record Segment := mkSegment {
  start_epoch : Z;
  start_height : Z;
  seg_length : Z
}.
#[global] Instance Segment_eta : Eta Segment :=
  λ s, mkSegment (start_epoch s) (start_height s) (seg_length s).

#[global] Instance Segment_eq_dec : EqDecision Segment.
Proof. solve_decision. Defined.

Record DynamicEpocher := mkDynamicEpocher {
  segments : list Segment;
  current_epoch : Z
}.
#[global] Instance DynamicEpocher_eta : Eta DynamicEpocher :=
  λ e, mkDynamicEpocher (segments e) (current_epoch e).

#[global] Instance DynamicEpocher_eq_dec : EqDecision DynamicEpocher.
Proof. solve_decision. Defined.

Record EpochInfo := mkEpochInfo {
  info_epoch : Z;
  info_height : Z;
  info_first : Z;
  info_last : Z
}.

Definition new (genesis_length : Z) : DynamicEpocher :=
  mkDynamicEpocher [mkSegment 0 0 genesis_length] 0.

(** The loop of [bounds] over the reversed segments. *)
Fixpoint bounds_rev (segs : list Segment) (epoch : Z) : option (Z * Z) :=
  match segs with
  | [] => None
  | seg :: segs =>
      if (start_epoch seg <=? epoch)%Z then
        let relative_epoch := (epoch - start_epoch seg)%Z in
        relative_start ← checked_mul relative_epoch (seg_length seg);
        first ← checked_add (start_height seg) relative_start;
        last ← checked_add first (wrapping_sub (seg_length seg) 1);
        Some (first, last)
      else bounds_rev segs epoch
  end.
Definition bounds (segs : list Segment) (epoch : Z) : option (Z * Z) :=
  bounds_rev (rev segs) epoch.

Fixpoint current_length_rev (segs : list Segment) (epoch : Z) : option Z :=
  match segs with
  | [] => None
  | seg :: segs =>
      if (start_epoch seg <=? epoch)%Z then Some (seg_length seg)
      else current_length_rev segs epoch
  end.
(** [None] is the [unreachable!]. *)
Definition current_length (e : DynamicEpocher) : option Z :=
  current_length_rev (rev (segments e)) (current_epoch e).

Definition advance_epoch (e : DynamicEpocher) (epoch : Z) : DynamicEpocher :=
  e <| current_epoch := epoch |>.

(** [epoch > current_epoch + 1]: the epoch may not be queried yet. *)
Definition too_far (e : DynamicEpocher) (epoch : Z) : bool :=
  (wrapping_add (current_epoch e) 1 <? epoch)%Z.

Definition epoch_bounds (e : DynamicEpocher) (epoch : Z) : option (Z * Z) :=
  if too_far e epoch then None else bounds (segments e) epoch.

Definition first (e : DynamicEpocher) (epoch : Z) : option Z :=
  if too_far e epoch then None else fst <$> bounds (segments e) epoch.

Definition last (e : DynamicEpocher) (epoch : Z) : option Z :=
  if too_far e epoch then None else snd <$> bounds (segments e) epoch.

(** The loop of [containing]; the outer [None] is a division by zero. *)
Fixpoint containing_rev (e : DynamicEpocher) (segs : list Segment) (height : Z)
  : option (option EpochInfo) :=
  match segs with
  | [] => Some None
  | seg :: segs =>
      if (start_height seg <=? height)%Z then
        let relative_height := (height - start_height seg)%Z in
        if (seg_length seg =? 0)%Z then None else
        let relative_epoch := (relative_height / seg_length seg)%Z in
        match checked_add (start_epoch seg) relative_epoch with
        | None => Some None
        | Some epoch =>
            if too_far e epoch then Some None else
            match bounds (segments e) epoch with
            | None => Some None
            | Some (first, last) => Some (Some (mkEpochInfo epoch height first last))
            end
        end
      else containing_rev e segs height
  end.
Definition containing (e : DynamicEpocher) (height : Z) : option (option EpochInfo) :=
  containing_rev e (rev (segments e)) height.

Inductive UpdateError :=
| EpochOverflow
| NoSegments
| TargetBeforeLatest (target latest : Z)
| BoundsFailed (target : Z).

(** [segments.last_mut().unwrap().length = l]. *)
Fixpoint set_last_length (segs : list Segment) (l : Z) : list Segment :=
  match segs with
  | [] => []
  | [seg] => [seg <| seg_length := l |>]
  | seg :: segs => seg :: set_last_length segs l
  end.

Definition update_length (e : DynamicEpocher) (new_length : Z)
  : result UpdateError DynamicEpocher :=
  target_epoch ← option_to_result EpochOverflow (checked_add (current_epoch e) 2);
  last_segment ← option_to_result NoSegments (list.last (segments e));
  if (target_epoch <? start_epoch last_segment)%Z
  then Err (TargetBeforeLatest target_epoch (start_epoch last_segment)) else
  '(start_height, _) ← option_to_result (BoundsFailed target_epoch)
                         (bounds (segments e) target_epoch);
  let segs :=
    if (start_epoch last_segment =? target_epoch)%Z
    then set_last_length (segments e) new_length
    else segments e ++ [mkSegment target_epoch start_height new_length] in
  Ok (e <| segments := segs |>).

(** ** The shared cells behind the handles *)
Module Handles.
Definition heap : Type := list DynamicEpocher.
(** [snapshot]: a fresh cell with the same schedule. *)
Definition snapshot (h : heap) (self : nat) : option (heap * nat) :=
  inner ← h !! self; Some (h ++ [inner], length h).
(** [replace_with]: nothing to do when both handles name the same cell. *)
Definition replace_with (h : heap) (self other : nat) : option heap :=
  if decide (self = other) then Some h else
  inner ← h !! other; _ ← h !! self; Some (<[self := inner]> h).
Definition advance_epoch (h : heap) (self : nat) (epoch : Z) : option heap :=
  inner ← h !! self; Some (<[self := advance_epoch inner epoch]> h).
Definition update_length (h : heap) (self : nat) (l : Z) : option (result UpdateError heap) :=
  inner ← h !! self;
  Some ((λ inner', <[self := inner']> h) <$> update_length inner l).
End Handles.

(** ** Codec *)
Definition write_segment (s : Segment) : bytes :=
  u64_to_be_bytes (start_epoch s) ++ u64_to_be_bytes (start_height s)
  ++ u64_to_be_bytes (seg_length s).
Definition read_segment : reader Segment :=
  start_epoch ← try_get_u64;
  start_height ← try_get_u64;
  length ← try_get_u64;
  ensure (negb (length =? 0)%Z) (Invalid "DynamicEpocher" "zero-length segment");;
  mret (mkSegment start_epoch start_height length).

Definition write_epocher (e : DynamicEpocher) : bytes :=
  u64_to_be_bytes (current_epoch e) ++ write_list write_segment (segments e).
Definition read_epocher : reader DynamicEpocher :=
  current_epoch ← try_get_u64;
  segments_len ← get_len;
  ensure (negb (segments_len =? 0)) (Invalid "DynamicEpocher" "no segments");;
  segments ← read_n read_segment segments_len;
  mret (mkDynamicEpocher segments current_epoch).
Definition encode_size (e : DynamicEpocher) : nat := 8 + 4 + length (segments e) * (8 + 8 + 8).

Definition segment_wf (s : Segment) : Prop :=
  is_u64 (start_epoch s) ∧ is_u64 (start_height s) ∧ is_u64 (seg_length s) ∧ seg_length s ≠ 0%Z.
Definition epocher_wf (e : DynamicEpocher) : Prop :=
  is_u64 (current_epoch e) ∧ segments e ≠ [] ∧ len_ok (length (segments e)) ∧
  Forall segment_wf (segments e).

#[global] Instance DynamicEpocher_codec : Codec DynamicEpocher :=
  {| codec_wf := epocher_wf; write := write_epocher; read_cfg := read_epocher |}.

(** ** Which block of its epoch a height is (types/src/utils.rs) *)
Definition is_some_and {A} (p : A → bool) (o : option A) : bool :=
  match o with Some a => p a | None => false end.

Definition is_first_block_of_epoch (e : DynamicEpocher) (height : Z) : option bool :=
  is_some_and (λ info, info_first info =? info_height info)%Z <$> containing e height.
Definition is_last_block_of_epoch (e : DynamicEpocher) (height : Z) : option bool :=
  is_some_and (λ info, info_last info =? info_height info)%Z <$> containing e height.
Definition is_penultimate_block_of_epoch (e : DynamicEpocher) (height : Z) : option bool :=
  is_some_and (λ info, info_last info =? wrapping_add height 1)%Z <$> containing e height.

(** ** The abstract schedule

    The length of epoch [e] under the segments [r], given latest first. *)
Fixpoint len_rev (r : list Segment) (e : Z) : Z :=
  match r with
  | [] => 0
  | seg :: r => if (start_epoch seg <=? e)%Z then seg_length seg else len_rev r e
  end.
Definition len_at (segs : list Segment) (e : Z) : Z := len_rev (rev segs) e.
(** The first height of epoch [e]: the total length of the epochs before it. *)
Definition start_at (segs : list Segment) (e : nat) : Z :=
  zsum ((λ i, len_at segs (Z.of_nat i)) <$> seq 0 e).

(** The invariant of the segments, latest first: each has a positive length,
    starts strictly after the one before it, and at the height that one reaches. *)
Fixpoint sched_rev (r : list Segment) : Prop :=
  match r with
  | [] => False
  | seg :: r =>
      (1 ≤ seg_length seg ≤ u64_max)%Z ∧ is_u64 (start_epoch seg) ∧ is_u64 (start_height seg) ∧
      match r with
      | [] => start_epoch seg = 0%Z ∧ start_height seg = 0%Z
      | prev :: _ =>
          (start_epoch prev < start_epoch seg)%Z ∧
          start_height seg = (start_height prev
            + (start_epoch seg - start_epoch prev) * seg_length prev)%Z ∧
          sched_rev r
      end
  end.
(** No registered change lies beyond [current_epoch + 2], and epoch numbers have
    room for the [+ 1] of the queries. *)
Definition sched_ok (e : DynamicEpocher) : Prop :=
  sched_rev (rev (segments e)) ∧ (0 ≤ current_epoch e < u64_max)%Z ∧
  Forall (λ seg, start_epoch seg ≤ current_epoch e + 2)%Z (segments e).

(** The first height of epoch [e], computed from the segment it falls in. *)
Fixpoint start_rev (r : list Segment) (e : Z) : Z :=
  match r with
  | [] => 0
  | seg :: r =>
      if (start_epoch seg <=? e)%Z
      then start_height seg + (e - start_epoch seg) * seg_length seg else start_rev r e
  end.

Lemma sched_rev_head seg r :
  sched_rev (seg :: r) →
  (1 ≤ seg_length seg ≤ u64_max)%Z ∧ is_u64 (start_epoch seg) ∧ is_u64 (start_height seg).
Proof. simpl. naive_solver. Qed.

Lemma len_rev_pos r e : sched_rev r → (0 ≤ e)%Z → (1 ≤ len_rev r e ≤ u64_max)%Z.
Proof.
  intros Hr He. induction r as [|seg r IH]; [done|].
  pose proof (sched_rev_head _ _ Hr) as Hh. simpl.
  destruct (Z.leb_spec (start_epoch seg) e); [naive_solver|].
  destruct r; simpl in Hr; [u64_unfold; lia|]. naive_solver.
Qed.

Lemma start_rev_nonneg r e : sched_rev r → (0 ≤ e)%Z → (0 ≤ start_rev r e)%Z.
Proof.
  intros Hr He. induction r as [|seg r IH]; [done|].
  pose proof (sched_rev_head _ _ Hr) as Hh. simpl.
  destruct (Z.leb_spec (start_epoch seg) e); [u64_unfold; nia|].
  destruct r; simpl in Hr; [u64_unfold; lia|]. naive_solver.
Qed.

Lemma start_rev_0 r : sched_rev r → start_rev r 0 = 0%Z.
Proof.
  induction r as [|seg r IH]; [done|]. intros Hr. pose proof (sched_rev_head _ _ Hr) as Hh.
  simpl. destruct (Z.leb_spec (start_epoch seg) 0).
  - destruct r as [|p r]; simpl in Hr; [|destruct Hr as (_ & _ & _ & ? & _ & Hr)].
    + destruct Hr as (_ & _ & _ & -> & ->). lia.
    + apply sched_rev_head in Hr. u64_unfold. lia.
  - destruct r; simpl in Hr; [u64_unfold; lia|naive_solver].
Qed.

(** Every epoch starts where the one before it ends. *)
Lemma start_rev_succ r e :
  sched_rev r → (0 ≤ e)%Z → start_rev r (e + 1) = (start_rev r e + len_rev r e)%Z.
Proof.
  intros Hr He. induction r as [|seg r IH]; [done|].
  pose proof (sched_rev_head _ _ Hr) as Hh. simpl.
  destruct (Z.leb_spec (start_epoch seg) e), (Z.leb_spec (start_epoch seg) (e + 1)); try lia.
  - assert (e + 1 = start_epoch seg)%Z by lia.
    destruct r as [|p r]; simpl in Hr; [u64_unfold; lia|]. destruct Hr as (_&_&_&?&Hh'&_).
    simpl. destruct (Z.leb_spec (start_epoch p) e); [|lia]. nia.
  - destruct r; simpl in Hr; [u64_unfold; lia|]. naive_solver.
Qed.

Lemma start_at_rev segs (e : nat) :
  sched_rev (rev segs) → start_at segs e = start_rev (rev segs) (Z.of_nat e).
Proof.
  intros Hr. unfold start_at. induction e as [|e IH]; [by rewrite start_rev_0|].
  rewrite seq_S, fmap_app, zsum_app, IH, Nat2Z.inj_succ, <-Z.add_1_r. simpl.
  rewrite start_rev_succ by (done || lia). unfold len_at. lia.
Qed.

Lemma start_rev_lt r e e' :
  sched_rev r → (0 ≤ e < e')%Z → (start_rev r e + len_rev r e ≤ start_rev r e')%Z.
Proof.
  intros Hr He. replace e' with (e + 1 + Z.of_nat (Z.to_nat (e' - e - 1)))%Z by lia.
  induction (Z.to_nat (e' - e - 1)) as [|n IH].
  - rewrite Z.add_0_r, start_rev_succ; [lia|done|lia].
  - rewrite Nat2Z.inj_succ, <-Z.add_1_r, Z.add_assoc.
    rewrite start_rev_succ by (done || lia).
    pose proof (len_rev_pos r (e + 1 + Z.of_nat n) Hr). lia.
Qed.

(** The schedule starts every epoch at or after its own number, so a height's
    epoch number never overflows. *)
Lemma start_rev_ge r (e : Z) : sched_rev r → (0 ≤ e)%Z → (e ≤ start_rev r e)%Z.
Proof.
  intros Hr He. rewrite <-(Z2Nat.id e) by done.
  induction (Z.to_nat e) as [|n IH]; [apply start_rev_nonneg; [done|lia]|].
  rewrite Nat2Z.inj_succ, <-Z.add_1_r, start_rev_succ by (done || lia).
  pose proof (len_rev_pos r (Z.of_nat n) Hr). lia.
Qed.

(** [bounds_rev] computes the schedule, failing exactly when the last height does
    not fit a [u64]. *)
Lemma bounds_rev_spec r e :
  sched_rev r → (0 ≤ e)%Z →
  bounds_rev r e =
    if decide (start_rev r e + len_rev r e - 1 ≤ u64_max)%Z
    then Some (start_rev r e, start_rev r e + len_rev r e - 1)%Z else None.
Proof.
  intros Hr He. induction r as [|seg r IH]; [done|].
  pose proof (sched_rev_head _ _ Hr) as (Hl & Hse & Hsh). simpl.
  destruct (Z.leb_spec (start_epoch seg) e).
  - rewrite wrapping_sub_small by (u64_unfold; lia).
    unfold checked_mul, checked_add.
    assert (0 ≤ (e - start_epoch seg) * seg_length seg)%Z by nia.
    set (rel := ((e - start_epoch seg) * seg_length seg)%Z) in *.
    destruct (Z.leb_spec rel u64_max); simpl; [|rewrite decide_False by (u64_unfold; lia); done].
    destruct (Z.leb_spec (start_height seg + rel) u64_max); simpl;
      [|rewrite decide_False by (u64_unfold; lia); done].
    rewrite Z.add_sub_assoc. clear IH. case_decide as Hd.
    + by rewrite (proj2 (Z.leb_le _ _) Hd).
    + by rewrite (proj2 (Z.leb_nle _ _) Hd).
  - destruct r; simpl in Hr; [u64_unfold; lia|]. naive_solver.
Qed.

Lemma bounds_spec segs e :
  sched_rev (rev segs) → (0 ≤ e)%Z →
  bounds segs e =
    if decide (start_rev (rev segs) e + len_at segs e - 1 ≤ u64_max)%Z
    then Some (start_rev (rev segs) e, start_rev (rev segs) e + len_at segs e - 1)%Z else None.
Proof. apply bounds_rev_spec. Qed.

(** The epoch a height falls in, and the run of [containing_rev] that finds it. *)
Lemma containing_rev_spec ep r h :
  sched_rev r → is_u64 h →
  ∃ e, (0 ≤ e)%Z ∧ (start_rev r e ≤ h < start_rev r e + len_rev r e)%Z ∧
    containing_rev ep r h = Some (if too_far ep e then None else
      (λ '(f, l), mkEpochInfo e h f l) <$> bounds (segments ep) e).
Proof.
  intros Hr Hh. induction r as [|seg r IH]; [done|].
  pose proof (sched_rev_head _ _ Hr) as (Hl & Hse & Hsh). simpl containing_rev.
  destruct (Z.leb_spec (start_height seg) h) as [Hle|Hlt].
  - set (q := ((h - start_height seg) / seg_length seg)%Z).
    pose proof (Z.div_mod (h - start_height seg) (seg_length seg)) as Hdm. fold q in Hdm.
    pose proof (Z.mod_pos_bound (h - start_height seg) (seg_length seg)) as Hmb.
    assert (0 ≤ q)%Z by (apply Z.div_pos; lia).
    assert (Hst : start_rev (seg :: r) (start_epoch seg + q) = (start_height seg + q * seg_length seg)%Z).
    { simpl. destruct (Z.leb_spec (start_epoch seg) (start_epoch seg + q)); [|lia]. f_equal. lia. }
    exists (start_epoch seg + q)%Z. split; [u64_unfold; lia|].
    pose proof (start_rev_ge (seg :: r) (start_epoch seg + q) Hr) as Hge. rewrite Hst in *.
    split; [simpl; destruct (Z.leb_spec (start_epoch seg) (start_epoch seg + q)); nia|].
    destruct (Z.eqb_spec (seg_length seg) 0); [lia|].
    unfold checked_add. rewrite (proj2 (Z.leb_le _ _)) by (u64_unfold; nia).
    destruct (too_far _ _); [done|]. by destruct (bounds _ _) as [[]|].
  - destruct r as [|p r]; simpl in Hr; [u64_unfold; lia|].
    destruct Hr as (_ & _ & _ & Hlte & Hhe & Hr). destruct (IH Hr) as (e & He & Hb & ->).
    assert (e < start_epoch seg)%Z.
    { destruct (Z.le_gt_cases (start_epoch seg) e) as [Hge|]; [|done]. exfalso.
      assert (start_rev (p :: r) (start_epoch seg) = start_height seg) as Hs.
      { simpl. destruct (Z.leb_spec (start_epoch p) (start_epoch seg)); lia. }
      destruct (Z.eq_dec (start_epoch seg) e) as [<-|]; [lia|].
      pose proof (start_rev_lt (p :: r) (start_epoch seg) e Hr) as Hm.
      pose proof (len_rev_pos (p :: r) (start_epoch seg) Hr). u64_unfold. lia. }
    exists e. split; [done|]. split; [|done]. remember (p :: r) as r'. simpl.
    destruct (Z.leb_spec (start_epoch seg) e); lia.
Qed.

Lemma start_rev_unique r e e' h :
  sched_rev r → (0 ≤ e)%Z → (0 ≤ e')%Z →
  (start_rev r e ≤ h < start_rev r e + len_rev r e)%Z →
  (start_rev r e' ≤ h < start_rev r e' + len_rev r e')%Z → e = e'.
Proof.
  intros Hr He He' Hb Hb'. destruct (Z.lt_trichotomy e e') as [Hlt|[?|Hlt]]; [|done|].
  - pose proof (start_rev_lt r e e' Hr). lia.
  - pose proof (start_rev_lt r e' e Hr). lia.
Qed.

Lemma too_far_false ep e :
  sched_ok ep → too_far ep e = false ↔ (e ≤ current_epoch ep + 1)%Z.
Proof.
  intros (_ & Hc & _). unfold too_far. rewrite wrapping_add_small by (u64_unfold; lia).
  by rewrite Z.ltb_ge.
Qed.

Lemma epoch_bounds_Some ep e f l :
  sched_ok ep → (0 ≤ e)%Z →
  epoch_bounds ep e = Some (f, l) ↔
    (e ≤ current_epoch ep + 1)%Z ∧ f = start_rev (rev (segments ep)) e ∧
    l = (f + len_at (segments ep) e - 1)%Z ∧ (l ≤ u64_max)%Z.
Proof.
  intros Hok He. unfold epoch_bounds. rewrite <-(too_far_false ep e Hok).
  destruct (too_far ep e); [naive_solver|].
  rewrite bounds_spec by (done || apply Hok). case_decide; naive_solver lia.
Qed.

(** C35: The epoch queries compute the abstract schedule.  On a well-formed
    epocher, [epoch_bounds] of epoch [e] answers exactly for the epochs up to
    [current_epoch + 1] whose last height fits a [u64]; the first height it gives
    is the total length of all earlier epochs and the last one is the epoch's
    length further on, so consecutive epochs are contiguous. *)
Theorem epoch_bounds_refines_schedule (ep : DynamicEpocher) (e : nat) (f l : Z) :
  sched_ok ep →
  epoch_bounds ep (Z.of_nat e) = Some (f, l) ↔
    (Z.of_nat e ≤ current_epoch ep + 1)%Z ∧ f = start_at (segments ep) e ∧
    (l + 1)%Z = start_at (segments ep) (S e) ∧ (l ≤ u64_max)%Z.
Proof.
  intros Hok. rewrite epoch_bounds_Some by (done || lia).
  rewrite !start_at_rev by apply Hok.
  rewrite Nat2Z.inj_succ, <-Z.add_1_r, start_rev_succ by (apply Hok || lia).
  unfold len_at. naive_solver lia.
Qed.

Lemma containing_Some ep h i :
  sched_ok ep → is_u64 h →
  containing ep h = Some (Some i) ↔
    (0 ≤ info_epoch i)%Z ∧ info_height i = h ∧
    epoch_bounds ep (info_epoch i) = Some (info_first i, info_last i) ∧
    (info_first i ≤ h ≤ info_last i)%Z.
Proof.
  intros Hok Hh.
  destruct (containing_rev_spec ep (rev (segments ep)) h) as (e & He & Hb & Hc); [apply Hok|done|].
  unfold containing. rewrite Hc. split.
  - intros [= Hi]. destruct (too_far ep e) eqn:Hf; [done|].
    rewrite bounds_spec in Hi by (apply Hok || done). case_decide as Hd; [|done].
    injection Hi as <-. simpl. split_and!; [done|done| |lia|unfold len_at; lia].
    apply epoch_bounds_Some; [done..|]. by rewrite <-too_far_false.
  - intros (H0 & Hht & Heb & Hfl).
    destruct i as [e' h' f l]. simpl in *. subst h'.
    apply epoch_bounds_Some in Heb as (Hle & -> & -> & Hmax); [|done..].
    assert (e' = e) as ->.
    { eapply start_rev_unique; [apply Hok|done|done| |exact Hb]. unfold len_at in *. lia. }
    apply (too_far_false ep e Hok) in Hle. rewrite Hle.
    rewrite bounds_spec by (apply Hok || done). by rewrite decide_True.
Qed.

Lemma containing_no_panic ep h : sched_ok ep → is_u64 h → is_Some (containing ep h).
Proof.
  intros Hok Hh.
  destruct (containing_rev_spec ep (rev (segments ep)) h) as (e & _ & _ & Hc); [apply Hok|done|].
  unfold containing. rewrite Hc. eauto.
Qed.

(** [containing] inverts [epoch_bounds].  On a well-formed epocher it never
    panics, and it places a height in epoch [e] exactly when [e] is queryable and
    its bounds enclose the height. *)
Theorem containing_inverts_bounds (ep : DynamicEpocher) (h : Z) :
  sched_ok ep → is_u64 h →
  is_Some (containing ep h) ∧
  ∀ e f l, (0 ≤ e)%Z →
    containing ep h = Some (Some (mkEpochInfo e h f l)) ↔
      epoch_bounds ep e = Some (f, l) ∧ (f ≤ h ≤ l)%Z.
Proof.
  intros Hok Hh. split; [by apply containing_no_panic|]. intros e f l He.
  rewrite containing_Some by done. simpl. naive_solver.
Qed.

(** ** Changing the length *)

Lemma set_last_length_snoc segs s l :
  set_last_length (segs ++ [s]) l = segs ++ [s <| seg_length := l |>].
Proof. induction segs as [|s0 [|s1 segs] IH]; simpl in *; [done|done|by rewrite IH]. Qed.

(** What [update_length] does to the segments, latest first. *)
Definition pushed_rev (r : list Segment) (t l : Z) : list Segment :=
  match r with
  | [] => []
  | s :: r' =>
      if (start_epoch s =? t)%Z then s <| seg_length := l |> :: r'
      else mkSegment t (start_rev r t) l :: r
  end.

Lemma update_length_spec ep l :
  sched_ok ep →
  update_length ep l =
    let t := (current_epoch ep + 2)%Z in
    if decide (t ≤ u64_max)%Z then
      match bounds (segments ep) t with
      | Some _ => Ok (mkDynamicEpocher (rev (pushed_rev (rev (segments ep)) t l)) (current_epoch ep))
      | None => Err (BoundsFailed t)
      end
    else Err EpochOverflow.
Proof.
  intros (Hs & Hc & Hle). destruct ep as [segs c]. simpl in *. unfold update_length. simpl.
  unfold checked_add. case_decide as Hd.
  2:{ by rewrite (proj2 (Z.leb_nle _ _) Hd). }
  rewrite (proj2 (Z.leb_le _ _) Hd). simpl.
  destruct (rev segs) as [|s r] eqn:Er; [done|].
  assert (segs = rev r ++ [s]) as Hsegs.
  { rewrite <-(rev_involutive segs), Er. done. }
  rewrite Hsegs. rewrite last_snoc. simpl.
  rewrite Hsegs, Forall_app, Forall_singleton in Hle.
  rewrite (proj2 (Z.ltb_ge _ _)) by naive_solver. rewrite <-Hsegs.
  rewrite bounds_spec, Er by (rewrite ?Er; done || lia).
  case_decide; simpl; [|done]. f_equal. f_equal.
  destruct (start_epoch s =? c + 2)%Z.
  - by rewrite Hsegs, set_last_length_snoc.
  - simpl. by rewrite <-Hsegs.
Qed.

Lemma pushed_rev_before r t l e :
  sched_rev r → (0 ≤ e < t)%Z →
  start_rev (pushed_rev r t l) e = start_rev r e ∧ len_rev (pushed_rev r t l) e = len_rev r e.
Proof.
  intros Hr He. destruct r as [|s r]; [done|]. unfold pushed_rev.
  destruct (Z.eqb_spec (start_epoch s) t) as [<-|].
  - simpl. destruct (Z.leb_spec (start_epoch s) e); [lia|]. done.
  - remember (s :: r) as r'. simpl. destruct (Z.leb_spec t e); [lia|]. done.
Qed.

Lemma pushed_rev_after r t l e :
  sched_rev r → (t ≤ e)%Z → len_rev (pushed_rev r t l) e = l.
Proof.
  intros Hr He. destruct r as [|s r]; [done|]. unfold pushed_rev.
  destruct (Z.eqb_spec (start_epoch s) t) as [<-|].
  - simpl. by destruct (Z.leb_spec (start_epoch s) e); [|lia].
  - remember (s :: r) as r'. simpl. by destruct (Z.leb_spec t e); [|lia].
Qed.

Lemma pushed_rev_sched r t l :
  sched_rev r → Forall (λ s, start_epoch s ≤ t)%Z r → is_u64 t → (1 ≤ l ≤ u64_max)%Z →
  (start_rev r t ≤ u64_max)%Z →
  sched_rev (pushed_rev r t l) ∧ Forall (λ s, start_epoch s ≤ t)%Z (pushed_rev r t l).
Proof.
  intros Hr Hle Ht Hl Hmax. destruct r as [|s r]; [done|]. unfold pushed_rev.
  apply Forall_cons in Hle as [Hs Hle]. destruct (Z.eqb_spec (start_epoch s) t) as [<-|Hne].
  - split; [|by constructor]. destruct s as [se sh sl]. simpl in *. destruct r; naive_solver.
  - split; [|by repeat constructor].
    pose proof (start_rev_nonneg (s :: r) t Hr) as Hnn.
    split; [done|]. split; [done|].
    split; [change (is_u64 (start_rev (s :: r) t)); u64_unfold; lia|].
    split; [simpl; simpl in Hs; lia|]. split; [|done].
    simpl. by destruct (Z.leb_spec (start_epoch s) t); [|lia].
Qed.

Lemma update_length_Ok ep l ep' :
  sched_ok ep → (1 ≤ l ≤ u64_max)%Z → update_length ep l = Ok ep' →
  sched_ok ep' ∧ current_epoch ep' = current_epoch ep ∧
  rev (segments ep') = pushed_rev (rev (segments ep)) (current_epoch ep + 2) l.
Proof.
  intros Hok Hl. rewrite update_length_spec by done. simpl. case_decide as Hd; [|done].
  rewrite bounds_spec by (apply Hok || (destruct Hok as (_ & ? & _); lia)).
  case_decide as Hb; [|done]. intros [= <-]. simpl. rewrite rev_involutive.
  split; [|done]. destruct Hok as (Hs & Hc & Hle).
  pose proof (len_rev_pos (rev (segments ep)) (current_epoch ep + 2) Hs).
  destruct (pushed_rev_sched (rev (segments ep)) (current_epoch ep + 2) l) as [Hs' Hle'];
    [done|by apply Forall_rev|u64_unfold; lia|done|unfold len_at in *; lia|].
  split_and!; simpl; [by rewrite rev_involutive|lia|lia|by apply Forall_rev].
Qed.

Lemma epoch_bounds_ext ep ep' e :
  sched_ok ep → sched_ok ep' → (0 ≤ e)%Z → current_epoch ep' = current_epoch ep →
  ((e ≤ current_epoch ep + 1)%Z →
    start_rev (rev (segments ep')) e = start_rev (rev (segments ep)) e ∧
    len_at (segments ep') e = len_at (segments ep) e) →
  epoch_bounds ep' e = epoch_bounds ep e.
Proof.
  intros H H' He Hc Hq. apply option_eq. intros [f l].
  rewrite !epoch_bounds_Some by done. rewrite Hc.
  split; intros (Hle & -> & -> & Hm); destruct (Hq Hle) as [E1 E2]; rewrite ?E1, ?E2 in *; done.
Qed.

Lemma containing_ext ep ep' h :
  sched_ok ep → sched_ok ep' → is_u64 h →
  (∀ e, (0 ≤ e)%Z → epoch_bounds ep' e = epoch_bounds ep e) →
  containing ep' h = containing ep h.
Proof.
  intros Hok Hok' Hh Hq.
  destruct (containing_no_panic ep h) as [o Ho]; [done..|].
  destruct (containing_no_panic ep' h) as [o' Ho']; [done..|]. rewrite Ho, Ho'. f_equal.
  apply option_eq. intros i.
  transitivity (containing ep' h = Some (Some i)); [rewrite Ho'; naive_solver|].
  transitivity (containing ep h = Some (Some i)); [|rewrite Ho; naive_solver].
  rewrite !containing_Some by done. split; intros (? & ? & Hb & ?); rewrite ?Hq, <-?Hq in * by done; done.
Qed.

Lemma update_length_bounds ep l ep' e :
  sched_ok ep → (1 ≤ l ≤ u64_max)%Z → update_length ep l = Ok ep' → (0 ≤ e)%Z →
  epoch_bounds ep' e = epoch_bounds ep e.
Proof.
  intros Hok Hl Hu He. destruct (update_length_Ok _ _ _ Hok Hl Hu) as (Hok' & Hc & Hr).
  apply epoch_bounds_ext; [done..|]. intros Hle. unfold len_at. rewrite Hr.
  apply pushed_rev_before; [apply Hok|lia].
Qed.

(** C36: A registered epoch length never disturbs the epochs already queryable.
    If [update_length] succeeds on a well-formed epocher, the result is well-formed,
    every epoch query and every height query answers as before, and every epoch from
    [current_epoch + 2] on has the new length. *)
Theorem update_length_preserves_queries (ep ep' : DynamicEpocher) (l : Z) :
  sched_ok ep → (1 ≤ l ≤ u64_max)%Z → update_length ep l = Ok ep' →
  sched_ok ep' ∧ current_epoch ep' = current_epoch ep ∧
  (∀ e, (0 ≤ e)%Z → epoch_bounds ep' e = epoch_bounds ep e) ∧
  (∀ h, is_u64 h → containing ep' h = containing ep h) ∧
  (∀ e, (current_epoch ep + 2 ≤ e)%Z → len_at (segments ep') e = l).
Proof.
  intros Hok Hl Hu. pose proof (update_length_Ok _ _ _ Hok Hl Hu) as (Hok' & Hc & Hr).
  split_and!; [done|done|by intros; eapply update_length_bounds| |].
  - intros h Hh. apply containing_ext; [done..|]. by intros; eapply update_length_bounds.
  - intros e He. unfold len_at. rewrite Hr. apply pushed_rev_after; [apply Hok|done].
Qed.

(** [update_length] fails only on overflow: on a well-formed epocher the
    "no segments" and "target before latest segment" errors cannot occur, and the
    call succeeds exactly when epoch [current_epoch + 2] has representable bounds. *)
Lemma update_length_succeeds (ep : DynamicEpocher) (l : Z) :
  sched_ok ep →
  is_ok (update_length ep l) = true ↔
    (current_epoch ep + 2 ≤ u64_max)%Z ∧ is_Some (bounds (segments ep) (current_epoch ep + 2)).
Proof.
  intros Hok. rewrite update_length_spec by done. simpl.
  case_decide; [|naive_solver]. destruct (bounds _ _); simpl; naive_solver.
Qed.

(** The heights of the next epochs are far from the end of the [u64] range. *)
Definition horizon (ep : DynamicEpocher) (max_len : Z) : Prop :=
  let t := (current_epoch ep + 2)%Z in
  (t + 1 ≤ u64_max)%Z ∧ (start_rev (rev (segments ep)) t + len_at (segments ep) t ≤ u64_max)%Z ∧
  (start_rev (rev (segments ep)) t + max_len ≤ u64_max)%Z.

Lemma pushed_rev_at r t l : sched_rev r → start_rev (pushed_rev r t l) t = start_rev r t.
Proof.
  intros Hr. destruct r as [|s r]; [done|]. unfold pushed_rev.
  destruct (Z.eqb_spec (start_epoch s) t) as [<-|].
  - simpl. destruct (Z.leb_spec (start_epoch s) (start_epoch s)); [|lia]. lia.
  - remember (s :: r) as r'. simpl. destruct (Z.leb_spec t t); lia.
Qed.

(** Within the horizon a new length is always accepted, and the horizon stays. *)
Lemma update_length_horizon ep l max_len :
  sched_ok ep → horizon ep max_len → (1 ≤ l ≤ max_len)%Z →
  ∃ ep', update_length ep l = Ok ep' ∧ sched_ok ep' ∧ horizon ep' max_len ∧
    current_epoch ep' = current_epoch ep ∧
    ∀ e, (0 ≤ e ≤ current_epoch ep + 2)%Z →
      start_rev (rev (segments ep')) e = start_rev (rev (segments ep)) e.
Proof.
  intros Hok (Ht & Hl1 & Hl2) Hl. pose proof Hok as (Hs & Hcu & _).
  pose proof (start_rev_nonneg (rev (segments ep)) (current_epoch ep + 2) Hs ltac:(lia)).
  destruct (update_length ep l) as [ep'|] eqn:E.
  2: { assert (is_ok (update_length ep l) = true) as Hc; [|by rewrite E in Hc].
       apply update_length_succeeds; [done|]. split; [lia|].
       rewrite bounds_spec by (done || lia). rewrite decide_True by lia. eauto. }
  destruct (update_length_Ok ep l ep' Hok) as (Hok' & Hc & Hr); [lia|done|].
  assert (Hst : ∀ e, (0 ≤ e ≤ current_epoch ep + 2)%Z →
    start_rev (rev (segments ep')) e = start_rev (rev (segments ep)) e).
  { intros e He. rewrite Hr. destruct (Z.eq_dec e (current_epoch ep + 2)%Z) as [->|]; [by apply pushed_rev_at|].
    apply pushed_rev_before; [done|lia]. }
  exists ep'. split_and!; try done. unfold horizon. rewrite Hc. cbv zeta. rewrite Hst by lia.
  split_and!; [done| |done]. unfold len_at. rewrite Hr, pushed_rev_after by (done || lia). lia.
Qed.

(** ** The life of a schedule *)

(** The two ways the finalizer changes the schedule; the epoch number only grows. *)
Inductive step : DynamicEpocher → DynamicEpocher → Prop :=
| step_advance ep epoch :
    (current_epoch ep ≤ epoch < u64_max)%Z → step ep (advance_epoch ep epoch)
| step_update ep l ep' :
    (1 ≤ l ≤ u64_max)%Z → update_length ep l = Ok ep' → step ep ep'.

Lemma new_sched_ok l : (1 ≤ l ≤ u64_max)%Z → sched_ok (new l).
Proof. intros. repeat split; simpl; u64_solve. repeat constructor; simpl; u64_solve. Qed.

Lemma step_sched_ok ep ep' : sched_ok ep → step ep ep' → sched_ok ep'.
Proof.
  intros Hok Hst. destruct Hst as [ep epoch Hle|ep l ep1 Hl Hu];
    [|by apply (update_length_Ok _ _ _ Hok Hl Hu)].
  destruct Hok as (Hs & Hc & Hf). split_and!; simpl; [done|lia|lia|].
  eapply Forall_impl; [exact Hf|]. simpl. lia.
Qed.

Lemma step_bounds ep ep' e b :
  sched_ok ep → step ep ep' → (0 ≤ e)%Z →
  epoch_bounds ep e = Some b → epoch_bounds ep' e = Some b.
Proof.
  intros Hok Hst He. pose proof (step_sched_ok _ _ Hok Hst) as Hok'. revert Hok'.
  destruct Hst as [ep0 epoch Hle|ep0 l ep1 Hl Hu]; intros Hok'.
  - destruct b as [f l]. rewrite !epoch_bounds_Some by done. simpl. intuition lia.
  - by rewrite (update_length_bounds _ _ _ e Hok Hl Hu He).
Qed.

(** C37: Epoch boundaries are final.  Along any run of the epocher from its
    genesis schedule, through any number of epoch advances and length changes, an
    epoch whose bounds were once answered keeps them in every later state. *)
Theorem epoch_bounds_final (l : Z) (ep ep' : DynamicEpocher) (e f la : Z) :
  (1 ≤ l ≤ u64_max)%Z → (0 ≤ e)%Z →
  rtc step (new l) ep → rtc step ep ep' →
  epoch_bounds ep e = Some (f, la) → epoch_bounds ep' e = Some (f, la).
Proof.
  intros Hl He H1 H2. assert (sched_ok ep) as Hok.
  { revert H1. eapply (rtc_ind_r (λ ep, sched_ok ep)); [by apply new_sched_ok|].
    intros. by eapply step_sched_ok. }
  clear H1. induction H2 as [|x y z Hxy Hyz IH]; [done|]. intros Hb.
  apply IH; [by eapply step_sched_ok|]. by eapply step_bounds.
Qed.

(** On a well-formed epocher the current epoch has a length, and [current_length]
    finds it. *)
Lemma current_length_spec ep :
  sched_ok ep → current_length ep = Some (len_at (segments ep) (current_epoch ep)).
Proof.
  intros (Hs & Hc & _). unfold current_length, len_at.
  induction (rev (segments ep)) as [|s r IH]; [done|]. simpl.
  pose proof (sched_rev_head _ _ Hs). destruct (Z.leb_spec (start_epoch s) (current_epoch ep)); [done|].
  destruct r; simpl in Hs; [u64_unfold; lia|]. naive_solver.
Qed.

(** Exactly one height of a queryable epoch is its first, one its last, and
    one (when the epoch has two blocks) its penultimate block: the three tests of
    types/src/utils.rs answer by the epoch's bounds. *)
Lemma block_of_epoch_tests (ep : DynamicEpocher) (e f l h : Z) :
  sched_ok ep → (0 ≤ e)%Z → epoch_bounds ep e = Some (f, l) → (f ≤ h ≤ l)%Z →
  is_first_block_of_epoch ep h = Some (h =? f)%Z ∧
  is_last_block_of_epoch ep h = Some (h =? l)%Z ∧
  is_penultimate_block_of_epoch ep h = Some ((h =? l - 1)%Z).
Proof.
  intros Hok He Hb Hh.
  pose proof Hb as (_ & Hf & Hl & Hm)%epoch_bounds_Some; [|done..].
  pose proof (start_rev_nonneg (rev (segments ep)) e (proj1 Hok) He) as Hnn.
  assert (is_u64 h) by (u64_unfold; lia).
  assert (containing ep h = Some (Some (mkEpochInfo e h f l))) as Hc.
  { apply containing_Some; [done..|]. done. }
  unfold is_first_block_of_epoch, is_last_block_of_epoch, is_penultimate_block_of_epoch.
  rewrite Hc. simpl. split_and!; f_equal; [apply Z.eqb_sym..|].
  destruct (Z.eq_dec h u64_max) as [->|].
  - destruct (Z.eqb_spec l (wrapping_add u64_max 1)) as [E|]; destruct (Z.eqb_spec u64_max (l - 1)); try done.
    + change (wrapping_add u64_max 1) with 0%Z in E. u64_unfold. lia.
    + u64_unfold. lia.
  - rewrite wrapping_add_small by (u64_unfold; lia).
    destruct (Z.eqb_spec l (h + 1)), (Z.eqb_spec h (l - 1)); lia || done.
Qed.

(** ** The wire format *)

Lemma read_segment_write s rest :
  segment_wf s → read_segment (write_segment s ++ rest) = Ok (s, rest).
Proof.
  intros (? & ? & ? & Hnz). unfold read_segment, write_segment. destruct s; simpl in *.
  assert (negb (seg_length0 =? 0)%Z = true) by (by apply negb_true_iff, Z.eqb_neq).
  by codec.
Qed.

#[global] Instance DynamicEpocher_codec_ok : CodecOk DynamicEpocher.
Proof.
  intros [segs c] rest (Hc & Hne & Hlen & Hf). simpl in *.
  unfold read_epocher, write_epocher, write_list. simpl.
  assert (negb (length segs =? 0) = true) by (apply negb_true_iff, Nat.eqb_neq; by destruct segs).
  codec. erewrite reader_bind_step; [done|].
  eapply read_n_app; [exact read_segment_write|done].
Qed.

Lemma sched_rev_wf r : sched_rev r → Forall segment_wf r.
Proof.
  induction r as [|s r IH]; [done|]. intros Hr. pose proof (sched_rev_head _ _ Hr) as (Hl & He & Hh).
  constructor; [split_and!; [done|done|u64_unfold; lia|lia]|].
  destruct r; [constructor|]. simpl in Hr. apply IH. naive_solver.
Qed.

(** The schedule survives a restart: decoding the encoding of a well-formed
    epocher with fewer than [2^32] segments gives it back and leaves the rest of the
    buffer, and the encoding has the size [encode_size] announces. *)
Theorem epocher_codec_roundtrip (ep : DynamicEpocher) (rest : bytes) :
  sched_ok ep → len_ok (length (segments ep)) →
  read_cfg (write ep ++ rest) = Ok (ep, rest) ∧ length (write ep) = encode_size ep.
Proof.
  intros (Hs & Hc & _) Hlen. split.
  - apply read_write. split_and!; [u64_unfold; lia| |done|].
    + by intros E; rewrite E in Hs.
    + rewrite <-(rev_involutive (segments ep)). by apply Forall_rev, sched_rev_wf.
  - simpl. unfold write_epocher, write_list, encode_size.
    rewrite !length_app, (length_concat_const _ 24).
    + autorewrite with byte_length. lia.
    + intros s _. unfold write_segment. rewrite !length_app. by autorewrite with byte_length.
Qed.

(** ** Handles *)

(** Operations through one handle write its own cell only. *)
Inductive heap_step (self : nat) : Handles.heap → Handles.heap → Prop :=
| heap_advance h epoch h' : Handles.advance_epoch h self epoch = Some h' → heap_step self h h'
| heap_update h l h' : Handles.update_length h self l = Some (Ok h') → heap_step self h h'
| heap_replace h other h' : Handles.replace_with h self other = Some h' → heap_step self h h'.

Lemma heap_step_other self h h' c : heap_step self h h' → c ≠ self → h' !! c = h !! c.
Proof.
  intros Hst Hc. destruct Hst as [h epoch h' E|h l h' E|h other h' E].
  - unfold Handles.advance_epoch in E. inv_bind. by apply list_lookup_insert_ne.
  - unfold Handles.update_length in E. apply bind_Some in E as (inner & Hi & [= E]).
    destruct (update_length inner l); simplify_eq/=. by apply list_lookup_insert_ne.
  - unfold Handles.replace_with in E. case_decide; inv_bind; [done|]. by apply list_lookup_insert_ne.
Qed.

(** A snapshot is isolated.  [snapshot] gives a handle to a cell of its own
    holding the same schedule; whatever is then done through the original handle leaves
    the snapshot as it was taken, and the other way around. *)
Theorem snapshot_isolated (h h1 : Handles.heap) (self c : nat) :
  Handles.snapshot h self = Some (h1, c) →
  h1 !! c = h !! self ∧ h1 !! self = h !! self ∧
  (∀ h2, rtc (heap_step self) h1 h2 → h2 !! c = h !! self) ∧
  (∀ h2, rtc (heap_step c) h1 h2 → h2 !! self = h !! self).
Proof.
  unfold Handles.snapshot. intros (inner & Hi & [= <- <-])%bind_Some. rewrite Hi.
  pose proof (lookup_lt_Some _ _ _ Hi) as Hlt.
  assert (Hc : (h ++ [inner]) !! length h = Some inner) by by apply list_lookup_middle.
  assert (Hs : (h ++ [inner]) !! self = Some inner) by by rewrite lookup_app_l.
  split_and!; [done|done| |].
  - intros h2 Hst. revert Hst Hc. generalize (h ++ [inner]). induction 1; [done|].
    intros. apply IHHst. erewrite heap_step_other by (eauto || lia). done.
  - intros h2 Hst. revert Hst Hs. generalize (h ++ [inner]). induction 1; [done|].
    intros. apply IHHst. erewrite heap_step_other by (eauto || lia). done.
Qed.

(** ** Instances of the theorems

    A schedule of three-block epochs, at epoch 1, with length 5 registered from
    epoch 3 on. *)
Definition demo_genesis : DynamicEpocher := new 3.
Definition demo_at1 : DynamicEpocher := advance_epoch demo_genesis 1.
Definition demo_changed : DynamicEpocher :=
  mkDynamicEpocher [mkSegment 0 0 3; mkSegment 3 9 5] 1.

Ltac sched_ok_tac := repeat split; simpl; u64_unfold; try lia; repeat constructor; simpl; lia.

Lemma epoch_bounds_refines_schedule_witness :
  sched_ok demo_changed ∧
  ((Z.of_nat 2 ≤ current_epoch demo_changed + 1)%Z ∧ 6%Z = start_at (segments demo_changed) 2 ∧
   (8 + 1)%Z = start_at (segments demo_changed) 3 ∧ (8 ≤ u64_max)%Z).
Proof.
  split; [sched_ok_tac|].
  apply (proj1 (epoch_bounds_refines_schedule demo_changed 2 6 8 ltac:(sched_ok_tac))). reflexivity.
Defined.

Lemma containing_inverts_bounds_witness :
  containing demo_changed 7 = Some (Some (mkEpochInfo 2 7 6 8)).
Proof.
  apply (proj2 (containing_inverts_bounds demo_changed 7 ltac:(sched_ok_tac) ltac:(u64_unfold; lia)));
    [lia|split; [reflexivity|lia]].
Defined.

Lemma update_length_preserves_queries_witness :
  update_length demo_at1 5 = Ok demo_changed ∧ len_at (segments demo_changed) 7 = 5%Z ∧
  containing demo_changed 4 = containing demo_at1 4.
Proof.
  destruct (update_length_preserves_queries demo_at1 demo_changed 5) as (_ & _ & _ & Hh & Hl);
    [sched_ok_tac|unfold u64_max; lia|reflexivity|].
  split; [reflexivity|]. split; [apply Hl; simpl; lia|apply Hh; u64_unfold; lia].
Defined.

Lemma epoch_bounds_final_witness : epoch_bounds demo_changed 2 = Some (6, 8)%Z.
Proof.
  apply (epoch_bounds_final 3 demo_at1 demo_changed 2 6 8);
    [unfold u64_max; lia|lia| | |reflexivity].
  - apply rtc_once, step_advance. simpl. unfold u64_max. lia.
  - apply rtc_once, (step_update _ 5); [unfold u64_max; lia|reflexivity].
Defined.

Lemma epocher_codec_roundtrip_witness :
  read_cfg (write demo_changed ++ []) = Ok (demo_changed, []) ∧
  length (write demo_changed) = encode_size demo_changed.
Proof.
  apply (epocher_codec_roundtrip demo_changed []); [sched_ok_tac|unfold len_ok; simpl; lia].
Defined.

Lemma snapshot_isolated_witness :
  Handles.snapshot [demo_genesis] 0 = Some ([demo_genesis; demo_genesis], 1) ∧
  [advance_epoch demo_genesis 4; demo_genesis] !! 1 = Some demo_genesis.
Proof.
  split; [reflexivity|].
  destruct (snapshot_isolated [demo_genesis] [demo_genesis; demo_genesis] 0 1 eq_refl)
    as (_ & _ & Hiso & _). apply Hiso. by apply rtc_once, (heap_advance _ _ 4).
Defined.
