(* ===== verification/Account.v ===== *)
(** * Account: validator accounts (types/src/account.rs) *)
From S2P Require Import Prelude Codec Crypto.

Inductive ValidatorStatus :=
| Active
| Inactive
| SubmittedExitRequest
| Joining
| FullPayoutPending.

#[global] Instance ValidatorStatus_eq_dec : EqDecision ValidatorStatus.
Proof. solve_decision. Defined.

Definition to_u8 (s : ValidatorStatus) : Z :=
  match s with
  | Active => 0 | Inactive => 1 | SubmittedExitRequest => 2 | Joining => 3
  | FullPayoutPending => 4
  end.
Definition from_u8 (value : Z) : result string ValidatorStatus :=
  match value with
  | 0%Z => Ok Active
  | 1%Z => Ok Inactive
  | 2%Z => Ok SubmittedExitRequest
  | 3%Z => Ok Joining
  | 4%Z => Ok FullPayoutPending
  | _ => Err "Invalid ValidatorStatus value"
  end.

Definition is_current_epoch_signer (s : ValidatorStatus) : bool :=
  match s with Active | SubmittedExitRequest => true | _ => false end.
Definition has_minimum_stake_floor (s : ValidatorStatus) : bool :=
  match s with Active | SubmittedExitRequest | FullPayoutPending => true | _ => false end.
Definition is_out_of_committee (s : ValidatorStatus) : bool :=
  match s with Inactive | FullPayoutPending => true | _ => false end.

Record ValidatorAccount := mkValidatorAccount {
  consensus_public_key : bytes;
  withdrawal_credentials : bytes;
  balance : Z;
  status : ValidatorStatus;
  joining_epoch : Z;
  last_deposit_index : Z
}.
#[global] Instance ValidatorAccount_eta : Eta ValidatorAccount := λ a,
  mkValidatorAccount (consensus_public_key a) (withdrawal_credentials a) (balance a)
    (status a) (joining_epoch a) (last_deposit_index a).
#[global] Instance ValidatorAccount_eq_dec : EqDecision ValidatorAccount.
Proof. solve_decision. Defined.

Section codec.
Context `{Crypto}.

Definition try_from (bs : bytes) : result string ValidatorAccount :=
  if negb (length bs =? 93) then Err "ValidatorAccount must be exactly 93 bytes" else
  if negb (bls_valid (slice 0 48 bs)) then Err "Failed to decode consensus_public_key" else
  status ← from_u8 (from_le_bytes (slice 76 77 bs));
  Ok (mkValidatorAccount (slice 0 48 bs) (slice 48 68 bs) (from_le_bytes (slice 68 76 bs))
        status (from_le_bytes (slice 77 85 bs)) (from_le_bytes (slice 85 93 bs))).

Definition write_account (a : ValidatorAccount) : bytes :=
  consensus_public_key a ++ withdrawal_credentials a ++ u64_to_le_bytes (balance a)
  ++ put_u8 (to_u8 (status a)) ++ u64_to_le_bytes (joining_epoch a)
  ++ u64_to_le_bytes (last_deposit_index a).

Definition SIZE : nat := 93.

Definition read_status : reader ValidatorStatus :=
  status_byte ← try_get_u8;
  match from_u8 status_byte with
  | Ok status => mret status
  | Err _ => fail (Invalid "ValidatorAccount" "Invalid status value")
  end.

Definition read_account : reader ValidatorAccount :=
  n ← remaining;
  ensure (negb (n <? 93)) (Invalid "ValidatorAccount" "Insufficient bytes");;
  consensus_public_key ← take_bytes 48;
  ensure (bls_valid consensus_public_key)
    (Invalid "ValidatorAccount" "Invalid consensus public key");;
  withdrawal_credentials ← take_bytes 20;
  balance ← get_u64_le;
  status ← read_status;
  joining_epoch ← get_u64_le;
  last_deposit_index ← get_u64_le;
  mret (mkValidatorAccount consensus_public_key withdrawal_credentials balance status
          joining_epoch last_deposit_index).

(** What the Rust type guarantees of an account. *)
Definition account_wf (a : ValidatorAccount) : Prop :=
  length (consensus_public_key a) = 48 ∧ bls_valid (consensus_public_key a) = true ∧
  length (withdrawal_credentials a) = 20 ∧ is_u64 (balance a) ∧ is_u64 (joining_epoch a) ∧
  is_u64 (last_deposit_index a).

#[global] Instance ValidatorAccount_codec : Codec ValidatorAccount :=
  {| codec_wf := account_wf; write := write_account; read_cfg := read_account |}.

Lemma from_to_u8 s : from_u8 (to_u8 s) = Ok s.
Proof. by destruct s. Qed.

Lemma to_u8_range s : (0 ≤ to_u8 s < 256)%Z.
Proof. destruct s; simpl; lia. Qed.

Lemma read_status_app s rest : read_status (put_u8 (to_u8 s) ++ rest) = Ok (s, rest).
Proof.
  unfold read_status. erewrite reader_bind_step; [|apply try_get_u8_app, to_u8_range].
  by rewrite from_to_u8.
Qed.

Lemma length_write_account a : account_wf a → length (write_account a) = SIZE.
Proof.
  intros (H1 & _ & H2 & _). unfold write_account. rewrite !length_app, H1, H2.
  by autorewrite with byte_length.
Qed.

Hint Resolve read_status_app : codec.

#[global] Instance ValidatorAccount_codec_ok : CodecOk ValidatorAccount.
Proof.
  intros a rest Hwf. pose proof (length_write_account a Hwf) as Hlen. simpl.
  destruct Hwf as (H1 & H2 & H3 & H4 & H5 & H6). unfold read_account.
  erewrite reader_bind_step; [|done]. rewrite reader_bind_step with (a := ()) (buf' := write_account a ++ rest).
  2:{ apply ensure_true. rewrite length_app, Hlen. unfold SIZE.
      apply negb_true_iff, Nat.ltb_ge. lia. }
  unfold write_account. codec. by destruct a.
Qed.
End codec.
#[export] Hint Resolve read_status_app : codec.

(** The status an account in the committee can have, and no other: the committee
    predicates partition the statuses with [Joining]. *)
Lemma status_partition s :
  is_current_epoch_signer s = true ∧ is_out_of_committee s = false ∨
  is_current_epoch_signer s = false ∧ is_out_of_committee s = true ∨
  s = Joining ∧ is_current_epoch_signer s = false ∧ is_out_of_committee s = false.
Proof. destruct s; simpl; tauto. Qed.

(** ** The slice decoder and the buffer decoder *)

Lemma read_account_long `{Crypto} bs :
  93 ≤ length bs →
  read_account bs =
    if bls_valid (slice 0 48 bs) then
      match from_u8 (from_le_bytes (slice 76 77 bs)) with
      | Ok status =>
          Ok (mkValidatorAccount (slice 0 48 bs) (slice 48 68 bs)
                (from_le_bytes (slice 68 76 bs)) status (from_le_bytes (slice 77 85 bs))
                (from_le_bytes (slice 85 93 bs)), drop 93 bs)
      | Err _ => Err (Invalid "ValidatorAccount" "Invalid status value")
      end
    else Err (Invalid "ValidatorAccount" "Invalid consensus public key").
Proof.
  intros Hlen. unfold read_account. erewrite reader_bind_step; [|done].
  rewrite reader_bind_step with (a := ()) (buf' := bs).
  2:{ apply ensure_true, negb_true_iff, Nat.ltb_ge. done. }
  rewrite reader_bind_step with (a := slice 0 48 bs) (buf' := drop 48 bs);
    [|apply (take_bytes_drop 48 0); lia].
  destruct (bls_valid _); [|done].
  rewrite reader_bind_step with (a := ()) (buf' := drop 48 bs) by done.
  rewrite reader_bind_step with (a := slice 48 68 bs) (buf' := drop 68 bs);
    [|apply (take_bytes_drop 20 48); lia].
  rewrite reader_bind_step with (a := from_le_bytes (slice 68 76 bs)) (buf' := drop 76 bs);
    [|apply (get_u64_le_drop 68); lia].
  destruct (from_u8 (from_le_bytes (slice 76 77 bs))) as [st|e] eqn:E.
  - rewrite reader_bind_step with (a := st) (buf' := drop 77 bs).
    2:{ unfold read_status. erewrite reader_bind_step; [|apply (try_get_u8_drop 76); lia].
        change (76 + 1) with 77.
        by rewrite E. }
    rewrite reader_bind_step with (a := from_le_bytes (slice 77 85 bs)) (buf' := drop 85 bs);
      [|apply (get_u64_le_drop 77); lia].
    by rewrite reader_bind_step with (a := from_le_bytes (slice 85 93 bs)) (buf' := drop 93 bs);
      [|apply (get_u64_le_drop 85); lia].
  - unfold mbind at 1, reader_bind at 1, read_status.
    erewrite reader_bind_step; [|apply (try_get_u8_drop 76); lia].
        change (76 + 1) with 77. by rewrite E.
Qed.

Lemma read_account_short `{Crypto} bs :
  length bs < 93 → read_account bs = Err (Invalid "ValidatorAccount" "Insufficient bytes").
Proof.
  intros Hlen. unfold read_account. erewrite reader_bind_step; [|done].
  by rewrite (proj2 (Nat.ltb_lt _ _) Hlen).
Qed.

Lemma try_from_decode_all `{Crypto} bs a :
  try_from bs = Ok a ↔ decode_all read_account bs = Ok a.
Proof.
  unfold try_from, decode_all. destruct (Nat.eqb_spec (length bs) 93) as [He|Hne]; simpl.
  - rewrite read_account_long by lia. rewrite (drop_ge bs) by lia.
    destruct (bls_valid _); [|done]. destruct (from_u8 _); [naive_solver|done].
  - split; [done|]. destruct (Nat.lt_ge_cases (length bs) 93).
    + by rewrite read_account_short.
    + rewrite read_account_long by done. destruct (bls_valid _); [|done].
      destruct (from_u8 _); [|done]. destruct (drop 93 bs) eqn:E; [|done].
      apply (f_equal length) in E. rewrite length_drop in E. simpl in E. lia.
Qed.

(** An account read from a 93-byte slice ([TryFrom<&[u8]>]) and one decoded
    from a buffer ([Read]) are the same account, and both decoders reject the same
    buffers; decoding an account's own encoding returns the account. *)
Theorem account_decoders_agree `{Crypto} (bs : bytes) (a : ValidatorAccount) :
  (try_from bs = Ok a ↔ decode_all read_account bs = Ok a) ∧
  (account_wf a → try_from (write_account a) = Ok a).
Proof.
  split; [apply try_from_decode_all|]. intros Hwf. apply try_from_decode_all, decode_all_app.
  exact (read_write a [] Hwf).
Qed.

Definition demo_account : ValidatorAccount :=
  mkValidatorAccount (zero_bytes 48) (zero_bytes 20) 32000000000 Joining 3 7.

Lemma account_decoders_agree_witness :
  @try_from ToyCrypto.toy (write_account demo_account) = Ok demo_account.
Proof.
  apply (@account_decoders_agree ToyCrypto.toy [] demo_account).
  repeat split; simpl; rewrite ?length_zero_bytes; first [reflexivity | u64_unfold; lia].
Defined.
