(* ===== verification/ExecutionRequest.v ===== *)
(** * ExecutionRequest: the requests an execution block carries
    (types/src/execution_request.rs)

    Deposits (EIP-6110, with an ed25519 node key beside the BLS key), withdrawals
    (EIP-7002) and protocol-parameter changes, in the two encodings the program
    reads: the EIP-7685 entries of a block ([try_from_eth_bytes],
    [parse_eth_entry]) and the node's own codec ([write_*], [read_*]). *)
From S2P Require Import Prelude Codec Crypto.

Record DepositRequest := mkDepositRequest {
  node_pubkey : bytes;
  consensus_pubkey : bytes;
  dep_withdrawal_credentials : bytes;
  dep_amount : Z;
  node_signature : bytes;
  consensus_signature : bytes;
  dep_index : Z
}.
#[global] Instance DepositRequest_eq_dec : EqDecision DepositRequest.
Proof. solve_decision. Defined.

Record WithdrawalRequest := mkWithdrawalRequest {
  source_address : bytes;
  validator_pubkey : bytes;
  wr_amount : Z
}.
#[global] Instance WithdrawalRequest_eq_dec : EqDecision WithdrawalRequest.
Proof. solve_decision. Defined.

Record ProtocolParamRequest := mkProtocolParamRequest {
  param_id : Z;
  param : bytes
}.
#[global] Instance ProtocolParamRequest_eq_dec : EqDecision ProtocolParamRequest.
Proof. solve_decision. Defined.

Inductive ExecutionRequest :=
| Deposit (d : DepositRequest)
| Withdrawal (w : WithdrawalRequest)
| ProtocolParamReq (p : ProtocolParamRequest).
#[global] Instance ExecutionRequest_eq_dec : EqDecision ExecutionRequest.
Proof. solve_decision. Defined.

Record MalformedDepositRequest := mkMalformedDepositRequest {
  mal_withdrawal_credentials : bytes;
  mal_amount : Z;
  mal_index : Z;
  mal_reason : string
}.
#[global] Instance MalformedDepositRequest_eq_dec : EqDecision MalformedDepositRequest.
Proof. solve_decision. Defined.

Inductive ParsedExecutionRequest :=
| Valid (r : ExecutionRequest)
| MalformedDeposit (m : MalformedDepositRequest).
#[global] Instance ParsedExecutionRequest_eq_dec : EqDecision ParsedExecutionRequest.
Proof. solve_decision. Defined.

(** [slice::chunks_exact]. *)
Definition chunks_exact (n : nat) (bs : bytes) : list bytes :=
  map (λ i, take n (drop (i * n) bs)) (seq 0 (length bs / n)).

(** [iter().map(f).collect::<Result<Vec<_>, _>>()]. *)
Fixpoint collect {E A B} (f : A → result E B) (l : list A) : result E (list B) :=
  match l with
  | [] => Ok []
  | a :: l => b ← f a; bs ← collect f l; Ok (b :: bs)
  end.

Definition WITHDRAWAL_SIZE : nat := 76.
Definition DEPOSIT_SIZE : nat := 288.

(** ** Withdrawal requests *)
Definition withdrawal_try_from_eth_bytes (bs : bytes) : result string WithdrawalRequest :=
  if negb (length bs =? 76) then Err "WithdrawalRequest must be exactly 76 bytes" else
  Ok (mkWithdrawalRequest (slice 0 20 bs) (slice 36 68 bs) (from_le_bytes (slice 68 76 bs))).

Definition withdrawal_try_from_eth_entry_bytes (bs : bytes)
  : result string (list WithdrawalRequest) :=
  if negb (length bs mod WITHDRAWAL_SIZE =? 0)
  then Err "WithdrawalRequest payload length must be a multiple of 76 bytes"
  else collect withdrawal_try_from_eth_bytes (chunks_exact WITHDRAWAL_SIZE bs).

Definition write_withdrawal (w : WithdrawalRequest) : bytes :=
  source_address w ++ zero_bytes 16 ++ validator_pubkey w ++ u64_to_le_bytes (wr_amount w).

Definition read_withdrawal : reader WithdrawalRequest :=
  n ← remaining;
  ensure (negb (n <? 76)) (Invalid "WithdrawalRequest" "Insufficient bytes");;
  source_address ← take_bytes 20;
  _ ← take_bytes 16;
  validator_pubkey ← take_bytes 32;
  amount ← get_u64_le;
  mret (mkWithdrawalRequest source_address validator_pubkey amount).

(** ** Protocol-parameter requests *)

(** [self.param.len() as u8]. *)
Definition write_param_request (p : ProtocolParamRequest) : bytes :=
  put_u8 (param_id p) ++ put_u8 (Z.of_nat (length (param p)) mod 256) ++ param p.

Definition read_param_request : reader ProtocolParamRequest :=
  n ← remaining;
  ensure (negb (n <? 2)) (Invalid "ProtocolParamRequest" "Insufficient bytes for header");;
  param_id ← try_get_u8;
  param_len ← try_get_u8;
  n ← remaining;
  ensure (negb (n <? Z.to_nat param_len))
    (Invalid "ProtocolParamRequest" "Insufficient bytes for param data");;
  param ← take_bytes (Z.to_nat param_len);
  mret (mkProtocolParamRequest param_id param).

Definition param_try_from_eth_bytes (bs : bytes) : result string ProtocolParamRequest :=
  match bs with
  | id :: len :: _ =>
      let param_len := Z.to_nat (byte_to_u8 len) in
      if negb (length bs =? 2 + param_len) then Err "ProtocolParamRequest length mismatch" else
      Ok (mkProtocolParamRequest (byte_to_u8 id) (slice 2 (2 + param_len) bs))
  | _ => Err "ProtocolParamRequest must be at least 2 bytes"
  end.

(** The [while !buf.is_empty()] loop.  Each iteration consumes at least two
    bytes, so a fuel of the buffer's length is never exhausted
    ([param_entries_step]). *)
Fixpoint param_entries (fuel : nat) (buf : bytes) : result string (list ProtocolParamRequest) :=
  match buf with
  | [] => Ok []
  | _ =>
      match fuel with
      | 0 => Err "Failed to parse grouped protocol param request payload"
      | S fuel =>
          match read_param_request buf with
          | Err _ => Err "Failed to parse grouped protocol param request payload"
          | Ok (request, buf') => requests ← param_entries fuel buf'; Ok (request :: requests)
          end
      end
  end.
Definition param_try_from_eth_entry_bytes (bs : bytes)
  : result string (list ProtocolParamRequest) := param_entries (length bs) bs.

Section with_crypto.
Context `{Crypto}.

(** ** Deposit requests *)
Definition deposit_try_from_eth_bytes (bs : bytes) : result string DepositRequest :=
  if negb (length bs =? 288) then Err "DepositRequest must be exactly 288 bytes" else
  if negb (ed25519_valid (slice 0 32 bs)) then Err "Invalid ed25519 public key" else
  if negb (bls_valid (slice 32 80 bs)) then Err "Invalid BLS public key" else
  Ok (mkDepositRequest (slice 0 32 bs) (slice 32 80 bs) (slice 80 112 bs)
        (from_le_bytes (slice 112 120 bs)) (slice 120 184 bs) (slice 184 280 bs)
        (from_le_bytes (slice 280 288 bs))).

Definition deposit_try_from_eth_entry_bytes (bs : bytes) : result string (list DepositRequest) :=
  if negb (length bs mod DEPOSIT_SIZE =? 0)
  then Err "DepositRequest payload length must be a multiple of 288 bytes"
  else collect deposit_try_from_eth_bytes (chunks_exact DEPOSIT_SIZE bs).

Definition write_deposit (d : DepositRequest) : bytes :=
  node_pubkey d ++ consensus_pubkey d ++ dep_withdrawal_credentials d
  ++ u64_to_le_bytes (dep_amount d) ++ node_signature d ++ consensus_signature d
  ++ u64_to_le_bytes (dep_index d).

Definition read_deposit : reader DepositRequest :=
  n ← remaining;
  ensure (negb (n <? 288)) (Invalid "DepositRequest" "Insufficient bytes");;
  node_pubkey ← take_bytes 32;
  ensure (ed25519_valid node_pubkey) (Invalid "DepositRequest" "Invalid ed25519 public key");;
  consensus_pubkey ← take_bytes 48;
  ensure (bls_valid consensus_pubkey) (Invalid "DepositRequest" "Invalid BLS public key");;
  withdrawal_credentials ← take_bytes 32;
  amount ← get_u64_le;
  node_signature ← take_bytes 64;
  consensus_signature ← take_bytes 96;
  index ← get_u64_le;
  mret (mkDepositRequest node_pubkey consensus_pubkey withdrawal_credentials amount
          node_signature consensus_signature index).

(** The message a deposit's two signatures sign. *)
Definition as_message (d : DepositRequest) (domain : bytes) : bytes :=
  let pubkeys_hash := sha256 (node_pubkey d ++ consensus_pubkey d) in
  let left_hash := sha256 (pubkeys_hash ++ dep_withdrawal_credentials d) in
  let right_hash := sha256 (u64_to_le_bytes (dep_amount d) ++ zero_bytes 56) in
  let root_hash := sha256 (left_hash ++ right_hash) in
  sha256 (root_hash ++ domain).

(** The amount is in wei (a [U256]); [None] is the panic of [to::<u64>()]. *)
Definition compute_deposit_data_root (node_pubkey consensus_pubkey withdrawal_credentials : bytes)
    (amount : Z) (node_signature consensus_signature : bytes) : option bytes :=
  let consensus_pubkey_hash := sha256 (consensus_pubkey ++ zero_bytes 16) in
  let pubkey_root := sha256 (node_pubkey ++ consensus_pubkey_hash) in
  let node_signature_hash := sha256 node_signature in
  let consensus_sig_part1 := sha256 (slice 0 64 consensus_signature) in
  let consensus_sig_part2 := sha256 (slice 64 96 consensus_signature ++ zero_bytes 32) in
  let consensus_signature_hash := sha256 (consensus_sig_part1 ++ consensus_sig_part2) in
  let signature_root := sha256 (node_signature_hash ++ consensus_signature_hash) in
  let amount_gwei := (amount / 10 ^ 9)%Z in
  if (u64_max <? amount_gwei)%Z then None else
  let left_node := sha256 (pubkey_root ++ withdrawal_credentials) in
  let right_node := sha256 (u64_to_le_bytes amount_gwei ++ zero_bytes 24 ++ signature_root) in
  Some (sha256 (left_node ++ right_node)).

(** ** Entries *)
Definition try_from_eth_bytes (bs : bytes) : result string ExecutionRequest :=
  match bs with
  | [] => Err "ExecutionRequest cannot be empty"
  | ty :: body =>
      match byte_to_u8 ty with
      | 0x00%Z => d ← deposit_try_from_eth_bytes body; Ok (Deposit d)
      | 0x01%Z => w ← withdrawal_try_from_eth_bytes body; Ok (Withdrawal w)
      | 0xFF%Z => p ← param_try_from_eth_bytes body; Ok (ProtocolParamReq p)
      | _ => Err "Unknown execution request type"
      end
  end.

Definition parse_deposit_chunk (chunk : bytes) : ParsedExecutionRequest :=
  match deposit_try_from_eth_bytes chunk with
  | Ok deposit => Valid (Deposit deposit)
  | Err reason =>
      MalformedDeposit (mkMalformedDepositRequest (slice 80 112 chunk)
        (from_le_bytes (slice 112 120 chunk)) (from_le_bytes (slice 280 288 chunk)) reason)
  end.

Definition parse_eth_entry (bs : bytes) : result string (list ParsedExecutionRequest) :=
  match bs with
  | [] => Err "ExecutionRequest cannot be empty"
  | ty :: body =>
      match byte_to_u8 ty with
      | 0x00%Z =>
          if negb (length body mod DEPOSIT_SIZE =? 0)
          then Err "DepositRequest payload length must be a multiple of 288 bytes"
          else Ok (map parse_deposit_chunk (chunks_exact DEPOSIT_SIZE body))
      | 0x01%Z =>
          ws ← withdrawal_try_from_eth_entry_bytes body;
          Ok (map (λ w, Valid (Withdrawal w)) ws)
      | 0xFF%Z =>
          ps ← param_try_from_eth_entry_bytes body;
          Ok (map (λ p, Valid (ProtocolParamReq p)) ps)
      | _ => Err "Unknown execution request type"
      end
  end.

Definition write_request (r : ExecutionRequest) : bytes :=
  match r with
  | Deposit d => put_u8 0x00 ++ write_deposit d
  | Withdrawal w => put_u8 0x01 ++ write_withdrawal w
  | ProtocolParamReq p => put_u8 0xFF ++ write_param_request p
  end.

Definition read_request : reader ExecutionRequest :=
  n ← remaining;
  ensure (negb (n =? 0)) (Invalid "ExecutionRequest" "Buffer is empty");;
  request_type ← try_get_u8;
  match request_type with
  | 0x00%Z => d ← read_deposit; mret (Deposit d)
  | 0x01%Z => w ← read_withdrawal; mret (Withdrawal w)
  | 0xFF%Z => p ← read_param_request; mret (ProtocolParamReq p)
  | _ => fail (Invalid "ExecutionRequest" "Unknown request type")
  end.
End with_crypto.

(** ** Well-formed requests: what the Rust types guarantee *)
Definition withdrawal_wf (w : WithdrawalRequest) : Prop :=
  length (source_address w) = 20 ∧ length (validator_pubkey w) = 32 ∧ is_u64 (wr_amount w).
Definition param_request_wf (p : ProtocolParamRequest) : Prop :=
  (0 ≤ param_id p < 256)%Z ∧ length (param p) < 256.
(** The fields of a deposit have their lengths; the keys may not decode. *)
Definition deposit_shape (d : DepositRequest) : Prop :=
  length (node_pubkey d) = 32 ∧ length (consensus_pubkey d) = 48 ∧
  length (dep_withdrawal_credentials d) = 32 ∧ is_u64 (dep_amount d) ∧
  length (node_signature d) = 64 ∧ length (consensus_signature d) = 96 ∧ is_u64 (dep_index d).

Section facts.
Context `{Crypto}.

Definition deposit_wf (d : DepositRequest) : Prop :=
  deposit_shape d ∧ ed25519_valid (node_pubkey d) = true ∧ bls_valid (consensus_pubkey d) = true.
Definition request_wf (r : ExecutionRequest) : Prop :=
  match r with
  | Deposit d => deposit_wf d
  | Withdrawal w => withdrawal_wf w
  | ProtocolParamReq p => param_request_wf p
  end.

Lemma length_write_withdrawal w : withdrawal_wf w → length (write_withdrawal w) = 76.
Proof.
  intros (H1 & H2 & _). unfold write_withdrawal. rewrite !length_app, H1, H2.
  by autorewrite with byte_length.
Qed.

Lemma length_write_deposit d : deposit_shape d → length (write_deposit d) = 288.
Proof.
  intros (H1 & H2 & H3 & _ & H4 & H5 & _). unfold write_deposit.
  rewrite !length_app, H1, H2, H3, H4, H5. by autorewrite with byte_length.
Qed.

Lemma read_header {A} (k : nat → reader A) n buf :
  n ≤ length buf → ∀ e, (m ← remaining; ensure (negb (m <? n)) e;; k m) buf = k (length buf) buf.
Proof.
  intros Hn e. erewrite reader_bind_step; [|done].
  rewrite reader_bind_step with (a := ()) (buf' := buf); [done|].
  by apply ensure_true, negb_true_iff, Nat.ltb_ge.
Qed.

Lemma read_withdrawal_app w rest :
  withdrawal_wf w → read_withdrawal (write_withdrawal w ++ rest) = Ok (w, rest).
Proof.
  intros Hwf. pose proof (length_write_withdrawal w Hwf). destruct Hwf as (H1 & H2 & H3).
  unfold read_withdrawal. rewrite read_header by (rewrite length_app; lia).
  unfold write_withdrawal. assert (length (zero_bytes 16) = 16) by apply length_zero_bytes.
  codec. by destruct w.
Qed.

Lemma read_deposit_app d rest :
  deposit_wf d → read_deposit (write_deposit d ++ rest) = Ok (d, rest).
Proof.
  intros [Hs [Hk Hb]]. pose proof (length_write_deposit d Hs).
  destruct Hs as (H1 & H2 & H3 & H4 & H5 & H6 & H7).
  unfold read_deposit. rewrite read_header by (rewrite length_app; lia).
  unfold write_deposit. codec. by destruct d.
Qed.

Lemma read_param_request_app p rest :
  param_request_wf p → read_param_request (write_param_request p ++ rest) = Ok (p, rest).
Proof.
  intros [Hid Hlen]. unfold read_param_request, write_param_request.
  rewrite Z.mod_small by lia.
  rewrite read_header by (rewrite !length_app; autorewrite with byte_length; lia).
  assert (0 ≤ Z.of_nat (length (param p)) < 256)%Z by lia.
  codec. rewrite Nat2Z.id. rewrite read_header by (rewrite length_app; lia).
  erewrite reader_bind_step; [|by apply take_bytes_app]. by destruct p.
Qed.

#[global] Instance ExecutionRequest_codec : Codec ExecutionRequest :=
  {| codec_wf := request_wf; write := write_request; read_cfg := read_request |}.

#[global] Instance ExecutionRequest_codec_ok : CodecOk ExecutionRequest.
Proof.
  intros r rest Hwf. simpl. unfold read_request. erewrite reader_bind_step; [|done].
  rewrite reader_bind_step with (a := ()) (buf' := write_request r ++ rest).
  2:{ apply ensure_true, negb_true_iff, Nat.eqb_neq.
      destruct r; simpl; rewrite !length_app; autorewrite with byte_length; lia. }
  destruct r as [d|w|p]; simpl in *; rewrite <-!(assoc_L (++)).
  - erewrite reader_bind_step; [|apply try_get_u8_app; lia]. simpl.
    by erewrite reader_bind_step; [|by apply read_deposit_app].
  - erewrite reader_bind_step; [|apply try_get_u8_app; lia]. simpl.
    by erewrite reader_bind_step; [|by apply read_withdrawal_app].
  - erewrite reader_bind_step; [|apply try_get_u8_app; lia]. simpl.
    by erewrite reader_bind_step; [|by apply read_param_request_app].
Qed.

(** *** Slice decoders *)
Lemma deposit_try_from_write d :
  deposit_shape d →
  deposit_try_from_eth_bytes (write_deposit d) =
    if negb (ed25519_valid (node_pubkey d)) then Err "Invalid ed25519 public key" else
    if negb (bls_valid (consensus_pubkey d)) then Err "Invalid BLS public key" else Ok d.
Proof.
  intros Hs. unfold deposit_try_from_eth_bytes. rewrite length_write_deposit by done.
  destruct Hs as (H1 & H2 & H3 & H4 & H5 & H6 & H7). unfold write_deposit.
  change (negb (288 =? 288)) with false. cbv iota.
  slice_solve. rewrite !from_to_le_bytes by done. by destruct d.
Qed.

Lemma withdrawal_try_from_write w :
  withdrawal_wf w → withdrawal_try_from_eth_bytes (write_withdrawal w) = Ok w.
Proof.
  intros Hwf. unfold withdrawal_try_from_eth_bytes. rewrite length_write_withdrawal by done.
  destruct Hwf as (H1 & H2 & H3). unfold write_withdrawal.
  change (negb (76 =? 76)) with false. cbv iota.
  slice_solve. rewrite from_to_le_bytes by done. by destruct w.
Qed.
End facts.

(** ** Grouped entries *)

Lemma chunks_exact_length n bs : 0 < n → Forall (λ c : bytes, length c = n) (chunks_exact n bs).
Proof.
  intros Hn. unfold chunks_exact. apply Forall_forall. intros c (i & <- & Hi%in_seq)%list_elem_of_In%in_map_iff.
  rewrite length_take, length_drop. pose proof (Nat.Div0.mul_div_le (length bs) n). nia.
Qed.
Lemma collect_Forall {E A B} (f : A → result E B) (P : A → Prop) (Q : B → Prop) l l' :
  (∀ a b, P a → f a = Ok b → Q b) → Forall P l → collect f l = Ok l' → Forall Q l'.
Proof.
  intros HPQ. revert l'. induction l as [|a l IH]; intros l' HP; simpl; [by intros [= <-]|].
  apply Forall_cons in HP as [Ha HP]. intros (b & Hb & H)%result_bind_Ok.
  apply result_bind_Ok in H as (bs & Hbs & [= <-]). constructor; [by eapply HPQ|by apply IH].
Qed.

Lemma length_concat_chunks n cs :
  Forall (λ c : bytes, length c = n) cs → length (concat cs) = length cs * n.
Proof. induction 1 as [|c cs Hc Hcs IH]; [done|]. simpl. rewrite length_app. lia. Qed.

Lemma chunks_exact_concat n cs :
  0 < n → Forall (λ c : bytes, length c = n) cs → chunks_exact n (concat cs) = cs.
Proof.
  intros Hn Hcs. unfold chunks_exact.
  rewrite (length_concat_chunks n), Nat.div_mul by (done || lia).
  induction Hcs as [|c cs Hc Hcs IH]; [done|]. simpl length. rewrite <-cons_seq.
  cbn [map concat]. rewrite Nat.mul_0_l, drop_0.
  rewrite take_app_length' by done. f_equal. rewrite <-seq_shift, map_map. rewrite <-IH at 2.
  apply map_ext. intros i. simpl. rewrite drop_app_ge by lia. do 2 f_equal. lia.
Qed.

Lemma chunks_mod n cs : 0 < n → Forall (λ c : bytes, length c = n) cs → length (concat cs) mod n = 0.
Proof. intros. rewrite (length_concat_chunks n) by done. apply Nat.Div0.mod_mul. Qed.

Lemma collect_Ok {E A B} (f : A → result E B) (g : B → A) l :
  Forall (λ b, f (g b) = Ok b) l → collect f (g <$> l) = Ok l.
Proof. induction 1 as [|b l Hb Hl IH]; [done|]. rewrite fmap_cons. cbn [collect]. by rewrite Hb, IH. Qed.

Lemma read_param_request_consumes buf p buf' :
  read_param_request buf = Ok (p, buf') → length buf' + 2 ≤ length buf.
Proof.
  unfold read_param_request. intros (n & b1 & [= <- <-] & Hr)%reader_bind_Ok.
  apply reader_bind_Ok in Hr as (? & ? & [_ ->]%ensure_Ok & Hr).
  unfold try_get_u8 in Hr.
  apply reader_bind_Ok in Hr as (? & ? & Hr1 & Hr).
  apply reader_bind_Ok in Hr1 as (bs1 & ? & [-> Hl1]%take_bytes_Ok & [= <- <-]).
  apply reader_bind_Ok in Hr as (? & ? & Hr1 & Hr).
  apply reader_bind_Ok in Hr1 as (bs2 & ? & [-> Hl2]%take_bytes_Ok & [= <- <-]).
  apply reader_bind_Ok in Hr as (? & ? & [= <- <-] & Hr).
  apply reader_bind_Ok in Hr as (? & ? & [_ ->]%ensure_Ok & Hr).
  apply reader_bind_Ok in Hr as (? & ? & [-> _]%take_bytes_Ok & [= <- <-]).
  rewrite !length_app. lia.
Qed.

Lemma param_entries_fuel n m buf :
  length buf ≤ n → length buf ≤ m → param_entries n buf = param_entries m buf.
Proof.
  revert m buf. induction n as [|n IH]; intros m buf Hn Hm.
  { destruct buf; [by destruct m|simpl in *; lia]. }
  destruct buf as [|b buf]; [by destruct m|]. destruct m as [|m]; [simpl in *; lia|].
  cbn [param_entries]. destruct (read_param_request (b :: buf)) as [[r buf']|e] eqn:E; [|done].
  apply read_param_request_consumes in E. by rewrite (IH m) by lia.
Qed.

(** The loop equation of [param_try_from_eth_entry_bytes]. *)
Lemma param_entries_step buf :
  buf ≠ [] →
  param_try_from_eth_entry_bytes buf =
    match read_param_request buf with
    | Err _ => Err "Failed to parse grouped protocol param request payload"
    | Ok (r, buf') => rs ← param_try_from_eth_entry_bytes buf'; Ok (r :: rs)
    end.
Proof.
  intros Hne. unfold param_try_from_eth_entry_bytes. destruct buf as [|b buf]; [done|].
  cbn [param_entries length]. destruct (read_param_request (b :: buf)) as [[r buf']|e] eqn:E; [|done].
  apply read_param_request_consumes in E. simpl in E. by rewrite (param_entries_fuel _ (length buf')) by lia.
Qed.

Lemma param_entries_concat ps :
  Forall param_request_wf ps →
  param_try_from_eth_entry_bytes (concat (write_param_request <$> ps)) = Ok ps.
Proof.
  induction 1 as [|p ps Hp Hps IH]; [done|]. rewrite fmap_cons. cbn [concat].
  rewrite param_entries_step by (intros E; apply (f_equal length) in E;
    unfold write_param_request in E; rewrite !length_app in E;
    autorewrite with byte_length in E; simpl in E; lia).
  rewrite read_param_request_app by done. by rewrite IH.
Qed.

Section entries.
Context `{Crypto}.

(** What becomes of one deposit of an entry: it is valid, or its refund metadata
    survives the key that does not decode. *)
Definition deposit_outcome (d : DepositRequest) : ParsedExecutionRequest :=
  let refund := mkMalformedDepositRequest (dep_withdrawal_credentials d) (dep_amount d) (dep_index d) in
  if negb (ed25519_valid (node_pubkey d)) then MalformedDeposit (refund "Invalid ed25519 public key")
  else if negb (bls_valid (consensus_pubkey d)) then MalformedDeposit (refund "Invalid BLS public key")
  else Valid (Deposit d).

Lemma parse_deposit_chunk_write d :
  deposit_shape d → parse_deposit_chunk (write_deposit d) = deposit_outcome d.
Proof.
  intros Hs. unfold parse_deposit_chunk, deposit_outcome. rewrite deposit_try_from_write by done.
  assert (slice 80 112 (write_deposit d) = dep_withdrawal_credentials d ∧
          from_le_bytes (slice 112 120 (write_deposit d)) = dep_amount d ∧
          from_le_bytes (slice 280 288 (write_deposit d)) = dep_index d) as (-> & -> & ->).
  { destruct Hs as (H1 & H2 & H3 & H4 & H5 & H6 & H7). unfold write_deposit.
    slice_solve. by rewrite !from_to_le_bytes. }
  destruct (ed25519_valid _); [|done]. by destruct (bls_valid _).
Qed.

(** What routing may rely on in a parsed request. *)
Definition parsed_wf (p : ParsedExecutionRequest) : Prop :=
  match p with
  | Valid (Deposit d) => deposit_wf d
  | Valid (Withdrawal w) => withdrawal_wf w
  | Valid (ProtocolParamReq _) => True
  | MalformedDeposit m => length (mal_withdrawal_credentials m) = 32 ∧ is_u64 (mal_amount m)
  end.

Lemma parse_deposit_chunk_wf c : length c = 288 → parsed_wf (parse_deposit_chunk c).
Proof.
  intros Hl. assert (∀ a, a + 8 ≤ 288 → is_u64 (from_le_bytes (slice a (a + 8) c))) as Hu
    by (intros a Ha; apply from_le_bytes_is_u64; rewrite length_slice by lia; lia).
  pose proof (Hu 112 ltac:(lia)) as Hu1. pose proof (Hu 280 ltac:(lia)) as Hu2. simpl in Hu1, Hu2.
  unfold parse_deposit_chunk, deposit_try_from_eth_bytes. rewrite Hl. simpl negb. cbv iota.
  assert (∀ r, parsed_wf (MalformedDeposit (mkMalformedDepositRequest (slice 80 112 c)
    (from_le_bytes (slice 112 120 c)) (from_le_bytes (slice 280 288 c)) r))) as Hm
    by (intros r; split; simpl; [rewrite length_slice by lia; done|done]).
  destruct (ed25519_valid _) eqn:H1; [|apply Hm]. destruct (bls_valid _) eqn:H2; [|apply Hm].
  unfold parsed_wf, deposit_wf, deposit_shape. simpl negb. cbv iota.
  cbn [node_pubkey consensus_pubkey dep_withdrawal_credentials dep_amount node_signature consensus_signature dep_index].
  split_and!; first [done|apply Hu1|apply Hu2|rewrite length_slice by lia; done].
Qed.

Lemma parse_eth_entry_wf bs l : parse_eth_entry bs = Ok l → Forall parsed_wf l.
Proof.
  unfold parse_eth_entry. destruct bs as [|ty body]; [done|].
  pose proof (chunks_exact_length DEPOSIT_SIZE body ltac:(unfold DEPOSIT_SIZE; lia)) as Hd.
  pose proof (chunks_exact_length WITHDRAWAL_SIZE body ltac:(unfold WITHDRAWAL_SIZE; lia)) as Hw.
  assert (withdrawal_try_from_eth_entry_bytes body ≫= (λ ws, Ok (map (λ w, Valid (Withdrawal w)) ws)) = Ok l →
    Forall parsed_wf l) as Hwd.
  { intros (ws & Hws & [= <-])%result_bind_Ok. unfold withdrawal_try_from_eth_entry_bytes in Hws.
    destruct (negb _); [done|]. apply Forall_map. eapply collect_Forall; [|exact Hw|exact Hws].
    intros c w Hc. unfold withdrawal_try_from_eth_bytes. destruct (negb _); [done|]. intros [= <-].
    unfold WITHDRAWAL_SIZE in Hc. simpl. split_and!; simpl; try (rewrite length_slice by lia; done).
    apply from_le_bytes_is_u64. rewrite length_slice by lia. done. }
  assert (param_try_from_eth_entry_bytes body ≫= (λ ps, Ok (map (λ p, Valid (ProtocolParamReq p)) ps)) = Ok l →
    Forall parsed_wf l) as Hpd.
  { intros (ps & _ & [= <-])%result_bind_Ok. apply Forall_map, Forall_forall. done. }
  destruct (byte_to_u8 ty) as [|p|]; [|do 8 (try destruct p as [p|p|]); done|done].
  destruct (negb _); [done|]. intros [= <-]. apply Forall_map. eapply Forall_impl; [exact Hd|].
  apply parse_deposit_chunk_wf.
Qed.

(** C32: One bad deposit never poisons its entry.  An EIP-7685 deposit entry with
    any number of 288-byte deposits is parsed into exactly one outcome per deposit, in
    order: the deposit itself when both of its keys decode, and otherwise a
    [MalformedDeposit] with that deposit's own withdrawal credentials, amount and
    index, whatever the other deposits of the entry are. *)
Theorem parse_eth_entry_isolates_deposits (ds : list DepositRequest) :
  Forall deposit_shape ds →
  parse_eth_entry (put_u8 0x00 ++ concat (write_deposit <$> ds)) = Ok (deposit_outcome <$> ds).
Proof.
  intros Hds. assert (Forall (λ c : bytes, length c = DEPOSIT_SIZE) (write_deposit <$> ds)).
  { apply Forall_fmap. eapply Forall_impl; [exact Hds|]. exact length_write_deposit. }
  change (put_u8 0 ++ concat (write_deposit <$> ds))
    with (Init.Byte.x00 :: concat (write_deposit <$> ds)).
  cbn [parse_eth_entry]. change (byte_to_u8 Init.Byte.x00) with 0%Z. cbv iota.
  rewrite chunks_mod by (unfold DEPOSIT_SIZE in *; done || lia). cbn [negb Nat.eqb].
  rewrite chunks_exact_concat by (unfold DEPOSIT_SIZE in *; done || lia). f_equal.
  rewrite <-list_fmap_compose. apply list_fmap_ext. intros i d Hd.
  apply parse_deposit_chunk_write. by eapply Forall_lookup_1.
Qed.

(** Grouped withdrawal and protocol-parameter entries are parsed back into
    the requests they were written from, in order. *)
Theorem parse_eth_entry_grouped (ws : list WithdrawalRequest) (ps : list ProtocolParamRequest) :
  Forall withdrawal_wf ws → Forall param_request_wf ps →
  parse_eth_entry (put_u8 0x01 ++ concat (write_withdrawal <$> ws))
    = Ok ((λ w, Valid (Withdrawal w)) <$> ws) ∧
  parse_eth_entry (put_u8 0xFF ++ concat (write_param_request <$> ps))
    = Ok ((λ p, Valid (ProtocolParamReq p)) <$> ps).
Proof.
  intros Hws Hps. assert (Forall (λ c : bytes, length c = WITHDRAWAL_SIZE) (write_withdrawal <$> ws)).
  { apply Forall_fmap. eapply Forall_impl; [exact Hws|]. exact length_write_withdrawal. }
  split.
  - change (put_u8 1 ++ ?x) with (Init.Byte.x01 :: x).
    cbn [parse_eth_entry]. change (byte_to_u8 Init.Byte.x01) with 1%Z. cbv iota.
    unfold withdrawal_try_from_eth_entry_bytes.
    rewrite chunks_mod by (unfold WITHDRAWAL_SIZE in *; done || lia). cbn [negb Nat.eqb].
    rewrite chunks_exact_concat by (unfold WITHDRAWAL_SIZE in *; done || lia).
    rewrite collect_Ok; [done|]. eapply Forall_impl; [exact Hws|]. exact withdrawal_try_from_write.
  - change (put_u8 255 ++ ?x) with (Init.Byte.xff :: x).
    cbn [parse_eth_entry]. change (byte_to_u8 Init.Byte.xff) with 255%Z. cbv iota.
    by rewrite param_entries_concat.
Qed.

Lemma param_try_from_write p :
  param_request_wf p → param_try_from_eth_bytes (write_param_request p) = Ok p.
Proof.
  intros [Hid Hlen]. unfold write_param_request. rewrite Z.mod_small by lia.
  change (put_u8 (param_id p) ++ put_u8 (Z.of_nat (length (param p))) ++ param p)
    with (u8_to_byte (param_id p) :: u8_to_byte (Z.of_nat (length (param p))) :: param p).
  unfold param_try_from_eth_bytes. rewrite !byte_to_u8_of_Z by lia. rewrite Nat2Z.id.
  cbn [length]. rewrite (proj2 (Nat.eqb_eq _ _)) by lia. cbn [negb].
  unfold slice. simpl drop. replace (2 + length (param p) - 2) with (length (param p)) by lia.
  rewrite take_ge by done. by destruct p.
Qed.

(** A request decodes from its own encoding in both decoders: the node's
    codec returns it with the rest of the buffer, and [try_from_eth_bytes] accepts the
    same bytes as an execution-layer request. *)
Theorem execution_request_roundtrip (r : ExecutionRequest) (rest : bytes) :
  request_wf r →
  read_request (write_request r ++ rest) = Ok (r, rest) ∧
  try_from_eth_bytes (write_request r) = Ok r.
Proof.
  intros Hwf. split; [exact (read_write r rest Hwf)|].
  destruct r as [d|w|p]; unfold write_request.
  - change (put_u8 0 ++ ?x) with (Init.Byte.x00 :: x). simpl.
    destruct Hwf as (Hs & Hk & Hb). rewrite deposit_try_from_write by done. by rewrite Hk, Hb.
  - change (put_u8 1 ++ ?x) with (Init.Byte.x01 :: x). simpl. by rewrite withdrawal_try_from_write.
  - change (put_u8 255 ++ ?x) with (Init.Byte.xff :: x). simpl. by rewrite param_try_from_write.
Qed.
End entries.

(** ** Instances *)
Definition demo_deposit (k : Z) : DepositRequest :=
  mkDepositRequest (replicate 32 (u8_to_byte k)) (replicate 48 (u8_to_byte k)) (zero_bytes 32)
    32000000000 (zero_bytes 64) (zero_bytes 96) k.
Definition demo_withdrawal : WithdrawalRequest :=
  mkWithdrawalRequest (zero_bytes 20) (zero_bytes 32) 5.
Definition demo_param : ProtocolParamRequest := mkProtocolParamRequest 0 (u64_to_le_bytes 7).

(** Keys are valid unless their first byte is 9. *)
Definition picky : Crypto :=
  let base := ToyCrypto.toy in
  {| ed25519_valid k := match k with b :: _ => negb (byte_to_u8 b =? 9)%Z | [] => false end;
     bls_valid := @bls_valid base;
     ed25519_sig_valid := @ed25519_sig_valid base; bls_sig_valid := @bls_sig_valid base;
     ed25519_verify := @ed25519_verify base; bls_verify := @bls_verify base;
     sha256 := @sha256 base; hash32_concat := @hash32_concat base;
     ZERO_HASHES := @ZERO_HASHES base |}.

Ltac shape_tac := repeat split; simpl; rewrite ?length_replicate, ?length_zero_bytes;
  first [reflexivity | u64_unfold; lia].

Lemma parse_eth_entry_isolates_deposits_witness :
  @parse_eth_entry picky
    (put_u8 0x00 ++ concat (write_deposit <$> [demo_deposit 1; demo_deposit 9; demo_deposit 2])) =
  Ok [Valid (Deposit (demo_deposit 1));
      MalformedDeposit (mkMalformedDepositRequest (zero_bytes 32) 32000000000 9
        "Invalid ed25519 public key");
      Valid (Deposit (demo_deposit 2))].
Proof.
  apply (@parse_eth_entry_isolates_deposits picky [demo_deposit 1; demo_deposit 9; demo_deposit 2]).
  repeat constructor; shape_tac.
Defined.

Lemma parse_eth_entry_grouped_witness :
  @parse_eth_entry picky (put_u8 0xFF ++ concat (write_param_request <$> [demo_param; demo_param]))
    = Ok [Valid (ProtocolParamReq demo_param); Valid (ProtocolParamReq demo_param)].
Proof.
  apply (@parse_eth_entry_grouped picky [demo_withdrawal] [demo_param; demo_param]);
    repeat constructor; simpl; rewrite ?length_zero_bytes, ?length_u64_to_le_bytes;
    first [reflexivity | u64_unfold; lia].
Defined.

Lemma execution_request_roundtrip_witness :
  @try_from_eth_bytes picky (write_request (Deposit (demo_deposit 3))) = Ok (Deposit (demo_deposit 3)).
Proof.
  apply (@execution_request_roundtrip picky (Deposit (demo_deposit 3)) []).
  split; [shape_tac|split; reflexivity].
Defined.
