(* ===== verification/ProtocolParams.v ===== *)
(** * ProtocolParams: protocol parameters and their bounds
    (types/src/protocol_params.rs), and the refund split of a rejected deposit
    and the withdrawal-credential format (types/src/utils.rs). *)
From S2P Require Import Prelude Codec ExecutionRequest.

Definition MIN_EPOCH_LENGTH : Z := 10.
Definition MAX_EPOCH_LENGTH : Z := 1814400.
Definition MIN_ALLOWED_TIMESTAMP_FUTURE_MS : Z := 1000.
Definition MAX_ALLOWED_TIMESTAMP_FUTURE_MS : Z := 600000.
Definition MIN_MAX_DEPOSITS_PER_EPOCH : Z := 0.
Definition MAX_MAX_DEPOSITS_PER_EPOCH : Z := 256.
Definition MAX_WITHDRAWALS_PER_EPOCH_MIN : Z := 1.
Definition MAX_WITHDRAWALS_PER_EPOCH_MAX : Z := 256.
Definition MIN_OBSERVERS_PER_VALIDATOR : Z := 0.
Definition MAX_OBSERVERS_PER_VALIDATOR : Z := 256.
Definition DEFAULT_OBSERVERS_PER_VALIDATOR : Z := 16.
Definition MIN_MINIMUM_VALIDATOR_COUNT : Z := 1.
Definition DEFAULT_MINIMUM_VALIDATOR_COUNT : Z := 3.
Definition MAX_MESSAGE_SIZE_BYTES_MIN : Z := Z.shiftl 1 20.
Definition MAX_MESSAGE_SIZE_BYTES_MAX : Z := Z.shiftl 1 30.
Definition MIN_INVALID_DEPOSIT_TAX : Z := 0.
Definition MAX_INVALID_DEPOSIT_TAX : Z := 100.
Definition MAX_PENDING_WITHDRAWALS_PER_VALIDATOR_MIN : Z := 1.
Definition MAX_PENDING_WITHDRAWALS_PER_VALIDATOR_MAX : Z := 256.
Definition DEFAULT_MAX_PENDING_WITHDRAWALS_PER_VALIDATOR : Z := 3.
Definition MIN_MAX_VALIDATOR_COUNT : Z := 1.
Definition MAX_MAX_VALIDATOR_COUNT : Z := 4096.
Definition DEFAULT_MAX_VALIDATOR_COUNT : Z := 128.

Inductive ProtocolParam :=
| MinimumStake (v : Z)
| EpochLength (v : Z)
| AllowedTimestampFuture (v : Z)
| TreasuryAddress (a : bytes)
| MaxDepositsPerEpoch (v : Z)
| MaxWithdrawalsPerEpoch (v : Z)
| ObserversPerValidator (v : Z)
| MinimumValidatorCount (v : Z)
| InvalidDepositTax (v : Z)
| MaxPendingWithdrawalsPerValidator (v : Z)
| MaxValidatorCount (v : Z).
#[global] Instance ProtocolParam_eq_dec : EqDecision ProtocolParam.
Proof. solve_decision. Defined.

Inductive ParamBoundsError :=
| ErrEpochLength (v : Z)
| ErrAllowedTimestampFuture (v : Z)
| ErrMaxDepositsPerEpoch (v : Z)
| ErrMaxWithdrawalsPerEpoch (v : Z)
| ErrObserversPerValidator (v : Z)
| ErrMaxPendingWithdrawalsPerValidator (v : Z)
| ErrMaxValidatorCount (v : Z).

Definition reason (e : ParamBoundsError) : string :=
  match e with
  | ErrEpochLength _ => "epoch length out of bounds"
  | ErrAllowedTimestampFuture _ => "allowed timestamp future out of bounds"
  | ErrMaxDepositsPerEpoch _ => "max deposits per epoch out of bounds"
  | ErrMaxWithdrawalsPerEpoch _ => "max withdrawals per epoch out of bounds"
  | ErrObserversPerValidator _ => "observers per validator out of bounds"
  | ErrMaxPendingWithdrawalsPerValidator _ => "max pending withdrawals per validator out of bounds"
  | ErrMaxValidatorCount _ => "max validator count out of bounds"
  end.

(** [(lo..=hi).contains(&v)]. *)
Definition contains (lo hi v : Z) : bool := (lo <=? v)%Z && (v <=? hi)%Z.

Definition validate (p : ProtocolParam) : result ParamBoundsError () :=
  match p with
  | EpochLength v =>
      if negb (contains MIN_EPOCH_LENGTH MAX_EPOCH_LENGTH v) then Err (ErrEpochLength v) else Ok ()
  | AllowedTimestampFuture v =>
      if negb (contains MIN_ALLOWED_TIMESTAMP_FUTURE_MS MAX_ALLOWED_TIMESTAMP_FUTURE_MS v)
      then Err (ErrAllowedTimestampFuture v) else Ok ()
  | MaxDepositsPerEpoch v =>
      if (MAX_MAX_DEPOSITS_PER_EPOCH <? v)%Z then Err (ErrMaxDepositsPerEpoch v) else Ok ()
  | MaxWithdrawalsPerEpoch v =>
      if negb (contains MAX_WITHDRAWALS_PER_EPOCH_MIN MAX_WITHDRAWALS_PER_EPOCH_MAX v)
      then Err (ErrMaxWithdrawalsPerEpoch v) else Ok ()
  | ObserversPerValidator v =>
      if (MAX_OBSERVERS_PER_VALIDATOR <? v)%Z then Err (ErrObserversPerValidator v) else Ok ()
  | MaxPendingWithdrawalsPerValidator v =>
      if negb (contains MAX_PENDING_WITHDRAWALS_PER_VALIDATOR_MIN
                 MAX_PENDING_WITHDRAWALS_PER_VALIDATOR_MAX v)
      then Err (ErrMaxPendingWithdrawalsPerValidator v) else Ok ()
  | MaxValidatorCount v =>
      if negb (contains MIN_MAX_VALIDATOR_COUNT MAX_MAX_VALIDATOR_COUNT v)
      then Err (ErrMaxValidatorCount v) else Ok ()
  | _ => Ok ()
  end.

Inductive ParseError :=
| InvalidLength (n : nat)
| OutOfBounds (e : ParamBoundsError)
| BelowMinimum (v : Z)
| TaxExceeds (v : Z)
| UnknownParamId (request : ProtocolParamRequest).

(** The 8-byte arms of the conversion: the length check, then the value. *)
Definition param_u64 (request : ProtocolParamRequest) : result ParseError Z :=
  if negb (length (param request) =? 8) then Err (InvalidLength (length (param request)))
  else Ok (from_le_bytes (param request)).
Definition validated (p : ProtocolParam) : result ParseError ProtocolParam :=
  match validate p with Ok _ => Ok p | Err e => Err (OutOfBounds e) end.

Definition try_from_request (request : ProtocolParamRequest) : result ParseError ProtocolParam :=
  match param_id request with
  | 0x00%Z => v ← param_u64 request; Ok (MinimumStake v)
  | 0x01%Z => v ← param_u64 request; validated (EpochLength v)
  | 0x02%Z => v ← param_u64 request; validated (AllowedTimestampFuture v)
  | 0x03%Z =>
      if negb (length (param request) =? 20) then Err (InvalidLength (length (param request)))
      else Ok (TreasuryAddress (param request))
  | 0x04%Z => v ← param_u64 request; validated (MaxDepositsPerEpoch v)
  | 0x05%Z => v ← param_u64 request; validated (MaxWithdrawalsPerEpoch v)
  | 0x06%Z => v ← param_u64 request; validated (ObserversPerValidator v)
  | 0x07%Z =>
      v ← param_u64 request;
      if (v <? MIN_MINIMUM_VALIDATOR_COUNT)%Z then Err (BelowMinimum v)
      else Ok (MinimumValidatorCount v)
  | 0x08%Z =>
      v ← param_u64 request;
      if (MAX_INVALID_DEPOSIT_TAX <? v)%Z then Err (TaxExceeds v) else Ok (InvalidDepositTax v)
  | 0x09%Z => v ← param_u64 request; validated (MaxPendingWithdrawalsPerValidator v)
  | 0x0A%Z => v ← param_u64 request; validated (MaxValidatorCount v)
  | _ => Err (UnknownParamId request)
  end.

(** ** Codec *)
Definition encode_size (p : ProtocolParam) : nat :=
  match p with TreasuryAddress _ => 1 + 20 | _ => 1 + 8 end.

Definition write_param (p : ProtocolParam) : bytes :=
  match p with
  | MinimumStake value => put_u8 0x00 ++ u64_to_be_bytes value
  | EpochLength value => put_u8 0x01 ++ u64_to_be_bytes value
  | AllowedTimestampFuture value => put_u8 0x02 ++ u64_to_be_bytes value
  | TreasuryAddress address => put_u8 0x03 ++ address
  | MaxDepositsPerEpoch value => put_u8 0x04 ++ u64_to_be_bytes value
  | MaxWithdrawalsPerEpoch value => put_u8 0x05 ++ u64_to_be_bytes value
  | ObserversPerValidator value => put_u8 0x06 ++ u64_to_be_bytes value
  | MinimumValidatorCount value => put_u8 0x07 ++ u64_to_be_bytes value
  | InvalidDepositTax value => put_u8 0x08 ++ u64_to_be_bytes value
  | MaxPendingWithdrawalsPerValidator value => put_u8 0x09 ++ u64_to_be_bytes value
  | MaxValidatorCount value => put_u8 0x0A ++ u64_to_be_bytes value
  end.

Definition read_validated (p : ProtocolParam) : reader ProtocolParam :=
  match validate p with
  | Ok _ => mret p
  | Err e => fail (Invalid "ProtocolParam" (reason e))
  end.

Definition read_param : reader ProtocolParam :=
  tag ← try_get_u8;
  match tag with
  | 0x00%Z => value ← try_get_u64; mret (MinimumStake value)
  | 0x01%Z => value ← try_get_u64; read_validated (EpochLength value)
  | 0x02%Z => value ← try_get_u64; read_validated (AllowedTimestampFuture value)
  | 0x03%Z => address ← take_bytes 20; mret (TreasuryAddress address)
  | 0x04%Z => value ← try_get_u64; read_validated (MaxDepositsPerEpoch value)
  | 0x05%Z => value ← try_get_u64; read_validated (MaxWithdrawalsPerEpoch value)
  | 0x06%Z => value ← try_get_u64; read_validated (ObserversPerValidator value)
  | 0x07%Z =>
      value ← try_get_u64;
      ensure (negb (value <? MIN_MINIMUM_VALIDATOR_COUNT)%Z)
        (Invalid "ProtocolParam" "minimum validator count out of bounds");;
      mret (MinimumValidatorCount value)
  | 0x08%Z =>
      value ← try_get_u64;
      ensure (contains MIN_INVALID_DEPOSIT_TAX MAX_INVALID_DEPOSIT_TAX value)
        (Invalid "ProtocolParam" "invalid deposit tax out of bounds");;
      mret (InvalidDepositTax value)
  | 0x09%Z => value ← try_get_u64; read_validated (MaxPendingWithdrawalsPerValidator value)
  | 0x0A%Z => value ← try_get_u64; read_validated (MaxValidatorCount value)
  | _ => fail (Invalid "ProtocolParam" "unknown tag")
  end.

(** The values a parameter may take: the specification every entry point has to
    enforce. *)
Definition in_bounds (p : ProtocolParam) : Prop :=
  match p with
  | MinimumStake v => is_u64 v
  | EpochLength v => (MIN_EPOCH_LENGTH ≤ v ≤ MAX_EPOCH_LENGTH)%Z
  | AllowedTimestampFuture v =>
      (MIN_ALLOWED_TIMESTAMP_FUTURE_MS ≤ v ≤ MAX_ALLOWED_TIMESTAMP_FUTURE_MS)%Z
  | TreasuryAddress a => length a = 20
  | MaxDepositsPerEpoch v => (MIN_MAX_DEPOSITS_PER_EPOCH ≤ v ≤ MAX_MAX_DEPOSITS_PER_EPOCH)%Z
  | MaxWithdrawalsPerEpoch v =>
      (MAX_WITHDRAWALS_PER_EPOCH_MIN ≤ v ≤ MAX_WITHDRAWALS_PER_EPOCH_MAX)%Z
  | ObserversPerValidator v => (MIN_OBSERVERS_PER_VALIDATOR ≤ v ≤ MAX_OBSERVERS_PER_VALIDATOR)%Z
  | MinimumValidatorCount v => (MIN_MINIMUM_VALIDATOR_COUNT ≤ v ≤ u64_max)%Z
  | InvalidDepositTax v => (MIN_INVALID_DEPOSIT_TAX ≤ v ≤ MAX_INVALID_DEPOSIT_TAX)%Z
  | MaxPendingWithdrawalsPerValidator v =>
      (MAX_PENDING_WITHDRAWALS_PER_VALIDATOR_MIN ≤ v ≤ MAX_PENDING_WITHDRAWALS_PER_VALIDATOR_MAX)%Z
  | MaxValidatorCount v => (MIN_MAX_VALIDATOR_COUNT ≤ v ≤ MAX_MAX_VALIDATOR_COUNT)%Z
  end.

#[global] Instance ProtocolParam_codec : Codec ProtocolParam :=
  {| codec_wf := in_bounds; write := write_param; read_cfg := read_param |}.

(** ** types/src/utils.rs *)
Inductive CredentialsError :=
| CredentialsLength (n : nat)
| CredentialsPrefix (b : byte)
| CredentialsFormat.

Definition parse_withdrawal_credentials (withdrawal_credentials : bytes)
  : result CredentialsError bytes :=
  if negb (length withdrawal_credentials =? 32)
  then Err (CredentialsLength (length withdrawal_credentials)) else
  let prefix := default Init.Byte.x00 (head withdrawal_credentials) in
  if negb (bool_decide (prefix = Init.Byte.x01)) then Err (CredentialsPrefix prefix) else
  if negb (forallb (λ b, bool_decide (b = Init.Byte.x00)) (slice 1 12 withdrawal_credentials))
  then Err CredentialsFormat
  else Ok (slice 12 32 withdrawal_credentials).

(** The product is taken in 128 bits; [as u64] truncates. *)
Definition invalid_deposit_refund_split (amount invalid_deposit_tax : Z) : Z * Z :=
  let tax := ((amount * invalid_deposit_tax) mod 2 ^ 128 / 100)%Z in
  let tax := (tax mod 2 ^ 64)%Z in
  (saturating_sub amount tax, tax).

(** ** Facts *)

Lemma contains_true lo hi v : contains lo hi v = true ↔ (lo ≤ v ≤ hi)%Z.
Proof. unfold contains. rewrite andb_true_iff, !Z.leb_le. done. Qed.

Ltac bounds_unfold :=
  unfold MIN_EPOCH_LENGTH, MAX_EPOCH_LENGTH, MIN_ALLOWED_TIMESTAMP_FUTURE_MS,
    MAX_ALLOWED_TIMESTAMP_FUTURE_MS, MIN_MAX_DEPOSITS_PER_EPOCH, MAX_MAX_DEPOSITS_PER_EPOCH,
    MAX_WITHDRAWALS_PER_EPOCH_MIN, MAX_WITHDRAWALS_PER_EPOCH_MAX, MIN_OBSERVERS_PER_VALIDATOR,
    MAX_OBSERVERS_PER_VALIDATOR, MIN_MINIMUM_VALIDATOR_COUNT, MIN_INVALID_DEPOSIT_TAX,
    MAX_INVALID_DEPOSIT_TAX, MAX_PENDING_WITHDRAWALS_PER_VALIDATOR_MIN,
    MAX_PENDING_WITHDRAWALS_PER_VALIDATOR_MAX, MIN_MAX_VALIDATOR_COUNT,
    MAX_MAX_VALIDATOR_COUNT in *.

(** The scalar value of a parameter, when it has one. *)
Definition param_value (p : ProtocolParam) : option Z :=
  match p with
  | TreasuryAddress _ => None
  | MinimumStake v | EpochLength v | AllowedTimestampFuture v | MaxDepositsPerEpoch v
  | MaxWithdrawalsPerEpoch v | ObserversPerValidator v | MinimumValidatorCount v
  | InvalidDepositTax v | MaxPendingWithdrawalsPerValidator v | MaxValidatorCount v => Some v
  end.
(** The two parameters whose bounds are checked outside [validate]. *)
Definition checked_elsewhere (p : ProtocolParam) : bool :=
  match p with MinimumValidatorCount _ | InvalidDepositTax _ => true | _ => false end.

Lemma validate_Ok p u :
  (∀ v, param_value p = Some v → is_u64 v) → (∀ a, p = TreasuryAddress a → length a = 20) →
  checked_elsewhere p = false → validate p = Ok u ↔ in_bounds p.
Proof.
  intros Hu Ha Hc. destruct u.
  assert (∀ v, param_value p = Some v → (0 ≤ v ≤ u64_max)%Z) as Hv by exact Hu. clear Hu.
  destruct p as [v|v|v|a|v|v|v|v|v|v|v]; simpl in *; try discriminate Hc;
    try specialize (Hv v eq_refl); try specialize (Ha a eq_refl);
    try (destruct (contains _ _ v) eqn:E; simpl;
         [apply contains_true in E
         |apply not_true_iff_false in E; rewrite contains_true in E]);
    try (destruct (Z.ltb_spec MAX_MAX_DEPOSITS_PER_EPOCH v));
    try (destruct (Z.ltb_spec MAX_OBSERVERS_PER_VALIDATOR v));
    bounds_unfold; split; intros; try done; try lia.
Qed.


Lemma validated_Ok p q :
  (∀ v, param_value p = Some v → is_u64 v) → (∀ a, p = TreasuryAddress a → length a = 20) →
  checked_elsewhere p = false → validated p = Ok q → q = p ∧ in_bounds p.
Proof.
  unfold validated. intros Hu Ha Hc. destruct (validate p) as [u|] eqn:E; [|done].
  intros [= <-]. split; [done|]. by apply (validate_Ok p u).
Qed.

Lemma read_validated_Ok p q buf rest :
  (∀ v, param_value p = Some v → is_u64 v) → (∀ a, p = TreasuryAddress a → length a = 20) →
  checked_elsewhere p = false → read_validated p buf = Ok (q, rest) → q = p ∧ in_bounds p.
Proof.
  unfold read_validated. intros Hu Ha Hc. destruct (validate p) as [u|] eqn:E; [|done].
  intros [= <- <-]. split; [done|]. by apply (validate_Ok p u).
Qed.

Lemma param_u64_Ok r v : param_u64 r = Ok v → is_u64 v.
Proof.
  unfold param_u64. destruct (Nat.eqb_spec (length (param r)) 8); [|done].
  intros [= <-]. by apply from_le_bytes_is_u64.
Qed.

(** Splits a match on a Z constant into the arms of the source. *)
Ltac match_tag H :=
  repeat match type of H with
  | context [match ?x with Z0 => _ | Zpos _ => _ | Zneg _ => _ end] =>
      is_var x; destruct x
  | context [match ?x with xI _ => _ | xO _ => _ | xH => _ end] => is_var x; destruct x
  end; try discriminate H.

Lemma try_from_request_in_bounds r p : try_from_request r = Ok p → in_bounds p.
Proof.
  unfold try_from_request. destruct r as [id pa]. cbn [param_id param]. intros E. match_tag E.
  all: try (apply result_bind_Ok in E as (v & Hv%param_u64_Ok & E)).
  all: try (eapply validated_Ok in E as [-> ?]; [done|by intros ? [= <-]|done|done]).
  all: repeat match type of E with
       | context [if ?b then _ else _] => let Hb := fresh in destruct b eqn:Hb; [discriminate E|]
       end; injection E as <-; simpl.
  all: rewrite ?negb_false_iff, ?Nat.eqb_eq, ?Z.ltb_ge in *; bounds_unfold; u64_unfold; lia || done.
Qed.

Lemma read_param_in_bounds buf p rest : read_param buf = Ok (p, rest) → in_bounds p.
Proof.
  unfold read_param. intros (tag & buf1 & _ & E)%reader_bind_Ok. match_tag E.
  all: apply reader_bind_Ok in E as (v & buf2 & Hv & E).
  all: try (apply try_get_u64_Ok in Hv as [Hv _]).
  all: try (eapply read_validated_Ok in E as [-> ?]; [done|by intros ? [= <-]|done|done]).
  all: try apply take_bytes_Ok in Hv as [_ ?].
  all: try (apply reader_bind_Ok in E as (? & ? & [Hc _]%ensure_Ok & E)).
  all: injection E as <- <-; simpl.
  all: rewrite ?negb_true_iff, ?contains_true, ?Z.ltb_ge in *; bounds_unfold; u64_unfold; lia || done.
Qed.

Lemma in_bounds_u64 p v : in_bounds p → param_value p = Some v → is_u64 v.
Proof. destruct p; simpl; intros H; intros [= <-]; bounds_unfold; u64_unfold; lia. Qed.

Lemma in_bounds_address p a : in_bounds p → p = TreasuryAddress a → length a = 20.
Proof. by intros H ->. Qed.

Lemma in_bounds_validate p : in_bounds p → validate p = Ok ().
Proof.
  intros H. destruct (checked_elsewhere p) eqn:E; [by destruct p|].
  apply validate_Ok; [by intros; eapply in_bounds_u64|by intros; eapply in_bounds_address|done|done].
Qed.

Lemma read_validated_in_bounds p buf : in_bounds p → read_validated p buf = Ok (p, buf).
Proof. intros H. unfold read_validated. by rewrite in_bounds_validate. Qed.

Lemma validated_in_bounds p : in_bounds p → validated p = Ok p.
Proof. intros H. unfold validated. by rewrite in_bounds_validate. Qed.

#[global] Instance ProtocolParam_codec_ok : CodecOk ProtocolParam.
Proof.
  intros p rest Hwf. simpl in *. unfold read_param.
  assert (∀ v, param_value p = Some v → is_u64 v) as Hv by (intros; by eapply in_bounds_u64).
  destruct p as [v|v|v|a|v|v|v|v|v|v|v]; simpl in *; rewrite <-(assoc_L (++));
    erewrite reader_bind_step by (apply try_get_u8_app; lia); cbv iota beta;
    try specialize (Hv v eq_refl);
    try (erewrite reader_bind_step by (by apply try_get_u64_app));
    try (apply read_validated_in_bounds; done); try done.
  - by erewrite reader_bind_step by (by apply take_bytes_app).
  - by rewrite reader_bind_step with (a := ()) (buf' := rest);
      [|apply ensure_true, negb_true_iff, Z.ltb_ge; lia].
  - by rewrite reader_bind_step with (a := ()) (buf' := rest);
      [|apply ensure_true, contains_true; lia].
Qed.

(** The request a parameter is sent as. *)
Definition to_request (p : ProtocolParam) : ProtocolParamRequest :=
  match p with
  | MinimumStake v => mkProtocolParamRequest 0x00 (u64_to_le_bytes v)
  | EpochLength v => mkProtocolParamRequest 0x01 (u64_to_le_bytes v)
  | AllowedTimestampFuture v => mkProtocolParamRequest 0x02 (u64_to_le_bytes v)
  | TreasuryAddress a => mkProtocolParamRequest 0x03 a
  | MaxDepositsPerEpoch v => mkProtocolParamRequest 0x04 (u64_to_le_bytes v)
  | MaxWithdrawalsPerEpoch v => mkProtocolParamRequest 0x05 (u64_to_le_bytes v)
  | ObserversPerValidator v => mkProtocolParamRequest 0x06 (u64_to_le_bytes v)
  | MinimumValidatorCount v => mkProtocolParamRequest 0x07 (u64_to_le_bytes v)
  | InvalidDepositTax v => mkProtocolParamRequest 0x08 (u64_to_le_bytes v)
  | MaxPendingWithdrawalsPerValidator v => mkProtocolParamRequest 0x09 (u64_to_le_bytes v)
  | MaxValidatorCount v => mkProtocolParamRequest 0x0A (u64_to_le_bytes v)
  end.

Lemma try_from_to_request p : in_bounds p → try_from_request (to_request p) = Ok p.
Proof.
  intros H. assert (∀ v, param_value p = Some v → is_u64 v) as Hv by (intros; by eapply in_bounds_u64).
  assert (∀ v n, is_u64 v → param_u64 (mkProtocolParamRequest n (u64_to_le_bytes v)) = Ok v) as Hp.
  { intros v n Hu. unfold param_u64. simpl. by rewrite length_u64_to_le_bytes, from_to_le_bytes. }
  unfold try_from_request.
  destruct p as [v|v|v|a|v|v|v|v|v|v|v]; simpl in *;
    try (rewrite (Hp v) by (by apply Hv)); simpl; try (by apply validated_in_bounds); try done.
  - by rewrite H.
  - by destruct (Z.ltb_spec v MIN_MINIMUM_VALIDATOR_COUNT); [lia|].
  - by destruct (Z.ltb_spec MAX_INVALID_DEPOSIT_TAX v); [lia|].
Qed.

(** C33: Out-of-bounds protocol parameters cannot enter the system.  Whatever the
    execution-request conversion or the codec accepts lies within the documented
    bounds of its parameter, and both accept every parameter that does: the codec
    reads back what it wrote, and the conversion accepts the request that carries it. *)
Theorem params_always_in_bounds (r : ProtocolParamRequest) (buf rest : bytes) (p q : ProtocolParam) :
  (try_from_request r = Ok p → in_bounds p) ∧
  (read_param buf = Ok (p, rest) → in_bounds p) ∧
  (in_bounds q →
     read_param (write_param q ++ rest) = Ok (q, rest) ∧ try_from_request (to_request q) = Ok q).
Proof.
  split_and!; [apply try_from_request_in_bounds|apply read_param_in_bounds|].
  intros Hq. split; [exact (read_write q rest Hq)|by apply try_from_to_request].
Qed.

Lemma refund_split_u64 amount tax refund taken :
  is_u64 amount → invalid_deposit_refund_split amount tax = (refund, taken) → is_u64 refund ∧ is_u64 taken.
Proof.
  unfold invalid_deposit_refund_split. intros Ha [= <- <-].
  assert (is_u64 (((amount * tax) mod 2 ^ 128 / 100) mod 2 ^ 64)%Z) as Ht.
  { pose proof (Z.mod_pos_bound ((amount * tax) mod 2 ^ 128 / 100) (2 ^ 64)). u64_unfold. lia. }
  split; [|done]. by apply saturating_sub_is_u64.
Qed.

Lemma parse_credentials_length wc a : parse_withdrawal_credentials wc = Ok a → length a = 20.
Proof.
  unfold parse_withdrawal_credentials. destruct (Nat.eqb_spec (length wc) 32); [|done]. simpl negb.
  cbv iota zeta. destruct (negb _); [done|]. destruct (negb _); [done|]. intros [= <-].
  rewrite length_slice by lia. done.
Qed.

(** A refund never creates or destroys value: with a tax of at most 100
    percent, the refund and the tax add up to the deposit, neither is negative, and
    the tax is the rounded-down percentage of the amount. *)
Theorem refund_split_conserves (amount tax : Z) :
  is_u64 amount → (MIN_INVALID_DEPOSIT_TAX ≤ tax ≤ MAX_INVALID_DEPOSIT_TAX)%Z →
  let '(refund, taken) := invalid_deposit_refund_split amount tax in
  (refund + taken = amount)%Z ∧ (0 ≤ refund)%Z ∧ taken = (amount * tax / 100)%Z ∧
  (0 ≤ taken ≤ amount)%Z.
Proof.
  intros Ha Ht. bounds_unfold. unfold invalid_deposit_refund_split. u64_unfold.
  rewrite (Z.mod_small (amount * tax)) by nia.
  assert (0 ≤ amount * tax / 100 ≤ amount)%Z.
  { split; [apply Z.div_pos; nia|]. apply Z.div_le_upper_bound; nia. }
  rewrite Z.mod_small by lia. lia.
Qed.

(** Withdrawal credentials are accepted exactly in the Eth1 format: the byte
    [0x01], eleven zero bytes and the 20-byte address that is returned. *)
Theorem parse_withdrawal_credentials_iff (wc a : bytes) :
  parse_withdrawal_credentials wc = Ok a ↔
    wc = Init.Byte.x01 :: zero_bytes 11 ++ a ∧ length a = 20.
Proof.
  unfold parse_withdrawal_credentials. split.
  - destruct (Nat.eqb_spec (length wc) 32) as [Hl|]; [|done]. simpl negb. cbv iota zeta.
    destruct wc as [|b wc]; [done|]. simpl default.
    case_bool_decide as Hb; [|done]. simpl negb. cbv iota. subst b.
    destruct (forallb _ _) eqn:Hz; [|done]. simpl negb. cbv iota. intros [= <-].
    assert (slice 1 12 (Init.Byte.x01 :: wc) = zero_bytes 11) as Hs.
    { apply list_eq_same_length with 11;
        [apply length_zero_bytes|apply length_slice; lia|].
      intros i x y Hi Hx Hy. apply (lookup_replicate_1 11) in Hy as [-> _].
      rewrite forallb_forall in Hz. apply list_elem_of_lookup_2 in Hx as Hx'.
      apply list_elem_of_In, Hz, bool_decide_eq_true in Hx'. done. }
    split; [|apply length_slice; simpl in *; lia].
    rewrite <-Hs. unfold slice. simpl. f_equal.
    rewrite (take_ge (drop 11 wc)) by (rewrite length_drop; simpl in *; lia).
    by rewrite take_drop.
  - intros [-> Hl]. change (?x :: ?y ++ ?z) with ([x] ++ y ++ z).
    rewrite !length_app, length_zero_bytes, Hl. cbn [length Nat.add Nat.eqb negb head app default].
    cbv zeta. rewrite bool_decide_true by done. cbn [negb].
    change (?x :: ?y ++ ?z) with ([x] ++ y ++ z).
    assert (length [Init.Byte.x01] = 1) by done. by slice_solve.
Qed.


Lemma refund_split_conserves_witness : invalid_deposit_refund_split 1001 7 = (931, 70)%Z.
Proof.
  destruct (refund_split_conserves 1001 7) as (H & _ & Ht & _);
    [u64_unfold; lia|bounds_unfold; lia|]. reflexivity.
Defined.

Lemma params_always_in_bounds_witness :
  in_bounds (EpochLength 20) ∧ try_from_request (to_request (EpochLength 20)) = Ok (EpochLength 20).
Proof.
  destruct (params_always_in_bounds (to_request (EpochLength 20)) [] [] (EpochLength 20) (EpochLength 20))
    as (Hp & _ & Hq).
  split; [apply Hp; reflexivity|]. apply Hq. by vm_compute.
Defined.
