(* ===== verification/Withdrawal.v ===== *)
(** * Withdrawal: the withdrawal queue (types/src/withdrawal.rs)

    Two queues in processing order (validator withdrawals and deposit refunds),
    a counter that numbers every entry, and a map counting each validator's
    outstanding entries.  [queue_ok] is the invariant the operations maintain and
    the decoder establishes. *)
From S2P Require Import Prelude Codec ExecutionRequest.

Inductive WithdrawalKind := Validator | DepositRefund.
#[global] Instance WithdrawalKind_eq_dec : EqDecision WithdrawalKind.
Proof. solve_decision. Defined.

Definition as_u8 (k : WithdrawalKind) : Z :=
  match k with Validator => 0 | DepositRefund => 1 end.
Definition kind_try_from (value : Z) : result string WithdrawalKind :=
  match value with
  | 0%Z => Ok Validator
  | 1%Z => Ok DepositRefund
  | _ => Err "invalid withdrawal kind"
  end.

Record WithdrawalKindMismatch := mkWithdrawalKindMismatch {
  existing : WithdrawalKind;
  requested : WithdrawalKind
}.

(** [alloy_eips::eip4895::Withdrawal]. *)
Record Withdrawal := mkWithdrawal {
  index : Z;
  validator_index : Z;
  address : bytes;
  amount : Z
}.
#[global] Instance Withdrawal_eq_dec : EqDecision Withdrawal.
Proof. solve_decision. Defined.

Record PendingWithdrawal := mkPendingWithdrawal {
  inner : Withdrawal;
  pubkey : bytes;
  epoch : Z;
  kind : WithdrawalKind
}.
#[global] Instance PendingWithdrawal_eq_dec : EqDecision PendingWithdrawal.
Proof. solve_decision. Defined.

(** ** Codec of an entry *)
Definition try_from (bs : bytes) : result string PendingWithdrawal :=
  if negb (length bs =? 85) then Err "PendingWithdrawal must be exactly 85 bytes" else
  match kind_try_from (from_le_bytes (slice 84 85 bs)) with
  | Err _ => Err "Failed to parse kind"
  | Ok kind =>
      Ok (mkPendingWithdrawal
            (mkWithdrawal (from_le_bytes (slice 0 8 bs)) (from_le_bytes (slice 8 16 bs))
               (slice 16 36 bs) (from_le_bytes (slice 36 44 bs)))
            (slice 44 76 bs) (from_le_bytes (slice 76 84 bs)) kind)
  end.

Definition write_pending (w : PendingWithdrawal) : bytes :=
  u64_to_le_bytes (index (inner w)) ++ u64_to_le_bytes (validator_index (inner w))
  ++ address (inner w) ++ u64_to_le_bytes (amount (inner w)) ++ pubkey w
  ++ u64_to_le_bytes (epoch w) ++ put_u8 (as_u8 (kind w)).

Definition SIZE : nat := 85.

Definition read_kind : reader WithdrawalKind :=
  b ← try_get_u8;
  match kind_try_from b with
  | Ok kind => mret kind
  | Err _ => fail (Invalid "PendingWithdrawal" "Invalid withdrawal kind")
  end.

Definition read_pending : reader PendingWithdrawal :=
  n ← remaining;
  ensure (negb (n <? 85)) (Invalid "PendingWithdrawal" "Insufficient bytes");;
  index ← get_u64_le;
  validator_index ← get_u64_le;
  address ← take_bytes 20;
  amount ← get_u64_le;
  pubkey ← take_bytes 32;
  epoch ← get_u64_le;
  kind ← read_kind;
  mret (mkPendingWithdrawal (mkWithdrawal index validator_index address amount) pubkey epoch kind).

(** ** The queue *)
Record WithdrawalQueue := mkWithdrawalQueue {
  withdrawals : list PendingWithdrawal;
  refunds : list PendingWithdrawal;
  next_index : Z;
  pending_per_pubkey : gmap bytes Z
}.
#[global] Instance WithdrawalQueue_eta : Eta WithdrawalQueue := λ q,
  mkWithdrawalQueue (withdrawals q) (refunds q) (next_index q) (pending_per_pubkey q).
#[global] Instance WithdrawalQueue_eq_dec : EqDecision WithdrawalQueue.
Proof. solve_decision. Defined.

Definition queue_default : WithdrawalQueue := mkWithdrawalQueue [] [] 0 ∅.

Definition pending_count (q : WithdrawalQueue) (pubkey : bytes) : Z :=
  default 0%Z (pending_per_pubkey q !! pubkey).

(** [*map.entry(pubkey).or_insert(0) += 1]. *)
Definition incr (pubkey : bytes) (m : gmap bytes Z) : gmap bytes Z :=
  <[pubkey := wrapping_add (default 0%Z (m !! pubkey)) 1]> m.

Definition increment_pending_count (q : WithdrawalQueue) (pubkey : bytes) : WithdrawalQueue :=
  q <| pending_per_pubkey := incr pubkey (pending_per_pubkey q) |>.

Definition decrement_pending_count (q : WithdrawalQueue) (w : PendingWithdrawal)
  : WithdrawalQueue :=
  if negb (bool_decide (kind w = Validator)) then q else
  match pending_per_pubkey q !! pubkey w with
  | Some count =>
      let count := wrapping_sub count 1 in
      let m := <[pubkey w := count]> (pending_per_pubkey q) in
      q <| pending_per_pubkey := if (count =? 0)%Z then base.delete (pubkey w) m else m |>
  | None => q
  end.

Definition deque (q : WithdrawalQueue) (kind : WithdrawalKind) : list PendingWithdrawal :=
  match kind with Validator => withdrawals q | DepositRefund => refunds q end.
Definition set_deque (q : WithdrawalQueue) (kind : WithdrawalKind) (l : list PendingWithdrawal)
  : WithdrawalQueue :=
  match kind with
  | Validator => q <| withdrawals := l |>
  | DepositRefund => q <| refunds := l |>
  end.
Definition push_back (q : WithdrawalQueue) (k : WithdrawalKind) (w : PendingWithdrawal)
  : WithdrawalQueue := set_deque q k (deque q k ++ [w]).

Definition push_withdrawal (q : WithdrawalQueue) (epoch : Z) (request : WithdrawalRequest)
  : WithdrawalQueue :=
  let index := next_index q in
  let q := q <| next_index := wrapping_add (next_index q) 1 |> in
  let pending := mkPendingWithdrawal
    (mkWithdrawal index 0 (source_address request) (wr_amount request))
    (validator_pubkey request) epoch Validator in
  let q := increment_pending_count q (pubkey pending) in
  q <| withdrawals := withdrawals q ++ [pending] |>.

Definition push_request_with_kind (q : WithdrawalQueue) (request : WithdrawalRequest) (epoch : Z)
    (kind : WithdrawalKind) : WithdrawalQueue * result WithdrawalKindMismatch bool :=
  let index := next_index q in
  let q := q <| next_index := wrapping_add (next_index q) 1 |> in
  let pending := mkPendingWithdrawal
    (mkWithdrawal index 0 (source_address request) (wr_amount request))
    (validator_pubkey request) epoch kind in
  let q := if bool_decide (kind = Validator) then increment_pending_count q (pubkey pending) else q in
  (push_back q kind pending, Ok false).

(** The [expect] cannot fail: [push_request_with_kind] returns [Ok]. *)
Definition push_request (q : WithdrawalQueue) (request : WithdrawalRequest) (epoch : Z)
  : option WithdrawalQueue :=
  match push_request_with_kind q request epoch Validator with
  | (q, Ok _) => Some q
  | (_, Err _) => None
  end.

Definition push (q : WithdrawalQueue) (withdrawal : PendingWithdrawal) : WithdrawalQueue :=
  let q := if bool_decide (kind withdrawal = Validator)
           then increment_pending_count q (pubkey withdrawal) else q in
  push_back q (kind withdrawal) withdrawal.

Definition due (at_epoch : Z) (w : PendingWithdrawal) : bool := (epoch w <=? at_epoch)%Z.

(** [deque.front().filter(|w| w.epoch <= epoch)]. *)
Definition due_front (l : list PendingWithdrawal) (at_epoch : Z) : option PendingWithdrawal :=
  match l with w :: _ => if due at_epoch w then Some w else None | [] => None end.

Definition peek_withdrawal (q : WithdrawalQueue) (current_epoch : Z) : option PendingWithdrawal :=
  due_front (withdrawals q) current_epoch.

Definition back (q : WithdrawalQueue) (kind : WithdrawalKind) : option PendingWithdrawal :=
  last (deque q kind).
Definition iter_all (q : WithdrawalQueue) : list PendingWithdrawal := withdrawals q ++ refunds q.
Definition withdrawals_iter (q : WithdrawalQueue) : list PendingWithdrawal := withdrawals q.
Definition refunds_iter (q : WithdrawalQueue) : list PendingWithdrawal := refunds q.

Definition pop_kind (q : WithdrawalQueue) (at_epoch : Z) (k : WithdrawalKind)
  : option (WithdrawalQueue * PendingWithdrawal) :=
  match deque q k with
  | w :: l =>
      if due at_epoch w then Some (decrement_pending_count (set_deque q k l) w, w) else None
  | [] => None
  end.

Definition pop (q : WithdrawalQueue) (at_epoch : Z) : option (WithdrawalQueue * PendingWithdrawal) :=
  match pop_kind q at_epoch Validator with
  | Some r => Some r
  | None => pop_kind q at_epoch DepositRefund
  end.

Definition front_is (l : list PendingWithdrawal) (i : Z) : bool :=
  match l with w :: _ => (index (inner w) =? i)%Z | [] => false end.

Definition pop_by_index (q : WithdrawalQueue) (_epoch i : Z)
  : option (WithdrawalQueue * PendingWithdrawal) :=
  if front_is (withdrawals q) i then
    match withdrawals q with
    | w :: l => Some (decrement_pending_count (q <| withdrawals := l |>) w, w)
    | [] => None
    end
  else if front_is (refunds q) i then
    match refunds q with
    | w :: l => Some (q <| refunds := l |>, w)
    | [] => None
    end
  else None.

Definition peek (q : WithdrawalQueue) (at_epoch : Z) : option PendingWithdrawal :=
  match due_front (withdrawals q) at_epoch with
  | Some w => Some w
  | None => due_front (refunds q) at_epoch
  end.

Definition get_for_epoch_by_kind (q : WithdrawalQueue) (at_epoch : Z) (k : WithdrawalKind)
  : list PendingWithdrawal := retain (due at_epoch) (deque q k).
Definition get_for_epoch (q : WithdrawalQueue) (at_epoch : Z) : list PendingWithdrawal :=
  get_for_epoch_by_kind q at_epoch Validator ++ get_for_epoch_by_kind q at_epoch DepositRefund.

Definition get_for_epoch_with_total_cap (q : WithdrawalQueue) (at_epoch : Z) (max_total : nat)
  : list PendingWithdrawal :=
  let ws := take max_total (take_while (due at_epoch) (withdrawals q)) in
  let remaining := max_total - length ws in
  ws ++ take remaining (take_while (due at_epoch) (refunds q)).

Definition count_for_epoch (q : WithdrawalQueue) (at_epoch : Z) : nat :=
  length (retain (due at_epoch) (withdrawals q)) + length (retain (due at_epoch) (refunds q)).

(** The [BTreeSet] collects the epochs in increasing order without repetition. *)
Definition epochs_with_withdrawals (q : WithdrawalQueue) : list Z :=
  merge_sort Z.le (remove_dups (epoch <$> withdrawals q ++ refunds q)).

Definition set_next_index (q : WithdrawalQueue) (i : Z) : WithdrawalQueue :=
  q <| next_index := i |>.
Definition len (q : WithdrawalQueue) : nat := length (withdrawals q) + length (refunds q).
Definition is_empty (q : WithdrawalQueue) : bool :=
  match withdrawals q, refunds q with [], [] => true | _, _ => false end.
Definition num_epochs (q : WithdrawalQueue) : nat := length (epochs_with_withdrawals q).
Definition get_withdrawal (q : WithdrawalQueue) (pk : bytes) : option PendingWithdrawal :=
  head (retain (λ w, bool_decide (pubkey w = pk)) (withdrawals q ++ refunds q)).

(** ** Codec of the queue *)
Definition flat_encode_size (d : list PendingWithdrawal) : nat := 4 + length d * SIZE.
Definition write_flat (d : list PendingWithdrawal) : bytes := write_list write_pending d.

(** The loop of [read_flat]; [indexes] is the set shared by both queues. *)
Fixpoint read_flat_loop (count : nat) (k : WithdrawalKind) (next_index prev_epoch : Z)
    (indexes : gset Z) : reader (list PendingWithdrawal * gset Z) :=
  match count with
  | 0 => mret ([], indexes)
  | S count =>
      withdrawal ← read_pending;
      ensure (bool_decide (kind withdrawal = k))
        (Invalid "WithdrawalQueue" "withdrawal kind does not match queue");;
      ensure (negb (next_index <=? index (inner withdrawal))%Z)
        (Invalid "WithdrawalQueue" "next_index must exceed pending withdrawal indexes");;
      ensure (negb (bool_decide (index (inner withdrawal) ∈ indexes)))
        (Invalid "WithdrawalQueue" "duplicate withdrawal index");;
      ensure (negb (epoch withdrawal <? prev_epoch)%Z)
        (Invalid "WithdrawalQueue" "withdrawal epochs must be non-decreasing");;
      '(deque, indexes) ← read_flat_loop count k next_index (epoch withdrawal)
                            ({[index (inner withdrawal)]} ∪ indexes);
      mret (withdrawal :: deque, indexes)
  end.
Definition read_flat (k : WithdrawalKind) (next_index : Z) (indexes : gset Z)
  : reader (list PendingWithdrawal * gset Z) :=
  count ← get_len; read_flat_loop count k next_index 0 indexes.

Definition encode_size (q : WithdrawalQueue) : nat :=
  8 + flat_encode_size (withdrawals q) + flat_encode_size (refunds q).
Definition write_queue (q : WithdrawalQueue) : bytes :=
  u64_to_be_bytes (next_index q) ++ write_flat (withdrawals q) ++ write_flat (refunds q).

Definition count_pubkeys (l : list PendingWithdrawal) : gmap bytes Z :=
  foldl (λ m w, incr (pubkey w) m) ∅ l.

Definition read_queue : reader WithdrawalQueue :=
  next_index ← try_get_u64;
  ensure (negb (next_index =? u64_max)%Z) (Invalid "WithdrawalQueue" "next_index exhausted u64 space");;
  '(withdrawals, indexes) ← read_flat Validator next_index ∅;
  '(refunds, _) ← read_flat DepositRefund next_index indexes;
  mret (mkWithdrawalQueue withdrawals refunds next_index (count_pubkeys withdrawals)).

(** ** The invariant *)

Definition of_pubkey (pk : bytes) (w : PendingWithdrawal) : bool := bool_decide (pubkey w = pk).
(** The number of entries of a validator in a list of entries. *)
Definition count_of (pk : bytes) (l : list PendingWithdrawal) : Z :=
  Z.of_nat (length (retain (of_pubkey pk) l)).
Definition counts_ok (m : gmap bytes Z) (l : list PendingWithdrawal) : Prop :=
  ∀ pk, m !! pk = if (count_of pk l =? 0)%Z then None else Some (count_of pk l).
Definition idx (w : PendingWithdrawal) : Z := index (inner w).
Definition epoch_le (w1 w2 : PendingWithdrawal) : Prop := (epoch w1 ≤ epoch w2)%Z.

Record queue_ok (q : WithdrawalQueue) : Prop := {
  q_kind_w : Forall (λ w, kind w = Validator) (withdrawals q);
  q_kind_r : Forall (λ w, kind w = DepositRefund) (refunds q);
  q_unique : NoDup (idx <$> iter_all q);
  q_index : Forall (λ w, (0 ≤ idx w < next_index q)%Z) (iter_all q);
  q_next : is_u64 (next_index q);
  q_sorted_w : StronglySorted epoch_le (withdrawals q);
  q_sorted_r : StronglySorted epoch_le (refunds q);
  q_counts : counts_ok (pending_per_pubkey q) (withdrawals q)
}.

Lemma count_of_app pk l1 l2 : count_of pk (l1 ++ l2) = (count_of pk l1 + count_of pk l2)%Z.
Proof. unfold count_of. rewrite retain_app, length_app. lia. Qed.

Lemma count_of_nonneg pk l : (0 ≤ count_of pk l)%Z.
Proof. unfold count_of. lia. Qed.

Lemma count_of_le pk l : (count_of pk l ≤ Z.of_nat (length l))%Z.
Proof. unfold count_of, retain. pose proof (List.filter_length_le (of_pubkey pk) l). lia. Qed.

Lemma count_of_singleton pk w : count_of pk [w] = if bool_decide (pubkey w = pk) then 1%Z else 0%Z.
Proof. unfold count_of, of_pubkey. simpl. by case_bool_decide. Qed.

Lemma counts_ok_default m l pk : counts_ok m l → default 0%Z (m !! pk) = count_of pk l.
Proof. intros ->. by destruct (Z.eqb_spec (count_of pk l) 0) as [->|]. Qed.

Lemma incr_counts m l w :
  counts_ok m l → (Z.of_nat (length l) < u64_max)%Z → counts_ok (incr (pubkey w) m) (l ++ [w]).
Proof.
  intros Hm Hl pk. unfold incr. rewrite (counts_ok_default m l) by done.
  pose proof (count_of_le (pubkey w) l). pose proof (count_of_nonneg (pubkey w) l).
  rewrite wrapping_add_small by (u64_unfold; lia).
  rewrite count_of_app, count_of_singleton. case_bool_decide as Hpk.
  - subst pk. rewrite lookup_insert_eq. by destruct (Z.eqb_spec (count_of (pubkey w) l + 1) 0); [lia|].
  - rewrite lookup_insert_ne by done. by rewrite Z.add_0_r, Hm.
Qed.

Lemma decr_counts q w l :
  kind w = Validator → (Z.of_nat (S (length l)) ≤ u64_max)%Z →
  counts_ok (pending_per_pubkey q) (w :: l) →
  counts_ok (pending_per_pubkey (decrement_pending_count q w)) l.
Proof.
  intros Hk Hl Hm pk. unfold decrement_pending_count. rewrite bool_decide_true by done. simpl.
  assert (Hc : ∀ p, count_of p (w :: l) = (count_of p l + if bool_decide (pubkey w = p) then 1 else 0)%Z).
  { intros p. change (w :: l) with ([w] ++ l). rewrite count_of_app, count_of_singleton. lia. }
  pose proof (count_of_le (pubkey w) l). pose proof (count_of_nonneg (pubkey w) l).
  rewrite Hm, Hc, bool_decide_true by done.
  destruct (Z.eqb_spec (count_of (pubkey w) l + 1) 0); [lia|]. simpl.
  rewrite wrapping_sub_small by (u64_unfold; lia).
  replace (count_of (pubkey w) l + 1 - 1)%Z with (count_of (pubkey w) l) by lia.
  destruct (decide (pubkey w = pk)) as [<-|Hne].
  - destruct (Z.eqb_spec (count_of (pubkey w) l) 0); [by rewrite lookup_delete_eq|by rewrite lookup_insert_eq].
  - specialize (Hm pk). rewrite Hc, bool_decide_false, Z.add_0_r in Hm by done.
    destruct (Z.eqb_spec (count_of (pubkey w) l) 0).
    + by rewrite lookup_delete_ne, lookup_insert_ne.
    + by rewrite lookup_insert_ne.
Qed.

Lemma decrement_fields q w :
  withdrawals (decrement_pending_count q w) = withdrawals q ∧
  refunds (decrement_pending_count q w) = refunds q ∧
  next_index (decrement_pending_count q w) = next_index q.
Proof.
  unfold decrement_pending_count. case_bool_decide; [|done]. simpl.
  by destruct (pending_per_pubkey q !! pubkey w).
Qed.

(** Distinct indexes below the counter leave no room for more entries than that. *)
Lemma queue_length_bound q : queue_ok q → (Z.of_nat (length (iter_all q)) ≤ next_index q)%Z.
Proof.
  intros Hq. pose proof (q_next q Hq) as Hn. rewrite <-(length_fmap idx).
  assert (length (idx <$> iter_all q) ≤ length (seqZ 0 (next_index q))) as Hle.
  { apply submseteq_length, NoDup_submseteq; [by apply q_unique|].
    intros i (w & -> & Hw)%list_elem_of_fmap. apply elem_of_seqZ.
    pose proof (q_index q Hq) as Hi. rewrite Forall_forall in Hi. specialize (Hi w Hw). lia. }
  rewrite length_seqZ in Hle. u64_unfold. lia.
Qed.

Lemma counts_empty : counts_ok ∅ [].
Proof. intros pk. done. Qed.

Lemma counts_ok_inj m1 m2 l : counts_ok m1 l → counts_ok m2 l → m1 = m2.
Proof. intros H1 H2. apply map_eq. intros pk. by rewrite H1, H2. Qed.

Lemma count_pubkeys_ok l : (Z.of_nat (length l) ≤ u64_max)%Z → counts_ok (count_pubkeys l) l.
Proof.
  unfold count_pubkeys. induction l as [|w l IH] using rev_ind; [done|].
  rewrite length_app, foldl_app. simpl. intros Hl. apply incr_counts; [apply IH; lia|u64_unfold; lia].
Qed.

Lemma queue_ok_default : queue_ok queue_default.
Proof. split; simpl; first [done | constructor | u64_solve]. Qed.

(** The result of [push_request_with_kind] is one more entry at the back. *)
Lemma push_request_spec q request e k :
  let w := mkPendingWithdrawal (mkWithdrawal (next_index q) 0 (source_address request)
             (wr_amount request)) (validator_pubkey request) e k in
  let q' := (push_request_with_kind q request e k).1 in
  deque q' k = deque q k ++ [w] ∧
  (∀ k', k' ≠ k → deque q' k' = deque q k') ∧
  next_index q' = wrapping_add (next_index q) 1 ∧
  pending_per_pubkey q' =
    match k with Validator => incr (validator_pubkey request) (pending_per_pubkey q)
    | DepositRefund => pending_per_pubkey q end.
Proof. destruct k; simpl; (split_and!; [done| |done..]); by intros []. Qed.

Lemma push_request_ok q request e k :
  queue_ok q → (next_index q < u64_max)%Z → Forall (λ w, (epoch w ≤ e)%Z) (deque q k) →
  queue_ok (push_request_with_kind q request e k).1.
Proof.
  intros Hq Hn He. pose proof (queue_length_bound q Hq) as Hlen.
  unfold iter_all in Hlen. rewrite length_app in Hlen.
  pose proof Hq as [H1 H2 H3 H4 H5 H6 H7 H8].
  destruct (push_request_spec q request e k) as (Hd & Ho & Hni & Hpp).
  revert Hd Ho Hni Hpp. generalize (push_request_with_kind q request e k).1.
  intros q' Hd Ho Hni Hpp.
  rewrite wrapping_add_small in Hni by (u64_unfold; lia).
  assert (Hall : iter_all q' ≡ₚ iter_all q ++ [mkPendingWithdrawal (mkWithdrawal (next_index q) 0
    (source_address request) (wr_amount request)) (validator_pubkey request) e k]).
  { unfold iter_all. destruct k; simpl in Hd; rewrite Hd.
    - specialize (Ho DepositRefund ltac:(done)). simpl in Ho. rewrite Ho. solve_Permutation.
    - specialize (Ho Validator ltac:(done)). simpl in Ho. rewrite Ho. solve_Permutation. }
  assert (NoDup (idx <$> iter_all q') ∧ Forall (λ w, (0 ≤ idx w < next_index q')%Z) (iter_all q')) as [Hnd Hix].
  { rewrite Hall. rewrite fmap_app. split.
    - apply NoDup_app. split_and!; [done| |apply NoDup_singleton].
      intros i (w & -> & Hw)%list_elem_of_fmap. simpl. rewrite list_elem_of_singleton.
      rewrite Forall_forall in H4. specialize (H4 w Hw). unfold idx in *. simpl. lia.
    - rewrite Hni. apply Forall_app. split; [|constructor; [unfold idx; simpl; u64_unfold; lia|constructor]].
      eapply Forall_impl; [exact H4|]. simpl. lia. }
  destruct k; simpl in Hd, He, Hpp; rewrite ?Hd.
  - specialize (Ho DepositRefund ltac:(done)). simpl in Ho.
    split; [rewrite Hd; apply Forall_app; split; [done|by constructor]|by rewrite Ho|done|done
           |rewrite Hni; u64_unfold; lia|rewrite Hd; by apply StronglySorted_snoc|by rewrite Ho|].
    rewrite Hd, Hpp. apply (incr_counts _ _ (mkPendingWithdrawal _ _ _ _)); [done|lia].
  - specialize (Ho Validator ltac:(done)). simpl in Ho.
    split; [by rewrite Ho|rewrite Hd; apply Forall_app; split; [done|by constructor]|done|done
           |rewrite Hni; u64_unfold; lia|by rewrite Ho|rewrite Hd; by apply StronglySorted_snoc|].
    by rewrite Hpp, Ho.
Qed.

(** ** Taking entries from the front *)

Lemma drop_withdrawal_ok q w l :
  queue_ok q → withdrawals q = w :: l →
  queue_ok (decrement_pending_count (q <| withdrawals := l |>) w).
Proof.
  intros Hq Hw. pose proof (queue_length_bound q Hq) as Hlen. pose proof (q_next q Hq).
  destruct Hq as [H1 H2 H3 H4 H5 H6 H7 H8]. unfold iter_all in *. rewrite Hw in *. simpl in *.
  destruct (decrement_fields (q <| withdrawals := l |>) w) as (E1 & E2 & E3). simpl in *.
  apply Forall_cons in H1 as [Hk H1]. inversion_clear H3. apply Forall_cons in H4 as [_ H4].
  inversion_clear H6.
  split; unfold iter_all; rewrite ?E1, ?E2, ?E3; try done.
  apply decr_counts; [done|rewrite length_app in Hlen; u64_unfold; lia|done].
Qed.

Lemma drop_refund_ok q w l :
  queue_ok q → refunds q = w :: l → queue_ok (q <| refunds := l |>).
Proof.
  intros [H1 H2 H3 H4 H5 H6 H7 H8] Hr. unfold iter_all in *. rewrite Hr in *.
  apply Forall_cons in H2 as [Hk H2]. inversion_clear H7.
  rewrite fmap_app, fmap_cons in H3. apply NoDup_app in H3 as (N1 & N2 & [_ N3]%NoDup_cons).
  apply Forall_app in H4 as [H4 [_ H4']%Forall_cons].
  split; unfold iter_all; simpl; try done.
  - rewrite fmap_app. apply NoDup_app. split_and!; [done| |done]. intros i Hi Hin.
    apply (N2 i Hi). by right.
  - by apply Forall_app.
Qed.

(** Pops of the entries with the given indexes, in order, as the finalizer
    replays the withdrawals of a committed block. *)
Fixpoint replay (q : WithdrawalQueue) (at_epoch : Z) (ids : list Z)
  : option (WithdrawalQueue * list PendingWithdrawal) :=
  match ids with
  | [] => Some (q, [])
  | i :: ids =>
      '(q, w) ← pop_by_index q at_epoch i;
      '(q, ws) ← replay q at_epoch ids;
      Some (q, w :: ws)
  end.

Lemma pop_by_index_withdrawal q e w l :
  withdrawals q = w :: l →
  pop_by_index q e (idx w) = Some (decrement_pending_count (q <| withdrawals := l |>) w, w).
Proof. intros Hw. unfold pop_by_index. rewrite Hw. simpl. by rewrite Z.eqb_refl. Qed.

Lemma pop_by_index_refund q e w l :
  queue_ok q → refunds q = w :: l → pop_by_index q e (idx w) = Some (q <| refunds := l |>, w).
Proof.
  intros Hq Hr. unfold pop_by_index. rewrite Hr. simpl. rewrite Z.eqb_refl.
  destruct (withdrawals q) as [|w' l'] eqn:Hw; [done|]. simpl.
  destruct (Z.eqb_spec (index (inner w')) (idx w)) as [E|]; [|done]. exfalso.
  pose proof (q_unique q Hq) as Hnd. unfold iter_all in Hnd. rewrite Hw, Hr, fmap_app in Hnd.
  apply NoDup_app in Hnd as (_ & Hd & _). apply (Hd (idx w')); [by left|]. rewrite fmap_cons.
  unfold idx at 1. rewrite E. by left.
Qed.

Lemma replay_prefix q e ws ws' rs rs' :
  queue_ok q → withdrawals q = ws ++ ws' → refunds q = rs ++ rs' →
  ∃ q', replay q e (idx <$> ws ++ rs) = Some (q', ws ++ rs) ∧ queue_ok q' ∧
    withdrawals q' = ws' ∧ refunds q' = rs' ∧ next_index q' = next_index q.
Proof.
  revert q. induction ws as [|w ws IH]; intros q Hq Hw Hr.
  - rewrite !app_nil_l. revert q Hq Hw Hr. induction rs as [|r rs IH]; intros q Hq Hw Hr.
    { by exists q. }
    rewrite fmap_cons. cbn [replay]. rewrite (pop_by_index_refund q e r (rs ++ rs')) by done.
    destruct (IH (q <| refunds := rs ++ rs' |>)) as (q' & E & Hok & Hw' & Hr' & Hn);
      [by eapply drop_refund_ok|done|done|].
    cbn [mbind option_bind]. rewrite E. eexists. split; [done|]. by rewrite Hn.
  - rewrite <-app_comm_cons, fmap_cons. cbn [replay].
    rewrite (pop_by_index_withdrawal q e w (ws ++ ws')) by done.
    pose proof (drop_withdrawal_ok q w (ws ++ ws') Hq Hw) as Hok1.
    destruct (decrement_fields (q <| withdrawals := ws ++ ws' |>) w) as (E1 & E2 & E3).
    destruct (IH _ Hok1 E1) as (q' & E & Hok & Hw' & Hr' & Hn); [by rewrite E2|].
    cbn [mbind option_bind]. rewrite E. eexists. split; [done|]. by rewrite Hn, E3.
Qed.

Lemma due_sorted at_epoch l :
  StronglySorted epoch_le l → take_while (due at_epoch) l = retain (due at_epoch) l.
Proof.
  intros Hs. apply take_while_filter. eapply StronglySorted_impl; [|exact Hs].
  unfold epoch_le, due. intros w1 w2 Hle. rewrite !Z.leb_le. lia.
Qed.

(** The selection is the due withdrawals, validators first, cut at the cap. *)
Lemma selection_spec q at_epoch n :
  queue_ok q →
  get_for_epoch_with_total_cap q at_epoch n = take n (get_for_epoch q at_epoch).
Proof.
  intros Hq. unfold get_for_epoch_with_total_cap, get_for_epoch, get_for_epoch_by_kind. simpl.
  rewrite !due_sorted by apply Hq. rewrite take_app. f_equal. rewrite length_take. f_equal. lia.
Qed.

Lemma selection_prefix q at_epoch n :
  ∃ i j, get_for_epoch_with_total_cap q at_epoch n = take i (withdrawals q) ++ take j (refunds q).
Proof.
  unfold get_for_epoch_with_total_cap. eexists _, _.
  f_equal; [apply take_while_take|apply (take_while_take _ (_ - _))].
Qed.

(** C29: The withdrawals selected for an epoch are bounded, due and fair.  Under
    the queue invariant [get_for_epoch_with_total_cap] is the due entries in queue order,
    validator withdrawals before refunds, cut at the cap: never more than the cap,
    everything when the cap allows it, and no refund while a due validator withdrawal
    is left out. *)
Theorem selection_is_capped_and_prioritised (q : WithdrawalQueue) (at_epoch : Z) (cap : nat) :
  queue_ok q →
  let sel := get_for_epoch_with_total_cap q at_epoch cap in
  sel = take cap (get_for_epoch_by_kind q at_epoch Validator
                  ++ get_for_epoch_by_kind q at_epoch DepositRefund) ∧
  length sel = cap `min` count_for_epoch q at_epoch ∧
  Forall (λ w, (epoch w ≤ at_epoch)%Z) sel ∧
  ((∃ w, w ∈ sel ∧ kind w = DepositRefund) →
     ∀ w, w ∈ withdrawals q → (epoch w ≤ at_epoch)%Z → w ∈ sel).
Proof.
  intros Hq sel. subst sel. rewrite selection_spec by done. split_and!; [done| | |].
  - rewrite length_take. unfold get_for_epoch, get_for_epoch_by_kind, count_for_epoch. simpl.
    by rewrite length_app.
  - apply Forall_take, Forall_forall. intros w. unfold get_for_epoch, get_for_epoch_by_kind.
    rewrite elem_of_app, !elem_of_retain. unfold due. rewrite !Z.leb_le. naive_solver.
  - intros (r & Hr & Hk) w Hw Hdue. unfold get_for_epoch, get_for_epoch_by_kind in *. simpl in *.
    rewrite take_app in *. apply elem_of_app. left.
    apply elem_of_app in Hr as [Hr|Hr].
    { apply (subseteq_take cap), elem_of_retain in Hr as [Hr _].
      pose proof (q_kind_w q Hq) as Hkw. rewrite Forall_forall in Hkw. rewrite (Hkw r Hr) in Hk. done. }
    rewrite take_ge; [apply elem_of_retain; split; [done|by apply Z.leb_le]|].
    destruct (cap - length (retain (due at_epoch) (withdrawals q))) eqn:E; [by apply not_elem_of_nil in Hr|lia].
Qed.

(** C30: A committed block's withdrawals leave the queue exactly as selected.
    Replaying, by index, the withdrawals selected for an epoch never misses: every
    pop returns the next selected entry, the remaining queue is the old one without
    that front part, and the queue invariant is kept. *)
Theorem replay_pops_selection (q : WithdrawalQueue) (at_epoch : Z) (cap : nat) :
  queue_ok q →
  let sel := get_for_epoch_with_total_cap q at_epoch cap in
  ∃ q' i j, replay q at_epoch (idx <$> sel) = Some (q', sel) ∧ queue_ok q' ∧
    sel = take i (withdrawals q) ++ take j (refunds q) ∧
    withdrawals q' = drop i (withdrawals q) ∧ refunds q' = drop j (refunds q) ∧
    next_index q' = next_index q.
Proof.
  intros Hq sel. destruct (selection_prefix q at_epoch cap) as (i & j & E).
  destruct (replay_prefix q at_epoch (take i (withdrawals q)) (drop i (withdrawals q))
    (take j (refunds q)) (drop j (refunds q))) as (q' & Hr & Hok & H1 & H2 & H3);
    [done|by rewrite take_drop|by rewrite take_drop|].
  exists q', i, j. unfold sel. rewrite E. naive_solver.
Qed.

(** ** The life of a queue *)

(** The operations of the running node; [floor] is the latest scheduling epoch
    used so far, which never decreases. *)
Inductive qstep : WithdrawalQueue * Z → WithdrawalQueue * Z → Prop :=
| qstep_push q floor request e k :
    (floor ≤ e)%Z → (next_index q < u64_max)%Z →
    qstep (q, floor) ((push_request_with_kind q request e k).1, e)
| qstep_pop q floor at_epoch q' w :
    pop q at_epoch = Some (q', w) → qstep (q, floor) (q', floor)
| qstep_pop_by_index q floor at_epoch i q' w :
    pop_by_index q at_epoch i = Some (q', w) → qstep (q, floor) (q', floor).

Definition below (floor : Z) (q : WithdrawalQueue) : Prop :=
  ∀ k, Forall (λ w, (epoch w ≤ floor)%Z) (deque q k).

Lemma pop_kind_ok q at_epoch k q' w :
  queue_ok q → pop_kind q at_epoch k = Some (q', w) →
  queue_ok q' ∧ deque q k = w :: deque q' k ∧ (∀ k', k' ≠ k → deque q' k' = deque q k').
Proof.
  intros Hq. unfold pop_kind. destruct (deque q k) as [|w0 l] eqn:Hd; [done|].
  destruct (due at_epoch w0); [|done]. intros [= <- <-]. destruct k; cbn [deque set_deque] in *.
  - destruct (decrement_fields (q <| withdrawals := l |>) w0) as (E1 & E2 & E3).
    split; [by apply drop_withdrawal_ok|]. simpl in *. rewrite E1. split; [done|].
    intros []; simpl; [done|by rewrite E2].
  - assert (decrement_pending_count (q <| refunds := l |>) w0 = q <| refunds := l |>) as ->.
    { unfold decrement_pending_count. rewrite bool_decide_false; [done|].
      pose proof (q_kind_r q Hq) as Hk. rewrite Hd in Hk. apply Forall_cons in Hk as [-> _]. done. }
    split; [by eapply drop_refund_ok|]. split; [done|]. by intros [].
Qed.

Lemma pop_by_index_ok q at_epoch i q' w :
  queue_ok q → pop_by_index q at_epoch i = Some (q', w) →
  queue_ok q' ∧ idx w = i ∧ ∃ k, deque q k = w :: deque q' k ∧ (∀ k', k' ≠ k → deque q' k' = deque q k').
Proof.
  intros Hq. unfold pop_by_index, front_is.
  destruct (withdrawals q) as [|w0 l] eqn:Hw.
  2:{ destruct (Z.eqb_spec (index (inner w0)) i) as [Hi|].
      { intros [= <- <-]. split; [by apply drop_withdrawal_ok|]. split; [done|]. exists Validator.
        destruct (decrement_fields (q <| withdrawals := l |>) w0) as (E1 & E2 & E3). simpl in *.
        rewrite E1. split; [done|]. intros []; simpl; [done|by rewrite E2]. }
      destruct (refunds q) as [|r0 rl] eqn:Hr; [done|].
      destruct (Z.eqb_spec (index (inner r0)) i); [|done]. intros [= <- <-].
      split; [by eapply drop_refund_ok|]. split; [done|]. exists DepositRefund. split; [done|]. by intros []. }
  destruct (refunds q) as [|r0 rl] eqn:Hr; [done|].
  destruct (Z.eqb_spec (index (inner r0)) i); [|done]. intros [= <- <-].
  split; [by eapply drop_refund_ok|]. split; [done|]. exists DepositRefund. split; [done|]. by intros [].
Qed.

Lemma below_pop floor q q' k w :
  below floor q → deque q k = w :: deque q' k → (∀ k', k' ≠ k → deque q' k' = deque q k') →
  below floor q'.
Proof.
  intros Hb Hk Ho k'. destruct (decide (k' = k)) as [->|Hne].
  - specialize (Hb k). rewrite Hk in Hb. by apply Forall_cons in Hb as [_ Hb].
  - rewrite Ho by done. apply Hb.
Qed.

Lemma qstep_ok s s' :
  queue_ok s.1 ∧ below s.2 s.1 → qstep s s' → queue_ok s'.1 ∧ below s'.2 s'.1.
Proof.
  intros [Hq Hb] Hst.
  destruct Hst as [q floor request e k Hle Hn|q floor at_epoch q' w Hp|q floor at_epoch i q' w Hp];
    cbn [fst snd] in *.
  - assert (Hbe : below e q) by (intros k'; eapply Forall_impl; [exact (Hb k')|simpl; lia]).
    split; [by apply push_request_ok|].
    destruct (push_request_spec q request e k) as (Hd & Ho & _).
    intros k'. destruct (decide (k' = k)) as [->|Hne]; [|by rewrite Ho].
    rewrite Hd. apply Forall_app. split; [done|]. constructor; [simpl; lia|constructor].
  - unfold pop in Hp. destruct (pop_kind q at_epoch Validator) as [[q1 w1]|] eqn:E; simplify_eq.
    + apply pop_kind_ok in E as (Hok & Hk & Ho); [|done]. split; [done|by eapply below_pop].
    + apply pop_kind_ok in Hp as (Hok & Hk & Ho); [|done]. split; [done|by eapply below_pop].
  - apply pop_by_index_ok in Hp as (Hok & _ & k & Hk & Ho); [|done]. split; [done|by eapply below_pop].
Qed.

(** C31: The queue keeps its books.  In every state the node's operations can
    reach from the empty queue, as long as scheduling epochs do not go backwards and the
    index counter is not exhausted: indexes are unique and below the counter, each queue
    holds its own kind in epoch order, and [pending_count] of a key is exactly the number
    of outstanding validator withdrawals of that key. *)
Theorem queue_invariant (q : WithdrawalQueue) (floor : Z) :
  rtc qstep (queue_default, 0%Z) (q, floor) →
  queue_ok q ∧
  ∀ pk, pending_count q pk = Z.of_nat (length (retain (of_pubkey pk) (withdrawals q))).
Proof.
  intros Hrtc. assert (queue_ok (q, floor).1 ∧ below (q, floor).2 (q, floor).1) as [Hq _].
  { revert Hrtc. generalize (q, floor). eapply rtc_ind_r.
    - split; [apply queue_ok_default|]. intros []; constructor.
    - intros. by eapply qstep_ok. }
  split; [done|]. intros pk. exact (counts_ok_default _ _ pk (q_counts q Hq)).
Qed.

(** ** Wire format *)

Definition pending_wf (w : PendingWithdrawal) : Prop :=
  is_u64 (index (inner w)) ∧ is_u64 (validator_index (inner w)) ∧
  length (address (inner w)) = 20 ∧ is_u64 (amount (inner w)) ∧ length (pubkey w) = 32 ∧
  is_u64 (epoch w).

Lemma length_write_pending w : pending_wf w → length (write_pending w) = SIZE.
Proof.
  intros (_ & _ & H1 & _ & H2 & _). unfold write_pending. rewrite !length_app, H1, H2.
  by autorewrite with byte_length.
Qed.

Lemma read_kind_app k rest : read_kind (put_u8 (as_u8 k) ++ rest) = Ok (k, rest).
Proof.
  unfold read_kind. erewrite reader_bind_step; [|apply try_get_u8_app; destruct k; simpl; lia].
  by destruct k.
Qed.
#[local] Hint Resolve read_kind_app : codec.

Lemma read_pending_app w rest :
  pending_wf w → read_pending (write_pending w ++ rest) = Ok (w, rest).
Proof.
  intros Hwf. pose proof (length_write_pending w Hwf) as Hlen. unfold SIZE in Hlen.
  destruct Hwf as (H1 & H2 & H3 & H4 & H5 & H6).
  unfold read_pending. rewrite read_header by (rewrite length_app; lia).
  unfold write_pending. codec. by destruct w as [[]].
Qed.

Lemma read_pending_wf buf w rest : read_pending buf = Ok (w, rest) → pending_wf w.
Proof.
  unfold read_pending. intros H.
  repeat match goal with
  | H : (_ ≫= _) _ = Ok _ |- _ => apply reader_bind_Ok in H as (? & ? & ? & H)
  | H : ensure _ _ _ = Ok _ |- _ => apply ensure_Ok in H as [_ ->]
  | H : remaining _ = Ok _ |- _ => injection H as <- <-
  | H : get_u64_le _ = Ok _ |- _ => apply get_u64_le_Ok in H as [? ->]
  | H : take_bytes _ _ = Ok _ |- _ => apply take_bytes_Ok in H as [-> ?]
  end.
  injection H as <- _. done.
Qed.

#[global] Instance PendingWithdrawal_codec : Codec PendingWithdrawal :=
  {| codec_wf := pending_wf; write := write_pending; read_cfg := read_pending |}.
#[global] Instance PendingWithdrawal_codec_ok : CodecOk PendingWithdrawal.
Proof. intros w rest. apply read_pending_app. Qed.

(** What [read_flat] accepts: the queue's kind, indexes below the counter and new,
    epochs from [prev] on, in order. *)
Definition flat_ok (k : WithdrawalKind) (next_index prev : Z) (indexes : gset Z)
    (l : list PendingWithdrawal) : Prop :=
  Forall (λ w, kind w = k ∧ (idx w < next_index)%Z ∧ (prev ≤ epoch w)%Z ∧ idx w ∉ indexes) l ∧
  NoDup (idx <$> l) ∧ StronglySorted epoch_le l.

Lemma flat_ok_cons k ni prev ixs w l :
  flat_ok k ni prev ixs (w :: l) ↔
    kind w = k ∧ (idx w < ni)%Z ∧ (prev ≤ epoch w)%Z ∧ idx w ∉ ixs ∧
    flat_ok k ni (epoch w) ({[idx w]} ∪ ixs) l.
Proof.
  unfold flat_ok. rewrite Forall_cons, fmap_cons, NoDup_cons. split.
  - intros (((? & ? & ? & ?) & Hall) & [Hn Hnd] & Hs). inversion_clear Hs as [|? ? Hs' Hw].
    split_and!; [done..| |done|done]. rewrite !Forall_forall in *. intros w' Hw'.
    destruct (Hall w' Hw') as (? & ? & ? & ?). split_and!; [done|done|by apply Hw|].
    rewrite not_elem_of_union, elem_of_singleton. split; [|done]. intros E. apply Hn. rewrite <-E.
    by apply list_elem_of_fmap_2.
  - intros (? & ? & ? & ? & Hf & Hnd & Hs). split_and!; try done.
    + eapply Forall_impl; [exact Hf|]. simpl. intros w' (? & ? & ? & Hn).
      rewrite not_elem_of_union in Hn. naive_solver lia.
    + intros (w' & E & Hw')%list_elem_of_fmap. rewrite Forall_forall in Hf.
      destruct (Hf w' Hw') as (_ & _ & _ & Hn). rewrite E in Hn. set_solver.
    + constructor; [done|]. eapply Forall_impl; [exact Hf|]. unfold epoch_le. naive_solver.
Qed.

Lemma read_flat_loop_app k ni l : ∀ prev ixs rest,
  Forall pending_wf l → flat_ok k ni prev ixs l →
  read_flat_loop (length l) k ni prev ixs (concat (write_pending <$> l) ++ rest)
    = Ok ((l, list_to_set (idx <$> l) ∪ ixs), rest).
Proof.
  induction l as [|w l IH]; intros prev ixs rest Hwf Hok.
  { simpl. by rewrite (left_id_L ∅ (∪)). }
  apply Forall_cons in Hwf as [Hw Hwf]. apply flat_ok_cons in Hok as (Hk & Hi & Hp & Hn & Hok).
  cbn [length read_flat_loop]. rewrite fmap_cons. cbn [concat]. rewrite <-(assoc_L (++)).
  erewrite reader_bind_step by (by apply read_pending_app).
  erewrite reader_bind_step by (by apply ensure_true, bool_decide_eq_true).
  erewrite reader_bind_step by (apply ensure_true, negb_true_iff, Z.leb_gt; exact Hi).
  erewrite reader_bind_step by (apply ensure_true, negb_true_iff, bool_decide_eq_false; exact Hn).
  erewrite reader_bind_step by (apply ensure_true, negb_true_iff, Z.ltb_ge; exact Hp).
  erewrite reader_bind_step by (by apply IH). unfold mret, reader_ret. do 3 f_equal.
  rewrite fmap_cons. set_solver.
Qed.

Lemma read_flat_loop_Ok k ni n : ∀ prev ixs buf l ixs' rest,
  read_flat_loop n k ni prev ixs buf = Ok ((l, ixs'), rest) →
  flat_ok k ni prev ixs l ∧ Forall pending_wf l ∧ ixs' = list_to_set (idx <$> l) ∪ ixs.
Proof.
  induction n as [|n IH]; intros prev ixs buf l ixs' rest; cbn [read_flat_loop].
  { intros [= <- <- <-]. split; [|split; [constructor|set_solver]].
    split_and!; [constructor|constructor|constructor]. }
  intros (w & b1 & Hw%read_pending_wf & H)%reader_bind_Ok.
  apply reader_bind_Ok in H as (? & ? & [Hk%bool_decide_eq_true ->]%ensure_Ok & H).
  apply reader_bind_Ok in H as (? & ? & [Hi ->]%ensure_Ok & H).
  apply reader_bind_Ok in H as (? & ? & [Hn ->]%ensure_Ok & H).
  apply reader_bind_Ok in H as (? & ? & [Hp ->]%ensure_Ok & H).
  apply reader_bind_Ok in H as ([l1 ixs1] & ? & (Hf & Hwf & ->)%IH & [= <- <- <-]).
  rewrite negb_true_iff in *. apply Z.leb_gt in Hi. apply bool_decide_eq_false in Hn.
  apply Z.ltb_ge in Hp. split_and!; [|by constructor|rewrite fmap_cons; set_solver].
  by apply flat_ok_cons.
Qed.

(** The queues the codec round-trips: those of the invariant, with Rust's field
    ranges, whose counter is not exhausted. *)
Definition queue_wf (q : WithdrawalQueue) : Prop :=
  queue_ok q ∧ Forall pending_wf (iter_all q) ∧ (next_index q < u64_max)%Z ∧
  len_ok (length (withdrawals q)) ∧ len_ok (length (refunds q)).

#[global] Instance WithdrawalQueue_codec : Codec WithdrawalQueue :=
  {| codec_wf := queue_wf; write := write_queue; read_cfg := read_queue |}.

Lemma queue_ok_flat q :
  queue_ok q → Forall pending_wf (iter_all q) →
  flat_ok Validator (next_index q) 0 ∅ (withdrawals q) ∧
  flat_ok DepositRefund (next_index q) 0 (list_to_set (idx <$> withdrawals q) ∪ ∅) (refunds q).
Proof.
  intros [H1 H2 H3 H4 H5 H6 H7 H8] Hwf. unfold iter_all in *. rewrite fmap_app in H3.
  apply NoDup_app in H3 as (N1 & N2 & N3). apply Forall_app in H4 as [H4 H4'].
  apply Forall_app in Hwf as [Hwf Hwf']. split; (split_and!; [|done|done]); rewrite !Forall_forall in *.
  - intros w Hw. specialize (Hwf w Hw). unfold pending_wf in Hwf. u64_unfold.
    split_and!; [by apply H1|by apply H4|lia|set_solver].
  - intros w Hw. specialize (Hwf' w Hw). unfold pending_wf in Hwf'. u64_unfold.
    split_and!; [by apply H2|by apply H4'|lia|].
    rewrite elem_of_union, elem_of_list_to_set. intros [Hin|Hin]; [|set_solver].
    apply (N2 (idx w) Hin). by apply list_elem_of_fmap_2.
Qed.

#[global] Instance WithdrawalQueue_codec_ok : CodecOk WithdrawalQueue.
Proof.
  intros q rest (Hok & Hwf & Hn & Hl1 & Hl2). simpl.
  destruct (queue_ok_flat q Hok Hwf) as [Hf1 Hf2]. apply Forall_app in Hwf as [Hwf1 Hwf2].
  pose proof (q_next q Hok) as Hnx. unfold read_queue, write_queue, write_flat, write_list.
  assert (negb (next_index q =? u64_max)%Z = true) by (apply negb_true_iff, Z.eqb_neq; lia).
  codec. unfold read_flat. rewrite <-?(assoc_L (++)).
  erewrite reader_bind_step; [|erewrite reader_bind_step by (by apply get_len_app); by apply read_flat_loop_app].
  cbv beta iota.
  erewrite reader_bind_step; [|erewrite reader_bind_step by (by apply get_len_app); by apply read_flat_loop_app].
  unfold mret, reader_ret. do 2 f_equal. destruct q as [ws rs ni m]. f_equal. simpl in *.
  eapply counts_ok_inj; [apply count_pubkeys_ok|apply (q_counts _ Hok)].
  pose proof (queue_length_bound _ Hok) as Hlen. unfold iter_all in Hlen. simpl in *.
  rewrite length_app in Hlen. lia.
Qed.

Lemma flat_ok_queue ws rs ni ixs :
  is_u64 ni → Forall pending_wf ws → Forall pending_wf rs →
  flat_ok Validator ni 0 ∅ ws → ixs = list_to_set (idx <$> ws) ∪ ∅ →
  flat_ok DepositRefund ni 0 ixs rs → queue_ok (mkWithdrawalQueue ws rs ni (count_pubkeys ws)).
Proof.
  intros Hni Hw Hr (F1 & N1 & S1) -> (F2 & N2 & S2).
  assert (Hu : NoDup (idx <$> ws ++ rs)).
  { rewrite fmap_app. apply NoDup_app. split_and!; [done| |done]. intros i Hi (w & -> & Hin)%list_elem_of_fmap.
    rewrite Forall_forall in F2. destruct (F2 w Hin) as (_ & _ & _ & Hn). set_solver. }
  assert (Hix : Forall (λ w, (0 ≤ idx w < ni)%Z) (ws ++ rs)).
  { rewrite Forall_forall in *. intros w [Hin|Hin]%elem_of_app.
    - destruct (F1 w Hin) as (_ & ? & _), (Hw w Hin) as (? & _). unfold idx in *. u64_unfold. lia.
    - destruct (F2 w Hin) as (_ & ? & _), (Hr w Hin) as (? & _). unfold idx in *. u64_unfold. lia. }
  assert (Hq : ∀ m, counts_ok m ws → queue_ok (mkWithdrawalQueue ws rs ni m)).
  { intros m Hm. split; simpl; try done.
    - eapply Forall_impl; [exact F1|]. naive_solver.
    - eapply Forall_impl; [exact F2|]. naive_solver. }
  apply Hq, count_pubkeys_ok. rewrite <-(length_fmap idx).
  rewrite fmap_app in Hu. apply NoDup_app in Hu as (Hu & _).
  assert (length (idx <$> ws) ≤ length (seqZ 0 ni)) as Hle.
  { apply submseteq_length, NoDup_submseteq; [done|]. intros i (w & -> & Hin)%list_elem_of_fmap.
    apply elem_of_seqZ. rewrite Forall_app, !Forall_forall in Hix. destruct Hix as [Hix _].
    specialize (Hix w Hin). lia. }
  rewrite length_seqZ in Hle. u64_unfold. lia.
Qed.

(** The queue survives a restart and cannot be corrupted on disk.  Encoding
    and decoding a queue of the invariant returns it, counts included, in the announced
    number of bytes; and whatever bytes the decoder accepts, the queue it returns
    satisfies the invariant, with an index counter that can still be advanced. *)
Theorem queue_codec_roundtrip (q q' : WithdrawalQueue) (buf rest : bytes) :
  (queue_wf q → read_queue (write_queue q ++ rest) = Ok (q, rest) ∧
                length (write_queue q) = encode_size q) ∧
  (read_queue buf = Ok (q', rest) → queue_ok q' ∧ (next_index q' < u64_max)%Z).
Proof.
  split.
  - intros Hwf. split; [exact (read_write q rest Hwf)|].
    destruct Hwf as (_ & [Hw Hr]%Forall_app & _).
    unfold write_queue, write_flat, write_list, encode_size, flat_encode_size.
    rewrite !length_app, !(length_concat_const _ SIZE), !length_u64_to_be_bytes, !length_put_len; [lia| |].
    + intros w Hin. apply length_write_pending. rewrite Forall_forall in Hr. auto.
    + intros w Hin. apply length_write_pending. rewrite Forall_forall in Hw. auto.
  - unfold read_queue. intros (ni & ? & [Hni _]%try_get_u64_Ok & H)%reader_bind_Ok.
    apply reader_bind_Ok in H as (? & ? & [Hn ->]%ensure_Ok & H).
    apply reader_bind_Ok in H as ([ws ix1] & ? & H1 & H).
    apply reader_bind_Ok in H as ([rs ix2] & ? & H2 & [= <- <-]).
    unfold read_flat in *. apply reader_bind_Ok in H1 as (? & ? & _ & (F1 & W1 & E1)%read_flat_loop_Ok).
    apply reader_bind_Ok in H2 as (? & ? & _ & (F2 & W2 & E2)%read_flat_loop_Ok).
    split; [by eapply flat_ok_queue|]. apply negb_true_iff, Z.eqb_neq in Hn. simpl. u64_unfold. lia.
Qed.

Lemma kind_byte k : kind_try_from (from_le_bytes (put_u8 (as_u8 k))) = Ok k.
Proof. by destruct k. Qed.

Lemma try_from_write w : pending_wf w → try_from (write_pending w) = Ok w.
Proof.
  intros Hwf. unfold try_from. rewrite length_write_pending by done. cbn [Nat.eqb SIZE negb].
  destruct Hwf as (H1 & H2 & H3 & H4 & H5 & H6). unfold write_pending.
  assert (length (put_u8 (as_u8 (kind w))) = 1) by apply length_put_u8.
  slice_solve. rewrite kind_byte, !from_to_le_bytes by done. by destruct w as [[]].
Qed.

(** ** Instances *)
Definition demo_request (n : Z) : WithdrawalRequest :=
  mkWithdrawalRequest (zero_bytes 20) (replicate 32 (u8_to_byte n)) (100 * n).
Definition demo_queue : WithdrawalQueue :=
  let q := (push_request_with_kind queue_default (demo_request 1) 3 Validator).1 in
  let q := (push_request_with_kind q (demo_request 2) 4 DepositRefund).1 in
  (push_request_with_kind q (demo_request 1) 5 Validator).1.

Lemma demo_queue_ok : queue_ok demo_queue.
Proof.
  unfold demo_queue.
  repeat (apply push_request_ok; [|vm_compute; done|repeat constructor; simpl; lia]).
  apply queue_ok_default.
Qed.

Lemma selection_is_capped_and_prioritised_witness :
  length (get_for_epoch_with_total_cap demo_queue 4 1) = 1 `min` count_for_epoch demo_queue 4 ∧
  count_for_epoch demo_queue 4 = 2.
Proof.
  split; [|reflexivity].
  apply (selection_is_capped_and_prioritised demo_queue 4 1 demo_queue_ok).
Defined.

Lemma replay_pops_selection_witness :
  ∃ q', replay demo_queue 4 (idx <$> get_for_epoch_with_total_cap demo_queue 4 9)
          = Some (q', get_for_epoch_with_total_cap demo_queue 4 9).
Proof.
  destruct (replay_pops_selection demo_queue 4 9 demo_queue_ok) as (q' & i & j & E & _).
  by exists q'.
Defined.

Lemma queue_invariant_witness : pending_count demo_queue (replicate 32 (u8_to_byte 1)) = 2%Z.
Proof.
  refine (eq_trans (proj2 (queue_invariant demo_queue 5 _) _) _); [|by vm_compute].
  eapply rtc_l; [apply (qstep_push _ _ (demo_request 1) 3 Validator); [lia|vm_compute; done]|].
  eapply rtc_l; [apply (qstep_push _ _ (demo_request 2) 4 DepositRefund); [lia|vm_compute; done]|].
  eapply rtc_l; [apply (qstep_push _ _ (demo_request 1) 5 Validator); [lia|vm_compute; done]|].
  apply rtc_refl.
Defined.

Lemma queue_codec_roundtrip_witness : read_queue (write_queue demo_queue ++ []) = Ok (demo_queue, []).
Proof.
  apply (queue_codec_roundtrip demo_queue demo_queue [] []).
  split_and!; [apply demo_queue_ok| |vm_compute; done|vm_compute; done|vm_compute; done].
  repeat constructor; vm_compute; first [done | intuition congruence].
Defined.
