(* ===== verification/SszTree.v ===== *)
(** * SszTree: the array-based Merkle tree (types/src/ssz_tree.rs)

    The tree is a flat vector of 32-byte nodes: index 0 is a sentinel, 1 the
    root, [2*i] and [2*i+1] the children of [i], and the leaves fill
    [capacity .. 2*capacity).  Indices are [usize]s, modelled as [nat]; an index
    out of range panics, so every operation that indexes is an [option].

    The abstraction is the vector of leaves: [tree_of d l] is the one
    well-formed tree of depth [d] with leaves [l] ([wf_tree_of]), and each
    operation is characterised by what it does to the leaves. *)
From S2P Require Import Prelude Crypto.

Record SszTree := mkSszTree {
  nodes : list bytes;
  capacity : nat;
  depth : nat
}.
#[global] Instance SszTree_eta : Eta SszTree := λ t, mkSszTree (nodes t) (capacity t) (depth t).
#[global] Instance SszTree_eq_dec : EqDecision SszTree.
Proof. solve_decision. Defined.

(** [usize::next_power_of_two]; [ilog2] of a positive number is [Nat.log2]. *)
Definition next_power_of_two (n : nat) : nat := 2 ^ Nat.log2_up n.

Definition zero32 : bytes := zero_bytes 32.

(** [nodes[i] = v]: an index out of range panics. *)
Definition set_node (ns : list bytes) (i : nat) (v : bytes) : option (list bytes) :=
  if decide (i < length ns) then Some (<[i := v]> ns) else None.

(** [nodes.copy_within(src..src_end, dst)] (a memmove: the source is read first). *)
Definition copy_within (ns : list bytes) (src src_end dst : nat) : option (list bytes) :=
  let len := src_end - src in
  if decide (src ≤ src_end ∧ src_end ≤ length ns ∧ dst + len ≤ length ns)
  then Some (take dst ns ++ take len (drop src ns) ++ drop (dst + len) ns)
  else None.

Section with_crypto.
Context `{Crypto}.

Definition new (num_leaves : nat) : option SszTree :=
  let capacity := next_power_of_two num_leaves `max` 1 in
  let depth := Nat.log2 capacity in
  let nodes := replicate (2 * capacity) zero32 in
  nodes ← for_each (λ ns d,
      let start := Nat.shiftr capacity d in
      let end_ := Nat.shiftr capacity (d - 1) in
      for_each (λ ns i, set_node ns i (ZERO_HASHES d)) ns (range start end_))
    nodes (range 1 (S depth));
  Some (mkSszTree nodes capacity depth).

Definition root (t : SszTree) : option bytes :=
  if capacity t =? 0 then Some zero32 else nodes t !! 1.

Definition get_leaf (t : SszTree) (leaf_index : nat) : option bytes :=
  nodes t !! (capacity t + leaf_index).
Definition get_node (t : SszTree) (node_index : nat) : option bytes := nodes t !! node_index.

(** [while idx > 1]: the index halves in every iteration, so a fuel of its
    logarithm is enough. *)
Fixpoint proof_loop (fuel : nat) (ns : list bytes) (idx : nat) : option (list bytes) :=
  if idx <=? 1 then Some [] else
  match fuel with
  | 0 => None
  | S fuel =>
      sibling ← ns !! Nat.lxor idx 1;
      proof ← proof_loop fuel ns (idx / 2);
      Some (sibling :: proof)
  end.
Definition generate_proof_from_node (t : SszTree) (node_index : nat) : option (list bytes) :=
  proof_loop (Nat.log2 node_index) (nodes t) node_index.

(** [nodes[i] = hash32_concat(&nodes[2*i], &nodes[2*i+1])]. *)
Definition rehash (ns : list bytes) (i : nat) : option (list bytes) :=
  l ← ns !! (2 * i);
  r ← ns !! (2 * i + 1);
  set_node ns i (hash32_concat l r).

Fixpoint rehash_path (fuel : nat) (ns : list bytes) (i : nat) : option (list bytes) :=
  if i <=? 1 then Some ns else
  match fuel with
  | 0 => None
  | S fuel => ns ← rehash ns (i / 2); rehash_path fuel ns (i / 2)
  end.

Definition set_leaf (t : SszTree) (leaf_index : nat) (value : bytes) : option SszTree :=
  let i := capacity t + leaf_index in
  ns ← set_node (nodes t) i value;
  ns ← rehash_path (Nat.log2 i) ns i;
  Some (t <| nodes := ns |>).

Definition set_leaf_no_rehash (t : SszTree) (leaf_index : nat) (value : bytes) : option SszTree :=
  ns ← set_node (nodes t) (capacity t + leaf_index) value;
  Some (t <| nodes := ns |>).

(** A run of leaf writes, each with its rehash, or all without. *)
Definition set_leaves (t : SszTree) (ws : list (nat * bytes)) : option SszTree :=
  for_each (λ t '(i, v), set_leaf t i v) t ws.
Definition set_leaves_no_rehash (t : SszTree) (ws : list (nat * bytes)) : option SszTree :=
  for_each (λ t '(i, v), set_leaf_no_rehash t i v) t ws.
(** The writes of an item whose fields start at leaf [base]. *)
Definition offset (base : nat) (ws : list (nat * bytes)) : list (nat * bytes) :=
  map (λ '(i, v), (base + i, v)) ws.

(** [if i * 2 + 1 < nodes.len() { nodes[i] = .. }]. *)
Definition rehash_guarded (ns : list bytes) (i : nat) : option (list bytes) :=
  if i * 2 + 1 <? length ns then rehash ns i else Some ns.

Fixpoint rehash_from_loop (fuel : nat) (ns : list bytes) (level_start : nat)
  : option (list bytes) :=
  if level_start =? 0 then Some ns else
  match fuel with
  | 0 => None
  | S fuel =>
      let level_end := level_start * 2 in
      ns ← for_each rehash_guarded ns (range level_start level_end);
      if level_start =? 1 then Some ns else rehash_from_loop fuel ns (level_start / 2)
  end.
Definition rehash_from (t : SszTree) (start_index : nat) : option SszTree :=
  ns ← rehash_from_loop (S (Nat.log2 start_index)) (nodes t) start_index;
  Some (t <| nodes := ns |>).

Definition rehash_block (t : SszTree) (slot block_size : nat) : option SszTree :=
  let log_block := Nat.log2 block_size in
  ns ← for_each (λ ns level,
      let stride := Nat.shiftr block_size level in
      let base := Nat.shiftr (capacity t) level in
      let start := base + slot * stride in
      for_each rehash ns (range start (start + stride)))
    (nodes t) (range 1 (S log_block));
  Some (t <| nodes := ns |>).

Fixpoint rehash_position_loop (fuel : nat) (ns : list bytes) (ls from : nat)
  : option (list bytes) :=
  match fuel with
  | 0 => None
  | S fuel =>
      let level_end := ls * 2 in
      ns ← for_each rehash_guarded ns (range from level_end);
      if ls <=? 1 then Some ns else rehash_position_loop fuel ns (ls / 2) (from / 2)
  end.
Definition rehash_from_position (t : SszTree) (level_start from_node : nat) : option SszTree :=
  if level_start =? 0 then Some t else
  ns ← rehash_position_loop (S (Nat.log2 level_start)) (nodes t) level_start from_node;
  Some (t <| nodes := ns |>).

(** Zeroes [start .. start + n). *)
Definition zero_range (ns : list bytes) (start n : nat) : option (list bytes) :=
  for_each (λ ns i, set_node ns i zero32) ns (range start (start + n)).

Definition shift_blocks_right (t : SszTree) (from_slot count block_size : nat) : option SszTree :=
  if count =? 0 then Some t else
  let log_block := Nat.log2 block_size in
  ns ← for_each (λ ns level,
      let stride := Nat.shiftr block_size level in
      let base := Nat.shiftr (capacity t) level in
      let src_start := base + from_slot * stride in
      let src_end := src_start + count * stride in
      let dst_start := src_start + stride in
      ns ← copy_within ns src_start src_end dst_start;
      zero_range ns src_start stride)
    (nodes t) (range 0 (S log_block));
  Some (t <| nodes := ns |>).

Definition shift_blocks_left (t : SszTree) (from_slot count block_size : nat) : option SszTree :=
  if count =? 0 then Some t else
  let log_block := Nat.log2 block_size in
  ns ← for_each (λ ns level,
      let stride := Nat.shiftr block_size level in
      let base := Nat.shiftr (capacity t) level in
      let src_start := base + (from_slot + 1) * stride in
      let src_end := src_start + count * stride in
      let dst_start := base + from_slot * stride in
      ns ← copy_within ns src_start src_end dst_start;
      zero_range ns (dst_start + count * stride) stride)
    (nodes t) (range 0 (S log_block));
  Some (t <| nodes := ns |>).

(** [new_nodes[dst..dst+n].copy_from_slice(&nodes[src..src+n])] into a vector of
    zero nodes. *)
Definition resized (t : SszTree) (new_capacity n : nat) : option (list bytes) :=
  if decide (capacity t + n ≤ length (nodes t) ∧ n ≤ new_capacity) then
    Some (replicate new_capacity zero32 ++ take n (drop (capacity t) (nodes t))
          ++ replicate (new_capacity - n) zero32)
  else None.

Definition grow (t : SszTree) (min_leaves : nat) : option SszTree :=
  if min_leaves <=? capacity t then Some t else
  let new_capacity := next_power_of_two min_leaves in
  let new_depth := Nat.log2 new_capacity in
  new_nodes ← resized t new_capacity (capacity t);
  let t := mkSszTree new_nodes new_capacity new_depth in
  rehash_from t (capacity t / 2).

Definition shrink (t : SszTree) (min_leaves : nat) : option SszTree :=
  let new_capacity := next_power_of_two (min_leaves `max` 1) in
  if capacity t <=? new_capacity then Some t else
  let new_depth := Nat.log2 new_capacity in
  new_nodes ← resized t new_capacity new_capacity;
  let t := mkSszTree new_nodes new_capacity new_depth in
  rehash_from t (capacity t / 2).

Fixpoint proof_steps (n : nat) (ns : list bytes) (idx : nat) : option (list bytes) :=
  match n with
  | 0 => Some []
  | S n =>
      sibling ← ns !! Nat.lxor idx 1;
      proof ← proof_steps n ns (idx / 2);
      Some (sibling :: proof)
  end.
Definition generate_proof (t : SszTree) (leaf_index : nat) : option (list bytes) :=
  proof_steps (depth t) (nodes t) (capacity t + leaf_index).

(** One step of verification: combine with the sibling on the side the index
    says. *)
Definition fold_step (hash : bytes) (idx : nat) (sibling : bytes) : bytes :=
  if Nat.even idx then hash32_concat hash sibling else hash32_concat sibling hash.
Fixpoint fold_branch (hash : bytes) (idx : nat) (proof : list bytes) : bytes * nat :=
  match proof with
  | [] => (hash, idx)
  | sibling :: proof => fold_branch (fold_step hash idx sibling) (idx / 2) proof
  end.

Definition verify_proof (root : bytes) (leaf_index : nat) (leaf_value : bytes)
    (proof : list bytes) (depth : nat) : bool :=
  if negb (length proof =? depth) then false else
  let '(hash, _) := fold_branch leaf_value (2 ^ depth + leaf_index) proof in
  bool_decide (hash = root).

(** [63 - gindex.leading_zeros()] is the binary logarithm. *)
Definition verify_proof_gindex (root : bytes) (gindex : nat) (leaf_value : bytes)
    (proof : list bytes) : bool :=
  if gindex =? 0 then false else
  if negb (length proof =? Nat.log2 gindex) then false else
  let '(hash, idx) := fold_branch leaf_value gindex proof in
  (idx =? 1) && bool_decide (hash = root).

(** [chunk[0..k].copy_from_slice(bs)] into a zero chunk of 32 bytes. *)
Definition pad32 (bs : bytes) : bytes := bs ++ zero_bytes (32 - length bs).

Definition mix_in_length (root : bytes) (length : nat) : bytes :=
  hash32_concat root (pad32 (u64_to_le_bytes (Z.of_nat length mod 2 ^ 64))).

(** One pass over [layer.chunks_exact(2)]. *)
Fixpoint hash_layer (layer : list bytes) : list bytes :=
  match layer with
  | a :: b :: layer => hash32_concat a b :: hash_layer layer
  | _ => []
  end.
(** The [while layer.len() > 1] loop: the layer halves in every iteration. *)
Fixpoint merkle_layers (fuel : nat) (layer : list bytes) : option bytes :=
  if length layer <=? 1 then layer !! 0 else
  match fuel with
  | 0 => None
  | S fuel => merkle_layers fuel (hash_layer layer)
  end.
Definition merkleize (chunks : list bytes) : option bytes :=
  match chunks with
  | [] => Some (ZERO_HASHES 0)
  | _ =>
      let n := next_power_of_two (length chunks) in
      merkle_layers (Nat.log2 n) (chunks ++ replicate (n - length chunks) zero32)
  end.
End with_crypto.
