(* ===== verification/SszTreeFacts.v ===== *)
(** * SszTreeFacts: the Merkle tree computes its leaves' Merkle root

    [tree_of d l] is the specification of a tree by its leaves.  Every operation
    of [SszTree] on such a tree is shown to give the tree of the updated leaves,
    its root to be the reference Merkle root [merkle], and its proofs to verify
    (and, soundness, to verify only for the leaf they were made for unless the
    hash collides). *)
From S2P Require Import Prelude Crypto SszTree.

Section facts.
Context `{Hc : Crypto}.

(** ** Trees by their leaves *)

(** The vector of nodes above (and with) the leaves [l] of a tree of depth [d]. *)
Fixpoint build (d : nat) (l : list bytes) : list bytes :=
  match d with
  | 0 => zero32 :: l
  | S d => build d (hash_layer l) ++ l
  end.
Definition tree_of (d : nat) (l : list bytes) : SszTree := mkSszTree (build d l) (2 ^ d) d.

(** The Merkle root of [2^d] leaves. *)
Fixpoint merkle (d : nat) (l : list bytes) : bytes :=
  match d with
  | 0 => default zero32 (head l)
  | S d => merkle d (hash_layer l)
  end.

(** Node [i] is the hash of its children. *)
Definition node_ok (ns : list bytes) (i : nat) : Prop :=
  ∃ l r, ns !! (2 * i) = Some l ∧ ns !! (2 * i + 1) = Some r ∧
    ns !! i = Some (hash32_concat l r).

(** The vector of a tree of depth [d]: a sentinel, and internal nodes that are the
    hashes of their children. *)
Record nodes_wf (d : nat) (ns : list bytes) : Prop := {
  wf_length : length ns = 2 * 2 ^ d;
  wf_sentinel : ns !! 0 = Some zero32;
  wf_nodes : ∀ i, 1 ≤ i < 2 ^ d → node_ok ns i
}.

Lemma pow2_pos d : 1 ≤ 2 ^ d.
Proof. pose proof (Nat.pow_nonzero 2 d). lia. Qed.

Lemma length_hash_layer_mul n l : length l = 2 * n → length (hash_layer l) = n.
Proof.
  revert l. induction n as [|n IH]; intros l Hl.
  - by destruct l; [|simpl in Hl; lia].
  - destruct l as [|a [|b l]]; simpl in Hl; [lia..|]. simpl. f_equal. apply IH. lia.
Qed.

Lemma length_hash_layer d l : length l = 2 ^ S d → length (hash_layer l) = 2 ^ d.
Proof. intros Hl. apply length_hash_layer_mul. simpl in Hl. lia. Qed.

Lemma hash_layer_lookup n l i a b :
  length l = 2 * n → l !! (2 * i) = Some a → l !! (2 * i + 1) = Some b →
  hash_layer l !! i = Some (hash32_concat a b).
Proof.
  revert l i. induction n as [|n IH]; intros l i Hl Ha Hb.
  - destruct l; [by rewrite lookup_nil in Ha|simpl in Hl; lia].
  - destruct l as [|x [|y l]]; simpl in Hl; [lia..|]. destruct i as [|i].
    + simpl in Ha, Hb. by simplify_eq.
    + simpl. replace (2 * S i) with (S (S (2 * i))) in Ha, Hb by lia.
      apply IH; [lia|done|done].
Qed.

Lemma length_build d l : length l = 2 ^ d → length (build d l) = 2 * 2 ^ d.
Proof.
  revert l. induction d as [|d IH]; intros l Hl; simpl in *; [lia|].
  rewrite length_app, IH by (apply length_hash_layer; simpl; lia). lia.
Qed.

Lemma build_lookup_leaf d l i : length l = 2 ^ d → build d l !! (2 ^ d + i) = l !! i.
Proof.
  destruct d as [|d]; intros Hl; [done|]. simpl build.
  rewrite lookup_app_r; rewrite length_build by (by apply length_hash_layer); [|simpl; lia].
  f_equal. simpl. lia.
Qed.

Lemma build_leaves d l : length l = 2 ^ d → drop (2 ^ d) (build d l) = l.
Proof.
  destruct d as [|d]; intros Hl; [done|]. simpl build. apply drop_app_length'.
  rewrite length_build; [simpl; lia|by apply length_hash_layer].
Qed.

Lemma build_wf d l : length l = 2 ^ d → nodes_wf d (build d l).
Proof.
  revert l. induction d as [|d IH]; intros l Hl.
  { split; [by apply length_build|done|]. simpl. intros i Hi. lia. }
  pose proof (length_hash_layer d l Hl) as Hhl. destruct (IH _ Hhl) as [Wl Ws Wn].
  assert (Hlow : ∀ j, j < 2 ^ S d → build (S d) l !! j = build d (hash_layer l) !! j).
  { intros j Hj. simpl. apply lookup_app_l. rewrite Wl. simpl in Hj. lia. }
  split; [by apply length_build|rewrite Hlow by (pose proof (pow2_pos (S d)); lia); done|].
  intros i Hi. destruct (decide (i < 2 ^ d)) as [Hlt|Hge].
  - destruct (Wn i) as (a & b & Ha & Hb & Hh); [lia|]. exists a, b.
    rewrite !Hlow by (simpl; lia). done.
  - simpl in Hi. destruct (lookup_lt_is_Some_2 l (2 * (i - 2 ^ d))) as [a Ha]; [simpl in Hl; lia|].
    destruct (lookup_lt_is_Some_2 l (2 * (i - 2 ^ d) + 1)) as [b Hb]; [simpl in Hl; lia|].
    exists a, b. rewrite (Hlow i) by (simpl; lia).
    replace (2 * i) with (2 ^ S d + 2 * (i - 2 ^ d)) by (simpl; lia).
    rewrite <-Nat.add_assoc, !build_lookup_leaf by done. split_and!; [done..|].
    replace i with (2 ^ d + (i - 2 ^ d)) at 1 by lia. rewrite build_lookup_leaf by done.
    eapply (hash_layer_lookup (2 ^ d)); [simpl in Hl; lia|done|done].
Qed.

(** Well-formed vectors with the same leaves are equal: the rest is determined
    bottom up. *)
Lemma nodes_wf_ext d ns1 ns2 :
  nodes_wf d ns1 → nodes_wf d ns2 → drop (2 ^ d) ns1 = drop (2 ^ d) ns2 → ns1 = ns2.
Proof.
  intros [L1 S1 N1] [L2 S2 N2] Hd.
  assert (Hall : ∀ n i, 2 * 2 ^ d - i ≤ n → 1 ≤ i < 2 * 2 ^ d → ns1 !! i = ns2 !! i).
  { induction n as [|n IH]; intros i Hn Hi; [lia|].
    destruct (decide (i < 2 ^ d)) as [Hlt|Hge].
    - destruct (N1 i) as (a & b & Ha & Hb & ->); [lia|].
      destruct (N2 i) as (a' & b' & Ha' & Hb' & ->); [lia|].
      rewrite IH in Ha, Hb by lia. by simplify_eq.
    - replace i with (2 ^ d + (i - 2 ^ d)) by lia. by rewrite <-!lookup_drop, Hd. }
  apply list_eq. intros i. destruct (decide (i = 0)) as [->|]; [by rewrite S1, S2|].
  destruct (decide (i < 2 * 2 ^ d)); [apply (Hall (2 * 2 ^ d)); lia|].
  rewrite !lookup_ge_None_2; [done|lia|lia].
Qed.

(** A well-formed vector is the one built from its leaves. *)
Lemma nodes_wf_build d ns : nodes_wf d ns → ns = build d (drop (2 ^ d) ns).
Proof.
  intros Hwf. pose proof (wf_length d ns Hwf). apply (nodes_wf_ext d); [done| |].
  - apply build_wf. rewrite length_drop. lia.
  - rewrite build_leaves; [done|]. rewrite length_drop. lia.
Qed.

Lemma build_root d l : length l = 2 ^ d → build d l !! 1 = Some (merkle d l).
Proof.
  revert l. induction d as [|d IH]; intros l Hl.
  - destruct l as [|a l]; [done|]. done.
  - simpl. rewrite lookup_app_l; [apply IH; by apply length_hash_layer|].
    rewrite length_build by (by apply length_hash_layer). pose proof (pow2_pos d). lia.
Qed.
End facts.

(** ** Rehashing *)
Section rehash.
Context `{Hc : Crypto}.

Lemma set_node_Some ns i v : i < length ns → set_node ns i v = Some (<[i := v]> ns).
Proof. intros. unfold set_node. by rewrite decide_True. Qed.

Lemma node_ok_ext ns ns' i :
  ns' !! i = ns !! i → ns' !! (2 * i) = ns !! (2 * i) → ns' !! (2 * i + 1) = ns !! (2 * i + 1) →
  node_ok ns i → node_ok ns' i.
Proof. unfold node_ok. by intros -> -> ->. Qed.

Lemma rehash_spec ns i :
  1 ≤ i → 2 * i + 1 < length ns →
  ∃ ns', rehash ns i = Some ns' ∧ length ns' = length ns ∧
    (∀ j, j ≠ i → ns' !! j = ns !! j) ∧ node_ok ns' i.
Proof.
  intros Hi Hl. unfold rehash.
  destruct (lookup_lt_is_Some_2 ns (2 * i)) as [a Ha]; [lia|].
  destruct (lookup_lt_is_Some_2 ns (2 * i + 1)) as [b Hb]; [lia|].
  rewrite Ha, Hb. cbn [mbind option_bind]. rewrite set_node_Some by lia.
  eexists. split; [done|]. rewrite length_insert. split; [done|].
  assert (Hne : ∀ j, j ≠ i → <[i := hash32_concat a b]> ns !! j = ns !! j).
  { intros. by apply list_lookup_insert_ne. }
  split; [done|]. exists a, b. rewrite !Hne by lia. rewrite list_lookup_insert_eq by lia. done.
Qed.

(** A loop over a range whose children lie outside it fixes every node of the
    range and touches nothing else. *)
Lemma rehash_range (f : list bytes → nat → option (list bytes)) ns from e :
  (∀ ns' i, length ns' = length ns → from ≤ i < e → f ns' i = rehash ns' i) →
  1 ≤ from → e ≤ 2 * from → 2 * e ≤ length ns →
  ∃ ns', for_each f ns (range from e) = Some ns' ∧ length ns' = length ns ∧
    (∀ j, ¬ (from ≤ j < e) → ns' !! j = ns !! j) ∧ (∀ i, from ≤ i < e → node_ok ns' i).
Proof.
  intros Hf H1 He Hl. unfold range.
  assert (Hgen : ∀ n k ns1, k + n = e - from → length ns1 = length ns →
    (∀ j, ¬ (from ≤ j < e) → ns1 !! j = ns !! j) → (∀ i, from ≤ i < from + k → node_ok ns1 i) →
    ∃ ns', for_each f ns1 (seq (from + k) n) = Some ns' ∧ length ns' = length ns ∧
      (∀ j, ¬ (from ≤ j < e) → ns' !! j = ns !! j) ∧ (∀ i, from ≤ i < e → node_ok ns' i)).
  { induction n as [|n IH]; intros k ns1 Hk Hl1 Hout Hin.
    - exists ns1. split_and!; [done..|]. intros i Hi. apply Hin. lia.
    - simpl. rewrite Hf by (done || lia).
      destruct (rehash_spec ns1 (from + k)) as (ns2 & -> & Hl2 & Hne & Hok); [lia|lia|].
      cbn [mbind option_bind]. rewrite <-Nat.add_succ_r. apply IH; [lia|lia| |].
      + intros j Hj. rewrite Hne by lia. auto.
      + intros i Hi. destruct (decide (i = from + k)) as [->|]; [done|].
        apply (node_ok_ext ns1); [apply Hne; lia..|]. apply Hin. lia. }
  specialize (Hgen (e - from) 0 ns). rewrite Nat.add_0_r in Hgen.
  apply Hgen; [done|done|done|]. intros i Hi. lia.
Qed.

Lemma rehash_range_plain ns from e :
  1 ≤ from → e ≤ 2 * from → 2 * e ≤ length ns →
  ∃ ns', for_each rehash ns (range from e) = Some ns' ∧ length ns' = length ns ∧
    (∀ j, ¬ (from ≤ j < e) → ns' !! j = ns !! j) ∧ (∀ i, from ≤ i < e → node_ok ns' i).
Proof. by apply rehash_range. Qed.

Lemma rehash_range_guarded ns from e :
  1 ≤ from → e ≤ 2 * from → 2 * e ≤ length ns →
  ∃ ns', for_each rehash_guarded ns (range from e) = Some ns' ∧ length ns' = length ns ∧
    (∀ j, ¬ (from ≤ j < e) → ns' !! j = ns !! j) ∧ (∀ i, from ≤ i < e → node_ok ns' i).
Proof.
  intros H1 He Hl. apply rehash_range; [|done..]. intros ns' i Hl' Hi. unfold rehash_guarded.
  by rewrite (proj2 (Nat.ltb_lt _ _)) by lia.
Qed.

Lemma div2_level k : 2 ^ S k / 2 = 2 ^ k.
Proof. rewrite Nat.pow_succ_r', Nat.mul_comm. by apply Nat.div_mul. Qed.

(** [rehash_from] of the lowest internal level makes any vector with a sentinel
    well-formed and keeps its leaves. *)
Lemma rehash_from_loop_spec fuel k ns d :
  k < fuel → k < d → length ns = 2 * 2 ^ d → (∀ i, 2 ^ S k ≤ i < 2 ^ d → node_ok ns i) →
  ∃ ns', rehash_from_loop fuel ns (2 ^ k) = Some ns' ∧ length ns' = length ns ∧
    (∀ j, j = 0 ∨ 2 ^ S k ≤ j → ns' !! j = ns !! j) ∧ (∀ i, 1 ≤ i < 2 ^ d → node_ok ns' i).
Proof.
  revert k ns. induction fuel as [|fuel IH]; intros k ns Hf Hk Hl Hok; [lia|].
  pose proof (pow2_pos k) as Hp. cbn [rehash_from_loop].
  assert (2 ^ S k ≤ 2 ^ d) as Hle by (apply Nat.pow_le_mono_r; lia). rewrite Nat.pow_succ_r' in *.
  destruct (Nat.eqb_spec (2 ^ k) 0); [lia|].
  destruct (rehash_range_guarded ns (2 ^ k) (2 ^ k * 2)) as (ns1 & -> & Hl1 & Hout & Hin); [lia..|].
  cbn [mbind option_bind].
  assert (Hok1 : ∀ i, 2 ^ k ≤ i < 2 ^ d → node_ok ns1 i).
  { intros i Hi. destruct (decide (i < 2 ^ k * 2)); [apply Hin; lia|].
    apply (node_ok_ext ns); [apply Hout; lia..|]. apply Hok. lia. }
  destruct (Nat.eqb_spec (2 ^ k) 1) as [E|E].
  - exists ns1. split_and!; [done|lia| |].
    + intros j Hj. apply Hout. lia.
    + intros i Hi. apply Hok1. lia.
  - destruct k as [|k]; [done|]. rewrite div2_level.
    destruct (IH k ns1) as (ns2 & -> & Hl2 & Hout2 & Hok2); [lia|lia|lia|exact Hok1|].
    exists ns2. split_and!; [done|lia| |done]. intros j Hj. rewrite Hout2; [apply Hout; lia|]. lia.
Qed.

Lemma rehash_from_spec d ns :
  length ns = 2 * 2 ^ d → ns !! 0 = Some zero32 →
  rehash_from (mkSszTree ns (2 ^ d) d) (2 ^ d / 2) = Some (tree_of d (drop (2 ^ d) ns)).
Proof.
  intros Hl Hs. unfold rehash_from. cbn [nodes]. destruct d as [|d].
  - simpl. unfold tree_of. do 2 f_equal. destruct ns as [|a [|b [|]]]; simpl in *; try lia.
    by simplify_eq.
  - rewrite div2_level, Nat.log2_pow2 by lia.
    destruct (rehash_from_loop_spec (S d) d ns (S d)) as (ns' & -> & Hl' & Hout & Hok); [lia|lia|done|lia|].
    cbn [mbind option_bind]. unfold tree_of, update. f_equal. f_equal.
    assert (nodes_wf (S d) ns') as Hwf.
    { split; [lia|rewrite Hout by (by left); done|done]. }
    rewrite (nodes_wf_build _ _ Hwf). f_equal. apply list_eq. intros i.
    rewrite !lookup_drop. apply Hout. right. lia.
Qed.

(** *** Setting a leaf *)

(** The nodes strictly above [i]. *)
Definition above (i j : nat) : Prop := ∃ k, 1 ≤ k ∧ j = i / 2 ^ k.

Lemma above_child j c : c = 2 * j ∨ c = 2 * j + 1 → above c j.
Proof.
  intros [->| ->]; exists 1; (split; [lia|]); rewrite Nat.pow_1_r.
  - by rewrite Nat.mul_comm, Nat.div_mul.
  - by rewrite Nat.add_comm, Nat.mul_comm, Nat.div_add.
Qed.

Lemma above_half i j : above (i / 2) j → above i j.
Proof.
  intros (k & Hk & ->). exists (S k). split; [lia|].
  by rewrite Nat.Div0.div_div, Nat.pow_succ_r'.
Qed.

Lemma above_inv i j : above i j → j = i / 2 ∨ above (i / 2) j.
Proof.
  intros (k & Hk & ->). destruct k as [|[|k]]; [lia|by left|]. right.
  exists (S k). split; [lia|]. by rewrite Nat.Div0.div_div, <-Nat.pow_succ_r'.
Qed.

Lemma log2_half i : 2 ≤ i → Nat.log2 i = S (Nat.log2 (i / 2)).
Proof.
  intros Hi. rewrite (Nat.div_mod_eq i 2) at 1.
  pose proof (Nat.mod_upper_bound i 2 ltac:(lia)) as Hm.
  assert (0 < i / 2) by (apply Nat.div_str_pos; lia).
  destruct (i mod 2) as [|[|]]; [| |lia].
  - rewrite Nat.add_0_r. rewrite Nat.log2_double; lia.
  - rewrite Nat.log2_succ_double; lia.
Qed.

Lemma rehash_path_spec fuel ns i c :
  length ns = 2 * c → 1 ≤ i < 2 * c → Nat.log2 i ≤ fuel →
  (∀ j, 1 ≤ j < c → ¬ above i j → node_ok ns j) →
  ∃ ns', rehash_path fuel ns i = Some ns' ∧ length ns' = length ns ∧
    (∀ j, j = 0 ∨ c ≤ j → ns' !! j = ns !! j) ∧ (∀ j, 1 ≤ j < c → node_ok ns' j).
Proof.
  revert ns i. induction fuel as [|fuel IH]; intros ns i Hl Hi Hf Hok; cbn [rehash_path].
  all: destruct (Nat.leb_spec i 1) as [Hle|Hgt].
  1, 3: exists ns; split_and!; [done..|]; intros j Hj; apply Hok; [done|];
    intros (k & Hk & ->); assert (i = 1) as -> by lia;
    rewrite Nat.div_small in Hj; [lia|apply Nat.pow_gt_1; lia].
  { rewrite log2_half in Hf; lia. }
  assert (1 ≤ i / 2) by (apply Nat.div_le_lower_bound; lia).
  assert (2 * (i / 2) ≤ i) by (apply Nat.Div0.mul_div_le).
  assert (i / 2 < c) by (apply Nat.Div0.div_lt_upper_bound; lia).
  assert (i / 2 < i) by (apply Nat.div_lt; lia).
  destruct (rehash_spec ns (i / 2)) as (ns1 & -> & Hl1 & Hne & Hok1); [lia|lia|].
  cbn [mbind option_bind].
  destruct (IH ns1 (i / 2)) as (ns2 & -> & Hl2 & Hout & Hok2); [lia|lia|rewrite log2_half in Hf; lia| |].
  - intros j Hj Hna. destruct (decide (j = i / 2)) as [->|Hj2]; [done|].
    apply (node_ok_ext ns).
    + by apply Hne.
    + apply Hne. intros E. apply Hna, above_child. lia.
    + apply Hne. intros E. apply Hna, above_child. lia.
    + apply Hok; [done|]. intros [->|Ha]%above_inv; done.
  - exists ns2. split_and!; [done|lia| |done]. intros j Hj. rewrite Hout by lia. apply Hne. lia.
Qed.

Lemma set_leaf_tree_of d l i v :
  length l = 2 ^ d → i < 2 ^ d → set_leaf (tree_of d l) i v = Some (tree_of d (<[i := v]> l)).
Proof.
  intros Hl Hi. unfold set_leaf. cbn [nodes capacity tree_of].
  pose proof (build_wf d l Hl) as Hwf. pose proof (wf_length _ _ Hwf) as Hlen.
  rewrite set_node_Some by lia. cbn [mbind option_bind].
  set (ns := <[2 ^ d + i := v]> (build d l)).
  assert (length ns = 2 * 2 ^ d) as Hlns by (unfold ns; by rewrite length_insert).
  assert (Hne : ∀ j, j ≠ 2 ^ d + i → ns !! j = build d l !! j).
  { intros. unfold ns. by apply list_lookup_insert_ne. }
  destruct (rehash_path_spec (Nat.log2 (2 ^ d + i)) ns (2 ^ d + i) (2 ^ d)) as (ns' & -> & Hl' & Hout & Hok);
    [done|pose proof (pow2_pos d); lia|lia| |].
  - intros j Hj Hna. apply (node_ok_ext (build d l)); [apply Hne; lia| | |by apply (wf_nodes d)].
    + apply Hne. intros E. apply Hna, above_child. lia.
    + apply Hne. intros E. apply Hna, above_child. lia.
  - cbn [mbind option_bind]. unfold tree_of, update. do 2 f_equal.
    assert (nodes_wf d ns') as Hwf'.
    { split; [lia| |done]. rewrite Hout by (by left). rewrite Hne by (pose proof (pow2_pos d); lia).
      apply Hwf. }
    rewrite (nodes_wf_build _ _ Hwf'). f_equal. apply list_eq. intros j. rewrite lookup_drop.
    rewrite Hout by lia. unfold ns. destruct (decide (j = i)) as [->|Hji].
    + by rewrite !list_lookup_insert_eq by lia.
    + rewrite !list_lookup_insert_ne by lia. by apply build_lookup_leaf.
Qed.
End rehash.

(** ** New, grown and shrunk trees *)
Section resize.
Context `{Hc : Crypto} `{!CryptoOk}.

Lemma set_range_spec ns a b v :
  b ≤ length ns →
  ∃ ns', for_each (λ ns i, set_node ns i v) ns (range a b) = Some ns' ∧ length ns' = length ns ∧
    (∀ j, ¬ (a ≤ j < b) → ns' !! j = ns !! j) ∧ (∀ j, a ≤ j < b → ns' !! j = Some v).
Proof.
  intros Hb. unfold range.
  assert (Hgen : ∀ n a ns, a + n ≤ length ns →
    ∃ ns', for_each (λ ns i, set_node ns i v) ns (seq a n) = Some ns' ∧ length ns' = length ns ∧
      (∀ j, ¬ (a ≤ j < a + n) → ns' !! j = ns !! j) ∧ (∀ j, a ≤ j < a + n → ns' !! j = Some v)).
  { clear. induction n as [|n IH]; intros a ns Hl; simpl.
    - exists ns. split_and!; [done..|]. intros j Hj. lia.
    - rewrite set_node_Some by lia. cbn [mbind option_bind].
      destruct (IH (S a) (<[a := v]> ns)) as (ns' & -> & Hl' & Hout & Hin); [rewrite length_insert; lia|].
      exists ns'. rewrite length_insert in Hl'. split_and!; [done..| |].
      + intros j Hj. rewrite Hout by lia. rewrite list_lookup_insert_ne by lia. done.
      + intros j Hj. destruct (decide (j = a)) as [->|]; [|apply Hin; lia].
        rewrite Hout by lia. by rewrite list_lookup_insert_eq by lia. }
  destruct (decide (a ≤ b)).
  - destruct (Hgen (b - a) a ns) as (ns' & E & Hl' & Hout & Hin); [lia|].
    replace (a + (b - a)) with b in * by lia. by exists ns'.
  - replace (b - a) with 0 by lia. exists ns. split_and!; [done..|]. intros j Hj. lia.
Qed.

Lemma shiftr_pow2 d k : k ≤ d → Nat.shiftr (2 ^ d) k = 2 ^ (d - k).
Proof.
  intros Hk. rewrite Nat.shiftr_div_pow2. replace d with ((d - k) + k) at 1 by lia.
  rewrite Nat.pow_add_r. apply Nat.div_mul, Nat.pow_nonzero. lia.
Qed.

Lemma next_power_of_two_max n : next_power_of_two n `max` 1 = next_power_of_two n.
Proof. unfold next_power_of_two. pose proof (pow2_pos (Nat.log2_up n)). lia. Qed.

Definition zeros (n : nat) : list bytes := replicate n zero32.

Lemma new_levels d k ns :
  k ≤ d → ns = replicate (2 * 2 ^ d) zero32 →
  ∃ ns', for_each (λ ns e,
      for_each (λ ns i, set_node ns i (ZERO_HASHES e)) ns
        (range (Nat.shiftr (2 ^ d) e) (Nat.shiftr (2 ^ d) (e - 1)))) ns (range 1 (S k)) = Some ns' ∧
    length ns' = 2 * 2 ^ d ∧
    (∀ j, j < 2 * 2 ^ d → j < 2 ^ (d - k) ∨ 2 ^ d ≤ j → ns' !! j = Some zero32) ∧
    (∀ e j, 1 ≤ e ≤ k → 2 ^ (d - e) ≤ j < 2 ^ (d - e + 1) → ns' !! j = Some (ZERO_HASHES e)).
Proof.
  intros Hk ->. induction k as [|k IH].
  - exists (replicate (2 * 2 ^ d) zero32). split_and!; [done|by rewrite length_replicate| |].
    + intros j Hj _. by apply lookup_replicate_2.
    + intros e j He. lia.
  - destruct IH as (ns1 & E1 & Hl1 & Hz1 & Hh1); [lia|].
    replace (range 1 (S (S k))) with (range 1 (S k) ++ [S k])
      by (unfold range; replace (S (S k) - 1) with (S (S k - 1)) by lia; rewrite seq_S; do 2 f_equal; lia).
    rewrite for_each_app, E1. cbn [mbind option_bind for_each].
    rewrite !shiftr_pow2 by lia. replace (d - (S k - 1)) with (d - k) by lia.
    assert (2 ^ (d - k) ≤ 2 ^ d) as Hle by (apply Nat.pow_le_mono_r; lia).
    assert (2 * 2 ^ (d - S k) = 2 ^ (d - k)) as Hh.
    { rewrite <-Nat.pow_succ_r'. f_equal. lia. }
    destruct (set_range_spec ns1 (2 ^ (d - S k)) (2 ^ (d - k)) (ZERO_HASHES (S k)))
      as (ns2 & -> & Hl2 & Hout & Hin); [lia|].
    exists ns2. split_and!; [done|lia| |].
    + intros j Hj Hcase. rewrite Hout by lia. apply Hz1; lia.
    + intros e j He Hj. destruct (decide (e = S k)) as [->|].
      * apply Hin. replace (d - S k + 1) with (d - k) in Hj by lia. lia.
      * rewrite Hout; [apply Hh1; lia|].
        assert (2 ^ (d - k) ≤ 2 ^ (d - e)) by (apply Nat.pow_le_mono_r; lia). lia.
Qed.

Lemma new_tree_of n :
  new n = Some (tree_of (Nat.log2_up n) (zeros (2 ^ Nat.log2_up n))).
Proof.
  unfold new. rewrite next_power_of_two_max. unfold next_power_of_two.
  set (d := Nat.log2_up n). rewrite Nat.log2_pow2 by lia.
  destruct (new_levels d d (replicate (2 * 2 ^ d) zero32)) as (ns & -> & Hl & Hz & Hh); [lia|done|].
  cbn [mbind option_bind]. unfold tree_of. do 2 f_equal. rewrite Nat.sub_diag in Hz.
  pose proof (pow2_pos d).
  assert (Hlev : ∀ e j, e ≤ d → 2 ^ (d - e) ≤ j < 2 ^ (d - e + 1) → ns !! j = Some (ZERO_HASHES e)).
  { intros e j He Hj. destruct e as [|e]; [|apply Hh; lia].
    rewrite ZERO_HASHES_0, Nat.sub_0_r, Nat.add_1_r, Nat.pow_succ_r' in *. apply Hz; lia. }
  assert (nodes_wf d ns) as Hwf.
  { split; [done|apply Hz; simpl; lia|]. intros i Hi.
    set (e := d - Nat.log2 i).
    assert (Nat.log2 i < d) by (apply Nat.log2_lt_pow2; lia).
    destruct (Nat.log2_spec i) as [Hs1 Hs2]; [lia|]. rewrite Nat.pow_succ_r' in Hs2.
    assert (Hch : ∀ c, 2 * i ≤ c ≤ 2 * i + 1 → ns !! c = Some (ZERO_HASHES (e - 1))).
    { intros c Hcc. apply Hlev; [lia|]. replace (d - (e - 1)) with (S (Nat.log2 i)) by lia.
      rewrite Nat.add_1_r, !Nat.pow_succ_r'. lia. }
    exists (ZERO_HASHES (e - 1)), (ZERO_HASHES (e - 1)).
    split_and!; [apply Hch; lia..|]. rewrite <-ZERO_HASHES_S. replace (S (e - 1)) with e by lia.
    apply Hlev; [lia|]. replace (d - e) with (Nat.log2 i) by lia.
    rewrite Nat.add_1_r, Nat.pow_succ_r'. lia. }
  rewrite (nodes_wf_build _ _ Hwf). f_equal. apply list_eq. intros i. rewrite lookup_drop.
  unfold zeros. destruct (decide (i < 2 ^ d)).
  - rewrite lookup_replicate_2 by done. apply Hz; lia.
  - rewrite !lookup_ge_None_2; [done|rewrite length_replicate; lia|lia].
Qed.

Lemma resized_spec d ns new_d n :
  length ns = 2 * 2 ^ d → n ≤ 2 ^ d → n ≤ 2 ^ new_d →
  (ns ← resized (mkSszTree ns (2 ^ d) d) (2 ^ new_d) n;
   rehash_from (mkSszTree ns (2 ^ new_d) new_d) (2 ^ new_d / 2))
  = Some (tree_of new_d (take n (drop (2 ^ d) ns) ++ zeros (2 ^ new_d - n))).
Proof.
  intros Hl Hn Hn'. unfold resized. cbn [nodes capacity].
  rewrite decide_True by lia. cbn [mbind option_bind].
  rewrite rehash_from_spec.
  - do 3 f_equal. by rewrite drop_app_length' by by rewrite length_replicate.
  - rewrite !length_app, !length_replicate, length_take, length_drop. lia.
  - rewrite lookup_app_l by (rewrite length_replicate; pose proof (pow2_pos new_d); lia).
    apply lookup_replicate_2, pow2_pos.
Qed.

Lemma grow_tree_of d l n :
  length l = 2 ^ d →
  grow (tree_of d l) n =
    if n <=? 2 ^ d then Some (tree_of d l)
    else Some (tree_of (Nat.log2_up n) (l ++ zeros (2 ^ Nat.log2_up n - 2 ^ d))).
Proof.
  intros Hl. unfold grow. cbn [capacity tree_of]. destruct (Nat.leb_spec n (2 ^ d)) as [|Hgt]; [done|].
  unfold next_power_of_two. rewrite Nat.log2_pow2 by lia. pose proof (pow2_pos d).
  assert (d < Nat.log2_up n) by (apply Nat.log2_up_lt_pow2; lia).
  pose proof (resized_spec d (build d l) (Nat.log2_up n) (2 ^ d) (length_build d l Hl)) as Hr.
  cbn [capacity] in *. rewrite build_leaves in Hr by done. rewrite (take_ge l) in Hr by lia. apply Hr; [lia|]. apply Nat.pow_le_mono_r; lia.
Qed.

Lemma shrink_spec d ns n :
  length ns = 2 * 2 ^ d → Nat.log2_up (n `max` 1) < d →
  shrink (mkSszTree ns (2 ^ d) d) n =
    let d' := Nat.log2_up (n `max` 1) in Some (tree_of d' (take (2 ^ d') (drop (2 ^ d) ns))).
Proof.
  intros Hl Hd. unfold shrink, next_power_of_two. cbn [capacity]. cbv zeta.
  set (d' := Nat.log2_up (n `max` 1)) in *.
  assert (2 ^ d' < 2 ^ d) by (apply Nat.pow_lt_mono_r; lia).
  destruct (Nat.leb_spec (2 ^ d) (2 ^ d')); [lia|]. rewrite Nat.log2_pow2 by lia.
  pose proof (resized_spec d ns d' (2 ^ d') Hl) as Hr. cbn [capacity] in *.
  rewrite Nat.sub_diag in Hr. unfold zeros in Hr. simpl replicate in Hr. rewrite app_nil_r in Hr.
  apply Hr; lia.
Qed.
End resize.

(** ** Moving blocks

    A block is [2^b] consecutive leaves with the subtree above them; at level [lv]
    (counted from the leaves) block [s] holds the [2^(b-lv)] nodes from
    [2^(d-lv) + s * 2^(b-lv)] on. *)
Section blocks.
Context `{Hc : Crypto} `{!CryptoOk}.

Definition in_block (d b s lv i : nat) : Prop :=
  2 ^ (d - lv) + s * 2 ^ (b - lv) ≤ i < 2 ^ (d - lv) + (s + 1) * 2 ^ (b - lv).
(** [i] is at level [lv]. *)
Definition at_level (d lv i : nat) : Prop := 2 ^ (d - lv) ≤ i < 2 * 2 ^ (d - lv).

(** The nodes inside every block but [s] are hashes of their children. *)
Definition blocks_ok (d b s : nat) (ns : list bytes) : Prop :=
  ∀ lv i, 1 ≤ lv ≤ b → at_level d lv i → ¬ in_block d b s lv i → node_ok ns i.
(** The nodes above the blocks and left of block [s] are. *)
Definition left_ok (d b s : nat) (ns : list bytes) : Prop :=
  ∀ m i, m < d - b → 2 ^ m ≤ i < 2 * 2 ^ m → i < (2 ^ (d - b) + s) / 2 ^ (d - b - m) → node_ok ns i.

Lemma pow2_split b lv : lv ≤ b → 1 ≤ lv → 2 ^ (b - (lv - 1)) = 2 * 2 ^ (b - lv).
Proof. intros. rewrite <-Nat.pow_succ_r'. f_equal. lia. Qed.

Lemma block_fits d b s lv :
  lv ≤ b → b ≤ d → s < 2 ^ (d - b) →
  2 ^ (b - lv) ≤ 2 ^ (d - lv) ∧ (s + 1) * 2 ^ (b - lv) ≤ 2 ^ (d - lv) ∧ 2 ^ (d - lv) ≤ 2 ^ d.
Proof.
  intros Hlv Hb Hs. replace (2 ^ (d - lv)) with (2 ^ (d - b) * 2 ^ (b - lv))
    by (rewrite <-Nat.pow_add_r; f_equal; lia).
  pose proof (pow2_pos (b - lv)). pose proof (pow2_pos (d - b)). split_and!; [nia|nia|].
  rewrite <-Nat.pow_add_r. apply Nat.pow_le_mono_r; lia.
Qed.

Lemma level_of d i : 1 ≤ i < 2 ^ d → ∃ lv, 1 ≤ lv ≤ d ∧ at_level d lv i.
Proof.
  intros Hi. destruct (Nat.log2_spec i) as [Hs1 Hs2]; [lia|]. rewrite Nat.pow_succ_r' in Hs2.
  assert (Nat.log2 i < d) by (apply Nat.log2_lt_pow2; lia).
  exists (d - Nat.log2 i). unfold at_level. replace (d - (d - Nat.log2 i)) with (Nat.log2 i) by lia. lia.
Qed.

Lemma at_level_inj d lv lv' i : lv ≤ d → lv' ≤ d → at_level d lv i → at_level d lv' i → lv = lv'.
Proof.
  unfold at_level. intros H1 H2 Ha Hb.
  destruct (Nat.lt_trichotomy lv lv') as [Hlt|[?|Hlt]]; [|done|].
  - assert (2 * 2 ^ (d - lv') ≤ 2 ^ (d - lv)); [|lia].
    rewrite <-Nat.pow_succ_r'. apply Nat.pow_le_mono_r; lia.
  - assert (2 * 2 ^ (d - lv) ≤ 2 ^ (d - lv')); [|lia].
    rewrite <-Nat.pow_succ_r'. apply Nat.pow_le_mono_r; lia.
Qed.

Lemma in_block_level d b s lv i :
  lv ≤ b → b ≤ d → s < 2 ^ (d - b) → in_block d b s lv i → at_level d lv i.
Proof. intros Hlv Hb Hs. destruct (block_fits d b s lv Hlv Hb Hs). unfold in_block, at_level. lia. Qed.

(** [rehash_block] fixes the nodes of its block and touches nothing else. *)
Lemma rehash_block_spec d b s ns :
  length ns = 2 * 2 ^ d → b ≤ d → s < 2 ^ (d - b) →
  ∃ ns', rehash_block (mkSszTree ns (2 ^ d) d) s (2 ^ b) = Some (mkSszTree ns' (2 ^ d) d) ∧
    length ns' = length ns ∧
    (∀ j, (∀ lv, 1 ≤ lv ≤ b → ¬ in_block d b s lv j) → ns' !! j = ns !! j) ∧
    (∀ lv j, 1 ≤ lv ≤ b → in_block d b s lv j → node_ok ns' j).
Proof.
  intros Hl Hb Hs. unfold rehash_block. cbn [nodes capacity]. rewrite Nat.log2_pow2 by lia.
  assert (Hgen : ∀ k, k ≤ b → ∃ ns',
    for_each (λ ns level, for_each rehash ns
       (range (Nat.shiftr (2 ^ d) level + s * Nat.shiftr (2 ^ b) level)
          (Nat.shiftr (2 ^ d) level + s * Nat.shiftr (2 ^ b) level + Nat.shiftr (2 ^ b) level)))
      ns (range 1 (S k)) = Some ns' ∧ length ns' = length ns ∧
    (∀ j, (∀ lv, 1 ≤ lv ≤ k → ¬ in_block d b s lv j) → ns' !! j = ns !! j) ∧
    (∀ lv j, 1 ≤ lv ≤ k → in_block d b s lv j → node_ok ns' j)).
  { induction k as [|k IH]; intros Hk.
    { exists ns. split_and!; [done..|]. intros lv j Hlv. lia. }
    destruct IH as (ns1 & E1 & Hl1 & Hout1 & Hok1); [lia|].
    replace (range 1 (S (S k))) with (range 1 (S k) ++ [S k])
      by (unfold range; replace (S (S k) - 1) with (S (S k - 1)) by lia; rewrite seq_S; do 2 f_equal; lia).
    rewrite for_each_app, E1. cbn [mbind option_bind for_each]. rewrite !shiftr_pow2 by lia.
    destruct (block_fits d b s (S k)) as (F1 & F2 & F3); [lia..|].
    pose proof (pow2_pos (b - S k)).
    destruct (rehash_range_plain ns1 (2 ^ (d - S k) + s * 2 ^ (b - S k))
      (2 ^ (d - S k) + s * 2 ^ (b - S k) + 2 ^ (b - S k))) as (ns2 & -> & Hl2 & Hout2 & Hok2).
    { pose proof (pow2_pos (d - S k)). lia. } { lia. }
    { assert (2 * 2 ^ (d - S k) ≤ 2 ^ d); [|nia]. rewrite <-Nat.pow_succ_r'. apply Nat.pow_le_mono_r; lia. }
    cbn [mbind option_bind]. exists ns2. split_and!; [done|lia| |].
    - intros j Hj. rewrite Hout2; [apply Hout1; intros lv Hlv; apply Hj; lia|].
      specialize (Hj (S k)). unfold in_block in Hj. lia.
    - intros lv j Hlv Hj. destruct (decide (lv = S k)) as [->|Hne].
      { apply Hok2. unfold in_block in Hj. lia. }
      apply (node_ok_ext ns1); [..|apply (Hok1 lv); [lia|done]].
      all: apply Hout2; intros Hin.
      all: assert (2 * 2 ^ (d - S k) ≤ 2 ^ (d - lv))
        by (rewrite <-Nat.pow_succ_r'; apply Nat.pow_le_mono_r; lia).
      all: unfold in_block in Hj; nia. }
  destruct (Hgen b) as (ns' & E & Hrest); [lia|]. cbv zeta. rewrite E. cbn [mbind option_bind].
  exists ns'. by split.
Qed.

(** [rehash_from_position] repairs everything from the given node on, to the right
    and upwards. *)
Lemma rehash_position_loop_spec fuel k from ns d :
  k < fuel → k < d → length ns = 2 * 2 ^ d → 2 ^ k ≤ from < 2 * 2 ^ k →
  (∀ i, 2 * 2 ^ k ≤ i < 2 ^ d → node_ok ns i) →
  (∀ m i, m ≤ k → 2 ^ m ≤ i < 2 * 2 ^ m → i < from / 2 ^ (k - m) → node_ok ns i) →
  ∃ ns', rehash_position_loop fuel ns (2 ^ k) from = Some ns' ∧ length ns' = length ns ∧
    (∀ j, j = 0 ∨ 2 * 2 ^ k ≤ j → ns' !! j = ns !! j) ∧ (∀ i, 1 ≤ i < 2 ^ d → node_ok ns' i).
Proof.
  revert k from ns. induction fuel as [|fuel IH]; intros k from ns Hf Hk Hl Hfrom Hbelow Hleft; [lia|].
  cbn [rehash_position_loop]. pose proof (pow2_pos k).
  assert (2 * 2 ^ k ≤ 2 ^ d) by (rewrite <-Nat.pow_succ_r'; apply Nat.pow_le_mono_r; lia).
  destruct (rehash_range_guarded ns from (2 ^ k * 2)) as (ns1 & -> & Hl1 & Hout & Hin); [lia..|].
  cbn [mbind option_bind].
  assert (Hlv : ∀ i, 2 ^ k ≤ i < 2 ^ d → node_ok ns1 i).
  { intros i Hi. destruct (decide (from ≤ i < 2 ^ k * 2)); [by apply Hin|].
    apply (node_ok_ext ns); [apply Hout; lia..|].
    destruct (decide (i < 2 * 2 ^ k)); [|apply Hbelow; lia].
    apply (Hleft k); [lia|lia|]. rewrite Nat.sub_diag, Nat.pow_0_r, Nat.div_1_r. lia. }
  destruct (Nat.leb_spec (2 ^ k) 1) as [Hle|Hgt].
  - exists ns1. split_and!; [done|lia| |].
    + intros j Hj. apply Hout. lia.
    + intros i Hi. apply Hlv. lia.
  - destruct k as [|k]; [simpl in Hgt; lia|]. rewrite div2_level. rewrite Nat.pow_succ_r' in *.
    destruct (IH k (from / 2) ns1) as (ns2 & -> & Hl2 & Hout2 & Hok2); [lia|lia|lia| | | |].
    + split; [apply Nat.div_le_lower_bound; lia|apply Nat.Div0.div_lt_upper_bound; lia].
    + intros i Hi. apply Hlv. lia.
    + intros m i Hm Hi Hlt. rewrite Nat.Div0.div_div, <-Nat.pow_succ_r' in Hlt.
      replace (S (k - m)) with (S k - m) in Hlt by lia.
      assert (2 * 2 ^ m ≤ 2 * 2 ^ k) by (apply Nat.mul_le_mono_l, Nat.pow_le_mono_r; lia).
      apply (node_ok_ext ns); [apply Hout; lia| | |apply (Hleft m); [lia|done|done]].
      all: apply Hout; intros [Hge _].
      all: assert (2 * (from / 2 ^ (S k - m)) ≤ from); [|lia].
      all: etrans; [|apply (Nat.Div0.mul_div_le from (2 ^ (S k - m)))].
      all: apply Nat.mul_le_mono_r; replace (S k - m) with (S (k - m)) by lia; rewrite Nat.pow_succ_r';
        pose proof (pow2_pos (k - m)); lia.
    + exists ns2. split_and!; [done|lia| |done]. intros j Hj. rewrite Hout2 by lia. apply Hout. lia.
Qed.

Lemma left_ok_ext d b s ns ns' :
  b ≤ d → s < 2 ^ (d - b) →
  (∀ j, j < 2 ^ (d - b) + s → ns' !! j = ns !! j) → left_ok d b s ns → left_ok d b s ns'.
Proof.
  intros Hb Hs Hext Hleft m i Hm Hi Hlt.
  assert (2 * (i + 1) ≤ 2 ^ (d - b) + s) as Hle.
  { transitivity (2 ^ (d - b - m) * (i + 1)).
    - apply Nat.mul_le_mono_r. replace (d - b - m) with (S (d - b - m - 1)) by lia.
      rewrite Nat.pow_succ_r'. pose proof (pow2_pos (d - b - m - 1)). lia.
    - etrans; [|apply (Nat.Div0.mul_div_le _ (2 ^ (d - b - m)))]. apply Nat.mul_le_mono_l. lia. }
  apply (node_ok_ext ns); [apply Hext; lia..|]. by apply (Hleft m).
Qed.

Lemma rehash_from_position_spec d b s ns :
  length ns = 2 * 2 ^ d → ns !! 0 = Some zero32 → b ≤ d → s < 2 ^ (d - b) →
  (∀ i, 2 ^ (d - b) ≤ i < 2 ^ d → node_ok ns i) → left_ok d b s ns →
  rehash_from_position (mkSszTree ns (2 ^ d) d) (2 ^ (d - b) / 2) ((2 ^ (d - b) + s) / 2)
    = Some (tree_of d (drop (2 ^ d) ns)).
Proof.
  intros Hl Hz Hb Hs Hbelow Hleft. unfold rehash_from_position. cbn [nodes].
  assert (Htree : nodes_wf d ns → Some (mkSszTree ns (2 ^ d) d) = Some (tree_of d (drop (2 ^ d) ns))).
  { intros Hwf. unfold tree_of. do 2 f_equal. by apply nodes_wf_build. }
  destruct (d - b) as [|k] eqn:Ek.
  - simpl. apply Htree. split; [done|done|]. intros i Hi. apply Hbelow. simpl. lia.
  - rewrite div2_level. pose proof (pow2_pos k). destruct (Nat.eqb_spec (2 ^ k) 0); [lia|].
    rewrite Nat.log2_pow2 by lia. rewrite Nat.pow_succ_r' in *.
    destruct (rehash_position_loop_spec (S k) k ((2 * 2 ^ k + s) / 2) ns d)
      as (ns' & -> & Hl' & Hout & Hok); [lia|lia|done| |exact Hbelow| |].
    + split; [apply Nat.div_le_lower_bound; lia|apply Nat.Div0.div_lt_upper_bound; lia].
    + intros m i Hm Hi Hlt. apply (Hleft m); [lia|done|]. rewrite Ek.
      rewrite Nat.Div0.div_div in Hlt. rewrite Nat.pow_succ_r'.
      replace (S k - m) with (S (k - m)) by lia. by rewrite (Nat.pow_succ_r' 2 (k - m)).
    + cbn [mbind option_bind]. unfold update. cbn [capacity depth].
      assert (nodes_wf d ns') as Hwf by (split; [lia|rewrite Hout by (by left); done|done]).
      unfold tree_of. do 2 f_equal. rewrite (nodes_wf_build _ _ Hwf). f_equal.
      apply list_eq. intros j. rewrite !lookup_drop. apply Hout. right.
      assert (2 * 2 ^ k ≤ 2 ^ d) by (rewrite <-Nat.pow_succ_r'; apply Nat.pow_le_mono_r; lia). lia.
Qed.

(** Repairing block [v] and then everything from position [s ≤ v] on gives the
    tree of the leaves. *)
Lemma repair_spec d b s v ns :
  length ns = 2 * 2 ^ d → ns !! 0 = Some zero32 → b ≤ d → s ≤ v → v < 2 ^ (d - b) →
  blocks_ok d b v ns → left_ok d b s ns →
  ∃ ns', rehash_block (mkSszTree ns (2 ^ d) d) v (2 ^ b) = Some (mkSszTree ns' (2 ^ d) d) ∧
    length ns' = 2 * 2 ^ d ∧ drop (2 ^ d) ns' = drop (2 ^ d) ns ∧
    rehash_from_position (mkSszTree ns' (2 ^ d) d) (2 ^ (d - b) / 2) ((2 ^ (d - b) + s) / 2)
      = Some (tree_of d (drop (2 ^ d) ns)).
Proof.
  intros Hl Hz Hb Hsv Hv Hblocks Hleft.
  destruct (rehash_block_spec d b v ns Hl Hb Hv) as (ns' & E & Hl' & Hout & Hok).
  assert (Hd : drop (2 ^ d) ns' = drop (2 ^ d) ns).
  { apply list_eq. intros j. rewrite !lookup_drop. apply Hout. intros lv Hlv Hin.
    destruct (block_fits d b v lv) as (_ & F2 & _); [lia..|]. unfold in_block in Hin.
    assert (2 * 2 ^ (d - lv) ≤ 2 ^ d) by (rewrite <-Nat.pow_succ_r'; apply Nat.pow_le_mono_r; lia). lia. }
  exists ns'. split_and!; [done|lia|done|]. rewrite <-Hd.
  apply rehash_from_position_spec; [lia| |done|lia| |].
  - rewrite Hout; [done|]. intros lv Hlv Hin. pose proof (pow2_pos (d - lv)). unfold in_block in Hin. lia.
  - intros i Hi. destruct (level_of d i) as (lv & Hlv & Hat); [pose proof (pow2_pos (d - b)); lia|].
    assert (lv ≤ b) as Hlb.
    { destruct (Nat.le_gt_cases lv b) as [|Hgt]; [done|]. unfold at_level in Hat.
      assert (2 * 2 ^ (d - lv) ≤ 2 ^ (d - b)); [|lia]. rewrite <-Nat.pow_succ_r'. apply Nat.pow_le_mono_r; lia. }
    assert (Hdec : in_block d b v lv i ∨ ¬ in_block d b v lv i) by (unfold in_block; lia).
    destruct Hdec as [Hin|Hni]; [apply (Hok lv); [lia|done]|].
    assert (Hch : ∀ c lv', 1 ≤ lv' ≤ b → in_block d b v lv' c → c = i ∨ c = 2 * i ∨ c = 2 * i + 1 → False).
    { intros c lv' Hlv' Hin' Hc'.
      assert (at_level d lv' c) as Hat' by (by eapply (in_block_level d b v); lia || done).
      destruct Hc' as [->|Hc'].
      - assert (lv' = lv) as -> by (eapply (at_level_inj d); [lia|lia|done|done]). done.
      - destruct (decide (lv = 1)) as [->|].
        { unfold at_level in *. assert (2 * 2 ^ (d - 1) = 2 ^ d) by (rewrite <-Nat.pow_succ_r'; f_equal; lia).
          assert (2 * 2 ^ (d - lv') ≤ 2 ^ d); [|lia].
          rewrite <-Nat.pow_succ_r'. apply Nat.pow_le_mono_r; lia. }
        assert (lv' = lv - 1) as ->.
        { eapply (at_level_inj d); [lia|lia|done|]. unfold at_level in *.
          rewrite (pow2_split d lv) by lia. lia. }
        apply Hni. unfold in_block in *. rewrite (pow2_split d lv), (pow2_split b lv) in Hin' by lia. nia. }
    apply (node_ok_ext ns); [apply Hout; intros lv' Hlv' Hin'; by eapply (Hch _ lv'); eauto..|].
    apply (Hblocks lv); [lia|done|done].
  - apply (left_ok_ext d b s ns); [done|lia| |done]. intros j Hj. apply Hout. intros lv Hlv Hin.
    unfold in_block in Hin. pose proof (pow2_pos (b - lv)).
    assert (2 ^ (d - b) * 2 ^ (b - lv) = 2 ^ (d - lv)) by (rewrite <-Nat.pow_add_r; f_equal; lia). nia.
Qed.
End blocks.

Section shifts.
Context `{Hc : Crypto} `{!CryptoOk}.

Lemma copy_within_spec ns s e dst :
  s ≤ e → e ≤ length ns → dst + (e - s) ≤ length ns →
  ∃ ns', copy_within ns s e dst = Some ns' ∧ length ns' = length ns ∧
    ∀ j, ns' !! j = if decide (dst ≤ j < dst + (e - s)) then ns !! (s + (j - dst)) else ns !! j.
Proof.
  intros Hse He Hd. unfold copy_within. cbv zeta. rewrite decide_True by lia.
  eexists. split; [done|]. split.
  { rewrite !length_app, !length_take, !length_drop. lia. }
  intros j. case_decide as Hj.
  - rewrite lookup_app_r by (rewrite length_take; lia). rewrite length_take.
    rewrite lookup_app_l by (rewrite length_take, length_drop; lia).
    rewrite lookup_take_lt by lia. rewrite lookup_drop. f_equal. lia.
  - destruct (decide (j < dst)).
    + rewrite lookup_app_l by (rewrite length_take; lia). by rewrite lookup_take_lt by lia.
    + rewrite !lookup_app_r; rewrite ?length_take, ?length_drop; [|lia..].
      rewrite lookup_drop. f_equal. lia.
Qed.

(** A pass over the levels in which every node of level [lv] is replaced by the
    node [src lv] names on that level ([None]: by the zero node). *)
Definition moved (src : nat → option nat) (ns : list bytes) (j : nat) : option bytes :=
  match src j with None => Some zero32 | Some x => ns !! x end.

Lemma level_pass d b (src : nat → nat → option nat) (g : list bytes → nat → option (list bytes)) ns :
  b ≤ d → length ns = 2 * 2 ^ d →
  (∀ lv j, lv ≤ b → ¬ at_level d lv j → src lv j = Some j) →
  (∀ lv j x, lv ≤ b → at_level d lv j → src lv j = Some x → at_level d lv x) →
  (∀ ns1 lv, lv ≤ b → length ns1 = 2 * 2 ^ d →
     ∃ ns2, g ns1 lv = Some ns2 ∧ length ns2 = length ns1 ∧ ∀ j, ns2 !! j = moved (src lv) ns1 j) →
  ∃ ns', for_each g ns (range 0 (S b)) = Some ns' ∧ length ns' = length ns ∧
    (∀ lv j, lv ≤ b → at_level d lv j → ns' !! j = moved (src lv) ns j) ∧
    (∀ j, (∀ lv, lv ≤ b → ¬ at_level d lv j) → ns' !! j = ns !! j).
Proof.
  intros Hb Hl Hid Hlev Hg.
  assert (Hgen : ∀ k, k ≤ S b → ∃ ns', for_each g ns (range 0 k) = Some ns' ∧ length ns' = length ns ∧
    (∀ lv j, lv < k → at_level d lv j → ns' !! j = moved (src lv) ns j) ∧
    (∀ j, (∀ lv, lv < k → ¬ at_level d lv j) → ns' !! j = ns !! j)).
  { induction k as [|k IH]; intros Hk.
    { exists ns. split_and!; [done|done| |done]. intros lv j Hlv. lia. }
    destruct IH as (ns1 & E1 & Hl1 & Hin1 & Hout1); [lia|].
    unfold range in *. rewrite Nat.sub_0_r in *. rewrite seq_S, for_each_app, E1.
    cbn [mbind option_bind for_each Nat.add].
    destruct (Hg ns1 k) as (ns2 & -> & Hl2 & Hm); [lia|lia|]. cbn [mbind option_bind].
    exists ns2. split_and!; [done|lia| |].
    - intros lv j Hlv Hat. rewrite Hm. destruct (decide (lv = k)) as [->|Hne].
      + unfold moved. destruct (src k j) as [x|] eqn:Ex; [|done]. apply Hout1. intros lv' Hlv' Hat'.
        assert (at_level d k x) by (by apply (Hlev k j x); [lia|..]).
        assert (lv' = k); [|lia]. eapply (at_level_inj d); [lia|lia|done|done].
      + unfold moved. rewrite Hid; [apply Hin1; [lia|done]|lia|].
        intros Hat'. apply Hne. eapply (at_level_inj d); [lia|lia|done|done].
    - intros j Hj. rewrite Hm. unfold moved. rewrite Hid; [|lia|apply Hj; lia].
      apply Hout1. intros lv Hlv. apply Hj. lia. }
  destruct (Hgen (S b)) as (ns' & E & Hl' & Hin & Hout); [lia|]. exists ns'. split_and!; [done|done| |].
  - intros lv j Hlv. apply Hin. lia.
  - intros j Hj. apply Hout. intros lv Hlv. apply Hj. lia.
Qed.

(** A node whose children moved along with it is still the hash of its children. *)
Lemma node_ok_moved d b src ns ns' lv i x :
  (∀ lv j, lv ≤ b → at_level d lv j → ns' !! j = moved (src lv) ns j) →
  1 ≤ lv ≤ b → b ≤ d → at_level d lv i → src lv i = Some x →
  src (lv - 1) (2 * i) = Some (2 * x) → src (lv - 1) (2 * i + 1) = Some (2 * x + 1) →
  node_ok ns x → node_ok ns' i.
Proof.
  intros Hin Hlv Hb Hat Hx Hx1 Hx2 (a & c & Ha & Hc' & Hh). exists a, c.
  unfold at_level in Hat. pose proof (pow2_split d lv).
  rewrite (Hin lv i), (Hin (lv - 1) (2 * i)), (Hin (lv - 1) (2 * i + 1));
    [|lia|unfold at_level; lia|lia|unfold at_level; lia|lia|done].
  unfold moved. by rewrite Hx, Hx1, Hx2.
Qed.

Definition src_right (d b f c lv j : nat) : option nat :=
  let B := 2 ^ (d - lv) in let S := 2 ^ (b - lv) in
  if decide (B + f * S ≤ j < B + f * S + S) then None
  else if decide (B + f * S + S ≤ j < B + f * S + S + c * S) then Some (j - S) else Some j.

Definition src_left (d b f c lv j : nat) : option nat :=
  let B := 2 ^ (d - lv) in let S := 2 ^ (b - lv) in
  if decide (B + f * S ≤ j < B + f * S + c * S) then Some (j + S)
  else if decide (B + f * S + c * S ≤ j < B + f * S + c * S + S) then None else Some j.

Lemma shift_fits d b f c lv :
  lv ≤ b → b ≤ d → f + c + 1 ≤ 2 ^ (d - b) →
  f * 2 ^ (b - lv) + c * 2 ^ (b - lv) + 2 ^ (b - lv) ≤ 2 ^ (d - lv) ∧ 1 ≤ 2 ^ (b - lv) ∧ 2 ^ (d - lv) ≤ 2 ^ d.
Proof.
  intros Hlv Hb Hf. destruct (block_fits d b (f + c) lv) as (_ & F & G); [done|done|lia|].
  pose proof (pow2_pos (b - lv)). nia.
Qed.

Lemma shift_right_nodes d b f c ns :
  length ns = 2 * 2 ^ d → b ≤ d → f + c + 1 ≤ 2 ^ (d - b) → c ≠ 0 →
  ∃ ns', shift_blocks_right (mkSszTree ns (2 ^ d) d) f c (2 ^ b) = Some (mkSszTree ns' (2 ^ d) d) ∧
    length ns' = length ns ∧
    (∀ lv j, lv ≤ b → at_level d lv j → ns' !! j = moved (src_right d b f c lv) ns j) ∧
    (∀ j, (∀ lv, lv ≤ b → ¬ at_level d lv j) → ns' !! j = ns !! j).
Proof.
  intros Hl Hb Hf Hcz. unfold shift_blocks_right. cbn [nodes capacity].
  destruct (Nat.eqb_spec c 0); [done|]. rewrite Nat.log2_pow2 by lia.
  destruct (level_pass d b (src_right d b f c) (λ ns level,
      ns ← copy_within ns (Nat.shiftr (2 ^ d) level + f * Nat.shiftr (2 ^ b) level)
        (Nat.shiftr (2 ^ d) level + f * Nat.shiftr (2 ^ b) level + c * Nat.shiftr (2 ^ b) level)
        (Nat.shiftr (2 ^ d) level + f * Nat.shiftr (2 ^ b) level + Nat.shiftr (2 ^ b) level);
      zero_range ns (Nat.shiftr (2 ^ d) level + f * Nat.shiftr (2 ^ b) level) (Nat.shiftr (2 ^ b) level)) ns)
    as (ns' & E & Hrest); [done|done| | | |].
  - intros lv j Hlv Hat. destruct (shift_fits d b f c lv) as (F & G & K); [done..|].
    unfold src_right, at_level in *. cbv zeta. rewrite !decide_False by lia. done.
  - intros lv j x Hlv Hat. destruct (shift_fits d b f c lv) as (F & G & K); [done..|].
    unfold src_right, at_level in *. cbv zeta. repeat case_decide; intros [= <-]; lia.
  - intros ns1 lv Hlv Hl1. destruct (shift_fits d b f c lv) as (F & G & K); [done..|].
    rewrite !shiftr_pow2 by lia.
    assert (2 ^ (d - lv) ≤ 2 ^ d) by lia.
    destruct (copy_within_spec ns1 (2 ^ (d - lv) + f * 2 ^ (b - lv))
      (2 ^ (d - lv) + f * 2 ^ (b - lv) + c * 2 ^ (b - lv))
      (2 ^ (d - lv) + f * 2 ^ (b - lv) + 2 ^ (b - lv))) as (ns2 & -> & Hl2 & H2); [lia..|].
    cbn [mbind option_bind]. unfold zero_range.
    destruct (set_range_spec ns2 (2 ^ (d - lv) + f * 2 ^ (b - lv))
      (2 ^ (d - lv) + f * 2 ^ (b - lv) + 2 ^ (b - lv)) zero32) as (ns3 & -> & Hl3 & Hout & Hin); [lia|].
    exists ns3. split_and!; [done|lia|]. intros j. unfold moved, src_right. cbv zeta.
    case_decide; [by apply Hin|]. rewrite Hout, H2 by done.
    case_decide; (case_decide || idtac); try lia; [f_equal; lia|done].
  - cbv zeta. rewrite E. cbn [mbind option_bind]. exists ns'. by split.
Qed.

Lemma shift_left_nodes d b f c ns :
  length ns = 2 * 2 ^ d → b ≤ d → f + c + 1 ≤ 2 ^ (d - b) → c ≠ 0 →
  ∃ ns', shift_blocks_left (mkSszTree ns (2 ^ d) d) f c (2 ^ b) = Some (mkSszTree ns' (2 ^ d) d) ∧
    length ns' = length ns ∧
    (∀ lv j, lv ≤ b → at_level d lv j → ns' !! j = moved (src_left d b f c lv) ns j) ∧
    (∀ j, (∀ lv, lv ≤ b → ¬ at_level d lv j) → ns' !! j = ns !! j).
Proof.
  intros Hl Hb Hf Hcz. unfold shift_blocks_left. cbn [nodes capacity].
  destruct (Nat.eqb_spec c 0); [done|]. rewrite Nat.log2_pow2 by lia.
  destruct (level_pass d b (src_left d b f c) (λ ns level,
      ns ← copy_within ns (Nat.shiftr (2 ^ d) level + (f + 1) * Nat.shiftr (2 ^ b) level)
        (Nat.shiftr (2 ^ d) level + (f + 1) * Nat.shiftr (2 ^ b) level + c * Nat.shiftr (2 ^ b) level)
        (Nat.shiftr (2 ^ d) level + f * Nat.shiftr (2 ^ b) level);
      zero_range ns (Nat.shiftr (2 ^ d) level + f * Nat.shiftr (2 ^ b) level + c * Nat.shiftr (2 ^ b) level)
        (Nat.shiftr (2 ^ b) level)) ns)
    as (ns' & E & Hrest); [done|done| | | |].
  - intros lv j Hlv Hat. destruct (shift_fits d b f c lv) as (F & G & K); [done..|].
    unfold src_left, at_level in *. cbv zeta. rewrite !decide_False by lia. done.
  - intros lv j x Hlv Hat. destruct (shift_fits d b f c lv) as (F & G & K); [done..|].
    unfold src_left, at_level in *. cbv zeta. repeat case_decide; intros [= <-]; lia.
  - intros ns1 lv Hlv Hl1. destruct (shift_fits d b f c lv) as (F & G & K); [done..|].
    rewrite !shiftr_pow2 by lia. rewrite Nat.mul_add_distr_r, Nat.mul_1_l.
    assert (2 ^ (d - lv) ≤ 2 ^ d) by lia.
    destruct (copy_within_spec ns1 (2 ^ (d - lv) + (f * 2 ^ (b - lv) + 2 ^ (b - lv)))
      (2 ^ (d - lv) + (f * 2 ^ (b - lv) + 2 ^ (b - lv)) + c * 2 ^ (b - lv))
      (2 ^ (d - lv) + f * 2 ^ (b - lv))) as (ns2 & -> & Hl2 & H2); [lia..|].
    cbn [mbind option_bind]. unfold zero_range.
    destruct (set_range_spec ns2 (2 ^ (d - lv) + f * 2 ^ (b - lv) + c * 2 ^ (b - lv))
      (2 ^ (d - lv) + f * 2 ^ (b - lv) + c * 2 ^ (b - lv) + 2 ^ (b - lv)) zero32)
      as (ns3 & -> & Hl3 & Hout & Hin); [lia|].
    exists ns3. split_and!; [done|lia|]. intros j. unfold moved, src_left. cbv zeta.
    case_decide.
    + rewrite Hout, H2 by lia. rewrite decide_True by lia. f_equal. lia.
    + case_decide; [by apply Hin|]. rewrite Hout, H2 by done. by rewrite decide_False by lia.
  - cbv zeta. rewrite E. cbn [mbind option_bind]. exists ns'. by split.
Qed.

Lemma not_at_level_low d b j : b ≤ d → j < 2 ^ (d - b) → ∀ lv, lv ≤ b → ¬ at_level d lv j.
Proof.
  intros Hb Hj lv Hlv Hat. unfold at_level in Hat.
  assert (2 ^ (d - b) ≤ 2 ^ (d - lv)) by (apply Nat.pow_le_mono_r; lia). lia.
Qed.

(** What a shift leaves behind: only block [v] is broken inside, and nothing is
    broken left of block [s]. *)
Record shifted (d b s v : nat) (ns : list bytes) : Prop := {
  sh_length : length ns = 2 * 2 ^ d;
  sh_sentinel : ns !! 0 = Some zero32;
  sh_blocks : blocks_ok d b v ns;
  sh_left : left_ok d b s ns
}.

Lemma shifted_refl d b s v ns : b ≤ d → s < 2 ^ (d - b) → nodes_wf d ns → shifted d b s v ns.
Proof.
  intros Hb Hs [Hl Hz Hn]. split; [done|done| |].
  - intros lv i Hlv Hat _. apply Hn. unfold at_level in Hat. pose proof (pow2_pos (d - lv)).
    assert (2 * 2 ^ (d - lv) ≤ 2 ^ d) by (rewrite <-Nat.pow_succ_r'; apply Nat.pow_le_mono_r; lia). lia.
  - intros m i Hm Hi _. apply Hn. pose proof (pow2_pos m).
    assert (2 * 2 ^ m ≤ 2 ^ d) by (rewrite <-Nat.pow_succ_r'; apply Nat.pow_le_mono_r; lia). lia.
Qed.

Lemma src_id_low d b f c lv j :
  lv ≤ b → b ≤ d → at_level d lv j → j < 2 ^ (d - b) + f →
  src_right d b f c lv j = Some j ∧ src_left d b f c lv j = Some j.
Proof.
  intros Hlv Hb Hat Hj. unfold at_level in Hat.
  assert (2 ^ (d - b) * 2 ^ (b - lv) = 2 ^ (d - lv)) by (rewrite <-Nat.pow_add_r; f_equal; lia).
  pose proof (pow2_pos (b - lv)). pose proof (pow2_pos (d - b)).
  assert (j < 2 ^ (d - lv) + f * 2 ^ (b - lv) ∨ 2 ^ (d - b) + f < 2 ^ (d - lv) ∨ j < 2 ^ (d - lv)) by nia.
  unfold src_right, src_left. cbv zeta. rewrite !decide_False by lia. done.
Qed.

Lemma shift_right_shifted d b f c ns ns' :
  nodes_wf d ns → b ≤ d → f + c + 1 ≤ 2 ^ (d - b) →
  length ns' = length ns →
  (∀ lv j, lv ≤ b → at_level d lv j → ns' !! j = moved (src_right d b f c lv) ns j) →
  (∀ j, (∀ lv, lv ≤ b → ¬ at_level d lv j) → ns' !! j = ns !! j) →
  shifted d b f f ns'.
Proof.
  intros Hwf Hb Hf Hl Hin Hout. pose proof (shifted_refl d b f f ns Hb ltac:(lia) Hwf) as [S1 S2 S3 S4].
  split; [lia| | |].
  - rewrite Hout; [done|]. apply (not_at_level_low d b 0); [done|apply pow2_pos].
  - intros lv i Hlv Hat Hni.
    destruct (shift_fits d b f c lv) as (F & G & _); [lia..|].
    destruct (shift_fits d b f c (lv - 1)) as (F' & G' & _); [lia..|].
    pose proof (pow2_split d lv ltac:(lia) ltac:(lia)) as Pd.
    pose proof (pow2_split b lv ltac:(lia) ltac:(lia)) as Pb.
    unfold in_block in Hni. rewrite Nat.mul_add_distr_r, Nat.mul_1_l in Hni.
    assert (Hw : ∀ x, 1 ≤ x < 2 ^ d → node_ok ns x) by apply Hwf.
    assert (2 * 2 ^ (d - lv) ≤ 2 ^ d) by (rewrite <-Nat.pow_succ_r'; apply Nat.pow_le_mono_r; lia).
    pose proof (pow2_pos (d - lv)).
    pose proof Hat as Hat'. unfold at_level in Hat.
    destruct (decide (2 ^ (d - lv) + f * 2 ^ (b - lv) + 2 ^ (b - lv) ≤ i
      < 2 ^ (d - lv) + f * 2 ^ (b - lv) + 2 ^ (b - lv) + c * 2 ^ (b - lv))) as [Hmv|Hst].
    + apply (node_ok_moved d b (src_right d b f c) ns ns' lv i (i - 2 ^ (b - lv)) Hin);
        [done|done|done|..|apply Hw; lia].
      all: unfold src_right; cbv zeta; rewrite ?Pd, ?Pb.
      all: rewrite ?decide_False by lia; rewrite decide_True by lia; f_equal; lia.
    + apply (node_ok_moved d b (src_right d b f c) ns ns' lv i i Hin); [done|done|done|..|apply Hw; lia].
      all: unfold src_right; cbv zeta; rewrite ?Pd, ?Pb; by rewrite !decide_False by lia.
  - apply (left_ok_ext d b f ns); [done|lia| |done]. intros j Hj.
    destruct (decide (j = 0)) as [->|].
    { apply Hout. apply (not_at_level_low d b 0); [done|apply pow2_pos]. }
    destruct (decide (j < 2 ^ (d - b))); [apply Hout; by apply not_at_level_low|].
    assert (at_level d b j) as Hat by (unfold at_level; lia).
    rewrite (Hin b) by done. unfold moved. by destruct (src_id_low d b f c b j) as [-> _].
Qed.

Lemma shift_left_shifted d b f c ns ns' :
  nodes_wf d ns → b ≤ d → f + c + 1 ≤ 2 ^ (d - b) →
  length ns' = length ns →
  (∀ lv j, lv ≤ b → at_level d lv j → ns' !! j = moved (src_left d b f c lv) ns j) →
  (∀ j, (∀ lv, lv ≤ b → ¬ at_level d lv j) → ns' !! j = ns !! j) →
  shifted d b f (f + c) ns'.
Proof.
  intros Hwf Hb Hf Hl Hin Hout. pose proof (shifted_refl d b f f ns Hb ltac:(lia) Hwf) as [S1 S2 S3 S4].
  split; [lia| | |].
  - rewrite Hout; [done|]. apply (not_at_level_low d b 0); [done|apply pow2_pos].
  - intros lv i Hlv Hat Hni.
    destruct (shift_fits d b f c lv) as (F & G & _); [lia..|].
    destruct (shift_fits d b f c (lv - 1)) as (F' & G' & _); [lia..|].
    pose proof (pow2_split d lv ltac:(lia) ltac:(lia)) as Pd.
    pose proof (pow2_split b lv ltac:(lia) ltac:(lia)) as Pb.
    unfold in_block in Hni. rewrite !Nat.mul_add_distr_r, Nat.mul_1_l in Hni.
    assert (Hw : ∀ x, 1 ≤ x < 2 ^ d → node_ok ns x) by apply Hwf.
    assert (2 * 2 ^ (d - lv) ≤ 2 ^ d) by (rewrite <-Nat.pow_succ_r'; apply Nat.pow_le_mono_r; lia).
    pose proof (pow2_pos (d - lv)).
    pose proof Hat as Hat'. unfold at_level in Hat.
    destruct (decide (2 ^ (d - lv) + f * 2 ^ (b - lv) ≤ i
      < 2 ^ (d - lv) + f * 2 ^ (b - lv) + c * 2 ^ (b - lv))) as [Hmv|Hst].
    + apply (node_ok_moved d b (src_left d b f c) ns ns' lv i (i + 2 ^ (b - lv)) Hin);
        [done|done|done|..|apply Hw; lia].
      all: unfold src_left; cbv zeta; rewrite ?Pd, ?Pb.
      all: rewrite decide_True by lia; f_equal; lia.
    + apply (node_ok_moved d b (src_left d b f c) ns ns' lv i i Hin); [done|done|done|..|apply Hw; lia].
      all: unfold src_left; cbv zeta; rewrite ?Pd, ?Pb; by rewrite !decide_False by lia.
  - apply (left_ok_ext d b f ns); [done|lia| |done]. intros j Hj.
    destruct (decide (j = 0)) as [->|].
    { apply Hout. apply (not_at_level_low d b 0); [done|apply pow2_pos]. }
    destruct (decide (j < 2 ^ (d - b))); [apply Hout; by apply not_at_level_low|].
    assert (at_level d b j) as Hat by (unfold at_level; lia).
    rewrite (Hin b) by done. unfold moved. by destruct (src_id_low d b f c b j) as [_ ->].
Qed.

(** *** The leaves after a shift *)

Lemma zeros_split n m : m ≤ n → zeros n = zeros m ++ zeros (n - m).
Proof. intros. unfold zeros. rewrite <-replicate_add. f_equal. lia. Qed.

Lemma lookup_zeros n j : j < n → zeros n !! j = Some zero32.
Proof. apply lookup_replicate_2. Qed.

Lemma leaf_level d j : j < 2 ^ d → at_level d 0 (2 ^ d + j).
Proof. unfold at_level. rewrite Nat.sub_0_r. lia. Qed.

Lemma shift_right_leaves d b f c A M n ns' :
  length (A ++ M ++ zeros n) = 2 ^ d → length A = f * 2 ^ b → length M = c * 2 ^ b → 2 ^ b ≤ n →
  length ns' = 2 * 2 ^ d →
  (∀ lv j, lv ≤ b → at_level d lv j →
     ns' !! j = moved (src_right d b f c lv) (build d (A ++ M ++ zeros n)) j) →
  drop (2 ^ d) ns' = A ++ zeros (2 ^ b) ++ M ++ zeros (n - 2 ^ b).
Proof.
  intros Hl HA HM Hn Hl' Hin.
  assert (Hl2 : length (A ++ zeros (2 ^ b) ++ M ++ zeros (n - 2 ^ b)) = 2 ^ d).
  { revert Hl. unfold zeros. rewrite !length_app, !length_replicate. lia. }
  apply list_eq. intros j. rewrite lookup_drop. destruct (decide (j < 2 ^ d)) as [Hj|Hj].
  2:{ rewrite !lookup_ge_None_2; [done|lia|lia]. }
  rewrite (Hin 0 (2 ^ d + j)) by (lia || by apply leaf_level). unfold moved, src_right.
  rewrite !Nat.sub_0_r. cbv zeta. unfold zeros in *. rewrite !length_app, !length_replicate in *.
  repeat case_decide.
  - rewrite lookup_app_r by lia. rewrite lookup_app_l by (rewrite length_replicate; lia).
    by rewrite lookup_replicate_2 by lia.
  - replace (2 ^ d + j - 2 ^ b) with (2 ^ d + (j - 2 ^ b)) by lia.
    rewrite build_lookup_leaf by (rewrite !length_app, length_replicate; lia).
    rewrite !(lookup_app_r A) by lia. rewrite lookup_app_l by lia.
    rewrite lookup_app_r by (rewrite length_replicate; lia). rewrite length_replicate.
    rewrite lookup_app_l by lia. f_equal. lia.
  - rewrite build_lookup_leaf by (rewrite !length_app, length_replicate; lia).
    destruct (decide (j < length A)); [by rewrite !lookup_app_l by lia|].
    rewrite !(lookup_app_r A) by lia. rewrite lookup_app_r by lia.
    rewrite !(lookup_app_r (replicate _ _)) by (rewrite length_replicate; lia).
    rewrite length_replicate. rewrite (lookup_app_r M) by lia.
    rewrite !lookup_replicate_2 by lia. done.
Qed.

Lemma shift_left_leaves d b f c A X M n ns' :
  length (A ++ X ++ M ++ zeros n) = 2 ^ d → length A = f * 2 ^ b → length X = 2 ^ b →
  length M = c * 2 ^ b → length ns' = 2 * 2 ^ d →
  (∀ lv j, lv ≤ b → at_level d lv j →
     ns' !! j = moved (src_left d b f c lv) (build d (A ++ X ++ M ++ zeros n)) j) →
  drop (2 ^ d) ns' = A ++ M ++ zeros (n + 2 ^ b).
Proof.
  intros Hl HA HX HM Hl' Hin.
  assert (Hl2 : length (A ++ M ++ zeros (n + 2 ^ b)) = 2 ^ d).
  { revert Hl. unfold zeros. rewrite !length_app, !length_replicate. lia. }
  apply list_eq. intros j. rewrite lookup_drop. destruct (decide (j < 2 ^ d)) as [Hj|Hj].
  2:{ rewrite !lookup_ge_None_2; [done|lia|lia]. }
  rewrite (Hin 0 (2 ^ d + j)) by (lia || by apply leaf_level). unfold moved, src_left.
  rewrite !Nat.sub_0_r. cbv zeta. unfold zeros in *. rewrite !length_app, !length_replicate in *.
  repeat case_decide.
  - replace (2 ^ d + j + 2 ^ b) with (2 ^ d + (j + 2 ^ b)) by lia.
    rewrite build_lookup_leaf by (rewrite !length_app, length_replicate; lia).
    rewrite !(lookup_app_r A) by lia. rewrite lookup_app_r by lia.
    rewrite !(lookup_app_l M) by lia. f_equal. lia.
  - rewrite !lookup_app_r by lia. by rewrite lookup_replicate_2 by lia.
  - rewrite build_lookup_leaf by (rewrite !length_app, length_replicate; lia).
    destruct (decide (j < length A)); [by rewrite !lookup_app_l by lia|].
    rewrite !lookup_app_r by lia. by rewrite !lookup_replicate_2 by lia.
Qed.
End shifts.

(** ** Writing leaves of the broken block *)
Section writes.
Context `{Hc : Crypto} `{!CryptoOk}.

Lemma set_leaf_no_rehash_spec d ns o x :
  length ns = 2 * 2 ^ d → o < 2 ^ d →
  set_leaf_no_rehash (mkSszTree ns (2 ^ d) d) o x
    = Some (mkSszTree (<[2 ^ d + o := x]> ns) (2 ^ d) d) ∧
  drop (2 ^ d) (<[2 ^ d + o := x]> ns) = <[o := x]> (drop (2 ^ d) ns).
Proof.
  intros Hl Ho. unfold set_leaf_no_rehash. cbn [nodes capacity]. rewrite set_node_Some by lia.
  split; [done|]. rewrite drop_insert_ge by lia. f_equal. lia.
Qed.

Lemma shifted_write d b s v ns o x :
  b ≤ d → s ≤ v → v < 2 ^ (d - b) → shifted d b s v ns → v * 2 ^ b ≤ o < (v + 1) * 2 ^ b →
  shifted d b s v (<[2 ^ d + o := x]> ns).
Proof.
  intros Hb Hs Hv [S1 S2 S3 S4] Ho. pose proof (pow2_pos d).
  destruct (block_fits d b v 0) as (_ & F & _); [lia..|]. rewrite !Nat.sub_0_r in F.
  assert (Hne : ∀ j, j ≠ 2 ^ d + o → <[2 ^ d + o := x]> ns !! j = ns !! j)
    by (intros; by apply list_lookup_insert_ne).
  split; [by rewrite length_insert|rewrite Hne by lia; done| |].
  - intros lv i Hlv Hat Hni.
    assert (2 * 2 ^ (d - lv) ≤ 2 ^ d) by (rewrite <-Nat.pow_succ_r'; apply Nat.pow_le_mono_r; lia).
    assert (Hch : 2 * i ≠ 2 ^ d + o ∧ 2 * i + 1 ≠ 2 ^ d + o).
    { unfold at_level in Hat. destruct (decide (lv = 1)) as [->|].
      - unfold in_block in Hni. pose proof (pow2_split d 1 ltac:(lia) ltac:(lia)) as Pd.
        pose proof (pow2_split b 1 ltac:(lia) ltac:(lia)) as Pb. simpl Nat.sub in *.
        rewrite !Nat.sub_0_r in Pd, Pb. rewrite Pb in Ho. rewrite Pd. nia.
      - assert (2 * (2 * 2 ^ (d - lv)) ≤ 2 ^ d); [|lia].
        rewrite <-!Nat.pow_succ_r'. apply Nat.pow_le_mono_r; lia. }
    unfold at_level in Hat.
    apply (node_ok_ext ns); [apply Hne; lia..|]. by apply (S3 lv).
  - apply (left_ok_ext d b s ns); [done|lia| |done]. intros j Hj. apply Hne.
    destruct b as [|b]; [rewrite Nat.sub_0_r, Nat.pow_0_r in *; lia|].
    assert (2 * 2 ^ (d - S b) ≤ 2 ^ d) by (rewrite <-Nat.pow_succ_r'; apply Nat.pow_le_mono_r; lia). lia.
Qed.

(** ** Merkle roots and proofs *)

Lemma root_tree_of d l : length l = 2 ^ d → root (tree_of d l) = Some (merkle d l).
Proof.
  intros Hl. unfold root. cbn [capacity nodes tree_of]. pose proof (pow2_pos d).
  destruct (Nat.eqb_spec (2 ^ d) 0); [lia|]. by apply build_root.
Qed.

Lemma merkle_layers_spec d l : length l = 2 ^ d → merkle_layers d l = Some (merkle d l).
Proof.
  revert l. induction d as [|d IH]; intros l Hl; cbn [merkle_layers merkle].
  - destruct l as [|a [|]]; simpl in *; done || lia.
  - rewrite (proj2 (Nat.leb_nle _ _)) by (rewrite Hl, Nat.pow_succ_r'; pose proof (pow2_pos d); lia).
    apply IH. by apply length_hash_layer.
Qed.

(** A list of chunks padded with zero chunks to a power of two. *)
Definition pad_depth (l : list bytes) : nat := Nat.log2_up (length l).
Definition padded (l : list bytes) : list bytes := l ++ zeros (2 ^ pad_depth l - length l).

Lemma length_padded l : length (padded l) = 2 ^ pad_depth l.
Proof.
  unfold padded, zeros. rewrite length_app, length_replicate.
  assert (length l ≤ 2 ^ pad_depth l); [|lia]. unfold pad_depth.
  destruct (decide (length l = 0)) as [->|]; [simpl; lia|]. apply Nat.log2_up_le_pow2; lia.
Qed.

Lemma merkleize_spec l : merkleize l = Some (merkle (pad_depth l) (padded l)).
Proof.
  unfold merkleize. destruct l as [|a l].
  - simpl. by rewrite ZERO_HASHES_0.
  - unfold next_power_of_two. rewrite Nat.log2_pow2 by lia. apply merkle_layers_spec, length_padded.
Qed.

Lemma lxor_1_even k : Nat.lxor (2 * k) 1 = 2 * k + 1.
Proof.
  symmetry. apply Nat.add_nocarry_lxor. change 1 with (Nat.ones 1).
  rewrite Nat.land_ones, Nat.pow_1_r, Nat.mul_comm. apply Nat.Div0.mod_mul.
Qed.

Lemma lxor_1_odd k : Nat.lxor (2 * k + 1) 1 = 2 * k.
Proof.
  rewrite <-lxor_1_even at 1. by rewrite Nat.lxor_assoc, Nat.lxor_nilpotent, Nat.lxor_0_r.
Qed.

Lemma half_even k : 2 * k / 2 = k.
Proof. by rewrite Nat.mul_comm, Nat.div_mul. Qed.
Lemma half_odd k : (2 * k + 1) / 2 = k.
Proof. by rewrite Nat.add_comm, Nat.mul_comm, Nat.div_add. Qed.

(** One step of a branch: a node and its sibling hash to the parent. *)
Lemma branch_step ns idx h :
  1 < idx → node_ok ns (idx / 2) → ns !! idx = Some h →
  ∃ s, ns !! Nat.lxor idx 1 = Some s ∧ ns !! (idx / 2) = Some (fold_step h idx s).
Proof.
  intros Hi (l & r & Hl & Hr & Hp) Hh. unfold fold_step.
  destruct (Nat.even idx) eqn:He.
  - apply Nat.even_spec in He as [k ->]. rewrite half_even in *. rewrite lxor_1_even.
    exists r. by simplify_eq.
  - rewrite <-Nat.negb_odd in He. apply negb_false_iff, Nat.odd_spec in He as [k ->].
    rewrite half_odd in *. rewrite lxor_1_odd. exists l. by simplify_eq.
Qed.

Lemma proof_steps_spec n d ns idx h :
  nodes_wf d ns → 2 ^ n ≤ idx < 2 * 2 ^ d → ns !! idx = Some h →
  ∃ p h', proof_steps n ns idx = Some p ∧ length p = n ∧
    ns !! (idx / 2 ^ n) = Some h' ∧ fold_branch h idx p = (h', idx / 2 ^ n).
Proof.
  intros Hwf. revert idx h. induction n as [|n IH]; intros idx h Hi Hh; cbn [proof_steps].
  { exists [], h. rewrite Nat.pow_0_r, Nat.div_1_r. done. }
  rewrite Nat.pow_succ_r' in Hi. pose proof (pow2_pos n).
  assert (2 ^ n ≤ idx / 2) by (apply Nat.div_le_lower_bound; lia).
  assert (idx / 2 < 2 ^ d) by (apply Nat.Div0.div_lt_upper_bound; lia).
  destruct (branch_step ns idx h) as (s & -> & Hp); [lia|apply (wf_nodes d ns Hwf); lia|done|].
  destruct (IH (idx / 2) (fold_step h idx s)) as (p & h' & -> & Hlp & Hh' & Hf); [lia|done|].
  cbn [mbind option_bind]. exists (s :: p), h'. simpl. rewrite Nat.Div0.div_div in *.
  change (2 ^ n + (2 ^ n + 0)) with (2 * 2 ^ n). by rewrite Hlp.
Qed.

Lemma div_pow2_range d i : i < 2 ^ d → (2 ^ d + i) / 2 ^ d = 1.
Proof.
  intros Hi. pose proof (pow2_pos d).
  replace (2 ^ d + i) with (i + 1 * 2 ^ d) by lia. rewrite Nat.div_add by lia.
  by rewrite Nat.div_small.
Qed.

(** The branch of a leaf leads from the leaf to the root. *)
Lemma generate_proof_spec d l i v :
  length l = 2 ^ d → l !! i = Some v →
  ∃ p, generate_proof (tree_of d l) i = Some p ∧ length p = d ∧
    fold_branch v (2 ^ d + i) p = (merkle d l, 1).
Proof.
  intros Hl Hv. pose proof (lookup_lt_Some _ _ _ Hv). pose proof (build_wf d l Hl) as Hwf.
  destruct (proof_steps_spec d d (build d l) (2 ^ d + i) v) as (p & h' & E & Hlp & Hh & Hf);
    [done|lia|by rewrite build_lookup_leaf|].
  rewrite div_pow2_range in * by lia. exists p. split_and!; [done|done|].
  rewrite (build_root d l Hl) in Hh. by simplify_eq.
Qed.

Lemma proof_loop_steps fuel ns idx :
  1 ≤ idx → Nat.log2 idx ≤ fuel → proof_loop fuel ns idx = proof_steps (Nat.log2 idx) ns idx.
Proof.
  revert idx. induction fuel as [|fuel IH]; intros idx Hi Hf.
  - assert (idx = 1) as ->; [|done]. destruct (decide (idx = 1)); [done|].
    rewrite log2_half in Hf by lia. lia.
  - cbn [proof_loop]. destruct (Nat.leb_spec idx 1); [by replace idx with 1 by lia|].
    rewrite (log2_half idx) in * by lia. cbn [proof_steps].
    rewrite IH; [done|apply Nat.div_le_lower_bound; lia|lia].
Qed.

Lemma log2_div idx : 1 ≤ idx → idx / 2 ^ Nat.log2 idx = 1.
Proof.
  intros Hi. destruct (Nat.log2_spec idx) as [H1 H2]; [lia|]. rewrite Nat.pow_succ_r' in H2.
  replace idx with (2 ^ Nat.log2 idx + (idx - 2 ^ Nat.log2 idx)) at 1 by lia.
  apply div_pow2_range. lia.
Qed.
End writes.

(** ** Soundness of proofs: a second value for a node exhibits a hash collision *)
Section soundness.
Context `{Hc : Crypto}.

Definition children (idx : nat) (hash sibling : bytes) : bytes * bytes :=
  if Nat.even idx then (hash, sibling) else (sibling, hash).
Definition hash_pair (p : bytes * bytes) : bytes := hash32_concat p.1 p.2.

Lemma fold_step_children idx h s : fold_step h idx s = hash_pair (children idx h s).
Proof. unfold fold_step, children. by destruct (Nat.even idx). Qed.

(** Walks two branches for the same index and returns the first two distinct
    pairs of children with the same hash. *)
Fixpoint find_collision (idx : nat) (h : bytes) (p : list bytes) (h' : bytes) (p' : list bytes)
  : option ((bytes * bytes) * (bytes * bytes)) :=
  match p, p' with
  | s :: p, s' :: p' =>
      let x := children idx h s in
      let x' := children idx h' s' in
      if bool_decide (x ≠ x' ∧ hash_pair x = hash_pair x') then Some (x, x')
      else find_collision (idx / 2) (hash_pair x) p (hash_pair x') p'
  | _, _ => None
  end.

Lemma find_collision_spec idx h p h' p' :
  length p = length p' → h ≠ h' →
  (fold_branch h idx p).1 = (fold_branch h' idx p').1 →
  ∃ x x', find_collision idx h p h' p' = Some (x, x') ∧ x ≠ x' ∧ hash_pair x = hash_pair x'.
Proof.
  revert idx h h' p'. induction p as [|s p IH]; intros idx h h' [|s' p'] Hlen Hne Hf; try done.
  simpl in Hlen. cbn [fold_branch find_collision] in *. rewrite !fold_step_children in Hf.
  case_bool_decide as Hd; [by exists (children idx h s), (children idx h' s')|].
  apply IH; [lia| |done]. intros E. apply Hd. split; [|done]. unfold children.
  destruct (Nat.even idx); congruence.
Qed.

(** Two branches of the same index to the same root that start from the same node
    agree on it: the sibling lists are then equal too, unless the hash collides. *)
Lemma fold_branch_idx h idx p : (fold_branch h idx p).2 = idx / 2 ^ length p.
Proof.
  revert h idx. induction p as [|s p IH]; intros h idx; cbn [fold_branch length].
  - by rewrite Nat.pow_0_r, Nat.div_1_r.
  - by rewrite IH, Nat.Div0.div_div, <-Nat.pow_succ_r'.
Qed.
End soundness.

(** ** The properties of the tree *)
Section properties.
Context `{Hc : Crypto} `{!CryptoOk}.

(** What a list of leaf writes does to the leaves. *)
Definition write_leaves (l : list bytes) (ws : list (nat * bytes)) : list bytes :=
  foldl (λ l '(i, v), <[i := v]> l) l ws.

Lemma length_write_leaves l ws : length (write_leaves l ws) = length l.
Proof.
  revert l. induction ws as [|[i v] ws IH]; intros l; [done|]. simpl. by rewrite IH, length_insert.
Qed.

Lemma set_leaves_tree_of d l ws :
  length l = 2 ^ d → Forall (λ w, w.1 < 2 ^ d) ws →
  set_leaves (tree_of d l) ws = Some (tree_of d (write_leaves l ws)).
Proof.
  intros Hl Hws. revert l Hl. induction Hws as [|[i v] ws Hi Hws IH]; intros l Hl; [done|].
  unfold set_leaves in *. cbn [for_each]. rewrite set_leaf_tree_of by done. cbn [mbind option_bind].
  apply IH. by rewrite length_insert.
Qed.

(** The writes that put the chunks [cs] at consecutive leaves from [base] on. *)
Fixpoint chunk_writes (base : nat) (cs : list bytes) : list (nat * bytes) :=
  match cs with [] => [] | c :: cs => (base, c) :: chunk_writes (S base) cs end.

Lemma chunk_writes_bound base cs : Forall (λ w, w.1 < base + length cs) (chunk_writes base cs).
Proof.
  revert base. induction cs as [|c cs IH]; intros base; constructor; [simpl; lia|].
  eapply Forall_impl; [apply IH|]. simpl. intros. lia.
Qed.

Lemma write_chunks l1 cs l2 :
  length l2 = length cs → ∀ r, write_leaves (l1 ++ l2 ++ r) (chunk_writes (length l1) cs) = l1 ++ cs ++ r.
Proof.
  revert l1 l2. induction cs as [|c cs IH]; intros l1 [|x l2] Hl r; simpl in *; try done.
  rewrite insert_app_r_alt by done. rewrite Nat.sub_diag. simpl.
  change (l1 ++ c :: l2 ++ r) with (l1 ++ [c] ++ l2 ++ r). rewrite (assoc_L (++)).
  replace (S (length l1)) with (length (l1 ++ [c])) by (rewrite length_app; simpl; lia).
  rewrite IH by lia. by rewrite <-(assoc_L (++)).
Qed.

(** The incremental tree computes the SSZ Merkle root.  Starting from a new
    tree and writing any list of chunks leaf by leaf, each write rehashing only its path,
    never panics and ends with the root that [merkleize] computes from scratch. *)
Theorem incremental_root_is_merkleize (cs : list bytes) :
  (t ← new (length cs); t ← set_leaves t (chunk_writes 0 cs); root t) = merkleize cs.
Proof.
  rewrite new_tree_of. cbn [mbind option_bind]. fold (pad_depth cs).
  assert (length cs ≤ 2 ^ pad_depth cs) as Hle.
  { pose proof (length_padded cs) as Hp. unfold padded in Hp. rewrite length_app in Hp. lia. }
  rewrite set_leaves_tree_of.
  - cbn [mbind option_bind]. rewrite root_tree_of.
    + rewrite merkleize_spec. do 2 f_equal. unfold padded.
      rewrite (zeros_split _ (length cs)) by done.
      apply (write_chunks []). apply length_replicate.
    + rewrite length_write_leaves. apply length_replicate.
  - apply length_replicate.
  - eapply Forall_impl; [apply chunk_writes_bound|]. simpl. intros. lia.
Qed.

(** C28: Setting a leaf, growing and shrinking act on the leaves alone: each returns
    the well-formed tree of the updated leaves (zero leaves are added when it grows, the
    leaves beyond the new capacity are dropped when it shrinks), so every internal node is
    again the hash of its children. *)
Theorem tree_operations_refine_leaves (d : nat) (l : list bytes) (i n : nat) (v : bytes) :
  length l = 2 ^ d →
  (i < 2 ^ d → set_leaf (tree_of d l) i v = Some (tree_of d (<[i := v]> l))) ∧
  (2 ^ d < n → grow (tree_of d l) n =
     Some (tree_of (Nat.log2_up n) (l ++ zeros (2 ^ Nat.log2_up n - 2 ^ d)))) ∧
  (Nat.log2_up (n `max` 1) < d → shrink (tree_of d l) n =
     Some (tree_of (Nat.log2_up (n `max` 1)) (take (2 ^ Nat.log2_up (n `max` 1)) l))) ∧
  nodes_wf d (nodes (tree_of d l)).
Proof.
  intros Hl. split_and!.
  - by apply set_leaf_tree_of.
  - intros Hn. rewrite grow_tree_of by done. by destruct (Nat.leb_spec n (2 ^ d)); [lia|].
  - intros Hd. unfold tree_of at 1. rewrite shrink_spec by (done || by apply length_build). simpl.
    by rewrite build_leaves.
  - by apply build_wf.
Qed.

(** C27: Proofs are complete: for every leaf of a tree, [generate_proof] succeeds
    with one sibling per level, and both verifiers accept it for that leaf's value against
    the tree's root. *)
Theorem proof_complete (d : nat) (l : list bytes) (i : nat) (v : bytes) :
  length l = 2 ^ d → l !! i = Some v →
  ∃ p r, generate_proof (tree_of d l) i = Some p ∧ root (tree_of d l) = Some r ∧ length p = d ∧
    verify_proof r i v p d = true ∧ verify_proof_gindex r (2 ^ d + i) v p = true.
Proof.
  intros Hl Hv. destruct (generate_proof_spec d l i v Hl Hv) as (p & E & Hlp & Hf).
  pose proof (lookup_lt_Some _ _ _ Hv). pose proof (pow2_pos d).
  exists p, (merkle d l). split_and!; [done|by apply root_tree_of|done| |].
  - unfold verify_proof. rewrite Hlp, Nat.eqb_refl. simpl. rewrite Hf. by apply bool_decide_true.
  - unfold verify_proof_gindex. destruct (Nat.eqb_spec (2 ^ d + i) 0); [lia|].
    assert (Nat.log2 (2 ^ d + i) = d) as ->.
    { apply Nat.log2_unique; [lia|]. rewrite Nat.pow_succ_r'. lia. }
    rewrite Hlp, Nat.eqb_refl. simpl. rewrite Hf. simpl. by apply bool_decide_true.
Qed.

(** C26: Proofs are sound: if a verifier accepts any other value for a leaf against
    the tree's root, the two branches yield, by computation, two different pairs of nodes
    with the same hash. *)
Theorem proof_sound (d : nat) (l : list bytes) (i : nat) (v v' : bytes) (r : bytes) (p p' : list bytes) :
  length l = 2 ^ d → l !! i = Some v → root (tree_of d l) = Some r →
  generate_proof (tree_of d l) i = Some p →
  verify_proof r i v' p' d = true ∨ verify_proof_gindex r (2 ^ d + i) v' p' = true → v' ≠ v →
  ∃ x x', find_collision (2 ^ d + i) v' p' v p = Some (x, x') ∧ x ≠ x' ∧ hash_pair x = hash_pair x'.
Proof.
  intros Hl Hv Hr Hp Hver Hne. pose proof (lookup_lt_Some _ _ _ Hv). pose proof (pow2_pos d).
  destruct (generate_proof_spec d l i v Hl Hv) as (p0 & E & Hlp & Hf).
  rewrite E in Hp. injection Hp as <-. rewrite root_tree_of in Hr by done. injection Hr as <-.
  assert (length p' = d ∧ (fold_branch v' (2 ^ d + i) p').1 = merkle d l) as [Hlp' Hf'].
  { destruct Hver as [Hver|Hver].
    - unfold verify_proof in Hver. destruct (Nat.eqb_spec (length p') d); [|done]. simpl in Hver.
      destruct (fold_branch _ _ p'). by apply bool_decide_eq_true in Hver.
    - unfold verify_proof_gindex in Hver. destruct (Nat.eqb_spec (2 ^ d + i) 0); [done|].
      assert (Nat.log2 (2 ^ d + i) = d) as Hlg.
      { apply Nat.log2_unique; [lia|]. rewrite Nat.pow_succ_r'. lia. }
      rewrite Hlg in Hver. destruct (Nat.eqb_spec (length p') d); [|done]. simpl in Hver.
      destruct (fold_branch _ _ p'). apply andb_true_iff in Hver as [_ Hver].
      by apply bool_decide_eq_true in Hver. }
  apply find_collision_spec; [lia|done|]. by rewrite Hf, Hf'.
Qed.
End properties.

(** ** Instances *)
Definition demo_leaves : list bytes := [ToyCrypto.digest []; zero32; ToyCrypto.digest [Init.Byte.x01]; zero32].

Lemma tree_operations_refine_leaves_witness :
  @set_leaf ToyCrypto.toy (@tree_of ToyCrypto.toy 2 demo_leaves) 1 zero32
    = Some (@tree_of ToyCrypto.toy 2 demo_leaves).
Proof.
  apply (@tree_operations_refine_leaves ToyCrypto.toy 2 demo_leaves 1 9 zero32);
    [reflexivity|simpl; lia].
Defined.

Lemma proof_complete_witness :
  ∃ p r, @generate_proof (@tree_of ToyCrypto.toy 2 demo_leaves) 2 = Some p ∧ length p = 2 ∧
    @verify_proof ToyCrypto.toy r 2 (ToyCrypto.digest [Init.Byte.x01]) p 2 = true.
Proof.
  destruct (@proof_complete ToyCrypto.toy 2 demo_leaves 2 (ToyCrypto.digest [Init.Byte.x01]))
    as (p & r & H1 & _ & H2 & H3 & _); [reflexivity|reflexivity|]. by exists p, r.
Defined.

(** A hash that collides everywhere accepts a wrong leaf, and the collision is found. *)
Definition flat : Crypto :=
  let base := ToyCrypto.toy in
  {| ed25519_valid := @ed25519_valid base; bls_valid := @bls_valid base;
     ed25519_sig_valid := @ed25519_sig_valid base; bls_sig_valid := @bls_sig_valid base;
     ed25519_verify := @ed25519_verify base; bls_verify := @bls_verify base;
     sha256 := @sha256 base; hash32_concat _ _ := zero_bytes 32; ZERO_HASHES _ := zero_bytes 32 |}.

Lemma proof_sound_witness :
  ∃ x x', @find_collision flat 3 [Init.Byte.x07] [zero32] zero32 [zero32] = Some (x, x') ∧ x ≠ x'.
Proof.
  destruct (@proof_sound flat 1 [zero32; zero32] 1 zero32 [Init.Byte.x07] zero32 [zero32] [zero32])
    as (x & x' & H1 & H2 & _); [reflexivity..| |done|by exists x, x'].
  left. by vm_compute.
Defined.

Lemma incremental_root_is_merkleize_witness :
  (t ← @new ToyCrypto.toy 4; t ← @set_leaves ToyCrypto.toy t (chunk_writes 0 demo_leaves); root t)
  = @merkleize ToyCrypto.toy demo_leaves.
Proof. exact (@incremental_root_is_merkleize ToyCrypto.toy ToyCrypto.toy_ok demo_leaves). Defined.
