(* ===== verification/SszCollections.v ===== *)
(** * SszCollections: trees of items

    A collection's tree holds one block of leaves per item.  [pad_tree] is its
    specification; building it from scratch, appending an item, and inserting and
    removing a block in the middle by moving the other blocks are all shown to give
    the [pad_tree] of the new list of blocks. *)
From S2P Require Import Prelude Crypto SszTree SszTreeFacts.

Section collections.
Context `{Hc : Crypto} `{!CryptoOk}.

Definition pad_tree (l : list bytes) : SszTree := tree_of (pad_depth l) (padded l).

(** A block of [n] leaves with the given writes. *)
Definition block (n : nat) (ws : list (nat * bytes)) : list bytes := write_leaves (zeros n) ws.

Lemma length_zeros n : length (zeros n) = n.
Proof. apply length_replicate. Qed.

Lemma length_block n ws : length (block n ws) = n.
Proof. unfold block. by rewrite length_write_leaves, length_zeros. Qed.

Lemma write_leaves_app l ws1 ws2 :
  write_leaves l (ws1 ++ ws2) = write_leaves (write_leaves l ws1) ws2.
Proof. apply foldl_app. Qed.

Lemma write_leaves_mid A X Z ws base :
  base = length A → Forall (λ w, w.1 < length X) ws →
  write_leaves (A ++ X ++ Z) (offset base ws) = A ++ write_leaves X ws ++ Z.
Proof.
  intros -> Hws. revert X Hws. induction ws as [|[i v] ws IH]; intros X Hws; [done|].
  apply Forall_cons in Hws as [Hi Hws]. simpl in Hi. cbn [offset map write_leaves foldl].
  rewrite insert_app_r. rewrite insert_app_l by done.
  change (foldl _ ?a (map _ ws)) with (write_leaves a (offset (length A) ws)).
  rewrite IH by (by rewrite length_insert). done.
Qed.

Lemma write_block_zeros A n m ws :
  n ≤ m → Forall (λ w, w.1 < n) ws →
  write_leaves (A ++ zeros m) (offset (length A) ws) = A ++ block n ws ++ zeros (m - n).
Proof.
  intros Hn Hws. rewrite (zeros_split m n) by done. unfold block.
  apply write_leaves_mid; [done|]. by rewrite length_zeros.
Qed.

Lemma offset_bound base n ws m :
  base + n ≤ m → Forall (λ w, w.1 < n) ws → Forall (λ w, w.1 < m) (offset base ws).
Proof.
  intros Hm Hws. unfold offset. apply Forall_map. eapply Forall_impl; [exact Hws|].
  intros [i v]. simpl. lia.
Qed.

Lemma take_padded d l :
  pad_depth l ≤ d → take (2 ^ pad_depth l) (l ++ zeros (2 ^ d - length l)) = padded l.
Proof.
  intros Hd. pose proof (length_padded l) as Hl. unfold padded in *.
  rewrite length_app, length_zeros in Hl. rewrite take_app_ge by lia. f_equal. unfold zeros.
  rewrite take_replicate. f_equal. assert (2 ^ pad_depth l ≤ 2 ^ d) by (apply Nat.pow_le_mono_r; lia).
  lia.
Qed.

Section items.
Context {A : Type} (n : nat) (w : A → list (nat * bytes)).
Hypothesis Hw : ∀ x, Forall (λ w, w.1 < n) (w x).

Definition item_block (x : A) : list bytes := block n (w x).
Definition item_leaves (l : list A) : list bytes := concat (map item_block l).

Lemma length_item_leaves l : length (item_leaves l) = length l * n.
Proof.
  unfold item_leaves. induction l as [|x l IH]; [done|]. simpl. rewrite length_app, IH.
  unfold item_block. by rewrite length_block.
Qed.

Lemma item_leaves_app l1 l2 : item_leaves (l1 ++ l2) = item_leaves l1 ++ item_leaves l2.
Proof. unfold item_leaves. by rewrite map_app, concat_app. Qed.

Lemma fill_from d done l :
  (length done + length l) * n ≤ 2 ^ d →
  for_each (λ t '(i, x), set_leaves t (offset (i * n) (w x)))
    (tree_of d (item_leaves done ++ zeros (2 ^ d - length done * n)))
    (zip (seq (length done) (length l)) l)
  = Some (tree_of d (item_leaves (done ++ l) ++ zeros (2 ^ d - (length done + length l) * n))).
Proof.
  revert done. induction l as [|x l IH]; intros done Hle.
  { simpl. rewrite app_nil_r. do 4 f_equal. lia. }
  simpl zip. cbn [for_each]. simpl length in Hle.
  rewrite set_leaves_tree_of.
  - cbn [mbind option_bind].
    replace (length done * n) with (length (item_leaves done)) at 2 by (apply length_item_leaves).
    rewrite (write_block_zeros _ n) by (lia || apply Hw).
    replace (item_leaves done ++ block n (w x) ++ zeros (2 ^ d - length done * n - n))
      with (item_leaves (done ++ [x]) ++ zeros (2 ^ d - length (done ++ [x]) * n)).
    + replace (S (length done)) with (length (done ++ [x])) by (rewrite length_app; simpl; lia).
      rewrite IH by (rewrite length_app; simpl; lia). rewrite length_app, <-(assoc_L (++)).
      simpl length. do 4 f_equal. lia.
    + rewrite item_leaves_app, length_app, <-(assoc_L (++)). f_equal.
      unfold item_leaves at 1. simpl. rewrite app_nil_r. unfold item_block. f_equal. f_equal. simpl. lia.
  - rewrite length_app, length_zeros, length_item_leaves. lia.
  - apply (offset_bound _ n); [lia|apply Hw].
Qed.

Lemma log2_up_max_1 m : Nat.log2_up (m `max` 1) = Nat.log2_up m.
Proof. destruct m; [done|]. f_equal. lia. Qed.

Lemma pad_depth_items l : pad_depth (item_leaves l) = Nat.log2_up (length l * n).
Proof. unfold pad_depth. by rewrite length_item_leaves. Qed.

Lemma items_fit l : length l * n ≤ 2 ^ pad_depth (item_leaves l).
Proof.
  pose proof (length_padded (item_leaves l)) as Hp. unfold padded in Hp.
  rewrite length_app, length_item_leaves in Hp. lia.
Qed.

(** Building a collection from scratch. *)
Lemma build_collection l :
  (t ← new ((length l * n) `max` 1);
   for_each (λ t '(i, x), set_leaves t (offset (i * n) (w x))) t (zip (seq 0 (length l)) l))
  = Some (pad_tree (item_leaves l)).
Proof.
  rewrite new_tree_of, log2_up_max_1. cbn [mbind option_bind]. rewrite <-pad_depth_items.
  pose proof (items_fit l) as Hfit.
  pose proof (fill_from (pad_depth (item_leaves l)) [] l) as Hf. simpl in Hf.
  rewrite Nat.sub_0_r in Hf. rewrite Hf by lia. unfold pad_tree, padded.
  by rewrite length_item_leaves.
Qed.

Lemma pad_depth_mono l m :
  length l * n ≤ m → m ≤ 2 ^ pad_depth (item_leaves l) → Nat.log2_up m = pad_depth (item_leaves l).
Proof.
  intros H1 H2. rewrite pad_depth_items in *. apply Nat.le_antisymm.
  - destruct (decide (m = 0)) as [->|]; [apply Nat.le_0_l|]. apply Nat.log2_up_le_pow2; lia.
  - by apply Nat.log2_up_le_mono.
Qed.

(** The tree grown to hold one more item. *)
Lemma grow_collection l :
  grow (pad_tree (item_leaves l)) ((length l + 1) * n) =
    (let d := Nat.log2_up ((length l + 1) * n) in
     Some (tree_of d (item_leaves l ++ zeros (2 ^ d - length l * n)))) ∧
  (length l + 1) * n ≤ 2 ^ Nat.log2_up ((length l + 1) * n).
Proof.
  assert (Hfit : (length l + 1) * n ≤ 2 ^ Nat.log2_up ((length l + 1) * n)).
  { destruct ((length l + 1) * n) as [|m] eqn:E; [simpl; lia|]. apply Nat.log2_up_le_pow2; lia. }
  split; [|done]. cbv zeta. unfold pad_tree. pose proof (items_fit l).
  rewrite grow_tree_of by apply length_padded.
  destruct (Nat.leb_spec ((length l + 1) * n) (2 ^ pad_depth (item_leaves l))) as [Hle|Hgt].
  - rewrite (pad_depth_mono l) by lia. unfold padded. by rewrite length_item_leaves.
  - do 2 f_equal. unfold padded. rewrite <-(assoc_L (++)), length_item_leaves. f_equal.
    unfold zeros. rewrite <-replicate_add. f_equal.
    assert (2 ^ pad_depth (item_leaves l) ≤ 2 ^ Nat.log2_up ((length l + 1) * n)); [|lia].
    apply Nat.pow_le_mono_r; [lia|]. rewrite pad_depth_items. apply Nat.log2_up_le_mono. lia.
Qed.

(** Appending an item. *)
Lemma push_collection l x :
  (t ← grow (pad_tree (item_leaves l)) ((length l + 1) * n);
   set_leaves t (offset (length l * n) (w x)))
  = Some (pad_tree (item_leaves (l ++ [x]))).
Proof.
  destruct (grow_collection l) as [-> Hfit]. cbn [mbind option_bind]. cbv zeta.
  rewrite set_leaves_tree_of.
  - rewrite <-length_item_leaves at 2. rewrite (write_block_zeros _ n) by (lia || apply Hw).
    unfold pad_tree, padded. rewrite pad_depth_items, length_item_leaves, length_app.
    rewrite item_leaves_app, <-(assoc_L (++)). unfold item_leaves at 3. simpl. rewrite app_nil_r.
    do 5 f_equal. lia.
  - rewrite length_app, length_zeros, length_item_leaves. lia.
  - apply (offset_bound _ n); [lia|apply Hw].
Qed.

(** Rewriting the item at a slot. *)
Lemma update_collection l1 x y l2 :
  write_leaves (item_block x) (w y) = item_block y →
  set_leaves (pad_tree (item_leaves (l1 ++ x :: l2))) (offset (length l1 * n) (w y))
  = Some (pad_tree (item_leaves (l1 ++ y :: l2))).
Proof.
  intros Hxy. unfold pad_tree. rewrite set_leaves_tree_of.
  - assert (Hd : pad_depth (item_leaves (l1 ++ x :: l2)) = pad_depth (item_leaves (l1 ++ y :: l2))).
    { rewrite !pad_depth_items, !length_app. done. }
    rewrite Hd. do 2 f_equal. unfold padded. rewrite Hd, !length_item_leaves.
    replace (length (l1 ++ y :: l2)) with (length (l1 ++ x :: l2)) by (by rewrite !length_app).
    generalize (zeros (2 ^ pad_depth (item_leaves (l1 ++ y :: l2)) - length (l1 ++ x :: l2) * n)) as Z.
    intros Z. rewrite !item_leaves_app. unfold item_leaves at 2 4. simpl.
    rewrite <-!(assoc_L (++)). rewrite write_leaves_mid; [by rewrite Hxy| |].
    + by rewrite length_item_leaves.
    + unfold item_block at 1. rewrite length_block. apply Hw.
  - apply length_padded.
  - apply (offset_bound _ n); [|apply Hw]. pose proof (items_fit (l1 ++ x :: l2)) as Hf.
    rewrite length_app in Hf. simpl in Hf. lia.
Qed.
End items.

(** ** Blocks in the middle *)
Section blocks.
Context {A : Type} (b : nat) (w : A → list (nat * bytes)).
Hypothesis Hw : ∀ x, Forall (λ w, w.1 < 2 ^ b) (w x).
Local Abbreviation leaves := (item_leaves (2 ^ b) w).

Lemma shifted_writes d s v ws ns :
  b ≤ d → s ≤ v → v < 2 ^ (d - b) → shifted d b s v ns → length ns = 2 * 2 ^ d →
  Forall (λ w, w.1 < 2 ^ b) ws →
  ∃ ns', set_leaves_no_rehash (mkSszTree ns (2 ^ d) d) (offset (v * 2 ^ b) ws)
      = Some (mkSszTree ns' (2 ^ d) d) ∧
    length ns' = 2 * 2 ^ d ∧ shifted d b s v ns' ∧
    drop (2 ^ d) ns' = write_leaves (drop (2 ^ d) ns) (offset (v * 2 ^ b) ws).
Proof.
  intros Hb Hsv Hv Hsh Hl Hws. revert ns Hsh Hl.
  induction Hws as [|[i x] ws Hi Hws IH]; intros ns Hsh Hl; [by exists ns|]. simpl in Hi.
  assert (Ho : v * 2 ^ b + i < 2 ^ d).
  { assert ((v + 1) * 2 ^ b ≤ 2 ^ d); [|lia].
    replace (2 ^ d) with (2 ^ (d - b) * 2 ^ b) by (rewrite <-Nat.pow_add_r; f_equal; lia).
    apply Nat.mul_le_mono_r. lia. }
  destruct (set_leaf_no_rehash_spec d ns (v * 2 ^ b + i) x Hl Ho) as [E1 E2].
  destruct (IH (<[2 ^ d + (v * 2 ^ b + i) := x]> ns)) as (ns' & E & Hl' & Hsh' & Hd).
  - apply shifted_write; [done..|]. lia.
  - by rewrite length_insert.
  - exists ns'. split_and!; [|done..|].
    + unfold set_leaves_no_rehash in *. cbn [offset map for_each]. by rewrite E1.
    + rewrite Hd, E2. done.
Qed.

Lemma pow_split d : b ≤ d → 2 ^ d = 2 ^ (d - b) * 2 ^ b.
Proof. intros. rewrite <-Nat.pow_add_r. f_equal. lia. Qed.

Lemma pow_div d : b ≤ d → 2 ^ d / 2 ^ b = 2 ^ (d - b).
Proof. intros. rewrite pow_split by done. apply Nat.div_mul, Nat.pow_nonzero. lia. Qed.

(** A tree with at least one item has room for whole blocks. *)
Lemma block_depth k : 0 < k → b ≤ Nat.log2_up (k * 2 ^ b).
Proof.
  intros. etrans; [|apply Nat.log2_up_le_mono, (Nat.mul_le_mono_r 1); lia].
  rewrite Nat.mul_1_l, Nat.log2_up_pow2; lia.
Qed.
Lemma shift_right_block d f c L M n :
  length (L ++ M ++ zeros n) = 2 ^ d → length L = f * 2 ^ b → length M = c * 2 ^ b → 2 ^ b ≤ n →
  b ≤ d →
  ∃ ns', shift_blocks_right (tree_of d (L ++ M ++ zeros n)) f c (2 ^ b)
      = Some (mkSszTree ns' (2 ^ d) d) ∧ shifted d b f f ns' ∧
    drop (2 ^ d) ns' = L ++ zeros (2 ^ b) ++ M ++ zeros (n - 2 ^ b).
Proof.
  intros Hl HL HM Hn Hb. pose proof (build_wf _ _ Hl) as Hwf.
  assert (Hf : f + c + 1 ≤ 2 ^ (d - b)).
  { rewrite !length_app, length_zeros, (pow_split d) in Hl by done. pose proof (pow2_pos b). nia. }
  destruct c as [|c].
  - destruct M; [|discriminate]. exists (build d (L ++ [] ++ zeros n)). split; [done|].
    split; [apply shifted_refl; [done|lia|done]|].
    rewrite build_leaves by done. simpl. by rewrite <-zeros_split by done.
  - destruct (shift_right_nodes d b f (S c) (build d (L ++ M ++ zeros n)))
      as (ns' & E & Hl' & Hin & Hout); [by apply length_build|done|done|done|].
    exists ns'. split; [done|]. split; [by eapply shift_right_shifted|].
    eapply shift_right_leaves; eauto. by rewrite Hl', length_build.
Qed.

(** Inserting a block: grow, move the later blocks right, write, and rehash what changed. *)
Lemma insert_block l1 x l2 :
  (t ← grow (pad_tree (leaves (l1 ++ l2))) ((length (l1 ++ l2) + 1) * 2 ^ b);
   t ← shift_blocks_right t (length l1) (length l2) (2 ^ b);
   t ← set_leaves_no_rehash t (offset (length l1 * 2 ^ b) (w x));
   t ← rehash_block t (length l1) (2 ^ b);
   rehash_from_position t (capacity t / 2 ^ b / 2) ((capacity t / 2 ^ b + length l1) / 2))
  = Some (pad_tree (leaves (l1 ++ x :: l2))).
Proof.
  destruct (grow_collection (2 ^ b) w (l1 ++ l2)) as [-> Hfit]. cbn [mbind option_bind]. cbv zeta.
  set (d := Nat.log2_up ((length (l1 ++ l2) + 1) * 2 ^ b)) in *.
  assert (Hb : b ≤ d) by (apply block_depth; lia). pose proof (pow2_pos b).
  rewrite item_leaves_app, <-(assoc_L (++)).
  destruct (shift_right_block d (length l1) (length l2) (leaves l1) (leaves l2)
    (2 ^ d - length (l1 ++ l2) * 2 ^ b)) as (ns1 & -> & Hsh1 & Hd1);
    [rewrite !length_app, length_zeros, !length_item_leaves; rewrite length_app in *; lia
    |apply length_item_leaves..|lia|done|].
  assert (Hs : length l1 < 2 ^ (d - b)).
  { rewrite (pow_split d), length_app in Hfit by done. nia. }
  cbn [mbind option_bind].
  destruct (shifted_writes d (length l1) (length l1) (w x) ns1)
    as (ns2 & -> & Hl2 & [_ Hz2 Hbl2 Hle2] & Hd2); [done..|apply Hsh1|apply Hw|].
  cbn [mbind option_bind].
  destruct (repair_spec d b (length l1) (length l1) ns2) as (ns3 & -> & _ & _ & E3); [done..|].
  cbn [mbind option_bind capacity]. rewrite pow_div, E3 by done. f_equal.
  rewrite Hd2, Hd1. rewrite write_leaves_mid
    by (rewrite ?length_item_leaves, ?length_zeros; done || apply Hw).
  unfold pad_tree, padded. rewrite pad_depth_items, length_item_leaves.
  replace (length (l1 ++ x :: l2)) with (length (l1 ++ l2) + 1) by (rewrite !length_app; simpl; lia).
  fold d. f_equal. rewrite item_leaves_app. unfold item_leaves at 4. simpl. rewrite <-!(assoc_L (++)).
  unfold item_block at 1, block. do 4 f_equal. lia.
Qed.

Lemma range_cons i j : i < j → range i j = i :: range (S i) j.
Proof. intros. unfold range. replace (j - i) with (S (j - S i)) by lia. done. Qed.

Definition zero_writes : list (nat * bytes) := map (λ i, (i, zero32)) (range 0 (2 ^ b)).

Lemma zero_writes_bound : Forall (λ w, w.1 < 2 ^ b) zero_writes.
Proof.
  unfold zero_writes. apply Forall_map, Forall_forall. intros i Hi. apply elem_of_range in Hi. simpl. lia.
Qed.

Lemma write_zero_from k X :
  k ≤ length X →
  write_leaves X (map (λ i, (i, zero32)) (range (length X - k) (length X)))
  = take (length X - k) X ++ zeros k.
Proof.
  revert X. induction k as [|k IH]; intros X Hk.
  - rewrite Nat.sub_0_r, range_empty by lia. simpl. by rewrite firstn_all, app_nil_r.
  - rewrite range_cons by lia. cbn [map write_leaves foldl].
    change (foldl _ ?a (map ?g ?r)) with (write_leaves a (map g r)).
    specialize (IH (<[length X - S k:=zero32]> X)). rewrite length_insert in IH.
    replace (S (length X - S k)) with (length X - k) by lia. rewrite IH by lia.
    replace (length X - k) with (S (length X - S k)) by lia.
    rewrite (take_S_r _ _ zero32) by (apply list_lookup_insert_eq; lia).
    rewrite take_insert_ge by lia. by rewrite <-(assoc_L (++)).
Qed.

Lemma write_zeros X : length X = 2 ^ b → write_leaves X zero_writes = zeros (2 ^ b).
Proof.
  intros HX. pose proof (write_zero_from (2 ^ b) X) as H'. rewrite HX, Nat.sub_diag in H'.
  unfold zero_writes. rewrite H' by done. done.
Qed.

Lemma shift_left_block d f c L X M n :
  length (L ++ X ++ M ++ zeros n) = 2 ^ d → length L = f * 2 ^ b → length X = 2 ^ b →
  length M = c * 2 ^ b → b ≤ d →
  ∃ ns', (t ← shift_blocks_left (tree_of d (L ++ X ++ M ++ zeros n)) f c (2 ^ b);
          if c =? 0 then set_leaves_no_rehash t (offset (f * 2 ^ b) zero_writes) else Some t)
      = Some (mkSszTree ns' (2 ^ d) d) ∧ length ns' = 2 * 2 ^ d ∧ shifted d b f (f + c) ns' ∧
    drop (2 ^ d) ns' = L ++ M ++ zeros (n + 2 ^ b) ∧ f + c < 2 ^ (d - b).
Proof.
  intros Hl HL HX HM Hb. pose proof (build_wf _ _ Hl) as Hwf.
  assert (Hf : f + c + 1 ≤ 2 ^ (d - b)).
  { rewrite !length_app, length_zeros, (pow_split d) in Hl by done. pose proof (pow2_pos b). nia. }
  destruct c as [|c].
  - destruct M; [|discriminate]. cbn [shift_blocks_left Nat.eqb mbind option_bind].
    destruct (shifted_writes d f f zero_writes (build d (L ++ X ++ [] ++ zeros n)))
      as (ns' & E & Hl' & Hsh & Hd); [done|lia|lia|apply shifted_refl; [done|lia|done]
      |by apply length_build|apply zero_writes_bound|].
    exists ns'. rewrite Nat.add_0_r. split_and!; [done..| |lia].
    rewrite Hd, build_leaves by done. rewrite write_leaves_mid
      by (rewrite ?HX; done || apply zero_writes_bound).
    rewrite write_zeros by done. simpl. unfold zeros. rewrite <-replicate_add. by rewrite Nat.add_comm.
  - destruct (shift_left_nodes d b f (S c) (build d (L ++ X ++ M ++ zeros n)))
      as (ns' & E & Hl' & Hin & Hout); [by apply length_build|done|done|done|].
    exists ns'. unfold tree_of. rewrite E. cbn [mbind option_bind Nat.eqb].
    assert (length ns' = 2 * 2 ^ d) by (by rewrite Hl', length_build).
    split_and!; [done..|by eapply shift_left_shifted|by eapply shift_left_leaves|lia].
Qed.

(** Removing a block: move the later blocks left, clear the vacated one, and
    shrink the tree or rehash what changed. *)
Lemma remove_block l1 x l2 :
  let needed := (length (l1 ++ l2) * 2 ^ b) `max` 1 in
  (t ← shift_blocks_left (pad_tree (leaves (l1 ++ x :: l2))) (length l1) (length l2) (2 ^ b);
   t ← (if length l2 =? 0 then set_leaves_no_rehash t (offset (length l1 * 2 ^ b) zero_writes)
        else Some t);
   t ← rehash_block t (length l1 + length l2) (2 ^ b);
   if next_power_of_two needed <? capacity t then shrink t needed
   else rehash_from_position t (capacity t / 2 ^ b / 2) ((capacity t / 2 ^ b + length l1) / 2))
  = Some (pad_tree (leaves (l1 ++ l2))).
Proof.
  cbv zeta. set (n := length (l1 ++ l2) * 2 ^ b).
  assert (Hn : length (l1 ++ x :: l2) * 2 ^ b = n + 2 ^ b)
    by (unfold n; rewrite !length_app; simpl; lia).
  pose proof (items_fit (2 ^ b) w (l1 ++ x :: l2)) as Hfit. rewrite Hn in Hfit.
  unfold pad_tree at 1, padded. rewrite length_item_leaves, Hn.
  assert (Hb : b ≤ pad_depth (leaves (l1 ++ x :: l2))).
  { rewrite pad_depth_items. apply block_depth. rewrite length_app. simpl. lia. }
  assert (Hd' : pad_depth (leaves (l1 ++ l2)) ≤ pad_depth (leaves (l1 ++ x :: l2))).
  { rewrite !pad_depth_items, Hn. apply Nat.log2_up_le_mono. lia. }
  set (d := pad_depth (leaves (l1 ++ x :: l2))) in *.
  rewrite (item_leaves_app _ _ _ (x :: l2)). unfold item_leaves at 2. cbn [map concat]. rewrite <-!(assoc_L (++)).
  destruct (shift_left_block d (length l1) (length l2) (leaves l1) (item_block (2 ^ b) w x)
    (leaves l2) (2 ^ d - (n + 2 ^ b))) as (ns1 & E1 & Hl1 & [_ Hz1 Hbl1 Hle1] & Hdr1 & Hv);
    [rewrite !length_app, length_zeros, !length_item_leaves; unfold item_block;
     rewrite length_block; unfold n in *; rewrite length_app in *; lia
    |apply length_item_leaves|apply length_block|apply length_item_leaves|done|].
  destruct (shift_blocks_left _ _ _ _) as [t1|]; [|discriminate]. cbn [mbind option_bind] in *.
  rewrite E1. cbn [mbind option_bind].
  destruct (repair_spec d b (length l1) (length l1 + length l2) ns1) as (ns2 & -> & Hl2 & Hdr2 & E2);
    [done..|lia|done|done|done|].
  cbn [mbind option_bind capacity].
  rewrite Hdr1 in E2, Hdr2.
  replace (2 ^ d - (n + 2 ^ b) + 2 ^ b) with (2 ^ d - length (leaves (l1 ++ l2))) in E2, Hdr2
    by (rewrite length_item_leaves; fold n; lia).
  rewrite (assoc_L (++)), <-item_leaves_app in E2, Hdr2.
  assert (Hneed : Nat.log2_up (n `max` 1) = pad_depth (leaves (l1 ++ l2)))
    by (rewrite log2_up_max_1, pad_depth_items; done).
  unfold next_power_of_two, pad_tree. rewrite Hneed.
  destruct (Nat.ltb_spec (2 ^ pad_depth (leaves (l1 ++ l2))) (2 ^ d)) as [Hlt|Hge].
  - rewrite shrink_spec; [|done|].
    + cbv zeta. rewrite log2_up_max_1, Hneed, Hdr2, take_padded by done. done.
    + rewrite log2_up_max_1, Hneed. by apply Nat.pow_lt_mono_r_iff in Hlt; [|lia].
  - assert (Hdd : pad_depth (leaves (l1 ++ l2)) = d)
      by (apply Nat.pow_le_mono_r_iff in Hge; lia).
    rewrite pow_div, E2 by done. unfold padded. by rewrite Hdd.
Qed.
End blocks.
End collections.
