(* ===== verification/SszHash.v ===== *)
(** * SszHash: hash-tree-roots of the program's types (types/src/ssz_hash.rs)

    One function per implementation of the [SszHashTreeRoot] trait.  [None] is a
    panic of [merkleize]. *)
From S2P Require Import Prelude Codec Crypto Account ExecutionRequest ProtocolParams Withdrawal SszTree.

(** [AddedValidator] of types/src/header.rs. *)
Record AddedValidator := mkAddedValidator {
  node_key : bytes;
  consensus_key : bytes
}.
#[global] Instance AddedValidator_eq_dec : EqDecision AddedValidator.
Proof. solve_decision. Defined.

Definition htr_u64 (x : Z) : bytes := pad32 (u64_to_le_bytes x).
Definition htr_u32 (x : Z) : bytes := pad32 (u32_to_le_bytes x).
Definition htr_bool (b : bool) : bytes := pad32 [u8_to_byte (if b then 1 else 0)].
Definition htr_bytes32 (bs : bytes) : bytes := bs.
Definition htr_address (a : bytes) : bytes := pad32 a.
(** The ed25519 key is 32 bytes: the identity. *)
Definition htr_node_key (k : bytes) : bytes := k.
Definition htr_status (s : ValidatorStatus) : bytes :=
  let val := match s with
             | Active => 0 | Inactive => 1 | SubmittedExitRequest => 2 | Joining => 3
             | FullPayoutPending => 4
             end%Z in
  pad32 [u8_to_byte val].
Definition htr_kind (k : WithdrawalKind) : bytes := pad32 [u8_to_byte (as_u8 k)].

(** Tag and value hash of a parameter: the match shared by its root and by its
    leaves in the state tree. *)
Definition param_tag_value (p : ProtocolParam) : Z * bytes :=
  match p with
  | MinimumStake v => (0, htr_u64 v)
  | EpochLength v => (1, htr_u64 v)
  | AllowedTimestampFuture v => (2, htr_u64 v)
  | TreasuryAddress addr => (3, htr_address addr)
  | MaxDepositsPerEpoch v => (4, htr_u64 v)
  | MaxWithdrawalsPerEpoch v => (5, htr_u64 v)
  | ObserversPerValidator v => (6, htr_u64 v)
  | MinimumValidatorCount v => (7, htr_u64 v)
  | InvalidDepositTax v => (8, htr_u64 v)
  | MaxPendingWithdrawalsPerValidator v => (9, htr_u64 v)
  | MaxValidatorCount v => (10, htr_u64 v)
  end%Z.

(** [bytes.chunks(32)], each chunk padded with zeros. *)
Fixpoint chunks32 (fuel : nat) (bs : bytes) : list bytes :=
  match fuel, bs with
  | S fuel, _ :: _ => pad32 (take 32 bs) :: chunks32 fuel (drop 32 bs)
  | _, _ => []
  end.

Section with_crypto.
Context `{Crypto}.

Definition htr_bls (k : bytes) : bytes := hash32_concat (slice 0 32 k) (pad32 (slice 32 48 k)).

Definition hash_fixed_bytes_64 (bs : bytes) : bytes :=
  hash32_concat (slice 0 32 bs) (slice 32 64 bs).
Definition hash_fixed_bytes_96 (bs : bytes) : option bytes :=
  merkleize [slice 0 32 bs; slice 32 64 bs; slice 64 96 bs].

Definition hash_byte_list (bs : bytes) : option bytes :=
  let chunks := match bs with [] => [zero32] | _ => chunks32 (length bs) bs end in
  r ← merkleize chunks;
  Some (mix_in_length r (length bs)).

Definition htr_param (p : ProtocolParam) : option bytes :=
  let '(tag, value_hash) := param_tag_value p in
  merkleize [htr_u64 tag; value_hash].
Definition htr_account (a : ValidatorAccount) : option bytes :=
  merkleize [htr_bls (consensus_public_key a); htr_address (withdrawal_credentials a);
             htr_u64 (balance a); htr_status (status a); htr_u64 (joining_epoch a);
             htr_u64 (last_deposit_index a)].
Definition htr_deposit (d : DepositRequest) : option bytes :=
  cs ← hash_fixed_bytes_96 (consensus_signature d);
  merkleize [htr_node_key (node_pubkey d); htr_bls (consensus_pubkey d);
             htr_bytes32 (dep_withdrawal_credentials d); htr_u64 (dep_amount d);
             hash_fixed_bytes_64 (node_signature d); cs; htr_u64 (dep_index d)].
Definition htr_withdrawal (w : PendingWithdrawal) : option bytes :=
  merkleize [htr_u64 (index (inner w)); htr_u64 (validator_index (inner w));
             htr_address (address (inner w)); htr_u64 (amount (inner w));
             htr_bytes32 (pubkey w); htr_u64 (epoch w); htr_kind (kind w)].
Definition htr_added (a : AddedValidator) : option bytes :=
  merkleize [htr_node_key (node_key a); htr_bls (consensus_key a)].
End with_crypto.

(** The chunks of a byte string of [n] bytes: one per started 32 bytes. *)
Lemma chunks32_fuel n m bs : length bs ≤ n → length bs ≤ m → chunks32 n bs = chunks32 m bs.
Proof.
  revert m bs. induction n as [|n IH]; intros m bs Hn Hm.
  { destruct bs; [by destruct m|simpl in *; lia]. }
  destruct bs as [|b bs]; [by destruct m|]. destruct m as [|m]; [simpl in *; lia|].
  cbn [chunks32]. f_equal. apply IH; rewrite length_drop; simpl in *; lia.
Qed.
