(* ===== verification/SszStateTree.v ===== *)
(** * SszStateTree: the two-level state tree (types/src/ssz_state_tree.rs)

    A top tree of 32 leaves (29 used) holds the scalar fields and the roots of
    the collections; each collection is a tree of its own whose root is mixed
    with its length.  [RebuildArgs] gathers the arguments of [rebuild].  A panic
    (an index out of range, a failed assertion) is [None]. *)
From S2P Require Import Prelude Codec Crypto BTree Account ExecutionRequest ProtocolParams.
From S2P Require Import Withdrawal SszTree SszHash.

Definition EPOCH : nat := 0.
Definition VIEW : nat := 1.
Definition LATEST_HEIGHT : nat := 2.
Definition HEAD_DIGEST : nat := 3.
Definition EPOCH_GENESIS_HASH : nat := 4.
Definition VALIDATOR_MINIMUM_STAKE : nat := 5.
Definition NEXT_WITHDRAWAL_INDEX : nat := 6.
Definition FORKCHOICE_HEAD_BLOCK_HASH : nat := 7.
Definition FORKCHOICE_SAFE_BLOCK_HASH : nat := 8.
Definition FORKCHOICE_FINALIZED_BLOCK_HASH : nat := 9.
Definition ALLOWED_TIMESTAMP_FUTURE_MS : nat := 10.
Definition VALIDATOR_ACCOUNTS_ROOT : nat := 11.
Definition DEPOSIT_QUEUE_ROOT : nat := 12.
Definition WITHDRAWAL_QUEUE_ROOT : nat := 13.
Definition PROTOCOL_PARAM_CHANGES_ROOT : nat := 14.
Definition ADDED_VALIDATORS_ROOT : nat := 15.
Definition REMOVED_VALIDATORS_ROOT : nat := 16.
Definition TREASURY_ADDRESS : nat := 17.
Definition MAX_DEPOSITS_PER_EPOCH : nat := 18.
Definition MAX_WITHDRAWALS_PER_EPOCH : nat := 19.
Definition OBSERVERS_PER_VALIDATOR : nat := 20.
Definition PENDING_EXECUTION_REQUESTS_ROOT : nat := 21.
Definition PENDING_CHECKPOINT : nat := 22.
Definition DYNAMIC_EPOCH_SCHEDULE : nat := 23.
Definition MINIMUM_VALIDATOR_COUNT : nat := 24.
Definition PENDING_ACTIVE_VALIDATOR_EXITS : nat := 25.
Definition INVALID_DEPOSIT_TAX : nat := 26.
Definition MAX_PENDING_WITHDRAWALS_PER_VALIDATOR : nat := 27.
Definition MAX_VALIDATOR_COUNT : nat := 28.
Definition NUM_TOP_LEAVES : nat := 29.

Definition VALIDATOR_FIELD_CONSENSUS_PUBKEY : nat := 0.
Definition VALIDATOR_FIELD_WITHDRAWAL_CREDENTIALS : nat := 1.
Definition VALIDATOR_FIELD_BALANCE : nat := 2.
Definition VALIDATOR_FIELD_STATUS : nat := 3.
Definition VALIDATOR_FIELD_JOINING_EPOCH : nat := 4.
Definition VALIDATOR_FIELD_LAST_DEPOSIT_INDEX : nat := 5.
Definition VALIDATOR_FIELD_NODE_PUBKEY : nat := 6.
Definition VALIDATOR_FIELDS_PER_ACCOUNT : nat := 8.

Definition DEPOSIT_FIELD_NODE_PUBKEY : nat := 0.
Definition DEPOSIT_FIELD_CONSENSUS_PUBKEY : nat := 1.
Definition DEPOSIT_FIELD_WITHDRAWAL_CREDENTIALS : nat := 2.
Definition DEPOSIT_FIELD_AMOUNT : nat := 3.
Definition DEPOSIT_FIELD_NODE_SIGNATURE : nat := 4.
Definition DEPOSIT_FIELD_CONSENSUS_SIGNATURE : nat := 5.
Definition DEPOSIT_FIELD_INDEX : nat := 6.
Definition DEPOSIT_FIELDS_PER_ITEM : nat := 8.

Definition WITHDRAWAL_FIELD_INDEX : nat := 0.
Definition WITHDRAWAL_FIELD_VALIDATOR_INDEX : nat := 1.
Definition WITHDRAWAL_FIELD_ADDRESS : nat := 2.
Definition WITHDRAWAL_FIELD_AMOUNT : nat := 3.
Definition WITHDRAWAL_FIELD_PUBKEY : nat := 4.
Definition WITHDRAWAL_FIELD_EPOCH : nat := 5.
Definition WITHDRAWAL_FIELD_KIND : nat := 6.
Definition WITHDRAWAL_FIELDS_PER_ITEM : nat := 8.

Definition PROTOCOL_PARAM_FIELD_TAG : nat := 0.
Definition PROTOCOL_PARAM_FIELD_VALUE : nat := 1.
Definition PROTOCOL_PARAM_FIELDS_PER_ITEM : nat := 2.

Definition ADDED_VALIDATOR_FIELD_NODE_KEY : nat := 0.
Definition ADDED_VALIDATOR_FIELD_CONSENSUS_KEY : nat := 1.
Definition ADDED_VALIDATOR_FIELD_EPOCH : nat := 2.
Definition ADDED_VALIDATOR_FIELDS_PER_ITEM : nat := 4.

Record SszStateTree := mkSszStateTree {
  top : SszTree;
  validator_tree : SszTree;
  validator_count : nat;
  deposit_tree : SszTree;
  deposit_count : nat;
  withdrawal_tree : SszTree;
  withdrawal_count : nat;
  withdrawal_pubkey_index : gmap bytes nat;
  protocol_param_tree : SszTree;
  protocol_param_count : nat;
  added_validator_tree : SszTree;
  added_validator_count : nat;
  removed_validator_tree : SszTree;
  removed_validator_count : nat;
  pending_execution_request_tree : SszTree;
  pending_execution_request_count : nat
}.
#[global] Instance SszStateTree_eta : Eta SszStateTree := λ t,
  mkSszStateTree (top t) (validator_tree t) (validator_count t) (deposit_tree t) (deposit_count t)
    (withdrawal_tree t) (withdrawal_count t) (withdrawal_pubkey_index t) (protocol_param_tree t)
    (protocol_param_count t) (added_validator_tree t) (added_validator_count t)
    (removed_validator_tree t) (removed_validator_count t) (pending_execution_request_tree t)
    (pending_execution_request_count t).

(** [iter().enumerate()]. *)
Definition enumerate {A} (l : list A) : list (nat * A) := zip (seq 0 (length l)) l.

(** The leaf writes of one item, relative to its first leaf, in the order the
    code makes them. *)
Section writes.
Context `{Crypto}.
Definition validator_writes (node_pubkey : bytes) (account : ValidatorAccount) : list (nat * bytes) :=
  [(VALIDATOR_FIELD_NODE_PUBKEY, node_pubkey);
   (VALIDATOR_FIELD_CONSENSUS_PUBKEY, htr_bls (consensus_public_key account));
   (VALIDATOR_FIELD_WITHDRAWAL_CREDENTIALS, htr_address (withdrawal_credentials account));
   (VALIDATOR_FIELD_BALANCE, htr_u64 (balance account));
   (VALIDATOR_FIELD_STATUS, htr_status (status account));
   (VALIDATOR_FIELD_JOINING_EPOCH, htr_u64 (joining_epoch account));
   (VALIDATOR_FIELD_LAST_DEPOSIT_INDEX, htr_u64 (last_deposit_index account))].
Definition deposit_writes (deposit : DepositRequest) : option (list (nat * bytes)) :=
  cs ← hash_fixed_bytes_96 (consensus_signature deposit);
  Some [(DEPOSIT_FIELD_NODE_PUBKEY, htr_node_key (node_pubkey deposit));
   (DEPOSIT_FIELD_CONSENSUS_PUBKEY, htr_bls (consensus_pubkey deposit));
   (DEPOSIT_FIELD_WITHDRAWAL_CREDENTIALS, htr_bytes32 (dep_withdrawal_credentials deposit));
   (DEPOSIT_FIELD_AMOUNT, htr_u64 (dep_amount deposit));
   (DEPOSIT_FIELD_NODE_SIGNATURE, hash_fixed_bytes_64 (node_signature deposit));
   (DEPOSIT_FIELD_CONSENSUS_SIGNATURE, cs);
   (DEPOSIT_FIELD_INDEX, htr_u64 (dep_index deposit))].
Definition withdrawal_writes (w : PendingWithdrawal) : list (nat * bytes) :=
  [(WITHDRAWAL_FIELD_INDEX, htr_u64 (index (inner w)));
   (WITHDRAWAL_FIELD_VALIDATOR_INDEX, htr_u64 (validator_index (inner w)));
   (WITHDRAWAL_FIELD_ADDRESS, htr_address (address (inner w)));
   (WITHDRAWAL_FIELD_AMOUNT, htr_u64 (amount (inner w)));
   (WITHDRAWAL_FIELD_PUBKEY, htr_bytes32 (pubkey w));
   (WITHDRAWAL_FIELD_EPOCH, htr_u64 (epoch w));
   (WITHDRAWAL_FIELD_KIND, htr_kind (kind w))].
Definition protocol_param_writes (p : ProtocolParam) : list (nat * bytes) :=
  let '(tag, value_hash) := param_tag_value p in
  [(PROTOCOL_PARAM_FIELD_TAG, htr_u64 tag); (PROTOCOL_PARAM_FIELD_VALUE, value_hash)].
Definition added_validator_writes (epoch : Z) (av : AddedValidator) : list (nat * bytes) :=
  [(ADDED_VALIDATOR_FIELD_NODE_KEY, htr_node_key (node_key av));
   (ADDED_VALIDATOR_FIELD_CONSENSUS_KEY, htr_bls (consensus_key av));
   (ADDED_VALIDATOR_FIELD_EPOCH, htr_u64 epoch)].
End writes.

Section with_crypto.
Context `{Crypto}.

Definition new : option SszStateTree :=
  top ← SszTree.new NUM_TOP_LEAVES;
  t1 ← SszTree.new 1;
  Some (mkSszStateTree top t1 0 t1 0 t1 0 ∅ t1 0 t1 0 t1 0 t1 0).

Definition root (t : SszStateTree) : option bytes := SszTree.root (top t).

(** ** Scalar fields *)
Definition set_top (t : SszStateTree) (leaf : nat) (v : bytes) : option SszStateTree :=
  top ← set_leaf (top t) leaf v; Some (t <| SszStateTree.top := top |>).

Definition set_epoch t (x : Z) := set_top t EPOCH (htr_u64 x).
Definition set_view t (x : Z) := set_top t VIEW (htr_u64 x).
Definition set_latest_height t (x : Z) := set_top t LATEST_HEIGHT (htr_u64 x).
Definition set_head_digest t (digest : bytes) := set_top t HEAD_DIGEST digest.
Definition set_epoch_genesis_hash t (hash : bytes) := set_top t EPOCH_GENESIS_HASH hash.
Definition set_validator_minimum_stake t (x : Z) := set_top t VALIDATOR_MINIMUM_STAKE (htr_u64 x).
Definition set_allowed_timestamp_future_ms t (x : Z) :=
  set_top t ALLOWED_TIMESTAMP_FUTURE_MS (htr_u64 x).
Definition set_max_deposits_per_epoch t (x : Z) := set_top t MAX_DEPOSITS_PER_EPOCH (htr_u64 x).
Definition set_max_withdrawals_per_epoch t (x : Z) :=
  set_top t MAX_WITHDRAWALS_PER_EPOCH (htr_u64 x).
Definition set_observers_per_validator t (x : Z) := set_top t OBSERVERS_PER_VALIDATOR (htr_u32 x).
Definition set_pending_checkpoint_digest t (digest : option bytes) :=
  set_top t PENDING_CHECKPOINT (default zero32 digest).
Definition set_dynamic_epoch_schedule t (encoded_schedule : bytes) :=
  h ← hash_byte_list encoded_schedule; set_top t DYNAMIC_EPOCH_SCHEDULE h.
Definition set_minimum_validator_count t (x : Z) := set_top t MINIMUM_VALIDATOR_COUNT (htr_u64 x).
Definition set_pending_active_validator_exits t (x : Z) :=
  set_top t PENDING_ACTIVE_VALIDATOR_EXITS (htr_u64 x).
Definition set_invalid_deposit_tax t (x : Z) := set_top t INVALID_DEPOSIT_TAX (htr_u64 x).
Definition set_max_pending_withdrawals_per_validator t (x : Z) :=
  set_top t MAX_PENDING_WITHDRAWALS_PER_VALIDATOR (htr_u64 x).
Definition set_max_validator_count t (x : Z) := set_top t MAX_VALIDATOR_COUNT (htr_u64 x).
Definition set_treasury_address t (a : bytes) := set_top t TREASURY_ADDRESS (htr_address a).
Definition set_next_withdrawal_index t (x : Z) := set_top t NEXT_WITHDRAWAL_INDEX (htr_u64 x).
Definition set_forkchoice_head_block_hash t (h : bytes) := set_top t FORKCHOICE_HEAD_BLOCK_HASH h.
Definition set_forkchoice_safe_block_hash t (h : bytes) := set_top t FORKCHOICE_SAFE_BLOCK_HASH h.
Definition set_forkchoice_finalized_block_hash t (h : bytes) :=
  set_top t FORKCHOICE_FINALIZED_BLOCK_HASH h.

(** ** Validators *)
Definition update_validator_collection_root (t : SszStateTree) : option SszStateTree :=
  subtree_root ← SszTree.root (validator_tree t);
  set_top t VALIDATOR_ACCOUNTS_ROOT (mix_in_length subtree_root (validator_count t)).

Definition set_validator_fields (tree : SszTree) (slot : nat) (node_pubkey : bytes)
    (account : ValidatorAccount) : option SszTree :=
  set_leaves tree (offset (slot * VALIDATOR_FIELDS_PER_ACCOUNT) (validator_writes node_pubkey account)).
Definition set_validator_fields_no_rehash (tree : SszTree) (slot : nat) (node_pubkey : bytes)
    (account : ValidatorAccount) : option SszTree :=
  set_leaves_no_rehash tree
    (offset (slot * VALIDATOR_FIELDS_PER_ACCOUNT) (validator_writes node_pubkey account)).

Definition rebuild_validators (t : SszStateTree) (accounts : BTreeMap bytes ValidatorAccount)
  : option SszStateTree :=
  let count := length accounts in
  let leaf_count := (count * VALIDATOR_FIELDS_PER_ACCOUNT) `max` 1 in
  tree ← SszTree.new leaf_count;
  tree ← for_each (λ tree '(i, (node_pubkey, account)),
           set_validator_fields tree i node_pubkey account) tree (enumerate accounts);
  update_validator_collection_root (t <| validator_tree := tree |> <| validator_count := count |>).

Definition update_validator_at_slot (t : SszStateTree) (slot : nat) (node_pubkey : bytes)
    (account : ValidatorAccount) : option SszStateTree :=
  tree ← set_validator_fields (validator_tree t) slot node_pubkey account;
  update_validator_collection_root (t <| validator_tree := tree |>).

(** [self.validator_count - slot] would wrap to a count no vector can hold when
    the slot lies beyond the validators. *)
Definition insert_validator_at_slot (t : SszStateTree) (slot : nat) (node_pubkey : bytes)
    (account : ValidatorAccount) : option SszStateTree :=
  let new_count := validator_count t + 1 in
  let needed := new_count * VALIDATOR_FIELDS_PER_ACCOUNT in
  tree ← grow (validator_tree t) needed;
  if validator_count t <? slot then None else
  let to_shift := validator_count t - slot in
  tree ← shift_blocks_right tree slot to_shift VALIDATOR_FIELDS_PER_ACCOUNT;
  tree ← set_validator_fields_no_rehash tree slot node_pubkey account;
  tree ← rehash_block tree slot VALIDATOR_FIELDS_PER_ACCOUNT;
  let subtree_root_level := capacity tree / VALIDATOR_FIELDS_PER_ACCOUNT in
  let affected_node := subtree_root_level + slot in
  let parent_level := subtree_root_level / 2 in
  let parent_node := affected_node / 2 in
  tree ← rehash_from_position tree parent_level parent_node;
  update_validator_collection_root (t <| validator_tree := tree |> <| validator_count := new_count |>).

Definition remove_validator_at_slot (t : SszStateTree) (slot : nat) : option SszStateTree :=
  if negb (slot <? validator_count t) then None else
  let to_shift := validator_count t - slot - 1 in
  tree ← shift_blocks_left (validator_tree t) slot to_shift VALIDATOR_FIELDS_PER_ACCOUNT;
  tree ← (if to_shift =? 0 then
            tree ← set_leaves_no_rehash tree (offset (slot * VALIDATOR_FIELDS_PER_ACCOUNT)
                     (map (λ i, (i, zero32)) (range 0 VALIDATOR_FIELDS_PER_ACCOUNT)));
            rehash_block tree slot VALIDATOR_FIELDS_PER_ACCOUNT
          else rehash_block tree (validator_count t - 1) VALIDATOR_FIELDS_PER_ACCOUNT);
  let count := validator_count t - 1 in
  let needed := (count * VALIDATOR_FIELDS_PER_ACCOUNT) `max` 1 in
  let target_capacity := next_power_of_two needed in
  tree ← (if target_capacity <? capacity tree then shrink tree needed
          else
            let subtree_root_level := capacity tree / VALIDATOR_FIELDS_PER_ACCOUNT in
            let affected_node := subtree_root_level + slot in
            let parent_level := subtree_root_level / 2 in
            let parent_node := affected_node / 2 in
            rehash_from_position tree parent_level parent_node);
  update_validator_collection_root (t <| validator_tree := tree |> <| validator_count := count |>).

Definition get_validator_index (keys : list bytes) (pubkey : bytes) : option nat :=
  position (λ k, bool_decide (k = pubkey)) keys.

(** ** Deposits *)
Definition update_deposit_collection_root (t : SszStateTree) : option SszStateTree :=
  subtree_root ← SszTree.root (deposit_tree t);
  set_top t DEPOSIT_QUEUE_ROOT (mix_in_length subtree_root (deposit_count t)).

Definition set_deposit_fields (tree : SszTree) (slot : nat) (deposit : DepositRequest)
  : option SszTree :=
  ws ← deposit_writes deposit;
  set_leaves tree (offset (slot * DEPOSIT_FIELDS_PER_ITEM) ws).

Definition rebuild_deposits (t : SszStateTree) (deposits : list DepositRequest)
  : option SszStateTree :=
  let count := length deposits in
  let leaf_count := (count * DEPOSIT_FIELDS_PER_ITEM) `max` 1 in
  tree ← SszTree.new leaf_count;
  tree ← for_each (λ tree '(i, deposit), set_deposit_fields tree i deposit) tree (enumerate deposits);
  update_deposit_collection_root (t <| deposit_tree := tree |> <| deposit_count := count |>).

Definition push_deposit (t : SszStateTree) (deposit : DepositRequest) : option SszStateTree :=
  let slot := deposit_count t in
  let needed := (slot + 1) * DEPOSIT_FIELDS_PER_ITEM in
  tree ← grow (deposit_tree t) needed;
  tree ← set_deposit_fields tree slot deposit;
  update_deposit_collection_root
    (t <| deposit_tree := tree |> <| deposit_count := deposit_count t + 1 |>).

Definition pop_deposit (t : SszStateTree) (deposits : list DepositRequest) : option SszStateTree :=
  rebuild_deposits t deposits.

(** ** Withdrawals *)
Definition update_withdrawal_collection_root (t : SszStateTree) : option SszStateTree :=
  subtree_root ← SszTree.root (withdrawal_tree t);
  set_top t WITHDRAWAL_QUEUE_ROOT (mix_in_length subtree_root (withdrawal_count t)).

Definition set_withdrawal_fields (tree : SszTree) (slot : nat) (w : PendingWithdrawal)
  : option SszTree :=
  set_leaves tree (offset (slot * WITHDRAWAL_FIELDS_PER_ITEM) (withdrawal_writes w)).

(** [index.entry(pubkey).or_insert(slot)]. *)
Definition or_insert (m : gmap bytes nat) (pk : bytes) (slot : nat) : gmap bytes nat :=
  match m !! pk with Some _ => m | None => <[pk := slot]> m end.

Definition rebuild_withdrawals (t : SszStateTree) (queue : WithdrawalQueue) : option SszStateTree :=
  let count := len queue in
  let leaf_count := (count * WITHDRAWAL_FIELDS_PER_ITEM) `max` 1 in
  tree ← SszTree.new leaf_count;
  '(tree, pubkey_index) ← for_each (λ '(tree, m) '(slot, w),
      tree ← set_withdrawal_fields tree slot w;
      Some (tree, or_insert m (pubkey w) slot)) (tree, ∅) (enumerate (iter_all queue));
  update_withdrawal_collection_root
    (t <| withdrawal_tree := tree |> <| withdrawal_count := count |>
       <| withdrawal_pubkey_index := pubkey_index |>).

Definition push_withdrawal (t : SszStateTree) (w : PendingWithdrawal) : option SszStateTree :=
  let slot := withdrawal_count t in
  let needed := (slot + 1) * WITHDRAWAL_FIELDS_PER_ITEM in
  tree ← grow (withdrawal_tree t) needed;
  tree ← set_withdrawal_fields tree slot w;
  update_withdrawal_collection_root
    (t <| withdrawal_tree := tree |> <| withdrawal_count := withdrawal_count t + 1 |>
       <| withdrawal_pubkey_index := or_insert (withdrawal_pubkey_index t) (pubkey w) slot |>).

(** ** Protocol parameters *)
Definition update_protocol_param_collection_root (t : SszStateTree) : option SszStateTree :=
  subtree_root ← SszTree.root (protocol_param_tree t);
  set_top t PROTOCOL_PARAM_CHANGES_ROOT (mix_in_length subtree_root (protocol_param_count t)).

Definition set_protocol_param_fields (tree : SszTree) (slot : nat) (p : ProtocolParam)
  : option SszTree :=
  set_leaves tree (offset (slot * PROTOCOL_PARAM_FIELDS_PER_ITEM) (protocol_param_writes p)).

Definition rebuild_protocol_params (t : SszStateTree) (params : list ProtocolParam)
  : option SszStateTree :=
  let count := length params in
  let leaf_count := (count * PROTOCOL_PARAM_FIELDS_PER_ITEM) `max` 1 in
  tree ← SszTree.new leaf_count;
  tree ← for_each (λ tree '(i, p), set_protocol_param_fields tree i p) tree (enumerate params);
  update_protocol_param_collection_root
    (t <| protocol_param_tree := tree |> <| protocol_param_count := count |>).

(** ** Added validators *)
Definition update_added_validator_collection_root (t : SszStateTree) : option SszStateTree :=
  subtree_root ← SszTree.root (added_validator_tree t);
  set_top t ADDED_VALIDATORS_ROOT (mix_in_length subtree_root (added_validator_count t)).

Definition set_added_validator_fields (tree : SszTree) (slot : nat) (epoch : Z) (av : AddedValidator)
  : option SszTree :=
  set_leaves tree (offset (slot * ADDED_VALIDATOR_FIELDS_PER_ITEM) (added_validator_writes epoch av)).

Definition flatten_added (validators : BTreeMap Z (list AddedValidator)) : list (Z * AddedValidator) :=
  flat_map (λ '(epoch, v), map (λ av, (epoch, av)) v) validators.

Definition rebuild_added_validators (t : SszStateTree) (validators : BTreeMap Z (list AddedValidator))
  : option SszStateTree :=
  let items := flatten_added validators in
  let count := length items in
  let leaf_count := (count * ADDED_VALIDATOR_FIELDS_PER_ITEM) `max` 1 in
  tree ← SszTree.new leaf_count;
  tree ← for_each (λ tree '(i, (epoch, av)), set_added_validator_fields tree i epoch av)
           tree (enumerate items);
  update_added_validator_collection_root
    (t <| added_validator_tree := tree |> <| added_validator_count := count |>).

(** ** Removed validators and pending execution requests *)
Definition update_removed_validator_collection_root (t : SszStateTree) : option SszStateTree :=
  subtree_root ← SszTree.root (removed_validator_tree t);
  set_top t REMOVED_VALIDATORS_ROOT (mix_in_length subtree_root (removed_validator_count t)).

Definition rebuild_removed_validators (t : SszStateTree) (validators : list bytes)
  : option SszStateTree :=
  let count := length validators in
  tree ← SszTree.new (count `max` 1);
  tree ← for_each (λ tree '(i, v), set_leaf tree i (htr_node_key v)) tree (enumerate validators);
  update_removed_validator_collection_root
    (t <| removed_validator_tree := tree |> <| removed_validator_count := count |>).

Definition update_pending_execution_request_collection_root (t : SszStateTree)
  : option SszStateTree :=
  subtree_root ← SszTree.root (pending_execution_request_tree t);
  set_top t PENDING_EXECUTION_REQUESTS_ROOT
    (mix_in_length subtree_root (pending_execution_request_count t)).

Definition rebuild_pending_execution_requests (t : SszStateTree) (requests : list bytes)
  : option SszStateTree :=
  let count := length requests in
  tree ← SszTree.new (count `max` 1);
  tree ← for_each (λ tree '(i, req), h ← hash_byte_list req; set_leaf tree i h)
           tree (enumerate requests);
  update_pending_execution_request_collection_root
    (t <| pending_execution_request_tree := tree |> <| pending_execution_request_count := count |>).
End with_crypto.

(** ** Rebuilding from scratch *)

(** The arguments of [rebuild]. *)
Record RebuildArgs := mkRebuildArgs {
  a_epoch : Z; a_view : Z; a_latest_height : Z; a_head_digest : bytes;
  a_epoch_genesis_hash : bytes; a_validator_minimum_stake : Z;
  a_allowed_timestamp_future_ms : Z; a_next_withdrawal_index : Z;
  a_forkchoice_head : bytes; a_forkchoice_safe : bytes; a_forkchoice_finalized : bytes;
  a_validator_accounts : BTreeMap bytes ValidatorAccount;
  a_deposit_queue : list DepositRequest;
  a_withdrawal_queue : WithdrawalQueue;
  a_protocol_param_changes : list ProtocolParam;
  a_added_validators : BTreeMap Z (list AddedValidator);
  a_removed_validators : list bytes;
  a_treasury_address : bytes; a_max_deposits_per_epoch : Z; a_max_withdrawals_per_epoch : Z;
  a_observers_per_validator : Z; a_max_validator_count : Z;
  a_pending_execution_requests : list bytes;
  a_pending_checkpoint_digest : option bytes;
  a_dynamic_epoch_schedule : bytes;
  a_minimum_validator_count : Z; a_pending_active_validator_exits : Z;
  a_invalid_deposit_tax : Z; a_max_pending_withdrawals_per_validator : Z
}.

Definition rebuild `{Crypto} (a : RebuildArgs) : option SszStateTree :=
  t ← new;
  t ← set_epoch t (a_epoch a);
  t ← set_view t (a_view a);
  t ← set_latest_height t (a_latest_height a);
  t ← set_head_digest t (a_head_digest a);
  t ← set_epoch_genesis_hash t (a_epoch_genesis_hash a);
  t ← set_validator_minimum_stake t (a_validator_minimum_stake a);
  t ← set_allowed_timestamp_future_ms t (a_allowed_timestamp_future_ms a);
  t ← set_next_withdrawal_index t (a_next_withdrawal_index a);
  t ← set_forkchoice_head_block_hash t (a_forkchoice_head a);
  t ← set_forkchoice_safe_block_hash t (a_forkchoice_safe a);
  t ← set_forkchoice_finalized_block_hash t (a_forkchoice_finalized a);
  t ← set_treasury_address t (a_treasury_address a);
  t ← set_max_deposits_per_epoch t (a_max_deposits_per_epoch a);
  t ← set_max_withdrawals_per_epoch t (a_max_withdrawals_per_epoch a);
  t ← set_observers_per_validator t (a_observers_per_validator a);
  t ← set_max_validator_count t (a_max_validator_count a);
  t ← set_minimum_validator_count t (a_minimum_validator_count a);
  t ← set_pending_active_validator_exits t (a_pending_active_validator_exits a);
  t ← set_invalid_deposit_tax t (a_invalid_deposit_tax a);
  t ← set_max_pending_withdrawals_per_validator t (a_max_pending_withdrawals_per_validator a);
  t ← rebuild_validators t (a_validator_accounts a);
  t ← rebuild_deposits t (a_deposit_queue a);
  t ← rebuild_withdrawals t (a_withdrawal_queue a);
  t ← rebuild_protocol_params t (a_protocol_param_changes a);
  t ← rebuild_added_validators t (a_added_validators a);
  t ← rebuild_removed_validators t (a_removed_validators a);
  t ← rebuild_pending_execution_requests t (a_pending_execution_requests a);
  t ← set_pending_checkpoint_digest t (a_pending_checkpoint_digest a);
  set_dynamic_epoch_schedule t (a_dynamic_epoch_schedule a).
