(* ===== verification/SszStateTreeFacts.v ===== *)
(** * SszStateTreeFacts: the incremental state tree is the rebuilt one

    [spec_tree a] is the state tree of the arguments [a], written down from the
    lists of leaves.  [rebuild] computes it ([rebuild_spec]), and every
    incremental operation takes the [spec_tree] of some arguments to the
    [spec_tree] of the arguments with the one field changed. *)
From S2P Require Import Prelude Codec Crypto BTree Account ExecutionRequest ProtocolParams.
From S2P Require Import Withdrawal SszTree SszTreeFacts SszCollections SszHash SszStateTree.

#[global] Instance RebuildArgs_eta : Eta RebuildArgs := λ a,
  mkRebuildArgs (a_epoch a) (a_view a) (a_latest_height a) (a_head_digest a)
    (a_epoch_genesis_hash a) (a_validator_minimum_stake a) (a_allowed_timestamp_future_ms a)
    (a_next_withdrawal_index a) (a_forkchoice_head a) (a_forkchoice_safe a)
    (a_forkchoice_finalized a) (a_validator_accounts a) (a_deposit_queue a)
    (a_withdrawal_queue a) (a_protocol_param_changes a) (a_added_validators a)
    (a_removed_validators a) (a_treasury_address a) (a_max_deposits_per_epoch a)
    (a_max_withdrawals_per_epoch a) (a_observers_per_validator a) (a_max_validator_count a)
    (a_pending_execution_requests a) (a_pending_checkpoint_digest a)
    (a_dynamic_epoch_schedule a) (a_minimum_validator_count a)
    (a_pending_active_validator_exits a) (a_invalid_deposit_tax a)
    (a_max_pending_withdrawals_per_validator a).

(** ** Sequences of operations *)

(** The operations by which the state keeps its tree up to date. *)
Inductive tree_op :=
| Set_epoch (x : Z)
| Set_view (x : Z)
| Set_latest_height (x : Z)
| Set_head_digest (x : bytes)
| Set_epoch_genesis_hash (x : bytes)
| Set_validator_minimum_stake (x : Z)
| Set_allowed_timestamp_future_ms (x : Z)
| Set_max_deposits_per_epoch (x : Z)
| Set_max_withdrawals_per_epoch (x : Z)
| Set_observers_per_validator (x : Z)
| Set_pending_checkpoint_digest (x : option bytes)
| Set_dynamic_epoch_schedule (x : bytes)
| Set_minimum_validator_count (x : Z)
| Set_pending_active_validator_exits (x : Z)
| Set_invalid_deposit_tax (x : Z)
| Set_max_pending_withdrawals_per_validator (x : Z)
| Set_max_validator_count (x : Z)
| Set_treasury_address (x : bytes)
| Set_next_withdrawal_index (x : Z)
| Set_forkchoice_head_block_hash (x : bytes)
| Set_forkchoice_safe_block_hash (x : bytes)
| Set_forkchoice_finalized_block_hash (x : bytes)
| Rebuild_validators (l : BTreeMap bytes ValidatorAccount)
| Rebuild_deposits (l : list DepositRequest)
| Rebuild_withdrawals (l : WithdrawalQueue)
| Rebuild_protocol_params (l : list ProtocolParam)
| Rebuild_added_validators (l : BTreeMap Z (list AddedValidator))
| Rebuild_removed_validators (l : list bytes)
| Rebuild_pending_execution_requests (l : list bytes)
| UpdateValidator (slot : nat) (k : bytes) (v : ValidatorAccount)
| InsertValidator (slot : nat) (k : bytes) (v : ValidatorAccount)
| RemoveValidator (slot : nat)
| PushDeposit (d : DepositRequest)
| PushWithdrawal (w : PendingWithdrawal).

Definition run_op `{Crypto} (t : SszStateTree) (op : tree_op) : option SszStateTree :=
  match op with
  | Set_epoch x => set_epoch t x
  | Set_view x => set_view t x
  | Set_latest_height x => set_latest_height t x
  | Set_head_digest x => set_head_digest t x
  | Set_epoch_genesis_hash x => set_epoch_genesis_hash t x
  | Set_validator_minimum_stake x => set_validator_minimum_stake t x
  | Set_allowed_timestamp_future_ms x => set_allowed_timestamp_future_ms t x
  | Set_max_deposits_per_epoch x => set_max_deposits_per_epoch t x
  | Set_max_withdrawals_per_epoch x => set_max_withdrawals_per_epoch t x
  | Set_observers_per_validator x => set_observers_per_validator t x
  | Set_pending_checkpoint_digest x => set_pending_checkpoint_digest t x
  | Set_dynamic_epoch_schedule x => set_dynamic_epoch_schedule t x
  | Set_minimum_validator_count x => set_minimum_validator_count t x
  | Set_pending_active_validator_exits x => set_pending_active_validator_exits t x
  | Set_invalid_deposit_tax x => set_invalid_deposit_tax t x
  | Set_max_pending_withdrawals_per_validator x => set_max_pending_withdrawals_per_validator t x
  | Set_max_validator_count x => set_max_validator_count t x
  | Set_treasury_address x => set_treasury_address t x
  | Set_next_withdrawal_index x => set_next_withdrawal_index t x
  | Set_forkchoice_head_block_hash x => set_forkchoice_head_block_hash t x
  | Set_forkchoice_safe_block_hash x => set_forkchoice_safe_block_hash t x
  | Set_forkchoice_finalized_block_hash x => set_forkchoice_finalized_block_hash t x
  | Rebuild_validators l => rebuild_validators t l
  | Rebuild_deposits l => rebuild_deposits t l
  | Rebuild_withdrawals l => rebuild_withdrawals t l
  | Rebuild_protocol_params l => rebuild_protocol_params t l
  | Rebuild_added_validators l => rebuild_added_validators t l
  | Rebuild_removed_validators l => rebuild_removed_validators t l
  | Rebuild_pending_execution_requests l => rebuild_pending_execution_requests t l
  | UpdateValidator slot k v => update_validator_at_slot t slot k v
  | InsertValidator slot k v => insert_validator_at_slot t slot k v
  | RemoveValidator slot => remove_validator_at_slot t slot
  | PushDeposit d => push_deposit t d
  | PushWithdrawal w => push_withdrawal t w
  end.

(** An entry at the end of the combined order of the queue. *)
Definition append_entry (q : WithdrawalQueue) (w : PendingWithdrawal) : WithdrawalQueue :=
  q <| refunds := refunds q ++ [w] |>.

(** What each operation means for the data. *)
Definition op_args (a : RebuildArgs) (op : tree_op) : RebuildArgs :=
  match op with
  | Set_epoch x => a <| a_epoch := x |>
  | Set_view x => a <| a_view := x |>
  | Set_latest_height x => a <| a_latest_height := x |>
  | Set_head_digest x => a <| a_head_digest := x |>
  | Set_epoch_genesis_hash x => a <| a_epoch_genesis_hash := x |>
  | Set_validator_minimum_stake x => a <| a_validator_minimum_stake := x |>
  | Set_allowed_timestamp_future_ms x => a <| a_allowed_timestamp_future_ms := x |>
  | Set_max_deposits_per_epoch x => a <| a_max_deposits_per_epoch := x |>
  | Set_max_withdrawals_per_epoch x => a <| a_max_withdrawals_per_epoch := x |>
  | Set_observers_per_validator x => a <| a_observers_per_validator := x |>
  | Set_pending_checkpoint_digest x => a <| a_pending_checkpoint_digest := x |>
  | Set_dynamic_epoch_schedule x => a <| a_dynamic_epoch_schedule := x |>
  | Set_minimum_validator_count x => a <| a_minimum_validator_count := x |>
  | Set_pending_active_validator_exits x => a <| a_pending_active_validator_exits := x |>
  | Set_invalid_deposit_tax x => a <| a_invalid_deposit_tax := x |>
  | Set_max_pending_withdrawals_per_validator x => a <| a_max_pending_withdrawals_per_validator := x |>
  | Set_max_validator_count x => a <| a_max_validator_count := x |>
  | Set_treasury_address x => a <| a_treasury_address := x |>
  | Set_next_withdrawal_index x => a <| a_next_withdrawal_index := x |>
  | Set_forkchoice_head_block_hash x => a <| a_forkchoice_head := x |>
  | Set_forkchoice_safe_block_hash x => a <| a_forkchoice_safe := x |>
  | Set_forkchoice_finalized_block_hash x => a <| a_forkchoice_finalized := x |>
  | Rebuild_validators l => a <| a_validator_accounts := l |>
  | Rebuild_deposits l => a <| a_deposit_queue := l |>
  | Rebuild_withdrawals l => a <| a_withdrawal_queue := l |>
  | Rebuild_protocol_params l => a <| a_protocol_param_changes := l |>
  | Rebuild_added_validators l => a <| a_added_validators := l |>
  | Rebuild_removed_validators l => a <| a_removed_validators := l |>
  | Rebuild_pending_execution_requests l => a <| a_pending_execution_requests := l |>
  | UpdateValidator slot k v => a <| a_validator_accounts := <[slot := (k, v)]> (a_validator_accounts a) |>
  | InsertValidator slot k v =>
      a <| a_validator_accounts := take slot (a_validator_accounts a) ++ (k, v) :: drop slot (a_validator_accounts a) |>
  | RemoveValidator slot => a <| a_validator_accounts := list_delete slot (a_validator_accounts a) |>
  | PushDeposit d => a <| a_deposit_queue := a_deposit_queue a ++ [d] |>
  | PushWithdrawal w => a <| a_withdrawal_queue := append_entry (a_withdrawal_queue a) w |>
  end.

(** The caller's side: a slot lies within the validators. *)
Definition op_ok (a : RebuildArgs) (op : tree_op) : bool :=
  match op with
  | UpdateValidator slot _ _ | RemoveValidator slot => slot <? length (a_validator_accounts a)
  | InsertValidator slot _ _ => slot <=? length (a_validator_accounts a)
  | _ => true
  end.
Fixpoint ops_ok (a : RebuildArgs) (ops : list tree_op) : bool :=
  match ops with
  | [] => true
  | op :: ops => op_ok a op && ops_ok (op_args a op) ops
  end.

Section facts.
Context `{Hc : Crypto} `{!CryptoOk}.

(** ** The specification *)
Definition byte_list_root (bs : bytes) : bytes := default zero32 (hash_byte_list bs).
Definition v_writes (p : bytes * ValidatorAccount) := validator_writes p.1 p.2.
Definition d_writes (d : DepositRequest) := default [] (deposit_writes d).
Definition av_writes (p : Z * AddedValidator) := added_validator_writes p.1 p.2.
Definition rv_writes (v : bytes) : list (nat * bytes) := [(0, htr_node_key v)].
Definition req_writes (r : bytes) : list (nat * bytes) := [(0, byte_list_root r)].

Definition v_leaves (l : list (bytes * ValidatorAccount)) := item_leaves 8 v_writes l.
Definition d_leaves (l : list DepositRequest) := item_leaves 8 d_writes l.
Definition w_leaves (l : list PendingWithdrawal) := item_leaves 8 withdrawal_writes l.
Definition p_leaves (l : list ProtocolParam) := item_leaves 2 protocol_param_writes l.
Definition av_leaves (l : list (Z * AddedValidator)) := item_leaves 4 av_writes l.
Definition rv_leaves (l : list bytes) := item_leaves 1 rv_writes l.
Definition req_leaves (l : list bytes) := item_leaves 1 req_writes l.

Definition leaves_root (l : list bytes) : bytes := merkle (pad_depth l) (padded l).
Definition collection_root (l : list bytes) (n : nat) : bytes := mix_in_length (leaves_root l) n.

(** The slot of the earliest withdrawal of each public key. *)
Definition pubkey_index (l : list PendingWithdrawal) : gmap bytes nat :=
  foldl (λ m '(i, w), or_insert m (pubkey w) i) ∅ (enumerate l).

Definition top_leaves (a : RebuildArgs) : list bytes :=
  [htr_u64 (a_epoch a); htr_u64 (a_view a); htr_u64 (a_latest_height a); a_head_digest a;
   a_epoch_genesis_hash a; htr_u64 (a_validator_minimum_stake a); htr_u64 (a_next_withdrawal_index a);
   a_forkchoice_head a; a_forkchoice_safe a; a_forkchoice_finalized a;
   htr_u64 (a_allowed_timestamp_future_ms a);
   collection_root (v_leaves (a_validator_accounts a)) (length (a_validator_accounts a));
   collection_root (d_leaves (a_deposit_queue a)) (length (a_deposit_queue a));
   collection_root (w_leaves (iter_all (a_withdrawal_queue a))) (len (a_withdrawal_queue a));
   collection_root (p_leaves (a_protocol_param_changes a)) (length (a_protocol_param_changes a));
   collection_root (av_leaves (flatten_added (a_added_validators a)))
     (length (flatten_added (a_added_validators a)));
   collection_root (rv_leaves (a_removed_validators a)) (length (a_removed_validators a));
   htr_address (a_treasury_address a); htr_u64 (a_max_deposits_per_epoch a);
   htr_u64 (a_max_withdrawals_per_epoch a); htr_u32 (a_observers_per_validator a);
   collection_root (req_leaves (a_pending_execution_requests a))
     (length (a_pending_execution_requests a));
   default zero32 (a_pending_checkpoint_digest a); byte_list_root (a_dynamic_epoch_schedule a);
   htr_u64 (a_minimum_validator_count a); htr_u64 (a_pending_active_validator_exits a);
   htr_u64 (a_invalid_deposit_tax a); htr_u64 (a_max_pending_withdrawals_per_validator a);
   htr_u64 (a_max_validator_count a); zero32; zero32; zero32].

Definition spec_tree (a : RebuildArgs) : SszStateTree :=
  mkSszStateTree (tree_of 5 (top_leaves a))
    (pad_tree (v_leaves (a_validator_accounts a))) (length (a_validator_accounts a))
    (pad_tree (d_leaves (a_deposit_queue a))) (length (a_deposit_queue a))
    (pad_tree (w_leaves (iter_all (a_withdrawal_queue a)))) (len (a_withdrawal_queue a))
    (pubkey_index (iter_all (a_withdrawal_queue a)))
    (pad_tree (p_leaves (a_protocol_param_changes a))) (length (a_protocol_param_changes a))
    (pad_tree (av_leaves (flatten_added (a_added_validators a))))
    (length (flatten_added (a_added_validators a)))
    (pad_tree (rv_leaves (a_removed_validators a))) (length (a_removed_validators a))
    (pad_tree (req_leaves (a_pending_execution_requests a)))
    (length (a_pending_execution_requests a)).

(** ** Totality of the hashes *)
Lemma hash_byte_list_total bs : hash_byte_list bs = Some (byte_list_root bs).
Proof. unfold byte_list_root, hash_byte_list. by rewrite merkleize_spec. Qed.

Lemma deposit_writes_total d : deposit_writes d = Some (d_writes d).
Proof. unfold d_writes, deposit_writes, hash_fixed_bytes_96. by rewrite merkleize_spec. Qed.

Lemma v_writes_bound p : Forall (λ w, w.1 < 8) (v_writes p).
Proof. repeat constructor; simpl; unfold VALIDATOR_FIELD_NODE_PUBKEY; lia. Qed.
Lemma d_writes_bound d : Forall (λ w, w.1 < 8) (d_writes d).
Proof.
  unfold d_writes, deposit_writes, hash_fixed_bytes_96. rewrite merkleize_spec.
  repeat constructor; simpl; lia.
Qed.
Lemma w_writes_bound w : Forall (λ w, w.1 < 8) (withdrawal_writes w).
Proof. repeat constructor; simpl; lia. Qed.
Lemma p_writes_bound p : Forall (λ w, w.1 < 2) (protocol_param_writes p).
Proof. unfold protocol_param_writes. destruct (param_tag_value p). repeat constructor; simpl; lia. Qed.
Lemma av_writes_bound p : Forall (λ w, w.1 < 4) (av_writes p).
Proof. repeat constructor; simpl; lia. Qed.
Lemma rv_writes_bound v : Forall (λ w, w.1 < 1) (rv_writes v).
Proof. repeat constructor. Qed.
Lemma req_writes_bound r : Forall (λ w, w.1 < 1) (req_writes r).
Proof. repeat constructor. Qed.

(** ** The top tree *)
Lemma set_top_spec t l i v :
  top t = tree_of 5 l → length l = 32 → i < 32 →
  set_top t i v = Some (t <| top := tree_of 5 (<[i := v]> l) |>).
Proof. intros Ht Hl Hi. unfold set_top. by rewrite Ht, set_leaf_tree_of. Qed.

Lemma set_top_spec_tree a i v :
  i < 32 → set_top (spec_tree a) i v = Some ((spec_tree a) <| top := tree_of 5 (<[i := v]> (top_leaves a)) |>).
Proof. intros. by apply set_top_spec. Qed.

Lemma root_pad_tree l : SszTree.root (pad_tree l) = Some (leaves_root l).
Proof. unfold pad_tree. rewrite root_tree_of by apply length_padded. done. Qed.

Lemma root_spec_tree a : root (spec_tree a) = Some (merkle 5 (top_leaves a)).
Proof. unfold root. cbn [top spec_tree]. by apply root_tree_of. Qed.
(** ** Scalar fields *)
Ltac scalar := etrans; [apply set_top_spec_tree; vm_compute; lia | reflexivity].

Lemma set_epoch_spec a x : set_epoch (spec_tree a) x = Some (spec_tree (a <| a_epoch := x |>)).
Proof. scalar. Qed.
Lemma set_view_spec a x : set_view (spec_tree a) x = Some (spec_tree (a <| a_view := x |>)).
Proof. scalar. Qed.
Lemma set_latest_height_spec a x : set_latest_height (spec_tree a) x = Some (spec_tree (a <| a_latest_height := x |>)).
Proof. scalar. Qed.
Lemma set_head_digest_spec a x : set_head_digest (spec_tree a) x = Some (spec_tree (a <| a_head_digest := x |>)).
Proof. scalar. Qed.
Lemma set_epoch_genesis_hash_spec a x : set_epoch_genesis_hash (spec_tree a) x = Some (spec_tree (a <| a_epoch_genesis_hash := x |>)).
Proof. scalar. Qed.
Lemma set_validator_minimum_stake_spec a x : set_validator_minimum_stake (spec_tree a) x = Some (spec_tree (a <| a_validator_minimum_stake := x |>)).
Proof. scalar. Qed.
Lemma set_allowed_timestamp_future_ms_spec a x : set_allowed_timestamp_future_ms (spec_tree a) x = Some (spec_tree (a <| a_allowed_timestamp_future_ms := x |>)).
Proof. scalar. Qed.
Lemma set_max_deposits_per_epoch_spec a x : set_max_deposits_per_epoch (spec_tree a) x = Some (spec_tree (a <| a_max_deposits_per_epoch := x |>)).
Proof. scalar. Qed.
Lemma set_max_withdrawals_per_epoch_spec a x : set_max_withdrawals_per_epoch (spec_tree a) x = Some (spec_tree (a <| a_max_withdrawals_per_epoch := x |>)).
Proof. scalar. Qed.
Lemma set_observers_per_validator_spec a x : set_observers_per_validator (spec_tree a) x = Some (spec_tree (a <| a_observers_per_validator := x |>)).
Proof. scalar. Qed.
Lemma set_pending_checkpoint_digest_spec a x : set_pending_checkpoint_digest (spec_tree a) x = Some (spec_tree (a <| a_pending_checkpoint_digest := x |>)).
Proof. scalar. Qed.
Lemma set_minimum_validator_count_spec a x : set_minimum_validator_count (spec_tree a) x = Some (spec_tree (a <| a_minimum_validator_count := x |>)).
Proof. scalar. Qed.
Lemma set_pending_active_validator_exits_spec a x : set_pending_active_validator_exits (spec_tree a) x = Some (spec_tree (a <| a_pending_active_validator_exits := x |>)).
Proof. scalar. Qed.
Lemma set_invalid_deposit_tax_spec a x : set_invalid_deposit_tax (spec_tree a) x = Some (spec_tree (a <| a_invalid_deposit_tax := x |>)).
Proof. scalar. Qed.
Lemma set_max_pending_withdrawals_per_validator_spec a x : set_max_pending_withdrawals_per_validator (spec_tree a) x = Some (spec_tree (a <| a_max_pending_withdrawals_per_validator := x |>)).
Proof. scalar. Qed.
Lemma set_max_validator_count_spec a x : set_max_validator_count (spec_tree a) x = Some (spec_tree (a <| a_max_validator_count := x |>)).
Proof. scalar. Qed.
Lemma set_treasury_address_spec a x : set_treasury_address (spec_tree a) x = Some (spec_tree (a <| a_treasury_address := x |>)).
Proof. scalar. Qed.
Lemma set_next_withdrawal_index_spec a x : set_next_withdrawal_index (spec_tree a) x = Some (spec_tree (a <| a_next_withdrawal_index := x |>)).
Proof. scalar. Qed.
Lemma set_forkchoice_head_block_hash_spec a x : set_forkchoice_head_block_hash (spec_tree a) x = Some (spec_tree (a <| a_forkchoice_head := x |>)).
Proof. scalar. Qed.
Lemma set_forkchoice_safe_block_hash_spec a x : set_forkchoice_safe_block_hash (spec_tree a) x = Some (spec_tree (a <| a_forkchoice_safe := x |>)).
Proof. scalar. Qed.
Lemma set_forkchoice_finalized_block_hash_spec a x : set_forkchoice_finalized_block_hash (spec_tree a) x = Some (spec_tree (a <| a_forkchoice_finalized := x |>)).
Proof. scalar. Qed.
Lemma set_dynamic_epoch_schedule_spec a x :
  set_dynamic_epoch_schedule (spec_tree a) x = Some (spec_tree (a <| a_dynamic_epoch_schedule := x |>)).
Proof.
  unfold set_dynamic_epoch_schedule. rewrite hash_byte_list_total. cbn [mbind option_bind]. scalar.
Qed.
(** ** Collections *)
Lemma collection_spec {A} n (w : A → list (nat * bytes)) (f : SszTree → nat * A → option SszTree) l :
  (∀ x, Forall (λ w, w.1 < n) (w x)) →
  (∀ t p, f t p = set_leaves t (offset (p.1 * n) (w p.2))) →
  (t ← SszTree.new ((length l * n) `max` 1); for_each f t (enumerate l))
  = Some (pad_tree (item_leaves n w l)).
Proof.
  intros Hw Hf. rewrite <-build_collection by done. destruct (SszTree.new _) as [t|]; [|done].
  apply for_each_ext. intros t' [i x]. apply Hf.
Qed.

Lemma set_single t i v : set_leaf t i v = set_leaves t (offset (i * 1) [(0, v)]).
Proof.
  unfold set_leaves. cbn [offset map for_each]. rewrite Nat.mul_1_r, Nat.add_0_r.
  by destruct (set_leaf t i v).
Qed.

Lemma bind_spec {B} (e : option SszTree) (f : SszTree → option SszTree) (k : SszTree → option B) v :
  (t ← e; f t) = Some v → (t ← e; t' ← f t; k t') = k v.
Proof. destruct e as [t|]; [|done]. simpl. by intros ->. Qed.

(** Rebuilding a collection of any tree with a full top replaces the collection and its root. *)
Section rebuilds.
Context (t : SszStateTree) (L : list bytes).
Hypothesis (Ht : top t = tree_of 5 L) (HL : length L = 32).

Lemma collection_root_any u tr n i :
  top u = tree_of 5 L → i < 32 →
  (r ← SszTree.root (pad_tree tr); set_top u i (mix_in_length r n))
  = Some (u <| top := tree_of 5 (<[i := collection_root tr n]> L) |>).
Proof. intros Hu Hi. rewrite root_pad_tree. cbn [mbind option_bind]. by apply set_top_spec. Qed.
Ltac finish_root := etrans; [apply collection_root_any; [done|vm_compute; lia]|reflexivity].

Lemma rebuild_validators_any l :
  rebuild_validators t l =
    Some (t <| validator_tree := pad_tree (v_leaves l) |> <| validator_count := length l |>
            <| top := tree_of 5 (<[11 := collection_root (v_leaves l) (length l)]> L) |>).
Proof.
  unfold rebuild_validators. cbv zeta.
  erewrite bind_spec by (apply (collection_spec 8 v_writes _ l); [apply v_writes_bound|intros t' p; by destruct p as [i [pk acc]]]).
  finish_root.
Qed.

Lemma rebuild_deposits_any l :
  rebuild_deposits t l =
    Some (t <| deposit_tree := pad_tree (d_leaves l) |> <| deposit_count := length l |>
            <| top := tree_of 5 (<[12 := collection_root (d_leaves l) (length l)]> L) |>).
Proof.
  unfold rebuild_deposits. cbv zeta.
  erewrite bind_spec by (apply (collection_spec 8 d_writes _ l); [apply d_writes_bound|intros t' p; destruct p; unfold set_deposit_fields; by rewrite deposit_writes_total]).
  finish_root.
Qed.

Lemma rebuild_protocol_params_any l :
  rebuild_protocol_params t l =
    Some (t <| protocol_param_tree := pad_tree (p_leaves l) |> <| protocol_param_count := length l |>
            <| top := tree_of 5 (<[14 := collection_root (p_leaves l) (length l)]> L) |>).
Proof.
  unfold rebuild_protocol_params. cbv zeta.
  erewrite bind_spec by (apply (collection_spec 2 protocol_param_writes _ l); [apply p_writes_bound|intros t' p; by destruct p]).
  finish_root.
Qed.

Lemma rebuild_added_validators_any l :
  rebuild_added_validators t l =
    Some (t <| added_validator_tree := pad_tree (av_leaves (flatten_added l)) |> <| added_validator_count := length (flatten_added l) |>
            <| top := tree_of 5 (<[15 := collection_root (av_leaves (flatten_added l)) (length (flatten_added l))]> L) |>).
Proof.
  unfold rebuild_added_validators. cbv zeta.
  erewrite bind_spec by (apply (collection_spec 4 av_writes _ (flatten_added l)); [apply av_writes_bound|intros t' p; by destruct p as [i [e av]]]).
  finish_root.
Qed.

Lemma rebuild_removed_validators_any l :
  rebuild_removed_validators t l =
    Some (t <| removed_validator_tree := pad_tree (rv_leaves l) |> <| removed_validator_count := length l |>
            <| top := tree_of 5 (<[16 := collection_root (rv_leaves l) (length l)]> L) |>).
Proof.
  unfold rebuild_removed_validators. cbv zeta. rewrite <-(Nat.mul_1_r (length l)) at 1.
  erewrite bind_spec by (apply (collection_spec 1 rv_writes _ l); [apply rv_writes_bound|intros t' p; destruct p; apply set_single]).
  finish_root.
Qed.

Lemma rebuild_pending_execution_requests_any l :
  rebuild_pending_execution_requests t l =
    Some (t <| pending_execution_request_tree := pad_tree (req_leaves l) |> <| pending_execution_request_count := length l |>
            <| top := tree_of 5 (<[21 := collection_root (req_leaves l) (length l)]> L) |>).
Proof.
  unfold rebuild_pending_execution_requests. cbv zeta. rewrite <-(Nat.mul_1_r (length l)) at 1.
  erewrite bind_spec by (apply (collection_spec 1 req_writes _ l); [apply req_writes_bound|intros t' p; destruct p; cbn beta iota; rewrite hash_byte_list_total; apply set_single]).
  finish_root.
Qed.

Lemma index_loop (l : list (nat * PendingWithdrawal)) tree m :
  for_each (λ '(tree, m) '(slot, w),
      tree ← set_withdrawal_fields tree slot w;
      Some (tree, or_insert m (pubkey w) slot)) (tree, m) l
  = tree ← for_each (λ tree '(slot, w), set_withdrawal_fields tree slot w) tree l;
    Some (tree, foldl (λ m '(i, w), or_insert m (pubkey w) i) m l).
Proof.
  revert tree m. induction l as [|[i w] l IH]; intros tree m; [done|]. cbn [for_each foldl].
  destruct (set_withdrawal_fields tree i w) as [tree'|]; [|done]. cbn [mbind option_bind]. apply IH.
Qed.

Lemma length_iter_all q : length (iter_all q) = len q.
Proof. apply length_app. Qed.

Lemma rebuild_withdrawals_any q :
  rebuild_withdrawals t q =
    Some (t <| withdrawal_tree := pad_tree (w_leaves (iter_all q)) |> <| withdrawal_count := len q |>
            <| withdrawal_pubkey_index := pubkey_index (iter_all q) |>
            <| top := tree_of 5 (<[13 := collection_root (w_leaves (iter_all q)) (len q)]> L) |>).
Proof.
  unfold rebuild_withdrawals. cbv zeta. rewrite <-length_iter_all.
  pose proof (collection_spec 8 withdrawal_writes
    (λ tree '(slot, w), set_withdrawal_fields tree slot w) (iter_all q)) as E.
  destruct (SszTree.new _) as [t0|].
  2: { specialize (E w_writes_bound ltac:(by intros ? [])). discriminate. }
  cbn [mbind option_bind] in *. rewrite index_loop.
  rewrite E by (apply w_writes_bound || by intros ? []). cbn [mbind option_bind]. finish_root.
Qed.
End rebuilds.

(** ** Rebuilding computes the specification *)
Lemma new_spec :
  new = Some (mkSszStateTree (tree_of 5 (zeros 32)) (pad_tree []) 0 (pad_tree []) 0 (pad_tree []) 0 ∅
    (pad_tree []) 0 (pad_tree []) 0 (pad_tree []) 0 (pad_tree []) 0).
Proof. unfold new. by rewrite !new_tree_of. Qed.

Lemma bind_step {A B} (e : option A) (k : A → option B) v r :
  e = Some v → k v = r → (e ≫= k) = r.
Proof. by intros -> <-. Qed.

Lemma rebuild_spec a : rebuild a = Some (spec_tree a).
Proof.
  unfold rebuild. rewrite new_spec. cbn [mbind option_bind].
  do 20 (eapply bind_step; [apply set_top_spec; (reflexivity || (vm_compute; lia))|]).
  eapply bind_step; [by apply rebuild_validators_any|].
  eapply bind_step; [by apply rebuild_deposits_any|].
  eapply bind_step; [by apply rebuild_withdrawals_any|].
  eapply bind_step; [by apply rebuild_protocol_params_any|].
  eapply bind_step; [by apply rebuild_added_validators_any|].
  eapply bind_step; [by apply rebuild_removed_validators_any|].
  eapply bind_step; [by apply rebuild_pending_execution_requests_any|].
  eapply bind_step; [apply set_top_spec; (reflexivity || (vm_compute; lia))|].
  eapply bind_step; [apply hash_byte_list_total|].
  etrans; [apply set_top_spec; (reflexivity || (vm_compute; lia))|reflexivity].
Qed.
(** ** Incremental operations on collections *)
Lemma rebuild_validators_spec a l :
  rebuild_validators (spec_tree a) l = Some (spec_tree (a <| a_validator_accounts := l |>)).
Proof. etrans; [by apply rebuild_validators_any|reflexivity]. Qed.
Lemma rebuild_deposits_spec a l :
  rebuild_deposits (spec_tree a) l = Some (spec_tree (a <| a_deposit_queue := l |>)).
Proof. etrans; [by apply rebuild_deposits_any|reflexivity]. Qed.
Lemma rebuild_withdrawals_spec a l :
  rebuild_withdrawals (spec_tree a) l = Some (spec_tree (a <| a_withdrawal_queue := l |>)).
Proof. etrans; [by apply rebuild_withdrawals_any|reflexivity]. Qed.
Lemma rebuild_protocol_params_spec a l :
  rebuild_protocol_params (spec_tree a) l = Some (spec_tree (a <| a_protocol_param_changes := l |>)).
Proof. etrans; [by apply rebuild_protocol_params_any|reflexivity]. Qed.
Lemma rebuild_added_validators_spec a l :
  rebuild_added_validators (spec_tree a) l = Some (spec_tree (a <| a_added_validators := l |>)).
Proof. etrans; [by apply rebuild_added_validators_any|reflexivity]. Qed.
Lemma rebuild_removed_validators_spec a l :
  rebuild_removed_validators (spec_tree a) l = Some (spec_tree (a <| a_removed_validators := l |>)).
Proof. etrans; [by apply rebuild_removed_validators_any|reflexivity]. Qed.
Lemma rebuild_pending_execution_requests_spec a l :
  rebuild_pending_execution_requests (spec_tree a) l = Some (spec_tree (a <| a_pending_execution_requests := l |>)).
Proof. etrans; [by apply rebuild_pending_execution_requests_any|reflexivity]. Qed.

Lemma validator_block_overwrite p1 p2 :
  write_leaves (item_block 8 v_writes p1) (v_writes p2) = item_block 8 v_writes p2.
Proof.
  unfold item_block, block, v_writes, validator_writes, write_leaves, zeros.
  generalize zero32. intros z. cbn. done.
Qed.

Ltac root_step :=
  etrans; [eapply collection_root_any; [|reflexivity|vm_compute; lia]; reflexivity|reflexivity].

Lemma update_validator_at_slot_spec a l1 k v l2 k' v' :
  a_validator_accounts a = l1 ++ (k, v) :: l2 →
  update_validator_at_slot (spec_tree a) (length l1) k' v'
  = Some (spec_tree (a <| a_validator_accounts := l1 ++ (k', v') :: l2 |>)).
Proof.
  intros Ha. unfold update_validator_at_slot, set_validator_fields. cbn [validator_tree spec_tree].
  rewrite Ha. unfold v_leaves at 1. change (validator_writes k' v') with (v_writes (k', v')).
  rewrite (update_collection 8 v_writes v_writes_bound) by done. cbn [mbind option_bind].
  unfold spec_tree, top_leaves. rewrite Ha.
  replace (length (l1 ++ (k, v) :: l2)) with (length (l1 ++ (k', v') :: l2)) by (by rewrite !length_app).
  root_step.
Qed.

Lemma insert_validator_at_slot_spec a l1 l2 k v :
  a_validator_accounts a = l1 ++ l2 →
  insert_validator_at_slot (spec_tree a) (length l1) k v
  = Some (spec_tree (a <| a_validator_accounts := l1 ++ (k, v) :: l2 |>)).
Proof.
  intros Ha. unfold insert_validator_at_slot. cbn [validator_tree validator_count spec_tree]. cbv zeta.
  rewrite Ha. pose proof (insert_block 3 v_writes v_writes_bound l1 (k, v) l2) as E.
  change (2 ^ 3) with 8 in E. unfold VALIDATOR_FIELDS_PER_ACCOUNT, v_leaves at 1.
  destruct (grow _ _) as [t1|]; [|discriminate]. cbn [mbind option_bind] in *.
  rewrite (proj2 (Nat.ltb_ge _ _)) by (rewrite length_app; lia).
  replace (length (l1 ++ l2) - length l1) with (length l2) by (rewrite length_app; lia).
  destruct (shift_blocks_right t1 _ _ _) as [t2|]; [|discriminate]. cbn [mbind option_bind] in *.
  unfold set_validator_fields_no_rehash, VALIDATOR_FIELDS_PER_ACCOUNT.
  change (validator_writes k v) with (v_writes (k, v)).
  destruct (set_leaves_no_rehash t2 _) as [t3|]; [|discriminate]. cbn [mbind option_bind] in *.
  destruct (rehash_block t3 _ _) as [t4|]; [|discriminate]. cbn [mbind option_bind] in *.
  rewrite E. cbn [mbind option_bind]. unfold spec_tree, top_leaves. rewrite Ha.
  replace (length (l1 ++ l2) + 1) with (length (l1 ++ (k, v) :: l2)) by (rewrite !length_app; simpl; lia).
  root_step.
Qed.

Lemma remove_validator_at_slot_spec a l1 k v l2 :
  a_validator_accounts a = l1 ++ (k, v) :: l2 →
  remove_validator_at_slot (spec_tree a) (length l1)
  = Some (spec_tree (a <| a_validator_accounts := l1 ++ l2 |>)).
Proof.
  intros Ha. unfold remove_validator_at_slot. cbn [validator_tree validator_count spec_tree]. cbv zeta.
  rewrite Ha. pose proof (remove_block 3 v_writes l1 (k, v) l2) as E. cbv zeta in E.
  unfold zero_writes in E. change (2 ^ 3) with 8 in E. unfold VALIDATOR_FIELDS_PER_ACCOUNT, v_leaves at 1.
  assert (Hn : length (l1 ++ (k, v) :: l2) = length l1 + length l2 + 1) by (rewrite length_app; simpl; lia).
  rewrite Hn, (proj2 (Nat.ltb_lt _ _)) by lia. cbn [negb].
  replace (length l1 + length l2 + 1 - length l1 - 1) with (length l2) by lia.
  replace (length l1 + length l2 + 1 - 1) with (length (l1 ++ l2)) by (rewrite length_app; lia).
  destruct (shift_blocks_left _ _ _ _) as [t1|]; [|discriminate]. cbn [mbind option_bind] in *.
  assert (E' : ∀ (K : SszTree → option SszStateTree),
    (t ← (if length l2 =? 0 then
        t ← set_leaves_no_rehash t1 (offset (length l1 * 8) (map (λ i, (i, zero32)) (range 0 8)));
        rehash_block t (length l1) 8
      else rehash_block t1 (length (l1 ++ l2)) 8); K t)
    = (t ← (if length l2 =? 0 then set_leaves_no_rehash t1 (offset (length l1 * 8) (map (λ i, (i, zero32)) (range 0 8))) else Some t1);
       t ← rehash_block t (length l1 + length l2) 8; K t)).
  { intros K. destruct (Nat.eqb_spec (length l2) 0) as [H0|H0]; rewrite ?length_app, ?H0, ?Nat.add_0_r; [|done].
    by destruct (set_leaves_no_rehash t1 _). }
  rewrite E'. clear E'.
  destruct (if length l2 =? 0 then _ else _) as [t2|]; [|discriminate]. cbn [mbind option_bind] in *.
  destruct (rehash_block t2 _ _) as [t3|]; [|discriminate]. cbn [mbind option_bind] in *.
  rewrite E. cbn [mbind option_bind]. unfold spec_tree, top_leaves. rewrite Ha.
  root_step.
Qed.

Lemma push_deposit_spec a d :
  push_deposit (spec_tree a) d
  = Some (spec_tree (a <| a_deposit_queue := a_deposit_queue a ++ [d] |>)).
Proof.
  unfold push_deposit, set_deposit_fields. cbn [deposit_tree deposit_count spec_tree]. cbv zeta.
  rewrite deposit_writes_total. cbn [mbind option_bind]. unfold d_leaves at 1, DEPOSIT_FIELDS_PER_ITEM.
  rewrite (bind_spec _ _ _ _ (push_collection 8 d_writes d_writes_bound _ d)).
  unfold spec_tree, top_leaves.
  replace (length (a_deposit_queue a) + 1) with (length (a_deposit_queue a ++ [d])) by (by rewrite length_app).
  root_step.
Qed.

Lemma pubkey_index_snoc l w :
  pubkey_index (l ++ [w]) = or_insert (pubkey_index l) (pubkey w) (length l).
Proof.
  unfold pubkey_index, enumerate. rewrite length_app, seq_app, zip_with_app by (by rewrite length_seq).
  by rewrite foldl_app.
Qed.

Lemma push_withdrawal_spec a q w :
  iter_all q = iter_all (a_withdrawal_queue a) ++ [w] →
  push_withdrawal (spec_tree a) w = Some (spec_tree (a <| a_withdrawal_queue := q |>)).
Proof.
  intros Hq. unfold push_withdrawal, set_withdrawal_fields.
  cbn [withdrawal_tree withdrawal_count withdrawal_pubkey_index spec_tree]. cbv zeta.
  rewrite <-!length_iter_all. unfold w_leaves at 1, WITHDRAWAL_FIELDS_PER_ITEM.
  rewrite (bind_spec _ _ _ _ (push_collection 8 withdrawal_writes w_writes_bound _ w)).
  rewrite <-pubkey_index_snoc. unfold spec_tree, top_leaves. rewrite <-!length_iter_all.
  change (a_withdrawal_queue (a <| a_withdrawal_queue := q |>)) with q. rewrite Hq.
  replace (length (iter_all (a_withdrawal_queue a)) + 1)
    with (length (iter_all (a_withdrawal_queue a) ++ [w])) by (by rewrite length_app).
  root_step.
Qed.
End facts.

(** The tree operations on a specification tree, as rewrite rules. *)
#[export] Hint Rewrite @set_epoch_spec @set_view_spec @set_latest_height_spec
  @set_head_digest_spec @set_epoch_genesis_hash_spec @set_validator_minimum_stake_spec
  @set_allowed_timestamp_future_ms_spec @set_max_deposits_per_epoch_spec
  @set_max_withdrawals_per_epoch_spec @set_observers_per_validator_spec
  @set_pending_checkpoint_digest_spec @set_minimum_validator_count_spec
  @set_pending_active_validator_exits_spec @set_invalid_deposit_tax_spec
  @set_max_pending_withdrawals_per_validator_spec @set_max_validator_count_spec
  @set_treasury_address_spec @set_next_withdrawal_index_spec @set_forkchoice_head_block_hash_spec
  @set_forkchoice_safe_block_hash_spec @set_forkchoice_finalized_block_hash_spec
  @set_dynamic_epoch_schedule_spec @rebuild_validators_spec @rebuild_deposits_spec
  @rebuild_withdrawals_spec @rebuild_protocol_params_spec @rebuild_added_validators_spec
  @rebuild_removed_validators_spec @rebuild_pending_execution_requests_spec @push_deposit_spec
  using typeclasses eauto : ssz_spec.

Section ops.
Context `{Hc : Crypto} `{!CryptoOk}.

Lemma run_op_spec a op : op_ok a op = true → run_op (spec_tree a) op = Some (spec_tree (op_args a op)).
Proof.
  destruct op; cbn [op_ok run_op op_args]; intros Hok;
    try (autorewrite with ssz_spec; reflexivity).
  - apply Nat.ltb_lt in Hok. destruct (lookup_lt_is_Some_2 _ _ Hok) as [[k0 v0] Hs].
    pose proof (take_drop_middle _ _ _ Hs) as Hsplit. symmetry in Hsplit.
    rewrite <-(length_take_le (a_validator_accounts a) slot) at 1 by lia.
    rewrite (update_validator_at_slot_spec _ _ _ _ _ _ _ Hsplit). by rewrite <-insert_take_drop.
  - apply Nat.leb_le in Hok.
    rewrite <-(length_take_le (a_validator_accounts a) slot) at 1 by lia.
    by rewrite (insert_validator_at_slot_spec _ (take slot _) (drop slot (a_validator_accounts a)))
      by (by rewrite take_drop).
  - apply Nat.ltb_lt in Hok. destruct (lookup_lt_is_Some_2 _ _ Hok) as [[k0 v0] Hs].
    pose proof (take_drop_middle _ _ _ Hs) as Hsplit. symmetry in Hsplit.
    rewrite <-(length_take_le (a_validator_accounts a) slot) at 1 by lia.
    rewrite (remove_validator_at_slot_spec _ _ _ _ _ Hsplit). by rewrite <-delete_take_drop.
  - apply push_withdrawal_spec. unfold iter_all. simpl. by rewrite (assoc_L (++)).
Qed.

(** C21: Whatever sequence of in-range operations the state makes on its tree --
    scalar writes, validators inserted into, rewritten in and removed from the
    middle, deposits and withdrawals appended, collections rebuilt -- none of them
    panics, and the tree reached is, node for node, the one [rebuild] builds from
    the data reached; so the incremental state root is the root of the data alone
    and does not depend on the history. *)
Theorem incremental_is_rebuild (a : RebuildArgs) (ops : list tree_op) :
  ops_ok a ops = true →
  ∃ t0 t, rebuild a = Some t0 ∧ for_each run_op t0 ops = Some t ∧
    rebuild (foldl op_args a ops) = Some t ∧
    root t = Some (merkle 5 (top_leaves (foldl op_args a ops))).
Proof.
  intros Hok. exists (spec_tree a), (spec_tree (foldl op_args a ops)).
  rewrite !rebuild_spec, root_spec_tree. split_and!; [done| |done|done].
  revert a Hok. induction ops as [|op ops IH]; intros a Hok; [done|]. cbn [ops_ok] in Hok.
  apply andb_true_iff in Hok as [Hop Hok]. cbn [for_each foldl].
  rewrite run_op_spec by done. cbn [mbind option_bind]. by apply IH.
Qed.
End ops.

(** ** Instances *)
Definition demo_key (n : Z) : bytes := replicate 32 (u8_to_byte n).
Definition demo_args : RebuildArgs :=
  mkRebuildArgs 1 2 3 (zero_bytes 32) (zero_bytes 32) 32 4 5 (zero_bytes 32) (zero_bytes 32)
    (zero_bytes 32)
    [(demo_key 1, demo_account); (demo_key 3, demo_account); (demo_key 5, demo_account)]
    [demo_deposit 1] demo_queue [MinimumStake 40] [(2%Z, [mkAddedValidator (demo_key 7) (zero_bytes 48)])]
    (map demo_key [1; 2; 3; 4; 5; 6; 7; 8]%Z)
    (zero_bytes 20) 6 7 8 9 [demo_key 1] None (demo_key 2) 10 11 12 13.

Lemma incremental_is_rebuild_witness :
  ∃ t0 t, @rebuild ToyCrypto.toy demo_args = Some t0 ∧
    for_each (@run_op ToyCrypto.toy) t0
      [InsertValidator 1 (demo_key 2) demo_account; RemoveValidator 0; PushDeposit (demo_deposit 2)]
      = Some t.
Proof.
  destruct (@incremental_is_rebuild ToyCrypto.toy ToyCrypto.toy_ok demo_args
    [InsertValidator 1 (demo_key 2) demo_account; RemoveValidator 0; PushDeposit (demo_deposit 2)])
    as (t0 & t & H1 & H2 & _); [vm_compute; reflexivity|].
  exists t0, t. split; [exact H1|exact H2].
Defined.
