(* ===== verification/StateProof.v ===== *)
(** * StateProof: Merkle proofs of the state (types/src/ssz_state_tree.rs, from line 915)

    Generation of proofs for scalar fields, for fields of collection items and for
    whole items, and their verification against a state root.  A generalized index
    is a [nat]: it has one bit per level below the leading one, so it fits [u64] for
    every tree whose nodes fit in memory.  The functions return
    [option (option SszProof)]: the outer [None] is a panic, the inner one the
    code's [None]. *)
From S2P Require Import Prelude Codec Crypto BTree Account ExecutionRequest ProtocolParams.
From S2P Require Import Withdrawal SszTree SszTreeFacts SszCollections SszHash SszStateTree.
From S2P Require Import SszStateTreeFacts.

Record SszProof := mkSszProof {
  gindex : nat;
  leaf : bytes;
  branch : list bytes
}.
Record KeyedFieldProof := mkKeyedFieldProof {
  field : SszProof;
  key : SszProof
}.

(** The early return [?] of a function that may also panic. *)
Definition returning {A B} (o : option A) (k : A → option (option B)) : option (option B) :=
  match o with Some a => k a | None => Some None end.

Section generation.
Context (t : SszStateTree).

Definition compose_collection_gindex (top_leaf_index : nat) (subtree : SszTree) (item_index : nat)
  : nat :=
  let td := depth (top t) in
  let sd := depth subtree in
  let top_gindex := Nat.shiftl 1 td + top_leaf_index in
  Nat.lor (Nat.shiftl top_gindex (sd + 1)) item_index.

Definition length_bytes (collection_length : nat) : bytes :=
  pad32 (u64_to_le_bytes (Z.of_nat collection_length mod 2 ^ 64)).

Definition build_collection_branch (top_leaf_index : nat) (subtree : SszTree)
    (item_index collection_length : nat) : option (list bytes) :=
  branch ← generate_proof subtree item_index;
  top_branch ← generate_proof (top t) top_leaf_index;
  Some (branch ++ [length_bytes collection_length] ++ top_branch).

Definition generate_scalar_proof (leaf_index : nat) : option SszProof :=
  let gindex := Nat.shiftl 1 (depth (top t)) + leaf_index in
  leaf ← get_leaf (top t) leaf_index;
  branch ← generate_proof (top t) leaf_index;
  Some (mkSszProof gindex leaf branch).

(** The proof of leaf [leaf_index] of a collection. *)
Definition leaf_proof (top_leaf_index : nat) (subtree : SszTree) (leaf_index count : nat)
  : option SszProof :=
  leaf ← get_leaf subtree leaf_index;
  branch ← build_collection_branch top_leaf_index subtree leaf_index count;
  Some (mkSszProof (compose_collection_gindex top_leaf_index subtree leaf_index) leaf branch).

(** The proof of a whole item; [levels] is the number of levels from the top leaf
    down to the item's root. *)
Definition item_proof (top_leaf_index : nat) (subtree : SszTree) (fields levels slot count : nat)
  : option SszProof :=
  let node_index := capacity subtree / fields + slot in
  node_value ← get_node subtree node_index;
  let td := depth (top t) in
  let top_gindex := Nat.shiftl 1 td + top_leaf_index in
  let gindex := Nat.lor (Nat.shiftl top_gindex levels) slot in
  branch ← generate_proof_from_node subtree node_index;
  top_branch ← generate_proof (top t) top_leaf_index;
  Some (mkSszProof gindex node_value (branch ++ [length_bytes count] ++ top_branch)).

Definition validator_account_proof (slot : nat) : option SszProof :=
  let sd := depth (validator_tree t) in
  let log_block := Nat.log2 VALIDATOR_FIELDS_PER_ACCOUNT in
  item_proof VALIDATOR_ACCOUNTS_ROOT (validator_tree t) VALIDATOR_FIELDS_PER_ACCOUNT
    (sd - log_block + 1) slot (validator_count t).
Definition generate_validator_proof (pubkey : bytes) (keys : list bytes)
  : option (option SszProof) :=
  returning (get_validator_index keys pubkey) (λ slot, Some <$> validator_account_proof slot).

Definition generate_validator_field_proof (pubkey : bytes) (field_index : nat) (keys : list bytes)
  : option (option SszProof) :=
  if negb (field_index <? VALIDATOR_FIELDS_PER_ACCOUNT) then None else
  returning (get_validator_index keys pubkey) (λ slot,
    let leaf_index := slot * VALIDATOR_FIELDS_PER_ACCOUNT + field_index in
    Some <$> leaf_proof VALIDATOR_ACCOUNTS_ROOT (validator_tree t) leaf_index (validator_count t)).
Definition generate_validator_keyed_field_proof (pubkey : bytes) (field_index : nat)
    (keys : list bytes) : option (option KeyedFieldProof) :=
  field ← generate_validator_field_proof pubkey field_index keys;
  returning field (λ field,
    key ← generate_validator_field_proof pubkey VALIDATOR_FIELD_NODE_PUBKEY keys;
    returning key (λ key, Some (Some (mkKeyedFieldProof field key)))).

Definition deposit_item_proof (slot : nat) : option SszProof :=
  item_proof DEPOSIT_QUEUE_ROOT (deposit_tree t) DEPOSIT_FIELDS_PER_ITEM
    (depth (deposit_tree t) - 2) slot (deposit_count t).
Definition generate_deposit_proof (index : nat) : option (option SszProof) :=
  if deposit_count t <=? index then Some None else Some <$> deposit_item_proof index.
Definition generate_deposit_field_proof (index field_index : nat) : option (option SszProof) :=
  if (deposit_count t <=? index) || (DEPOSIT_FIELDS_PER_ITEM <=? field_index) then Some None else
  let leaf_index := index * DEPOSIT_FIELDS_PER_ITEM + field_index in
  Some <$> leaf_proof DEPOSIT_QUEUE_ROOT (deposit_tree t) leaf_index (deposit_count t).

Definition withdrawal_item_proof (slot : nat) : option SszProof :=
  item_proof WITHDRAWAL_QUEUE_ROOT (withdrawal_tree t) WITHDRAWAL_FIELDS_PER_ITEM
    (depth (withdrawal_tree t) - 2) slot (withdrawal_count t).
Definition generate_withdrawal_proof (index : nat) : option (option SszProof) :=
  if withdrawal_count t <=? index then Some None else Some <$> withdrawal_item_proof index.
Definition generate_withdrawal_proof_by_key (pubkey : bytes) : option (option SszProof) :=
  returning (withdrawal_pubkey_index t !! pubkey) generate_withdrawal_proof.
Definition generate_withdrawal_field_proof (index field_index : nat) : option (option SszProof) :=
  if (withdrawal_count t <=? index) || (WITHDRAWAL_FIELDS_PER_ITEM <=? field_index)
  then Some None else
  let leaf_index := index * WITHDRAWAL_FIELDS_PER_ITEM + field_index in
  Some <$> leaf_proof WITHDRAWAL_QUEUE_ROOT (withdrawal_tree t) leaf_index (withdrawal_count t).
Definition generate_withdrawal_field_proof_by_key (pubkey : bytes) (field_index : nat)
  : option (option SszProof) :=
  returning (withdrawal_pubkey_index t !! pubkey)
    (λ slot, generate_withdrawal_field_proof slot field_index).
Definition generate_withdrawal_keyed_field_proof_by_key (pubkey : bytes) (field_index : nat)
  : option (option KeyedFieldProof) :=
  returning (withdrawal_pubkey_index t !! pubkey) (λ slot,
    field ← generate_withdrawal_field_proof slot field_index;
    returning field (λ field,
      key ← generate_withdrawal_field_proof slot WITHDRAWAL_FIELD_PUBKEY;
      returning key (λ key, Some (Some (mkKeyedFieldProof field key))))).

Definition protocol_param_item_proof (slot : nat) : option SszProof :=
  item_proof PROTOCOL_PARAM_CHANGES_ROOT (protocol_param_tree t) PROTOCOL_PARAM_FIELDS_PER_ITEM
    (depth (protocol_param_tree t)) slot (protocol_param_count t).
Definition generate_protocol_param_proof (index : nat) : option (option SszProof) :=
  if protocol_param_count t <=? index then Some None else Some <$> protocol_param_item_proof index.
Definition generate_protocol_param_field_proof (index field_index : nat)
  : option (option SszProof) :=
  if (protocol_param_count t <=? index) || (PROTOCOL_PARAM_FIELDS_PER_ITEM <=? field_index)
  then Some None else
  let leaf_index := index * PROTOCOL_PARAM_FIELDS_PER_ITEM + field_index in
  Some <$> leaf_proof PROTOCOL_PARAM_CHANGES_ROOT (protocol_param_tree t) leaf_index
             (protocol_param_count t).

Definition added_validator_item_proof (slot : nat) : option SszProof :=
  let sd := depth (added_validator_tree t) in
  let log_block := Nat.log2 ADDED_VALIDATOR_FIELDS_PER_ITEM in
  item_proof ADDED_VALIDATORS_ROOT (added_validator_tree t) ADDED_VALIDATOR_FIELDS_PER_ITEM
    (sd - log_block + 1) slot (added_validator_count t).
Definition generate_added_validator_proof (index : nat) : option (option SszProof) :=
  if added_validator_count t <=? index then Some None
  else Some <$> added_validator_item_proof index.
Definition generate_added_validator_field_proof (index field_index : nat)
  : option (option SszProof) :=
  if (added_validator_count t <=? index) || (ADDED_VALIDATOR_FIELDS_PER_ITEM <=? field_index)
  then Some None else
  let leaf_index := index * ADDED_VALIDATOR_FIELDS_PER_ITEM + field_index in
  Some <$> leaf_proof ADDED_VALIDATORS_ROOT (added_validator_tree t) leaf_index
             (added_validator_count t).
Definition generate_removed_validator_proof (index : nat) : option (option SszProof) :=
  if removed_validator_count t <=? index then Some None else
  Some <$> leaf_proof REMOVED_VALIDATORS_ROOT (removed_validator_tree t) index
             (removed_validator_count t).

Definition generate_added_validator_proof_by_key (nk : bytes)
    (added_validators : BTreeMap Z (list AddedValidator)) : option (option SszProof) :=
  returning (position (λ av, bool_decide (node_key av = nk)) (concat (BTree.values added_validators)))
    generate_added_validator_proof.
Definition generate_removed_validator_proof_by_key (nk : bytes) (removed_validators : list bytes)
  : option (option SszProof) :=
  returning (position (λ k, bool_decide (k = nk)) removed_validators)
    generate_removed_validator_proof.

Definition top_tree_depth : nat := depth (top t).
End generation.

(** ** Verification *)
Section verification.
Context `{Crypto}.

Definition verify (p : SszProof) (state_root : bytes) : bool :=
  verify_proof_gindex state_root (gindex p) (leaf p) (branch p).

Definition is_power_of_two (n : nat) : bool := negb (n =? 0) && (2 ^ Nat.log2 n =? n).

(** For a key of 32 bytes the tree hash is the key itself. *)
Definition keyed_verify (p : KeyedFieldProof) (state_root expected_key : bytes)
    (fields_per_item key_field_index : nat) : bool :=
  if negb (is_power_of_two fields_per_item) then false else
  if negb (verify (field p) state_root) || negb (verify (key p) state_root) then false else
  if negb (bool_decide (leaf (key p) = htr_bytes32 expected_key)) then false else
  if negb (Nat.land (gindex (key p)) (fields_per_item - 1) =? key_field_index) then false else
  let shift := Nat.log2 fields_per_item in
  Nat.shiftr (gindex (field p)) shift =? Nat.shiftr (gindex (key p)) shift.
End verification.

(** ** Completeness *)
Section completeness.
Context `{Hc : Crypto} `{!CryptoOk}.

Lemma fold_branch_app h i p1 p2 :
  fold_branch h i (p1 ++ p2) = let '(h, i) := fold_branch h i p1 in fold_branch h i p2.
Proof. revert h i. induction p1 as [|s p1 IH]; intros h i; [done|]. apply IH. Qed.

(** The hash depends on as many bits of the index as the branch is long. *)
Lemma fold_branch_low k c h i p :
  length p = k → (fold_branch h (c * 2 ^ k + i) p).1 = (fold_branch h i p).1.
Proof.
  revert k h i. induction p as [|s p IH]; intros k h i <-; [done|]. cbn [length fold_branch].
  rewrite Nat.pow_succ_r'.
  replace (c * (2 * 2 ^ length p) + i) with (i + (c * 2 ^ length p) * 2) by lia.
  rewrite Nat.div_add by lia. unfold fold_step.
  rewrite Nat.even_add, Nat.even_mul, orb_true_r. replace (Bool.eqb (Nat.even i) true) with (Nat.even i)
    by (by destruct (Nat.even i)).
  rewrite (Nat.add_comm (i / 2)). by apply IH.
Qed.

(** A branch of a collection: the subtree's branch, the length, the top's branch. *)
Lemma fold_collection_branch k g i v p len tp r :
  length p = k → i < 2 ^ k → fold_branch v (2 ^ k + i) p = (r, 1) →
  fold_branch v (g * 2 ^ (k + 1) + i) (p ++ [len] ++ tp) = fold_branch (hash32_concat r len) g tp.
Proof.
  intros Hp Hi Hf. rewrite fold_branch_app.
  pose proof (fold_branch_low k 1 v i p Hp) as H1. rewrite Nat.mul_1_l, Hf in H1. simpl in H1.
  pose proof (fold_branch_low k (2 * g) v i p Hp) as H2.
  pose proof (fold_branch_idx v (2 * g * 2 ^ k + i) p) as H3. rewrite Hp, Nat.div_add_l in H3
    by (apply Nat.pow_nonzero; lia). rewrite (Nat.div_small i), Nat.add_0_r in H3 by done.
  replace (g * 2 ^ (k + 1) + i) with (2 * g * 2 ^ k + i) by (rewrite Nat.pow_add_r; simpl; lia).
  destruct (fold_branch v (2 * g * 2 ^ k + i) p) as [h j]. simpl in H2, H3. subst.
  change (g + (g + 0)) with (2 * g). cbn [app fold_branch]. rewrite half_even. unfold fold_step. by rewrite Nat.even_even.
Qed.

Lemma lor_shiftl g k i : i < 2 ^ k → Nat.lor (Nat.shiftl g k) i = g * 2 ^ k + i.
Proof.
  intros Hi. rewrite <-Nat.shiftl_mul_pow2.
  assert (Nat.land (Nat.shiftl g k) i = 0) as H0.
  { apply Nat.bits_inj. intros n. rewrite Nat.bits_0, Nat.land_spec.
    destruct (Nat.lt_ge_cases n k) as [Hn|Hn].
    - by rewrite Nat.shiftl_spec_low.
    - rewrite <-(Nat.mod_small i (2 ^ k)) by done. rewrite Nat.mod_pow2_bits_high by done.
      apply andb_false_r. }
  rewrite <-Nat.lxor_lor by done. symmetry. by apply Nat.add_nocarry_lxor.
Qed.

Lemma verify_gindex_spec r g v p :
  1 ≤ g → length p = Nat.log2 g → (fold_branch v g p).1 = r → verify_proof_gindex r g v p = true.
Proof.
  intros Hg Hp Hf. unfold verify_proof_gindex. destruct (Nat.eqb_spec g 0); [lia|].
  rewrite Hp, Nat.eqb_refl. simpl. pose proof (fold_branch_idx v g p) as Hi. rewrite Hp, log2_div in Hi by done.
  destruct (fold_branch v g p) as [h j]. simpl in *. subst. rewrite Nat.eqb_refl. simpl.
  by apply bool_decide_true.
Qed.

Lemma log2_gindex g k i : 1 ≤ g → i < 2 ^ k → Nat.log2 (g * 2 ^ k + i) = Nat.log2 g + k.
Proof.
  intros Hg Hi. destruct (Nat.log2_spec g) as [H1 H2]; [lia|]. apply Nat.log2_unique; [lia|].
  rewrite Nat.pow_add_r. rewrite <-Nat.add_succ_l, Nat.pow_add_r. nia.
Qed.
(** ** Whole items *)
Lemma hash_layer_app n l1 l2 :
  length l1 = 2 * n → hash_layer (l1 ++ l2) = hash_layer l1 ++ hash_layer l2.
Proof.
  revert l1. induction n as [|n IH]; intros l1 Hl; [by destruct l1|].
  destruct l1 as [|x [|y l1]]; [done|simpl in Hl; lia|]. simpl. f_equal. apply IH. simpl in Hl. lia.
Qed.

(** The root of the item at a slot, [b] levels above its leaves. *)
Lemma build_item d b s A X Z :
  b ≤ d → length (A ++ X ++ Z) = 2 ^ d → length A = s * 2 ^ b → length X = 2 ^ b →
  build d (A ++ X ++ Z) !! (2 ^ (d - b) + s) = Some (merkle b X).
Proof.
  revert d A X Z. induction b as [|b IH]; intros d A X Z Hb Hl HA HX.
  - rewrite Nat.sub_0_r, build_lookup_leaf by done. rewrite Nat.pow_0_r in *.
    rewrite lookup_app_r by lia. replace (s - length A) with 0 by lia.
    destruct X as [|x [|]]; [done| |simpl in HX; lia]. done.
  - destruct d as [|d]; [lia|]. pose proof (length_hash_layer _ _ Hl) as Hl'.
    rewrite Nat.pow_succ_r' in HA, HX. cbn [build merkle Nat.sub].
    rewrite (hash_layer_app (s * 2 ^ b)) in * by lia. rewrite (hash_layer_app (2 ^ b)) in * by lia.
    assert (HA' : length (hash_layer A) = s * 2 ^ b) by (apply length_hash_layer_mul; lia).
    assert (HX' : length (hash_layer X) = 2 ^ b) by (apply length_hash_layer_mul; lia).
    assert (2 ^ (d - b) + s < length (build d (hash_layer A ++ hash_layer X ++ hash_layer Z))).
    { rewrite length_build by done. rewrite !length_app, HA', HX' in Hl'.
      pose proof (pow_split b d ltac:(lia)). pose proof (pow2_pos (d - b)). pose proof (pow2_pos b).
      nia. }
    rewrite lookup_app_l by done. apply IH; [lia|done..].
Qed.

Section one_collection.
Context (t : SszStateTree) (T : list bytes) (c n : nat) (l : list bytes).
Hypothesis (Ht : top t = tree_of 5 T) (HT : length T = 32).
Hypothesis HTc : T !! c = Some (collection_root l n).

Lemma top_index : c < 32.
Proof. apply lookup_lt_Some in HTc. lia. Qed.

(** The generalized index of position [i] at [k] levels below the collection's root. *)
Definition cgindex (k i : nat) : nat := (2 ^ 5 + c) * 2 ^ (k + 1) + i.

Lemma collection_verifies k i v p :
  length p = k → i < 2 ^ k → fold_branch v (2 ^ k + i) p = (leaves_root l, 1) →
  ∃ tp, generate_proof (top t) c = Some tp ∧
    verify (mkSszProof (cgindex k i) v (p ++ [length_bytes n] ++ tp)) (merkle 5 T) = true.
Proof.
  intros Hp Hi Hf. destruct (generate_proof_spec 5 T c _ HT HTc) as (tp & E & Htp & Hft).
  exists tp. rewrite Ht. split; [done|]. unfold verify. cbn [gindex leaf branch]. unfold cgindex.
  assert (i < 2 ^ (k + 1)) by (rewrite Nat.pow_add_r, Nat.pow_1_r; lia).
  apply verify_gindex_spec; [pose proof (pow2_pos (k + 1)); change (2 ^ 5) with 32; nia| |].
  - rewrite log2_gindex by (change (2 ^ 5) with 32; lia). rewrite !length_app, Hp, Htp. simpl length.
    assert (Nat.log2 (2 ^ 5 + c) = 5) as ->; [|lia]. pose proof top_index.
    apply Nat.log2_unique; [lia|simpl; lia].
  - rewrite (fold_collection_branch k _ _ _ _ _ _ (leaves_root l)) by done.
    change (hash32_concat _ _) with (collection_root l n). by rewrite Hft.
Qed.

Lemma leaf_proof_spec i v :
  padded l !! i = Some v →
  ∃ p, leaf_proof t c (pad_tree l) i n = Some p ∧ leaf p = v ∧
    gindex p = cgindex (pad_depth l) i ∧ verify p (merkle 5 T) = true.
Proof.
  intros Hv. pose proof (length_padded l) as Hl. pose proof (lookup_lt_Some _ _ _ Hv) as Hi.
  rewrite Hl in Hi. destruct (generate_proof_spec _ _ i v Hl Hv) as (p & E & Hp & Hf).
  destruct (collection_verifies (pad_depth l) i v p Hp Hi Hf) as (tp & Etp & Hver).
  exists (mkSszProof (cgindex (pad_depth l) i) v (p ++ [length_bytes n] ++ tp)).
  split; [|done]. unfold leaf_proof, get_leaf, build_collection_branch, pad_tree.
  cbn [nodes capacity tree_of]. rewrite build_lookup_leaf by done. rewrite Hv.
  cbn [mbind option_bind]. fold (tree_of (pad_depth l) (padded l)). rewrite E, Etp.
  cbn [mbind option_bind]. unfold compose_collection_gindex, cgindex. cbn [depth tree_of].
  rewrite Ht. cbn [depth tree_of]. rewrite lor_shiftl by (rewrite Nat.pow_add_r, Nat.pow_1_r; lia). done.
Qed.

Lemma item_proof_spec b s A X Z levels :
  padded l = A ++ X ++ Z → length A = s * 2 ^ b → length X = 2 ^ b → b ≤ pad_depth l →
  levels = pad_depth l - b + 1 →
  ∃ p, item_proof t c (pad_tree l) (2 ^ b) levels s n = Some p ∧ leaf p = merkle b X ∧
    gindex p = cgindex (pad_depth l - b) s ∧ verify p (merkle 5 T) = true.
Proof.
  intros HAXZ HA HX Hb ->. pose proof (length_padded l) as Hl.
  set (d := pad_depth l) in *. set (k := d - b).
  assert (Hs : s < 2 ^ k).
  { rewrite HAXZ, !length_app, (pow_split b d) in Hl by done. fold k in Hl.
    pose proof (pow2_pos b). nia. }
  pose proof (build_item d b s A X Z Hb ltac:(by rewrite <-HAXZ) HA HX) as Hn. rewrite <-HAXZ in Hn.
  pose proof (build_wf d _ Hl) as Hwf. fold k in Hn. pose proof (pow2_pos k).
  assert (Hk : 2 ^ k ≤ 2 ^ d) by (apply Nat.pow_le_mono_r; lia).
  destruct (proof_steps_spec k d _ (2 ^ k + s) _ Hwf ltac:(lia) Hn) as (p & h & E & Hp & Hh & Hf).
  rewrite div_pow2_range in Hh, Hf by done. rewrite build_root in Hh by done. injection Hh as <-.
  destruct (collection_verifies k s (merkle b X) p Hp Hs Hf) as (tp & Etp & Hver).
  eexists. split; [|split; [|split; [|exact Hver]]]; [|done..].
  unfold item_proof, get_node, generate_proof_from_node, pad_tree. cbn [nodes capacity tree_of depth].
  fold d. rewrite pow_div by done. fold k. rewrite Hn. cbn [mbind option_bind].
  rewrite proof_loop_steps by lia.
  assert (Nat.log2 (2 ^ k + s) = k) as ->.
  { apply Nat.log2_unique; [lia|]. rewrite Nat.pow_succ_r'. lia. }
  rewrite E, Etp. cbn [mbind option_bind]. unfold cgindex. rewrite Ht. cbn [depth tree_of].
  rewrite lor_shiftl by (rewrite Nat.pow_add_r, Nat.pow_1_r; lia). done.
Qed.
End one_collection.

(** The whole item has a verifying proof of its root, and each of its [n] fields one
    of the field's leaf. *)
Definition item_proved (r : bytes) (item : option (option SszProof))
    (fields : nat → option (option SszProof)) (n : nat) (leaves : list bytes) (root : bytes) : Prop :=
  (∃ p, item = Some (Some p) ∧ leaf p = root ∧ verify p r = true) ∧
  ∀ f, f < n → ∃ p, fields f = Some (Some p) ∧ leaves !! f = Some (leaf p) ∧ verify p r = true.

Section items.
Context {A : Type} (b : nat) (w : A → list (nat * bytes)).

Lemma items_split l s x :
  l !! s = Some x →
  ∃ L Z, padded (item_leaves (2 ^ b) w l) = L ++ item_block (2 ^ b) w x ++ Z ∧
    length L = s * 2 ^ b ∧ b ≤ pad_depth (item_leaves (2 ^ b) w l).
Proof.
  intros Hx. pose proof (lookup_lt_Some _ _ _ Hx) as Hs.
  pose proof (take_drop_middle _ _ _ Hx) as Hsplit.
  exists (item_leaves (2 ^ b) w (take s l)),
    (item_leaves (2 ^ b) w (drop (S s) l)
      ++ zeros (2 ^ pad_depth (item_leaves (2 ^ b) w l) - length (item_leaves (2 ^ b) w l))).
  split_and!.
  - unfold padded. rewrite <-Hsplit at 1. rewrite item_leaves_app. unfold item_leaves at 2. simpl.
    by rewrite <-!(assoc_L (++)).
  - rewrite length_item_leaves, length_take. f_equal. lia.
  - rewrite pad_depth_items. apply block_depth. lia.
Qed.

Lemma item_proofs t T c n l s x levels :
  top t = tree_of 5 T → length T = 32 →
  T !! c = Some (collection_root (item_leaves (2 ^ b) w l) n) → l !! s = Some x →
  levels = pad_depth (item_leaves (2 ^ b) w l) - b + 1 →
  item_proved (merkle 5 T)
    (Some <$> item_proof t c (pad_tree (item_leaves (2 ^ b) w l)) (2 ^ b) levels s n)
    (λ f, Some <$> leaf_proof t c (pad_tree (item_leaves (2 ^ b) w l)) (s * 2 ^ b + f) n)
    (2 ^ b) (item_block (2 ^ b) w x) (merkle b (item_block (2 ^ b) w x)).
Proof.
  intros Ht HT HTc Hx Hlev. destruct (items_split l s x Hx) as (L & Z & Hpad & HL & Hb).
  assert (HX : length (item_block (2 ^ b) w x) = 2 ^ b) by apply length_block. split.
  - destruct (item_proof_spec t T c n _ Ht HT HTc b s L (item_block (2 ^ b) w x) Z levels)
      as (p & -> & ? & _ & ?); [done..|]. by exists p.
  - intros f Hf. destruct (lookup_lt_is_Some_2 (item_block (2 ^ b) w x) f) as [v Hv]; [lia|].
    destruct (leaf_proof_spec t T c n (item_leaves (2 ^ b) w l) Ht HT HTc (s * 2 ^ b + f) v)
      as (p & -> & <- & _ & ?); [|by exists p].
    rewrite Hpad, lookup_app_r by lia. replace (s * 2 ^ b + f - length L) with f by lia.
    by rewrite lookup_app_l by lia.
Qed.
End items.

Lemma merkleize_block b ws vs :
  block (2 ^ b) ws = vs ++ zeros (2 ^ b - length vs) → Nat.log2_up (length vs) = b →
  merkleize vs = Some (merkle b (block (2 ^ b) ws)).
Proof. intros -> Hb. rewrite merkleize_spec. unfold padded, pad_depth. by rewrite Hb. Qed.

Lemma htr_deposit_block d : htr_deposit d = Some (merkle 3 (block 8 (d_writes d))).
Proof.
  unfold htr_deposit, d_writes, deposit_writes. unfold hash_fixed_bytes_96. rewrite merkleize_spec.
  cbn [mbind option_bind default]. by apply (merkleize_block 3).
Qed.
Lemma htr_withdrawal_block w : htr_withdrawal w = Some (merkle 3 (block 8 (withdrawal_writes w))).
Proof. by apply (merkleize_block 3). Qed.
Lemma htr_param_block p : htr_param p = Some (merkle 1 (block 2 (protocol_param_writes p))).
Proof.
  unfold htr_param, protocol_param_writes. destruct (param_tag_value p). by apply (merkleize_block 1).
Qed.

(** A guarded generator on an index in range. *)
Lemma item_proved_guard r X Y n leaves h count i :
  i < count → item_proved r X Y n leaves h →
  item_proved r (if count <=? i then Some None else X)
    (λ f, if (count <=? i) || (n <=? f) then Some None else Y f) n leaves h.
Proof.
  intros Hi [H1 H2]. split.
  - by rewrite (proj2 (Nat.leb_gt _ _)).
  - intros f Hf. rewrite !(proj2 (Nat.leb_gt _ _)) by done. by apply H2.
Qed.

(** The proofs of item [i] of a collection of the specification tree. *)
Ltac prove_item a c b w l Hx bnd :=
  apply item_proved_guard; [first [exact (lookup_lt_Some _ _ _ Hx)
    | cbn [withdrawal_count spec_tree]; rewrite <-length_iter_all; exact (lookup_lt_Some _ _ _ Hx)]|];
  refine (item_proofs b w (spec_tree a) (top_leaves a) c _ l _ _ _ eq_refl eq_refl eq_refl Hx _);
  destruct (items_split b w l _ _ Hx) as (_ & _ & _ & _ & bnd);
  change (depth _) with (pad_depth (item_leaves (2 ^ b) w l)).


(** ** Keyed proofs *)
Lemma cgindex_item c d b s f :
  b ≤ d → cgindex c d (s * 2 ^ b + f) = cgindex c (d - b) s * 2 ^ b + f.
Proof.
  intros Hb. unfold cgindex. replace (d + 1) with (d - b + 1 + b) by lia.
  rewrite (Nat.pow_add_r 2 (d - b + 1)). lia.
Qed.

Lemma field_proof {A} b (w : A → list (nat * bytes)) t T c n l s x f :
  top t = tree_of 5 T → length T = 32 →
  T !! c = Some (collection_root (item_leaves (2 ^ b) w l) n) → l !! s = Some x → f < 2 ^ b →
  ∃ p, leaf_proof t c (pad_tree (item_leaves (2 ^ b) w l)) (s * 2 ^ b + f) n = Some p ∧
    item_block (2 ^ b) w x !! f = Some (leaf p) ∧ verify p (merkle 5 T) = true ∧
    gindex p = cgindex c (pad_depth (item_leaves (2 ^ b) w l) - b) s * 2 ^ b + f.
Proof.
  intros Ht HT HTc Hx Hf. destruct (items_split b w l s x Hx) as (L & Z & Hpad & HL & Hb).
  assert (HX : length (item_block (2 ^ b) w x) = 2 ^ b) by apply length_block.
  destruct (lookup_lt_is_Some_2 (item_block (2 ^ b) w x) f) as [v Hv]; [lia|].
  destruct (leaf_proof_spec t T c n (item_leaves (2 ^ b) w l) Ht HT HTc (s * 2 ^ b + f) v)
    as (p & -> & <- & Hg & ?).
  - rewrite Hpad, lookup_app_r by lia. replace (s * 2 ^ b + f - length L) with f by lia.
    by rewrite lookup_app_l by lia.
  - exists p. split_and!; [done..|]. by rewrite Hg, cgindex_item.
Qed.

Lemma land_low b G f : f < 2 ^ b → Nat.land (G * 2 ^ b + f) (2 ^ b - 1) = f.
Proof.
  intros Hf. replace (2 ^ b - 1) with (Nat.ones b) by (rewrite Nat.ones_equiv; lia).
  rewrite Nat.land_ones, Nat.add_comm, Nat.Div0.mod_add. by apply Nat.mod_small.
Qed.

Lemma shiftr_low b G f : f < 2 ^ b → Nat.shiftr (G * 2 ^ b + f) b = G.
Proof.
  intros Hf. rewrite Nat.shiftr_div_pow2, Nat.div_add_l by (apply Nat.pow_nonzero; lia).
  rewrite Nat.div_small by done. lia.
Qed.

Lemma power_of_two_pow b : is_power_of_two (2 ^ b) = true.
Proof.
  unfold is_power_of_two. rewrite Nat.log2_pow2, Nat.eqb_refl by lia.
  pose proof (pow2_pos b). by destruct (Nat.eqb_spec (2 ^ b) 0); [lia|].
Qed.

Lemma keyed_verify_spec b p r k G f kf :
  verify (field p) r = true → verify (key p) r = true → leaf (key p) = htr_bytes32 k →
  gindex (field p) = G * 2 ^ b + f → gindex (key p) = G * 2 ^ b + kf → f < 2 ^ b → kf < 2 ^ b →
  keyed_verify p r k (2 ^ b) kf = true.
Proof.
  intros Hf Hk Hl Gf Gk Hbf Hbk. unfold keyed_verify. rewrite power_of_two_pow, Hf, Hk.
  cbn [negb orb]. rewrite bool_decide_true by done. cbn [negb].
  rewrite Gf, Gk, land_low, Nat.eqb_refl by done. cbn [negb]. cbv zeta.
  rewrite Nat.log2_pow2 by lia. rewrite !shiftr_low by done. apply Nat.eqb_refl.
Qed.

(** The index of a public key is the slot of its earliest entry. *)
Lemma pubkey_index_position l k :
  pubkey_index l !! k = position (λ w, bool_decide (pubkey w = k)) l.
Proof.
  induction l as [|w l IH] using rev_ind; [done|].
  rewrite pubkey_index_snoc. unfold or_insert.
  destruct (position (λ w, bool_decide (pubkey w = k)) l) as [i|] eqn:E.
  - apply position_Some in E as (l1 & x & l2 & -> & <- & Hx & Hl1).
    rewrite <-(assoc_L (++)). simpl. rewrite position_app by done.
    apply bool_decide_eq_true in Hx. subst k.
    destruct (decide (pubkey w = pubkey x)) as [Hw|Hw]; [rewrite Hw, IH; by rewrite IH|].
    destruct (pubkey_index _ !! pubkey w); [by rewrite IH|]. by rewrite lookup_insert_ne, IH.
  - apply position_None in E. destruct (decide (pubkey w = k)) as [<-|Hw].
    + rewrite IH, lookup_insert_eq. symmetry. apply position_app; [done|]. by apply bool_decide_true.
    + transitivity (pubkey_index l !! k).
      { destruct (pubkey_index l !! pubkey w); [done|]. by rewrite lookup_insert_ne. }
      rewrite IH. symmetry. apply position_None, Forall_app. split; [done|].
      constructor; [by apply bool_decide_false|constructor].
Qed.

Lemma get_withdrawal_slot q k w :
  get_withdrawal q k = Some w →
  ∃ i, pubkey_index (iter_all q) !! k = Some i ∧ iter_all q !! i = Some w ∧ pubkey w = k.
Proof.
  unfold get_withdrawal. rewrite pubkey_index_position. unfold iter_all.
  induction (withdrawals q ++ refunds q) as [|x l IH]; [done|]. simpl.
  case_bool_decide as Hx; simpl.
  - intros [= <-]. by exists 0.
  - intros (i & E & Hi & Hk)%IH. exists (S i). by rewrite E.
Qed.

Lemma validator_index_spec m1 (k : bytes) (v : ValidatorAccount) m2 :
  BTree.sorted (m1 ++ (k, v) :: m2) →
  get_validator_index (BTree.keys (m1 ++ (k, v) :: m2)) k = Some (length m1).
Proof.
  intros (_ & _ & Hlt)%BTree.sorted_app. unfold get_validator_index, BTree.keys.
  rewrite fmap_app, fmap_cons. rewrite position_app; [by rewrite length_fmap| |by apply bool_decide_true].
  apply Forall_fmap, Forall_forall. intros e He. apply bool_decide_false. simpl. intros Hk.
  assert (cmp e.1 k = Lt) as Hc1 by (by apply (Hlt e (k, v)); [|left]). subst.
  by apply BTree.cmp_lt_irrefl in Hc1.
Qed.

Lemma validator_field_proofs a k acc :
  BTree.sorted (a_validator_accounts a) → BTree.get (a_validator_accounts a) k = Some acc →
  ∃ G, ∀ f, f < 8 → ∃ p,
    generate_validator_field_proof (spec_tree a) k f (BTree.keys (a_validator_accounts a))
      = Some (Some p) ∧
    block 8 (validator_writes k acc) !! f = Some (leaf p) ∧
    verify p (merkle 5 (top_leaves a)) = true ∧ gindex p = G * 2 ^ 3 + f.
Proof.
  intros Hs Hg. destruct (BTree.get_Some_split _ _ _ Hs Hg) as (m1 & m2 & Hm & _ & _).
  assert (Hx : a_validator_accounts a !! length m1 = Some (k, acc))
    by (rewrite Hm; by apply list_lookup_middle).
  eexists. intros f Hf. destruct (field_proof 3 v_writes (spec_tree a) (top_leaves a)
    VALIDATOR_ACCOUNTS_ROOT _ _ _ _ f eq_refl eq_refl eq_refl Hx Hf) as (p & E & ? & ? & ?).
  exists p. split; [|done]. unfold generate_validator_field_proof.
  rewrite (proj2 (Nat.ltb_lt _ _)) by done. rewrite Hm at 1.
  rewrite validator_index_spec by (by rewrite <-Hm). cbn [negb returning].
  exact (f_equal (fmap Some) E).
Qed.

Lemma withdrawal_field_proofs a k w :
  get_withdrawal (a_withdrawal_queue a) k = Some w →
  ∃ i G, withdrawal_pubkey_index (spec_tree a) !! k = Some i ∧ pubkey w = k ∧
  ∀ f, f < 8 → ∃ p, generate_withdrawal_field_proof (spec_tree a) i f = Some (Some p) ∧
    block 8 (withdrawal_writes w) !! f = Some (leaf p) ∧
    verify p (merkle 5 (top_leaves a)) = true ∧ gindex p = G * 2 ^ 3 + f.
Proof.
  intros (i & Ei & Hx & Hk)%get_withdrawal_slot. exists i. eexists. split_and!; [done..|].
  intros f Hf. destruct (field_proof 3 withdrawal_writes (spec_tree a) (top_leaves a)
    WITHDRAWAL_QUEUE_ROOT _ _ _ _ f eq_refl eq_refl eq_refl Hx Hf) as (p & E & ? & ? & ?).
  exists p. split; [|done]. unfold generate_withdrawal_field_proof.
  cbn [withdrawal_tree withdrawal_count spec_tree].
  pose proof (lookup_lt_Some _ _ _ Hx) as Hi. rewrite length_iter_all in Hi.
  rewrite !(proj2 (Nat.leb_gt _ _)) by done. cbn [orb].
  exact (f_equal (fmap Some) E).
Qed.

End completeness.

(** ** Soundness *)
Section soundness.
Context `{Hc : Crypto} `{!CryptoOk}.

(** The collision that a proof for a wrong value yields against the honest proof
    of the same leaf. *)
Definition proof_collision (t : SszStateTree) (c : nat) (subtree : SszTree) (i n : nat) (p : SszProof)
  : option ((bytes * bytes) * (bytes * bytes)) :=
  honest ← leaf_proof t c subtree i n;
  find_collision (gindex p) (leaf p) (branch p) (leaf honest) (branch honest).
Definition collides (o : option ((bytes * bytes) * (bytes * bytes))) : Prop :=
  ∃ x x', o = Some (x, x') ∧ x ≠ x' ∧ hash_pair x = hash_pair x'.

Lemma verify_gindex_inv r g v p :
  verify_proof_gindex r g v p = true → length p = Nat.log2 g ∧ (fold_branch v g p).1 = r.
Proof.
  unfold verify_proof_gindex. destruct (g =? 0); [done|].
  destruct (Nat.eqb_spec (length p) (Nat.log2 g)) as [Hl|]; [|done]. simpl.
  destruct (fold_branch v g p) as [h i]. intros [_ Hr]%andb_true_iff.
  by apply bool_decide_eq_true in Hr.
Qed.

(** A verifying proof of a collection's leaf is for its value, or yields a collision. *)
Lemma leaf_sound t T c n l i v p :
  top t = tree_of 5 T → length T = 32 → T !! c = Some (collection_root l n) →
  padded l !! i = Some v → verify p (merkle 5 T) = true → gindex p = cgindex c (pad_depth l) i →
  leaf p = v ∨ collides (proof_collision t c (pad_tree l) i n p).
Proof.
  intros Ht HT HTc Hv Hver Hg. destruct (decide (leaf p = v)) as [|Hne]; [by left|]. right.
  destruct (leaf_proof_spec t T c n l Ht HT HTc i v Hv) as (q & E & Hlq & Hgq & Hverq).
  unfold collides, proof_collision. rewrite E. cbn [mbind option_bind].
  apply verify_gindex_inv in Hver as [L1 F1], Hverq as [L2 F2]. rewrite Hgq, <-Hg in *.
  apply find_collision_spec; [lia|congruence|congruence].
Qed.

Lemma keyed_verify_inv b p r k kf :
  keyed_verify p r k (2 ^ b) kf = true →
  verify (field p) r = true ∧ verify (key p) r = true ∧ leaf (key p) = k ∧
  gindex (key p) mod 2 ^ b = kf ∧ gindex (field p) / 2 ^ b = gindex (key p) / 2 ^ b.
Proof.
  unfold keyed_verify. rewrite power_of_two_pow. cbn [negb].
  destruct (verify (field p) r), (verify (key p) r); cbn [negb orb]; try done.
  case_bool_decide as Hk; [|done]. cbn [negb].
  destruct (Nat.eqb_spec (Nat.land (gindex (key p)) (2 ^ b - 1)) kf) as [Hkf|]; [|done]. cbn [negb].
  cbv zeta. rewrite Nat.log2_pow2, !Nat.shiftr_div_pow2 by lia. intros Hd%Nat.eqb_eq.
  replace (2 ^ b - 1) with (Nat.ones b) in Hkf by (rewrite Nat.ones_equiv; lia).
  by rewrite Nat.land_ones in Hkf.
Qed.

Lemma div_mod_item b g G f : g / 2 ^ b = G → g mod 2 ^ b = f → g = G * 2 ^ b + f.
Proof. intros <- <-. rewrite Nat.mul_comm. apply Nat.div_mod, Nat.pow_nonzero. lia. Qed.

Lemma padded_field {A} b (w : A → list (nat * bytes)) l s x f :
  l !! s = Some x → f < 2 ^ b →
  padded (item_leaves (2 ^ b) w l) !! (s * 2 ^ b + f) = item_block (2 ^ b) w x !! f.
Proof.
  intros Hx Hf. destruct (items_split b w l s x Hx) as (L & Z & -> & HL & _).
  rewrite lookup_app_r by lia. replace (s * 2 ^ b + f - length L) with f by lia.
  apply lookup_app_l. unfold item_block. by rewrite length_block.
Qed.

Lemma padded_item {A} b (w : A → list (nat * bytes)) l j v :
  padded (item_leaves (2 ^ b) w l) !! j = Some v → v ≠ zero32 →
  ∃ s x, l !! s = Some x ∧ j = s * 2 ^ b + j mod 2 ^ b.
Proof.
  intros Hv Hne. pose proof (pow2_pos b). destruct (decide (j < length l * 2 ^ b)) as [Hj|Hj].
  - assert (j / 2 ^ b < length l) by (apply Nat.Div0.div_lt_upper_bound; lia).
    destruct (lookup_lt_is_Some_2 l (j / 2 ^ b)) as [x Hx]; [done|]. exists (j / 2 ^ b), x.
    split; [done|]. rewrite Nat.mul_comm. apply Nat.div_mod. lia.
  - exfalso. apply Hne. unfold padded in Hv.
    rewrite lookup_app_r in Hv by (rewrite length_item_leaves; lia).
    by apply lookup_replicate in Hv as [-> _].
Qed.

Lemma keyed_sound {A} b (w : A → list (nat * bytes)) (key_of : A → bytes) kf t T c n l p k j :
  (∀ x, item_block (2 ^ b) w x !! kf = Some (key_of x)) →
  top t = tree_of 5 T → length T = 32 →
  T !! c = Some (collection_root (item_leaves (2 ^ b) w l) n) →
  keyed_verify p (merkle 5 T) k (2 ^ b) kf = true → k ≠ zero32 →
  gindex (key p) = cgindex c (pad_depth (item_leaves (2 ^ b) w l)) j →
  j < 2 ^ pad_depth (item_leaves (2 ^ b) w l) →
  (∃ s x, l !! s = Some x ∧ key_of x = k ∧
     item_block (2 ^ b) w x !! (gindex (field p) mod 2 ^ b) = Some (leaf (field p))) ∨
  (∃ i q, (q = key p ∨ q = field p) ∧
     collides (proof_collision t c (pad_tree (item_leaves (2 ^ b) w l)) i n q)).
Proof.
  intros Hkey Ht HT HTc Hver Hk Hg Hj.
  apply keyed_verify_inv in Hver as (V1 & V2 & Hleaf & Hmod & Hdiv).
  destruct (lookup_lt_is_Some_2 (padded (item_leaves (2 ^ b) w l)) j) as [v Hv];
    [by rewrite length_padded|].
  destruct (leaf_sound t T c n _ j v (key p) Ht HT HTc Hv V2 Hg) as [Hlv|]; [|right; by eauto].
  destruct (padded_item b w l j v Hv) as (s & x & Hx & Hs); [congruence|].
  destruct (items_split b w l s x Hx) as (_ & _ & _ & _ & Hb). pose proof (pow2_pos b).
  assert (Hjb : j mod 2 ^ b < 2 ^ b) by (apply Nat.mod_upper_bound; lia).
  rewrite Hs, cgindex_item in Hg by done. rewrite Hg in Hmod, Hdiv.
  rewrite Nat.add_comm, Nat.Div0.mod_add, Nat.mod_small in Hmod by done.
  rewrite Nat.div_add_l, (Nat.div_small (j mod 2 ^ b)), Nat.add_0_r in Hdiv by lia.
  rewrite Hs, (padded_field b w l s x) in Hv by done. rewrite Hmod, Hkey in Hv.
  set (f := gindex (field p) mod 2 ^ b).
  assert (Hf : f < 2 ^ b) by (apply Nat.mod_upper_bound; lia).
  pose proof (div_mod_item _ _ _ f Hdiv eq_refl) as Hgf. rewrite <-cgindex_item in Hgf by done.
  destruct (lookup_lt_is_Some_2 (item_block (2 ^ b) w x) f) as [u Hu];
    [unfold item_block; by rewrite length_block|].
  destruct (leaf_sound t T c n _ (s * 2 ^ b + f) u (field p) Ht HT HTc) as [Hlu|];
    [by rewrite (padded_field b w l s x)|done|done| |right; by eauto].
  left. exists s, x. split_and!; [done|congruence|]. by rewrite Hlu.
Qed.

(** C22: Keyed proofs bind: if the consumer's check accepts a keyed proof for
    a non-zero key, and the key proof's index addresses the collection asked for, then that
    collection has an item with this key whose proved field is the leaf the proof carries
    -- or the proof yields two different pairs of nodes with the same hash. *)
Theorem keyed_proof_binds (a : RebuildArgs) (t : SszStateTree) (r k : bytes) (p : KeyedFieldProof) (j : nat) :
  rebuild a = Some t → root t = Some r → k ≠ zero32 →
  (keyed_verify p r k VALIDATOR_FIELDS_PER_ACCOUNT VALIDATOR_FIELD_NODE_PUBKEY = true →
   gindex (key p) = compose_collection_gindex t VALIDATOR_ACCOUNTS_ROOT (validator_tree t) j →
   j < capacity (validator_tree t) →
   (∃ s acc, a_validator_accounts a !! s = Some (k, acc) ∧
      block 8 (validator_writes k acc) !! (gindex (field p) mod 8) = Some (leaf (field p))) ∨
   (∃ i q, (q = key p ∨ q = field p) ∧
      collides (proof_collision t VALIDATOR_ACCOUNTS_ROOT (validator_tree t) i (validator_count t) q))) ∧
  (keyed_verify p r k WITHDRAWAL_FIELDS_PER_ITEM WITHDRAWAL_FIELD_PUBKEY = true →
   gindex (key p) = compose_collection_gindex t WITHDRAWAL_QUEUE_ROOT (withdrawal_tree t) j →
   j < capacity (withdrawal_tree t) →
   (∃ s w, iter_all (a_withdrawal_queue a) !! s = Some w ∧ pubkey w = k ∧
      block 8 (withdrawal_writes w) !! (gindex (field p) mod 8) = Some (leaf (field p))) ∨
   (∃ i q, (q = key p ∨ q = field p) ∧
      collides (proof_collision t WITHDRAWAL_QUEUE_ROOT (withdrawal_tree t) i (withdrawal_count t) q))).
Proof.
  rewrite rebuild_spec. intros [= <-]. rewrite root_spec_tree. intros [= <-] Hk. split.
  - intros Hver Hg Hj. unfold compose_collection_gindex in Hg. rewrite lor_shiftl in Hg
      by (rewrite Nat.pow_add_r, Nat.pow_1_r; simpl in *; lia).
    destruct (keyed_sound 3 v_writes fst 6 (spec_tree a) (top_leaves a) VALIDATOR_ACCOUNTS_ROOT _
      (a_validator_accounts a) p k j (λ _, eq_refl) eq_refl eq_refl eq_refl Hver Hk Hg Hj)
      as [(s & [k' acc] & Hs & <- & Hf)|]; [left; by exists s, acc|by right].
  - intros Hver Hg Hj. unfold compose_collection_gindex in Hg. rewrite lor_shiftl in Hg
      by (rewrite Nat.pow_add_r, Nat.pow_1_r; simpl in *; lia).
    exact (keyed_sound 3 withdrawal_writes pubkey 4 (spec_tree a) (top_leaves a)
      WITHDRAWAL_QUEUE_ROOT _ (iter_all (a_withdrawal_queue a)) p k j
      (λ _, eq_refl) eq_refl eq_refl eq_refl Hver Hk Hg Hj).
Qed.

(** C25: The consumer's check does not say which collection the key belongs to:
    from the list of removed validators -- one leaf per key -- the proofs of the entries
    [8 s + 6] and [8 s + f] together pass the check for a field of the validator account of
    the key at [8 s + 6], whether or not that key has an account, with another removed
    validator's key as the field's value. *)
Theorem keyed_check_accepts_other_collection (a : RebuildArgs) (t : SszStateTree) (r k v : bytes) (s f : nat) :
  rebuild a = Some t → root t = Some r → f < 8 →
  a_removed_validators a !! (8 * s + 6) = Some k → a_removed_validators a !! (8 * s + f) = Some v →
  ∃ pk pv, generate_removed_validator_proof t (8 * s + 6) = Some (Some pk) ∧
    generate_removed_validator_proof t (8 * s + f) = Some (Some pv) ∧ leaf pv = v ∧
    keyed_verify (mkKeyedFieldProof pv pk) r k VALIDATOR_FIELDS_PER_ACCOUNT VALIDATOR_FIELD_NODE_PUBKEY
      = true.
Proof.
  rewrite rebuild_spec. intros [= <-]. rewrite root_spec_tree. intros [= <-] Hf Hk Hv.
  set (l := a_removed_validators a) in *.
  assert (Hd : 3 ≤ pad_depth (rv_leaves l)).
  { apply lookup_lt_Some in Hk. unfold rv_leaves. rewrite pad_depth_items.
    etrans; [|apply (Nat.log2_up_le_mono 7); lia]. done. }
  assert (Hproof : ∀ i x, l !! i = Some x → ∃ q,
    generate_removed_validator_proof (spec_tree a) i = Some (Some q) ∧ leaf q = x ∧
    gindex q = cgindex REMOVED_VALIDATORS_ROOT (pad_depth (rv_leaves l)) i ∧
    verify q (merkle 5 (top_leaves a)) = true).
  { intros i x Hx. destruct (leaf_proof_spec (spec_tree a) (top_leaves a) REMOVED_VALIDATORS_ROOT _
      (rv_leaves l) eq_refl eq_refl eq_refl i x) as (q & E & Hq).
    - pose proof (padded_field 0 rv_writes l i x 0 Hx ltac:(simpl; lia)) as Hp.
      by rewrite Nat.pow_0_r, Nat.mul_1_r, Nat.add_0_r in Hp.
    - exists q. split; [|done]. unfold generate_removed_validator_proof.
      rewrite (proj2 (Nat.leb_gt _ _)) by (by eapply lookup_lt_Some). exact (f_equal (fmap Some) E). }
  destruct (Hproof _ _ Hk) as (qk & Ek & Lk & Gk & Vk), (Hproof _ _ Hv) as (qv & Ev & Lv & Gv & Vv).
  exists qk, qv. split_and!; [done..|]. rewrite (Nat.mul_comm 8 s) in Gk, Gv.
  rewrite (cgindex_item _ _ 3) in Gk, Gv by done.
  by apply (keyed_verify_spec 3 (mkKeyedFieldProof qv qk) _ _ _ f 6 Vv Vk Lk Gv Gk); [|simpl; lia].
Qed.
End soundness.

(** ** Instances *)
Lemma demo_tree :
  ∃ t r, @rebuild ToyCrypto.toy demo_args = Some t ∧ @root t = Some r.
Proof.
  eexists _, _. split; [apply (@rebuild_spec _ ToyCrypto.toy_ok)|].
  apply (@root_spec_tree ToyCrypto.toy).
Qed.


Lemma demo_args_sorted : BTree.sorted (a_validator_accounts demo_args).
Proof. repeat constructor; vm_compute; done. Qed.


Lemma keyed_check_accepts_other_collection_witness :
  ∃ t r p, @rebuild ToyCrypto.toy demo_args = Some t ∧ root t = Some r ∧
    @keyed_verify ToyCrypto.toy p r (demo_key 7) VALIDATOR_FIELDS_PER_ACCOUNT
      VALIDATOR_FIELD_NODE_PUBKEY = true.
Proof.
  destruct demo_tree as (t & r & E & Er).
  destruct (@keyed_check_accepts_other_collection ToyCrypto.toy ToyCrypto.toy_ok demo_args t r
    (demo_key 7) (demo_key 3) 0 2 E Er) as (pk & pv & _ & _ & _ & H); [lia|reflexivity..|].
  exists t, r, (mkKeyedFieldProof pv pk). split; [exact E|]. split; [exact Er|exact H].
Defined.

(** The honest keyed proof of a field, whose key proof addresses the collection. *)
Lemma demo_keyed :
  ∃ t r p, @rebuild ToyCrypto.toy demo_args = Some t ∧ root t = Some r ∧
    @keyed_verify ToyCrypto.toy p r (demo_key 3) VALIDATOR_FIELDS_PER_ACCOUNT
      VALIDATOR_FIELD_NODE_PUBKEY = true ∧
    gindex (key p) = compose_collection_gindex t VALIDATOR_ACCOUNTS_ROOT (validator_tree t) 14 ∧
    14 < capacity (validator_tree t).
Proof.
  pose (field_proof' f := @field_proof ToyCrypto.toy _ 3 (@v_writes ToyCrypto.toy)
    (@spec_tree ToyCrypto.toy demo_args) (@top_leaves ToyCrypto.toy demo_args)
    VALIDATOR_ACCOUNTS_ROOT _ (a_validator_accounts demo_args) 1 (demo_key 3, demo_account) f
    eq_refl eq_refl eq_refl eq_refl).
  destruct (field_proof' 2) as (p1 & _ & L1 & V1 & G1); [simpl; lia|].
  destruct (field_proof' 6) as (p2 & _ & L2 & V2 & G2); [simpl; lia|]. clear field_proof'.
  eexists _, _, (mkKeyedFieldProof p1 p2).
  split; [apply (@rebuild_spec _ ToyCrypto.toy_ok)|].
  split; [apply (@root_spec_tree ToyCrypto.toy)|]. injection L2 as L2.
  split; [apply (keyed_verify_spec 3 (mkKeyedFieldProof p1 p2) _ _ _ 2 6 V1 V2 (eq_sym L2) G1 G2); simpl; lia|].
  assert (Hd : pad_depth (item_leaves (2 ^ 3) (@v_writes ToyCrypto.toy)
    (a_validator_accounts demo_args)) = 5) by (rewrite pad_depth_items; reflexivity).
  unfold compose_collection_gindex, pad_tree, spec_tree.
  cbn [key validator_tree capacity depth tree_of top pad_tree]. unfold v_leaves.
  rewrite G2. change 8 with (2 ^ 3). rewrite Hd. split; [reflexivity|]. simpl. lia.
Qed.

Lemma keyed_proof_binds_witness :
  ∃ t r p, @rebuild ToyCrypto.toy demo_args = Some t ∧ root t = Some r ∧
    ((∃ s acc, a_validator_accounts demo_args !! s = Some (demo_key 3, acc) ∧
      block 8 (@validator_writes ToyCrypto.toy (demo_key 3) acc) !! (gindex (field p) mod 8)
        = Some (leaf (field p))) ∨
     (∃ i q, (q = key p ∨ q = field p) ∧
        @collides ToyCrypto.toy (@proof_collision ToyCrypto.toy t VALIDATOR_ACCOUNTS_ROOT
          (validator_tree t) i (validator_count t) q))).
Proof.
  destruct demo_keyed as (t & r & p & E & Er & Hv & Hg & Hj). exists t, r, p.
  split; [exact E|]. split; [exact Er|].
  destruct (@keyed_proof_binds ToyCrypto.toy ToyCrypto.toy_ok demo_args t r (demo_key 3) p 14 E Er)
    as [H _]; [by vm_compute|]. exact (H Hv Hg Hj).
Defined.
