(* ===== verification/ConsensusState.v ===== *)
(** * ConsensusState: the replicated state (types/src/consensus_state/mod.rs)

    The state is a record of data fields (the ones that are serialized) and of
    fields derived from them: the live state tree, its frozen copy for proofs, the
    captured root and the captured snapshot.  Every setter writes a data field and
    tells the tree; [StateTree] is the interface to the tree, so that the same code
    runs with the Merkle tree of [SszStateTree] and with no tree at all
    ([unit], which leaves the data alone).  A panic ([expect], [assert_eq!], a tree
    index out of range) is [None]. *)
From S2P Require Import Prelude Codec Crypto BTree Epocher Account ExecutionRequest ProtocolParams.
From S2P Require Import Withdrawal SszTree SszHash SszStateTree SszStateTreeFacts.

(** ** The interface to the state tree *)
Class StateTree (T : Type) := {
  tree_default : option T;
  tree_do : T → tree_op → option T;
  tree_rebuild : RebuildArgs → option T;
  tree_root : T → option bytes
}.

#[global] Instance ssz_tree_instance `{Crypto} : StateTree SszStateTree := {|
  tree_default := SszStateTree.new;
  tree_do := run_op;
  tree_rebuild := rebuild;
  tree_root := SszStateTree.root
|}.

(** The data alone. *)
#[global] Instance no_tree_instance : StateTree () := {|
  tree_default := Some ();
  tree_do _ _ := Some ();
  tree_rebuild _ := Some ();
  tree_root _ := Some zero32
|}.

(** ** The state *)

(** types/src/checkpoint.rs *)
Record Checkpoint := mkCheckpoint {
  cp_data : bytes;
  cp_digest : bytes
}.
#[global] Instance Checkpoint_eq_dec : EqDecision Checkpoint.
Proof. solve_decision. Defined.

(** [alloy_rpc_types_engine::ForkchoiceState]. *)
Record ForkchoiceState := mkForkchoiceState {
  head_block_hash : bytes;
  safe_block_hash : bytes;
  finalized_block_hash : bytes
}.
#[global] Instance ForkchoiceState_eta : Eta ForkchoiceState := λ f,
  mkForkchoiceState (head_block_hash f) (safe_block_hash f) (finalized_block_hash f).
#[global] Instance ForkchoiceState_eq_dec : EqDecision ForkchoiceState.
Proof. solve_decision. Defined.

Inductive DepositRejectionReason :=
| KeyMismatch
| InvalidNodeSignature
| InvalidConsensusSignature
| MalformedKey.
#[global] Instance DepositRejectionReason_eq_dec : EqDecision DepositRejectionReason.
Proof. solve_decision. Defined.

Record ConsensusState {T : Type} := mkConsensusState {
  epoch : Z;
  view : Z;
  latest_height : Z;
  head_digest : bytes;
  deposit_queue : list DepositRequest;
  withdrawal_queue : WithdrawalQueue;
  validator_accounts : BTreeMap bytes ValidatorAccount;
  protocol_param_changes : list ProtocolParam;
  pending_checkpoint : option Checkpoint;
  added_validators : BTreeMap Z (list AddedValidator);
  removed_validators : list bytes;
  pending_execution_requests : list bytes;
  forkchoice : ForkchoiceState;
  epoch_genesis_hash : bytes;
  validator_minimum_stake : Z;
  allowed_timestamp_future_ms : Z;
  treasury_address : bytes;
  max_deposits_per_epoch : Z;
  max_withdrawals_per_epoch : Z;
  observers_per_validator : Z;
  max_validator_count : Z;
  minimum_validator_count : Z;
  pending_active_validator_exits : Z;
  invalid_deposit_tax : Z;
  max_pending_withdrawals_per_validator : Z;
  epocher : DynamicEpocher;
  ssz_tree : T;
  proof_tree : T;
  proof_validator_keys : list bytes;
  state_root : bytes;
  proof_el_block_number : Z;
  captured_bytes : option bytes
}.
Arguments ConsensusState : clear implicits.
Arguments mkConsensusState {T}.

#[global] Instance ConsensusState_eta {T} : Eta (ConsensusState T) := λ s,
  mkConsensusState (epoch s) (view s) (latest_height s) (head_digest s) (deposit_queue s)
    (withdrawal_queue s) (validator_accounts s) (protocol_param_changes s) (pending_checkpoint s)
    (added_validators s) (removed_validators s) (pending_execution_requests s) (forkchoice s)
    (epoch_genesis_hash s) (validator_minimum_stake s) (allowed_timestamp_future_ms s)
    (treasury_address s) (max_deposits_per_epoch s) (max_withdrawals_per_epoch s)
    (observers_per_validator s) (max_validator_count s) (minimum_validator_count s)
    (pending_active_validator_exits s) (invalid_deposit_tax s)
    (max_pending_withdrawals_per_validator s) (epocher s) (ssz_tree s) (proof_tree s)
    (proof_validator_keys s) (state_root s) (proof_el_block_number s) (captured_bytes s).

(** [iter().rev().find_map(f)]: the last match. *)
Fixpoint find_map {A B} (f : A → option B) (l : list A) : option B :=
  match l with
  | [] => None
  | x :: l => match f x with Some b => Some b | None => find_map f l end
  end.
Definition rev_find_map {A B} (f : A → option B) (l : list A) : option B := find_map f (rev l).

(** [as u64] of a count. *)
Definition count {A} (p : A → bool) (l : list A) : Z := Z.of_nat (length (retain p l)).

Section state.
Context {T : Type} `{StateTree T}.
Implicit Type s : ConsensusState T.

(** [self.ssz_tree.op(..)] *)
Definition on_tree s (op : tree_op) : option (ConsensusState T) :=
  t ← tree_do (ssz_tree s) op; Some (s <| ssz_tree := t |>).

(** The arguments [rebuild_ssz_tree] passes to [rebuild]. *)
Definition rebuild_args s : RebuildArgs :=
  mkRebuildArgs (epoch s) (view s) (latest_height s) (head_digest s) (epoch_genesis_hash s)
    (validator_minimum_stake s) (allowed_timestamp_future_ms s) (next_index (withdrawal_queue s))
    (head_block_hash (forkchoice s)) (safe_block_hash (forkchoice s))
    (finalized_block_hash (forkchoice s)) (validator_accounts s) (deposit_queue s)
    (withdrawal_queue s) (protocol_param_changes s) (added_validators s) (removed_validators s)
    (treasury_address s) (max_deposits_per_epoch s) (max_withdrawals_per_epoch s)
    (observers_per_validator s) (max_validator_count s) (pending_execution_requests s)
    (cp_digest <$> pending_checkpoint s) (write_epocher (epocher s)) (minimum_validator_count s)
    (pending_active_validator_exits s) (invalid_deposit_tax s)
    (max_pending_withdrawals_per_validator s).

Definition rebuild_ssz_tree s : option (ConsensusState T) :=
  t ← tree_rebuild (rebuild_args s);
  let s := s <| ssz_tree := t |> in
  r ← tree_root (ssz_tree s);
  Some (s <| state_root := r |> <| proof_tree := ssz_tree s |>
          <| proof_validator_keys := BTree.keys (validator_accounts s) |>).

Definition new_state (fc : ForkchoiceState) (minimum_stake epoch_length timestamp_future : Z)
    (treasury : bytes) (max_deposits max_withdrawals observers max_validators minimum_validators
     deposit_tax max_pending : Z) : option (ConsensusState T) :=
  t ← tree_default;
  rebuild_ssz_tree (mkConsensusState 0 0 0 (head_block_hash fc) [] queue_default [] [] None [] [] []
    fc (head_block_hash fc) minimum_stake timestamp_future treasury max_deposits max_withdrawals
    observers max_validators minimum_validators 0 deposit_tax max_pending
    (Epocher.new epoch_length) t t [] zero32 0 None).

Definition default_state : option (ConsensusState T) :=
  t ← tree_default;
  rebuild_ssz_tree (mkConsensusState 0 0 0 zero32 [] queue_default [] [] None [] [] []
    (mkForkchoiceState zero32 zero32 zero32) zero32 32000000000 MIN_ALLOWED_TIMESTAMP_FUTURE_MS
    (zero_bytes 20) 3 16 0 DEFAULT_MAX_VALIDATOR_COUNT DEFAULT_MINIMUM_VALIDATOR_COUNT 0 0
    DEFAULT_MAX_PENDING_WITHDRAWALS_PER_VALIDATOR (Epocher.new 1) t t [] zero32 0 None).

(** [snapshot] copies the schedule, so a clone is equal and independent. *)
Definition clone_with_epocher s (e : DynamicEpocher) : ConsensusState T := s <| epocher := e |>.
Definition clone_state s : ConsensusState T := clone_with_epocher s (epocher s).

(** ** Scalar fields *)
Definition set_epoch s (x : Z) := on_tree (s <| epoch := x |>) (Set_epoch x).
Definition set_view s (x : Z) := on_tree (s <| view := x |>) (Set_view x).
Definition set_latest_height s (x : Z) := on_tree (s <| latest_height := x |>) (Set_latest_height x).
Definition set_head_digest s (d : bytes) := on_tree (s <| head_digest := d |>) (Set_head_digest d).
Definition set_epoch_genesis_hash s (h : bytes) :=
  on_tree (s <| epoch_genesis_hash := h |>) (Set_epoch_genesis_hash h).
Definition set_minimum_stake s (x : Z) :=
  on_tree (s <| validator_minimum_stake := x |>) (Set_validator_minimum_stake x).
Definition set_allowed_timestamp_future_ms s (x : Z) :=
  on_tree (s <| allowed_timestamp_future_ms := x |>) (Set_allowed_timestamp_future_ms x).
Definition set_max_deposits_per_epoch s (x : Z) :=
  on_tree (s <| max_deposits_per_epoch := x |>) (Set_max_deposits_per_epoch x).
Definition set_max_withdrawals_per_epoch s (x : Z) :=
  on_tree (s <| max_withdrawals_per_epoch := x |>) (Set_max_withdrawals_per_epoch x).
Definition set_observers_per_validator s (x : Z) :=
  on_tree (s <| observers_per_validator := x |>) (Set_observers_per_validator x).
Definition set_max_validator_count s (x : Z) :=
  on_tree (s <| max_validator_count := x |>) (Set_max_validator_count x).
Definition set_max_pending_withdrawals_per_validator s (x : Z) :=
  on_tree (s <| max_pending_withdrawals_per_validator := x |>)
    (Set_max_pending_withdrawals_per_validator x).
Definition set_minimum_validator_count s (x : Z) :=
  on_tree (s <| minimum_validator_count := x |>) (Set_minimum_validator_count x).
Definition increment_pending_active_validator_exits s :=
  let n := saturating_add (pending_active_validator_exits s) 1 in
  on_tree (s <| pending_active_validator_exits := n |>) (Set_pending_active_validator_exits n).
Definition reset_pending_active_validator_exits s :=
  on_tree (s <| pending_active_validator_exits := 0%Z |>) (Set_pending_active_validator_exits 0).
Definition set_invalid_deposit_tax s (x : Z) :=
  on_tree (s <| invalid_deposit_tax := x |>) (Set_invalid_deposit_tax x).
Definition set_treasury_address s (a : bytes) :=
  on_tree (s <| treasury_address := a |>) (Set_treasury_address a).
Definition set_next_withdrawal_index s (x : Z) :=
  on_tree (s <| withdrawal_queue := set_next_index (withdrawal_queue s) x |>)
    (Set_next_withdrawal_index x).
Definition set_pending_checkpoint s (cp : option Checkpoint) :=
  on_tree (s <| pending_checkpoint := cp |>) (Set_pending_checkpoint_digest (cp_digest <$> cp)).
Definition take_pending_checkpoint s : option (ConsensusState T * option Checkpoint) :=
  let taken := pending_checkpoint s in
  s ← on_tree (s <| pending_checkpoint := None |>) (Set_pending_checkpoint_digest None);
  Some (s, taken).
Definition set_forkchoice s (fc : ForkchoiceState) :=
  s ← on_tree (s <| forkchoice := fc |>) (Set_forkchoice_head_block_hash (head_block_hash fc));
  s ← on_tree s (Set_forkchoice_safe_block_hash (safe_block_hash fc));
  on_tree s (Set_forkchoice_finalized_block_hash (finalized_block_hash fc)).
Definition set_forkchoice_head s (h : bytes) :=
  on_tree (s <| forkchoice := (forkchoice s) <| head_block_hash := h |> |>)
    (Set_forkchoice_head_block_hash h).
Definition set_forkchoice_safe_and_finalized s (h : bytes) :=
  let fc := (forkchoice s) <| safe_block_hash := h |> <| finalized_block_hash := h |> in
  s ← on_tree (s <| forkchoice := fc |>) (Set_forkchoice_safe_block_hash h);
  on_tree s (Set_forkchoice_finalized_block_hash h).

(** ** Values that will apply after the queued parameter changes *)
Definition prospective_minimum_stake s : Z :=
  default (validator_minimum_stake s)
    (rev_find_map (λ p, match p with MinimumStake v => Some v | _ => None end)
       (protocol_param_changes s)).
Definition prospective_minimum_validator_count s : Z :=
  default (minimum_validator_count s)
    (rev_find_map (λ p, match p with MinimumValidatorCount v => Some v | _ => None end)
       (protocol_param_changes s)).
Definition prospective_max_validator_count s : Z :=
  default (max_validator_count s)
    (rev_find_map (λ p, match p with MaxValidatorCount v => Some v | _ => None end)
       (protocol_param_changes s)).
(** [None]: the observer count does not fit a [u32]. *)
Definition prospective_observers_per_validator s : option Z :=
  match rev_find_map (λ p, match p with ObserversPerValidator v => Some v | _ => None end)
          (protocol_param_changes s) with
  | Some v => if (v <? 2 ^ 32)%Z then Some v else None
  | None => Some (observers_per_validator s)
  end.

(** ** Counts *)
Definition is_active_or_joining (a : ValidatorAccount) : bool :=
  match status a with Active | Joining => true | _ => false end.
Definition is_serving (a : ValidatorAccount) : bool :=
  match status a with Active | SubmittedExitRequest => true | _ => false end.
Definition active_or_joining_validator_count s : Z :=
  count is_active_or_joining (BTree.values (validator_accounts s)).
Definition current_epoch_active_validator_count s : Z :=
  count is_serving (BTree.values (validator_accounts s)).
Definition can_accept_active_validator_exit s : bool :=
  (prospective_minimum_validator_count s <=?
   saturating_sub (current_epoch_active_validator_count s)
     (saturating_add (pending_active_validator_exits s) 1))%Z.

(** [PublicKey::read(..).expect(..)] for each key, then [sort_by] on the keys. *)
Definition read_keys (l : list (bytes * ValidatorAccount)) `{Crypto} : option (list (bytes * bytes)) :=
  for_each (λ acc '(k, a),
    if ed25519_valid k then Some (acc ++ [(k, consensus_public_key a)]) else None) [] l.
Definition key_le (a b : bytes * bytes) : Prop := cmp a.1 b.1 ≠ Gt.
#[global] Instance key_le_dec : RelDecision key_le.
Proof. intros a b. unfold key_le. solve_decision. Defined.
Definition validators_where (p : ValidatorStatus → bool) s `{Crypto} : option (list (bytes * bytes)) :=
  peers ← read_keys (retain (λ '(_, a), p (status a)) (validator_accounts s));
  Some (merge_sort key_le peers).
Definition get_validator_keys s `{Crypto} := validators_where (λ st, negb (is_out_of_committee st)) s.
Definition get_active_validators s `{Crypto} :=
  validators_where (λ st, bool_decide (st = Active)) s.
Definition get_current_epoch_validators s `{Crypto} := validators_where is_current_epoch_signer s.
Definition get_active_or_joining_validators s `{Crypto} :=
  validators_where (λ st, bool_decide (st = Active) || bool_decide (st = Joining)) s.

(** ** Collections *)
Definition is_max_count (p : ProtocolParam) : bool :=
  match p with MaxValidatorCount _ => true | _ => false end.
Definition is_count_param (p : ProtocolParam) : bool :=
  match p with MinimumValidatorCount _ | MaxValidatorCount _ => true | _ => false end.
Definition is_minimum_stake (p : ProtocolParam) : bool :=
  match p with MinimumStake _ => true | _ => false end.

Definition reject_invalid_validator_count_changes s : option (ConsensusState T) :=
  let minimum := prospective_minimum_validator_count s in
  let maximum := prospective_max_validator_count s in
  let before := length (protocol_param_changes s) in
  let s :=
    if (minimum <=? maximum)%Z && existsb is_max_count (protocol_param_changes s) then
      let reserved := active_or_joining_validator_count s in
      if (maximum <? reserved)%Z
      then s <| protocol_param_changes := retain (λ p, negb (is_max_count p)) (protocol_param_changes s) |>
      else s
    else s in
  let maximum := prospective_max_validator_count s in
  let s :=
    if (maximum <? minimum)%Z
    then s <| protocol_param_changes := retain (λ p, negb (is_count_param p)) (protocol_param_changes s) |>
    else s in
  if negb (length (protocol_param_changes s) =? before)
  then on_tree s (Rebuild_protocol_params (protocol_param_changes s)) else Some s.

Definition add_validator s (e : Z) (v : AddedValidator) :=
  let vs := default [] (BTree.get (added_validators s) e) ++ [v] in
  let m := BTree.insert (added_validators s) e vs in
  on_tree (s <| added_validators := m |>) (Rebuild_added_validators m).
Definition set_removed_validators s (l : list bytes) :=
  on_tree (s <| removed_validators := l |>) (Rebuild_removed_validators l).
Definition push_removed_validator s (k : bytes) := set_removed_validators s (removed_validators s ++ [k]).
Definition clear_removed_validators s := set_removed_validators s [].
Definition push_protocol_param_change s (p : ProtocolParam) :=
  let l := protocol_param_changes s ++ [p] in
  on_tree (s <| protocol_param_changes := l |>) (Rebuild_protocol_params l).
Definition push_protocol_param_changes s (ps : list ProtocolParam) :=
  let before := length (protocol_param_changes s) in
  let s := s <| protocol_param_changes := protocol_param_changes s ++ ps |> in
  if negb (length (protocol_param_changes s) =? before)
  then on_tree s (Rebuild_protocol_params (protocol_param_changes s)) else Some s.
Definition has_added_validators s (e : Z) : bool := BTree.contains_key (added_validators s) e.
Definition remove_added_validators_for_epoch s (e : Z)
  : option (ConsensusState T * option (list AddedValidator)) :=
  match BTree.get (added_validators s) e with
  | None => Some (s, None)
  | Some vs =>
      let m := BTree.remove (added_validators s) e in
      s ← on_tree (s <| added_validators := m |>) (Rebuild_added_validators m);
      Some (s, Some vs)
  end.
(** [Vec::remove(pos)] of the validator with this key, if any. *)
Definition take_validator (vs : list AddedValidator) (k : bytes) : option (list AddedValidator) :=
  pos ← position (λ v, bool_decide (node_key v = k)) vs;
  Some (list_delete pos vs).
Definition remove_added_validator s (e : Z) (k : bytes) : option (ConsensusState T * bool) :=
  match vs ← BTree.get (added_validators s) e; take_validator vs k with
  | None => Some (s, false)
  | Some vs =>
      let m := BTree.insert (added_validators s) e vs in
      let m := match vs with [] => BTree.remove m e | _ => m end in
      s ← on_tree (s <| added_validators := m |>) (Rebuild_added_validators m);
      Some (s, true)
  end.
Definition take_pending_execution_requests s : option (ConsensusState T * list bytes) :=
  let taken := pending_execution_requests s in
  s ← on_tree (s <| pending_execution_requests := [] |>) (Rebuild_pending_execution_requests []);
  Some (s, taken).
Definition push_pending_execution_request s (r : bytes) :=
  let l := pending_execution_requests s ++ [r] in
  on_tree (s <| pending_execution_requests := l |>) (Rebuild_pending_execution_requests l).
Definition buffer_execution_requests s (rs : list bytes) :=
  match rs with
  | [] => Some s
  | _ =>
      let l := pending_execution_requests s ++ rs in
      on_tree (s <| pending_execution_requests := l |>) (Rebuild_pending_execution_requests l)
  end.

(** ** Accounts *)
Definition get_account s (k : bytes) : option ValidatorAccount := BTree.get (validator_accounts s) k.

Definition set_account s (k : bytes) (a : ValidatorAccount) : option (ConsensusState T) :=
  let is_update := BTree.contains_key (validator_accounts s) k in
  let s := s <| validator_accounts := BTree.insert (validator_accounts s) k a |> in
  slot ← BTree.slot_of (validator_accounts s) k;
  if is_update then on_tree s (UpdateValidator slot k a)
  else on_tree s (InsertValidator slot k a).

Definition remove_account s (k : bytes) : option (ConsensusState T * option ValidatorAccount) :=
  let slot := BTree.slot_of (validator_accounts s) k in
  let removed := BTree.get (validator_accounts s) k in
  let s := s <| validator_accounts := BTree.remove (validator_accounts s) k |> in
  match slot, removed with
  | Some slot, Some _ => s ← on_tree s (RemoveValidator slot); Some (s, removed)
  | _, _ => Some (s, removed)
  end.

Definition set_validator_accounts s (m : BTreeMap bytes ValidatorAccount) :=
  rebuild_ssz_tree (s <| validator_accounts := m |>).

(** ** Withdrawals *)
Definition rebuild_withdrawal_tree s := on_tree s (Rebuild_withdrawals (withdrawal_queue s)).

Definition push_withdrawal_request_with_kind s (request : WithdrawalRequest) (withdrawal_epoch : Z)
    (k : WithdrawalKind) (defer_rebuild : bool) : option (ConsensusState T * bool) :=
  match push_request_with_kind (withdrawal_queue s) request withdrawal_epoch k with
  | (_, Err _) => None
  | (q, Ok _) =>
      s ← on_tree (s <| withdrawal_queue := q |>) (Set_next_withdrawal_index (next_index q));
      if bool_decide (k = Validator) && bool_decide (is_Some (back q DepositRefund)) then
        if defer_rebuild then Some (s, true)
        else (s ← on_tree s (Rebuild_withdrawals (withdrawal_queue s)); Some (s, false))
      else
        item ← back q k;
        s ← on_tree s (PushWithdrawal item);
        Some (s, false)
  end.
Definition push_withdrawal_request s (request : WithdrawalRequest) (e : Z) :=
  fst <$> push_withdrawal_request_with_kind s request e Validator false.
Definition push_refund_withdrawal_request s (request : WithdrawalRequest) (e : Z) :=
  fst <$> push_withdrawal_request_with_kind s request e DepositRefund false.
Definition push_withdrawal s (w : PendingWithdrawal) :=
  let q := push (withdrawal_queue s) w in
  on_tree (s <| withdrawal_queue := q |>) (Rebuild_withdrawals q).
Definition pop_withdrawal s (e : Z) : option (ConsensusState T * option PendingWithdrawal) :=
  match pop (withdrawal_queue s) e with
  | None => Some (s, None)
  | Some (q, w) =>
      s ← on_tree (s <| withdrawal_queue := q |>) (Rebuild_withdrawals q);
      Some (s, Some w)
  end.

(** ** Deposits *)
Definition push_deposit s (request : DepositRequest) :=
  s ← on_tree s (PushDeposit request);
  Some (s <| deposit_queue := deposit_queue s ++ [request] |>).
Definition pop_deposit s : option (ConsensusState T * option DepositRequest) :=
  match deposit_queue s with
  | [] => Some (s, None)
  | request :: q =>
      s ← on_tree (s <| deposit_queue := q |>) (Rebuild_deposits q);
      Some (s, Some request)
  end.
Definition pop_deposit_deferred s : option (ConsensusState T * DepositRequest) :=
  match deposit_queue s with
  | [] => None
  | request :: q => Some (s <| deposit_queue := q |>, request)
  end.
Definition rebuild_deposit_tree s := on_tree s (Rebuild_deposits (deposit_queue s)).

Definition verify_deposit_request `{Crypto} s (d : DepositRequest) (domain : bytes)
  : result DepositRejectionReason () :=
  let message := as_message d domain in
  if negb (ed25519_sig_valid (node_signature d)) then Err InvalidNodeSignature else
  if negb (ed25519_verify [] (node_pubkey d) message (node_signature d)) then Err InvalidNodeSignature else
  if negb (bls_sig_valid (consensus_signature d)) then Err InvalidConsensusSignature else
  if negb (bls_verify [] (consensus_pubkey d) message (consensus_signature d))
  then Err InvalidConsensusSignature else
  if match get_account s (node_pubkey d) with
     | Some acc => negb (bool_decide (consensus_public_key acc = consensus_pubkey d))
     | None => false
     end then Err KeyMismatch else
  if existsb (λ '(k, acc), negb (bool_decide (k = node_pubkey d))
                && bool_decide (consensus_public_key acc = consensus_pubkey d))
       (validator_accounts s) then Err KeyMismatch else
  Ok ().

Definition refund_deposit s (credentials : bytes) (amount : Z) (reason : DepositRejectionReason)
    (withdrawal_num_epochs : Z) : option (ConsensusState T) :=
  match parse_withdrawal_credentials credentials with
  | Err _ => Some s
  | Ok withdrawal_address =>
      let withdrawal_epoch := wrapping_add (epoch s) withdrawal_num_epochs in
      let '(refund_amount, tax_amount) := invalid_deposit_refund_split amount (invalid_deposit_tax s) in
      s ← (if (0 <? refund_amount)%Z then
             push_refund_withdrawal_request s
               (mkWithdrawalRequest withdrawal_address (zero_bytes 32) refund_amount) withdrawal_epoch
           else Some s);
      if (0 <? tax_amount)%Z then
        push_refund_withdrawal_request s
          (mkWithdrawalRequest (treasury_address s) (zero_bytes 32) tax_amount) withdrawal_epoch
      else Some s
  end.

(** The account a verified deposit is credited to; [None]: the credentials of a
    new account do not parse. *)
Definition deposit_account s (request : DepositRequest) : option ValidatorAccount :=
  match get_account s (node_pubkey request) with
  | Some account => Some account
  | None =>
      match parse_withdrawal_credentials (dep_withdrawal_credentials request) with
      | Err _ => None
      | Ok credentials =>
          Some (mkValidatorAccount (consensus_pubkey request) credentials 0 Inactive 0 (dep_index request))
      end
  end.

(** One verified deposit: credit, and schedule the activation if it is due. *)
Definition credit_deposit s (request : DepositRequest) (account : ValidatorAccount)
    (warm_up_epochs : Z) : option (ConsensusState T) :=
  let account := account <| balance := saturating_add (balance account) (dep_amount request) |>
                         <| last_deposit_index := dep_index request |> in
  if bool_decide (status account = Inactive) && (validator_minimum_stake s <=? balance account)%Z
     && (pending_count (withdrawal_queue s) (node_pubkey request) =? 0)%Z
     && (active_or_joining_validator_count s <? prospective_max_validator_count s)%Z then
    let activation_epoch := wrapping_add (epoch s) warm_up_epochs in
    let account := account <| status := Joining |> <| joining_epoch := activation_epoch |> in
    s ← set_account s (node_pubkey request) account;
    add_validator s activation_epoch
      (mkAddedValidator (node_pubkey request) (consensus_public_key account))
  else set_account s (node_pubkey request) account.

(** The body of the loop of [process_deposits] on a popped deposit. *)
Definition process_deposit `{Crypto} s (request : DepositRequest) (domain : bytes)
    (warm_up_epochs withdrawal_num_epochs : Z) : option (ConsensusState T) :=
  match verify_deposit_request s request domain with
  | Err reason =>
      refund_deposit s (dep_withdrawal_credentials request) (dep_amount request) reason
        withdrawal_num_epochs
  | Ok _ =>
      match deposit_account s request with
      | None => Some s
      | Some account => credit_deposit s request account warm_up_epochs
      end
  end.

Fixpoint process_deposits_loop `{Crypto} (n : nat) s (drained_any : bool) (domain : bytes)
    (warm_up_epochs withdrawal_num_epochs : Z) : option (ConsensusState T * bool) :=
  match n with
  | 0 => Some (s, drained_any)
  | S n =>
      match pop_deposit_deferred s with
      | None => Some (s, drained_any)
      | Some (s, request) =>
          s ← process_deposit s request domain warm_up_epochs withdrawal_num_epochs;
          process_deposits_loop n s true domain warm_up_epochs withdrawal_num_epochs
      end
  end.
Definition process_deposits `{Crypto} s (domain : bytes) (warm_up_epochs withdrawal_num_epochs : Z)
  : option (ConsensusState T) :=
  r ← process_deposits_loop (Z.to_nat (max_deposits_per_epoch s)) s false domain
        warm_up_epochs withdrawal_num_epochs;
  let '(s, drained_any) := r in
  if drained_any : bool then rebuild_deposit_tree s else Some s.

(** ** Withdrawal requests *)
Definition enqueue s (credentials pubkey : bytes) (withdrawal_epoch amount : Z) :=
  push_withdrawal_request_with_kind s (mkWithdrawalRequest credentials pubkey amount) withdrawal_epoch
    Validator true.

Definition apply_withdrawal_request_deferred `{Crypto} s (request : WithdrawalRequest)
    (withdrawal_num_epochs : Z) : option (ConsensusState T * bool) :=
  match get_account s (validator_pubkey request) with
  | None => Some (s, false)
  | Some account =>
      let pubkey := validator_pubkey request in
      let credentials := withdrawal_credentials account in
      if negb (bool_decide (source_address request = credentials)) then Some (s, false) else
      if match status account with SubmittedExitRequest | FullPayoutPending => true | _ => false end
      then Some (s, false) else
      if (max_pending_withdrawals_per_validator s <=? pending_count (withdrawal_queue s) pubkey)%Z
      then Some (s, false) else
      let current_epoch := epoch s in
      let withdrawal_epoch := wrapping_add current_epoch withdrawal_num_epochs in
      r ← (if bool_decide (status account = Joining) then
             s ← (if (current_epoch <? joining_epoch account)%Z && ed25519_valid pubkey then
                    fst <$> remove_added_validator s (joining_epoch account) pubkey
                  else Some s);
             let account := account <| status := Inactive |> in
             s ← set_account s pubkey account;
             Some (s, account)
           else Some (s, account));
      let '(s, account) := r in
      match status account with
      | Active =>
          if (wr_amount request =? 0)%Z then
            if negb (can_accept_active_validator_exit s) then Some (s, false) else
            if negb (ed25519_valid pubkey) then Some (s, false) else
            s ← push_removed_validator s pubkey;
            s ← increment_pending_active_validator_exits s;
            s ← set_account s pubkey (account <| status := SubmittedExitRequest |>);
            enqueue s credentials pubkey withdrawal_epoch 0
          else
            let withdrawable := saturating_sub (balance account) (validator_minimum_stake s) in
            let amount := Z.min (wr_amount request) withdrawable in
            if (amount =? 0)%Z then Some (s, false)
            else enqueue s credentials pubkey withdrawal_epoch amount
      | Inactive =>
          if (wr_amount request =? 0)%Z then
            s ← set_account s pubkey (account <| status := FullPayoutPending |>);
            enqueue s credentials pubkey withdrawal_epoch 0
          else
            let amount := Z.min (wr_amount request) (balance account) in
            if (amount =? 0)%Z then Some (s, false)
            else enqueue s credentials pubkey withdrawal_epoch amount
      | _ => Some (s, false)
      end
  end.
Definition apply_withdrawal_request `{Crypto} s (request : WithdrawalRequest)
    (withdrawal_num_epochs : Z) : option (ConsensusState T) :=
  r ← apply_withdrawal_request_deferred s request withdrawal_num_epochs;
  let '(s, stale) := r in
  if stale : bool then rebuild_withdrawal_tree s else Some s.

(** ** The buffered requests *)

(** The parameter changes of an entry, in order. *)
Definition entry_params `{Crypto} (entry : bytes) : list ProtocolParam :=
  match parse_eth_entry entry with
  | Err _ => []
  | Ok parsed =>
      omap (λ p, match p with
        | Valid (ProtocolParamReq r) =>
            match try_from_request r with Ok param => Some param | Err _ => None end
        | _ => None
        end) parsed
  end.

Definition route_request `{Crypto} s (stale : bool) (parsed : ParsedExecutionRequest)
    (withdrawal_num_epochs : Z) : option (ConsensusState T * bool) :=
  match parsed with
  | Valid (Deposit deposit) => s ← push_deposit s deposit; Some (s, stale)
  | Valid (ExecutionRequest.Withdrawal withdrawal) =>
      r ← apply_withdrawal_request_deferred s withdrawal withdrawal_num_epochs;
      Some (r.1, stale || r.2)
  | Valid (ProtocolParamReq _) => Some (s, stale)
  | MalformedDeposit chunk =>
      s ← refund_deposit s (mal_withdrawal_credentials chunk) (mal_amount chunk) MalformedKey
            withdrawal_num_epochs;
      Some (s, stale)
  end.
Definition route_entry `{Crypto} (st : ConsensusState T * bool) (entry : bytes)
    (withdrawal_num_epochs : Z) : option (ConsensusState T * bool) :=
  match parse_eth_entry entry with
  | Err _ => Some st
  | Ok parsed =>
      for_each (λ st p, route_request st.1 st.2 p withdrawal_num_epochs) st parsed
  end.

Definition process_buffered_requests `{Crypto} s (domain : bytes)
    (warm_up_epochs withdrawal_num_epochs : Z) : option (ConsensusState T) :=
  r ← take_pending_execution_requests s;
  let '(s, buffered) := r in
  let protocol_param_batch := concat (map entry_params buffered) in
  s ← match protocol_param_batch with
      | [] => Some s
      | _ => push_protocol_param_changes s protocol_param_batch
      end;
  s ← reject_invalid_validator_count_changes s;
  r ← for_each (λ st entry, route_entry st entry withdrawal_num_epochs) (s, false) buffered;
  let '(s, withdrawal_tree_stale) := r in
  s ← (if withdrawal_tree_stale : bool then rebuild_withdrawal_tree s else Some s);
  process_deposits s domain warm_up_epochs withdrawal_num_epochs.

(** ** Minimum stake *)
Definition retained_count s (prospective_min : Z) (already_removed : list bytes) : Z :=
  count (λ '(k, a), bool_decide (status a = Active) && (prospective_min <=? balance a)%Z
           && negb (bool_decide (k ∈ already_removed))) (validator_accounts s).
Definition stake_candidates s (prospective_min : Z) : list (bytes * Z * ValidatorStatus) :=
  omap (λ '(k, a),
    if (prospective_min <=? balance a)%Z then None else
    match status a with
    | Active | Joining => Some (k, joining_epoch a, status a)
    | _ => None
    end) (validator_accounts s).

(** One candidate: a joining validator is cancelled, an active one removed. *)
Definition remove_below_minimum `{Crypto} (current_epoch : Z) (already_removed : list bytes) s
    (c : bytes * Z * ValidatorStatus) : option (ConsensusState T) :=
  let '(k, joining, st) := c in
  if negb (ed25519_valid k) then Some s else
  if bool_decide (k ∈ already_removed) then Some s else
  match st with
  | Joining =>
      if (current_epoch <? joining)%Z then
        r ← remove_added_validator s joining k;
        let s := r.1 in
        match get_account s k with
        | Some account => set_account s k (account <| status := Inactive |>)
        | None => Some s
        end
      else Some s
  | Active =>
      s ← push_removed_validator s k;
      increment_pending_active_validator_exits s
  | _ => Some s
  end.

Definition enforce_minimum_stake `{Crypto} s : option (ConsensusState T) :=
  if negb (existsb is_minimum_stake (protocol_param_changes s)) then Some s else
  let prospective_min := prospective_minimum_stake s in
  let current_epoch := epoch s in
  let already_removed := removed_validators s in
  let retained := retained_count s prospective_min already_removed in
  if (retained <? prospective_minimum_validator_count s)%Z then
    let l := retain (λ p, negb (is_minimum_stake p)) (protocol_param_changes s) in
    on_tree (s <| protocol_param_changes := l |>) (Rebuild_protocol_params l)
  else
    for_each (remove_below_minimum current_epoch already_removed) s
      (stake_candidates s prospective_min).

(** ** Payouts *)
Definition withdrawal_payout_amount (entry : PendingWithdrawal) (bal : Z) (has_floor : bool)
    (min_stake : Z) : Z :=
  match kind entry with
  | DepositRefund => amount (inner entry)
  | Validator =>
      if (amount (inner entry) =? 0)%Z then bal
      else
        let floor := if has_floor then min_stake else 0%Z in
        Z.min (amount (inner entry)) (saturating_sub bal floor)
  end.

(** One entry of the sweep over the running balances. *)
Definition emit_step s (min_stake : Z) (st : gmap bytes Z * list Withdrawal) (entry : PendingWithdrawal)
  : gmap bytes Z * list Withdrawal :=
  let '(running, payouts) := st in
  if bool_decide (kind entry = DepositRefund) then (running, payouts ++ [inner entry]) else
  match get_account s (pubkey entry) with
  | None => (running, payouts)
  | Some account =>
      if negb (bool_decide (address (inner entry) = withdrawal_credentials account))
      then (running, payouts) else
      let bal := default (balance account) (running !! pubkey entry) in
      let has_floor := has_minimum_stake_floor (status account) in
      let payout := withdrawal_payout_amount entry bal has_floor min_stake in
      let running := <[pubkey entry := saturating_sub bal payout]> running in
      if (0 <? payout)%Z
      then (running, payouts ++ [mkWithdrawal (index (inner entry)) (validator_index (inner entry))
                                   (address (inner entry)) payout])
      else (running, payouts)
  end.
Definition selected s (e : Z) : list PendingWithdrawal :=
  get_for_epoch_with_total_cap (withdrawal_queue s) e (Z.to_nat (max_withdrawals_per_epoch s)).
Definition emit_withdrawal_payouts s (e : Z) : list Withdrawal :=
  (foldl (emit_step s (prospective_minimum_stake s)) (∅, []) (selected s e)).2.

Definition pay_entry (min_stake : Z) s (entry : PendingWithdrawal) : option (ConsensusState T) :=
  if bool_decide (kind entry = DepositRefund) then Some s else
  match get_account s (pubkey entry) with
  | None => Some s
  | Some account =>
      if negb (bool_decide (address (inner entry) = withdrawal_credentials account)) then Some s else
      let has_floor := has_minimum_stake_floor (status account) in
      let payout := withdrawal_payout_amount entry (balance account) has_floor min_stake in
      let account := account <| balance := saturating_sub (balance account) payout |> in
      if (balance account =? 0)%Z then fst <$> remove_account s (pubkey entry)
      else set_account s (pubkey entry) account
  end.
Definition apply_index (e min_stake : Z) (st : ConsensusState T * bool) (i : Z)
  : option (ConsensusState T * bool) :=
  let '(s, drained_any) := st in
  match pop_by_index (withdrawal_queue s) e i with
  | None => Some (s, drained_any)
  | Some (q, entry) =>
      s ← pay_entry min_stake (s <| withdrawal_queue := q |>) entry;
      Some (s, true)
  end.
Definition apply_withdrawal_payouts s (e : Z) (block_withdrawals : list Withdrawal)
  : option (ConsensusState T) :=
  if negb (bool_decide (emit_withdrawal_payouts s e = block_withdrawals)) then None else
  let min_stake := prospective_minimum_stake s in
  let indices := map (λ w, index (inner w)) (selected s e) in
  r ← for_each (apply_index e min_stake) (s, false) indices;
  let '(s, drained_any) := r in
  if drained_any : bool then on_tree s (Rebuild_withdrawals (withdrawal_queue s)) else Some s.

(** ** The epoch boundary *)
Definition activate s (v : AddedValidator) : option (ConsensusState T) :=
  account ← get_account s (node_key v);
  set_account s (node_key v) (account <| status := Active |>).
Definition depart s (k : bytes) : option (ConsensusState T) :=
  match get_account s k with
  | None => Some s
  | Some account =>
      let st := match status account with
                | SubmittedExitRequest => FullPayoutPending
                | _ => Inactive
                end in
      set_account s k (account <| status := st |>)
  end.
Definition apply_committee_transition s (node_public_key : bytes) : option (ConsensusState T * bool) :=
  let next_epoch := wrapping_add (epoch s) 1 in
  s ← reset_pending_active_validator_exits s;
  if negb (has_added_validators s next_epoch) && (length (removed_validators s) =? 0)
  then Some (s, false) else
  s ← match BTree.get (added_validators s) next_epoch with
      | Some vs => for_each activate s vs
      | None => Some s
      end;
  let removed := removed_validators s in
  let validator_exit := existsb (λ k, bool_decide (k = node_public_key)) removed in
  s ← for_each depart s removed;
  Some (s, validator_exit).

(** [Result::expect]. *)
Definition expect {E A} (r : result E A) : option A := match r with Ok a => Some a | Err _ => None end.

Definition apply_param s (p : ProtocolParam) : option (ConsensusState T) :=
  match p with
  | MinimumStake v => set_minimum_stake s v
  | EpochLength v =>
      if (v =? 0)%Z then None else
      e ← expect (update_length (epocher s) v);
      Some (s <| epocher := e |>)
  | AllowedTimestampFuture v => set_allowed_timestamp_future_ms s v
  | TreasuryAddress a => set_treasury_address s a
  | MaxDepositsPerEpoch v => set_max_deposits_per_epoch s v
  | MaxWithdrawalsPerEpoch v => set_max_withdrawals_per_epoch s v
  | ObserversPerValidator v =>
      if (v <? 2 ^ 32)%Z then set_observers_per_validator s v else None
  | MaxValidatorCount v => set_max_validator_count s v
  | MinimumValidatorCount v => set_minimum_validator_count s v
  | InvalidDepositTax v =>
      if (MAX_INVALID_DEPOSIT_TAX <? v)%Z then Some s else set_invalid_deposit_tax s v
  | MaxPendingWithdrawalsPerValidator v => set_max_pending_withdrawals_per_validator s v
  end.
Definition apply_protocol_parameter_changes s : option (ConsensusState T * bool) :=
  s ← reject_invalid_validator_count_changes s;
  let changes := protocol_param_changes s in
  let minimum_stake_changed := existsb is_minimum_stake changes in
  s ← for_each apply_param (s <| protocol_param_changes := [] |>) changes;
  s ← on_tree s (Rebuild_protocol_params (protocol_param_changes s));
  Some (s, minimum_stake_changed).
End state.
