(* ===== verification/StateSync.v ===== *)
(** * StateSync: the state's tree always commits to its data

    [StateTreeOk] states what the state tree promises to the state: its value is a
    function [tree_spec] of the data it was told, whatever the history.  Against this
    interface every operation of [ConsensusState] is related to the same operation on
    the data alone ([ConsensusState ()]): [rel] says that a state is its data with
    the tree of that data attached, up to the epoch schedule (refreshed at capture
    time) and, inside a batch, the queues whose subtree is rebuilt at its end. *)
From S2P Require Import Prelude Codec Crypto BTree Epocher Account ExecutionRequest ProtocolParams.
From S2P Require Import Withdrawal SszTree SszTreeFacts SszHash SszStateTree SszStateTreeFacts.
From S2P Require Import ConsensusState.

Class StateTreeOk (T : Type) `{StateTree T} := {
  tree_spec : RebuildArgs → T;
  tree_default_ok : is_Some tree_default;
  tree_rebuild_ok a : tree_rebuild a = Some (tree_spec a);
  tree_do_ok a op : op_ok a op = true → tree_do (tree_spec a) op = Some (tree_spec (op_args a op));
  tree_root_ok a : is_Some (tree_root (tree_spec a));
  tree_queue_ok a q : iter_all q = iter_all (a_withdrawal_queue a) →
    tree_spec (a <| a_withdrawal_queue := q |>) = tree_spec a
}.

#[global] Instance ssz_tree_ok `{Hc : Crypto} `{!CryptoOk} : StateTreeOk SszStateTree.
Proof.
  refine {| tree_spec := spec_tree |}.
  - exists (mkSszStateTree (tree_of 5 (zeros 32)) (SszCollections.pad_tree []) 0
      (SszCollections.pad_tree []) 0 (SszCollections.pad_tree []) 0 ∅ (SszCollections.pad_tree []) 0
      (SszCollections.pad_tree []) 0 (SszCollections.pad_tree []) 0 (SszCollections.pad_tree []) 0).
    apply new_spec.
  - apply rebuild_spec.
  - apply run_op_spec.
  - intros a. exists (merkle 5 (top_leaves a)). apply root_spec_tree.
  - intros a q Hq. unfold spec_tree, top_leaves. rewrite <-!length_iter_all.
    change (a_withdrawal_queue (a <| a_withdrawal_queue := q |>)) with q. by rewrite Hq.
Defined.

#[global] Instance no_tree_ok : StateTreeOk ().
Proof. refine {| tree_spec _ := () |}; eauto. Defined.

(** ** Data with a tree attached *)

(** What the tree knows beyond the data: the schedule it last saw, the queues it
    last saw, and the frozen copies. *)
Record Attached {T : Type} := mkAttached {
  at_schedule : bytes;
  at_deposits : list DepositRequest;
  at_withdrawals : WithdrawalQueue;
  at_proof_tree : T;
  at_root : bytes;
  at_keys : list bytes;
  at_el : Z;
  at_captured : option bytes
}.
Arguments Attached : clear implicits.
Arguments mkAttached {T}.
#[global] Instance Attached_eta {T} : Eta (Attached T) := λ x,
  mkAttached (at_schedule x) (at_deposits x) (at_withdrawals x) (at_proof_tree x) (at_root x)
    (at_keys x) (at_el x) (at_captured x).

(** The part that only a capture or a rebuild changes. *)
Definition Frozen (T : Type) : Type := bytes * T * bytes * list bytes * Z * option bytes.
Definition frozen_of {T} (x : Attached T) : Frozen T :=
  (at_schedule x, at_proof_tree x, at_root x, at_keys x, at_el x, at_captured x).

(** ** The parameter changes that survive [reject_invalid_validator_count_changes] *)
Section rejection.
Context {T : Type} `{!StateTree T}.
Implicit Type s : ConsensusState T.

Definition kept_params s : list ProtocolParam :=
  let minimum := prospective_minimum_validator_count s in
  let maximum := prospective_max_validator_count s in
  let l := protocol_param_changes s in
  let l := if (minimum <=? maximum)%Z && existsb is_max_count l
              && (maximum <? active_or_joining_validator_count s)%Z
           then retain (λ p, negb (is_max_count p)) l else l in
  let maximum := prospective_max_validator_count (s <| protocol_param_changes := l |>) in
  if (maximum <? minimum)%Z then retain (λ p, negb (is_count_param p)) l else l.

Lemma retain_length {A} (p : A → bool) l : length (retain p l) = length l → retain p l = l.
Proof.
  induction l as [|x l IH]; [done|]. simpl. destruct (p x); simpl; intros Hl; [f_equal; apply IH; lia|].
  pose proof (List.filter_length_le p l). unfold retain in Hl. lia.
Qed.
Lemma retain_length_le {A} (p : A → bool) l : length (retain p l) ≤ length l.
Proof. apply List.filter_length_le. Qed.

Lemma kept_params_length s :
  length (kept_params s) = length (protocol_param_changes s) → kept_params s = protocol_param_changes s.
Proof.
  unfold kept_params. cbv zeta. set (l := protocol_param_changes s).
  set (l1 := if _ && _ && _ then _ else l).
  assert (Hle : length l1 ≤ length l) by (unfold l1; destruct (_ && _ && _); [apply retain_length_le|done]).
  assert (Hl1 : length l1 = length l → l1 = l)
    by (unfold l1; destruct (_ && _ && _); [apply retain_length|done]).
  clearbody l1. destruct (_ <? _)%Z; [|exact Hl1]. pose proof (retain_length_le (λ p, negb (is_count_param p)) l1).
  intros Hl. rewrite <-Hl1 by lia. apply retain_length. lia.
Qed.

Lemma with_params s : s <| protocol_param_changes := protocol_param_changes s |> = s.
Proof. by destruct s. Qed.

Lemma reject_eq s :
  reject_invalid_validator_count_changes s =
    let l := kept_params s in
    let s' := s <| protocol_param_changes := l |> in
    if negb (length l =? length (protocol_param_changes s))
    then on_tree s' (Rebuild_protocol_params l) else Some s'.
Proof.
  unfold reject_invalid_validator_count_changes, kept_params. cbv zeta.
  destruct (_ && existsb is_max_count _) eqn:E1; cbn [andb];
    [destruct (_ <? active_or_joining_validator_count s)%Z|]; rewrite ?with_params;
    destruct (_ <? _)%Z; rewrite ?with_params; reflexivity.
Qed.
End rejection.

Section sync.
Context {T : Type} `{!StateTree T} `{!StateTreeOk T}.

Definition tree_args (u : ConsensusState ()) (x : Attached T) : RebuildArgs :=
  (rebuild_args u) <| a_dynamic_epoch_schedule := at_schedule x |>
    <| a_deposit_queue := at_deposits x |> <| a_withdrawal_queue := at_withdrawals x |>.

Definition attach (u : ConsensusState ()) (x : Attached T) : ConsensusState T :=
  mkConsensusState (epoch u) (view u) (latest_height u) (head_digest u) (deposit_queue u)
    (withdrawal_queue u) (validator_accounts u) (protocol_param_changes u) (pending_checkpoint u)
    (added_validators u) (removed_validators u) (pending_execution_requests u) (forkchoice u)
    (epoch_genesis_hash u) (validator_minimum_stake u) (allowed_timestamp_future_ms u)
    (treasury_address u) (max_deposits_per_epoch u) (max_withdrawals_per_epoch u)
    (observers_per_validator u) (max_validator_count u) (minimum_validator_count u)
    (pending_active_validator_exits u) (invalid_deposit_tax u)
    (max_pending_withdrawals_per_validator u) (epocher u) (tree_spec (tree_args u x))
    (at_proof_tree x) (at_keys x) (at_root x) (at_el x) (at_captured x).

(** [rel w d f s u]: [s] is the data [u] with a tree; [w] and [d] say that the
    withdrawal and the deposit subtree are up to date, [f] is the frozen part. *)
Definition rel (w d : bool) (f : Frozen T) (s : ConsensusState T) (u : ConsensusState ()) : Prop :=
  ∃ x, s = attach u x ∧ frozen_of x = f ∧
    (w = true → at_withdrawals x = withdrawal_queue u) ∧
    (d = true → at_deposits x = deposit_queue u) ∧ BTree.sorted (validator_accounts u).

(** Two runs that both panic, or both return related results. *)
Definition sim {A B} (R : A → B → Prop) (m : option A) (m' : option B) : Prop := option_Forall2 R m m'.

Lemma sim_ret {A B} (R : A → B → Prop) a b : R a b → sim R (Some a) (Some b).
Proof. by constructor. Qed.

Lemma sim_bind {A B A' B'} (R : A → B → Prop) (R' : A' → B' → Prop) m m' k k' :
  sim R m m' → (∀ a b, R a b → sim R' (k a) (k' b)) → sim R' (m ≫= k) (m' ≫= k').
Proof. intros [a b Hab|] Hk; [by apply Hk|constructor]. Qed.

Lemma sim_impl {A B} (R R' : A → B → Prop) m m' : sim R m m' → (∀ a b, R a b → R' a b) → sim R' m m'.
Proof. intros [a b Hab|] Hi; constructor; auto. Qed.

Lemma sim_for_each {A} (R : ConsensusState T → ConsensusState () → Prop) f g l s u :
  R s u → (∀ s u (a : A), R s u → sim R (f s a) (g u a)) → sim R (for_each f s l) (for_each g u l).
Proof.
  intros Hr Hfg. revert s u Hr. induction l as [|a l IH]; intros s u Hr; [by apply sim_ret|].
  cbn [for_each]. by eapply sim_bind; [apply Hfg|].
Qed.

Lemma on_tree_spec (s : ConsensusState T) a op :
  ssz_tree s = tree_spec a → op_ok a op = true →
  on_tree s op = Some (s <| ssz_tree := tree_spec (op_args a op) |>).
Proof. intros Hs Ho. unfold on_tree. by rewrite Hs, tree_do_ok. Qed.

(** ** Setters *)
Lemma sim_tree (R : ConsensusState T → ConsensusState () → Prop) s u a op :
  ssz_tree s = tree_spec a → op_ok a op = true →
  R (s <| ssz_tree := tree_spec (op_args a op) |>) (u <| ssz_tree := () |>) →
  sim R (on_tree s op) (on_tree u op).
Proof. intros Hs Ho HR. rewrite (on_tree_spec s a op) by done. by apply sim_ret. Qed.

Ltac setter :=
  intros (x & -> & Hf & Hw & Hd & Hs);
  eapply sim_tree; [reflexivity|reflexivity|]; exists x; split_and!; [reflexivity|done..].

Section setters.
Context (w d : bool) (f : Frozen T) (s : ConsensusState T) (u : ConsensusState ()).
Hypothesis Hr : rel w d f s u.

Lemma set_epoch_sim v : sim (rel w d f) (set_epoch s v) (set_epoch u v).
Proof. revert Hr. setter. Qed.
Lemma set_view_sim v : sim (rel w d f) (set_view s v) (set_view u v).
Proof. revert Hr. setter. Qed.
Lemma set_latest_height_sim v : sim (rel w d f) (set_latest_height s v) (set_latest_height u v).
Proof. revert Hr. setter. Qed.
Lemma set_head_digest_sim v : sim (rel w d f) (set_head_digest s v) (set_head_digest u v).
Proof. revert Hr. setter. Qed.
Lemma set_epoch_genesis_hash_sim v : sim (rel w d f) (set_epoch_genesis_hash s v) (set_epoch_genesis_hash u v).
Proof. revert Hr. setter. Qed.
Lemma set_minimum_stake_sim v : sim (rel w d f) (set_minimum_stake s v) (set_minimum_stake u v).
Proof. revert Hr. setter. Qed.
Lemma set_allowed_timestamp_future_ms_sim v : sim (rel w d f) (set_allowed_timestamp_future_ms s v) (set_allowed_timestamp_future_ms u v).
Proof. revert Hr. setter. Qed.
Lemma set_max_deposits_per_epoch_sim v : sim (rel w d f) (set_max_deposits_per_epoch s v) (set_max_deposits_per_epoch u v).
Proof. revert Hr. setter. Qed.
Lemma set_max_withdrawals_per_epoch_sim v : sim (rel w d f) (set_max_withdrawals_per_epoch s v) (set_max_withdrawals_per_epoch u v).
Proof. revert Hr. setter. Qed.
Lemma set_observers_per_validator_sim v : sim (rel w d f) (set_observers_per_validator s v) (set_observers_per_validator u v).
Proof. revert Hr. setter. Qed.
Lemma set_max_validator_count_sim v : sim (rel w d f) (set_max_validator_count s v) (set_max_validator_count u v).
Proof. revert Hr. setter. Qed.
Lemma set_max_pending_withdrawals_per_validator_sim v : sim (rel w d f) (set_max_pending_withdrawals_per_validator s v) (set_max_pending_withdrawals_per_validator u v).
Proof. revert Hr. setter. Qed.
Lemma set_minimum_validator_count_sim v : sim (rel w d f) (set_minimum_validator_count s v) (set_minimum_validator_count u v).
Proof. revert Hr. setter. Qed.
Lemma set_invalid_deposit_tax_sim v : sim (rel w d f) (set_invalid_deposit_tax s v) (set_invalid_deposit_tax u v).
Proof. revert Hr. setter. Qed.
Lemma set_treasury_address_sim v : sim (rel w d f) (set_treasury_address s v) (set_treasury_address u v).
Proof. revert Hr. setter. Qed.
Lemma set_pending_checkpoint_sim v : sim (rel w d f) (set_pending_checkpoint s v) (set_pending_checkpoint u v).
Proof. revert Hr. setter. Qed.
Lemma set_forkchoice_head_sim v : sim (rel w d f) (set_forkchoice_head s v) (set_forkchoice_head u v).
Proof. revert Hr. setter. Qed.
Lemma set_removed_validators_sim v : sim (rel w d f) (set_removed_validators s v) (set_removed_validators u v).
Proof. revert Hr. setter. Qed.
Lemma push_removed_validator_sim v : sim (rel w d f) (push_removed_validator s v) (push_removed_validator u v).
Proof. revert Hr. setter. Qed.
Lemma push_protocol_param_change_sim v : sim (rel w d f) (push_protocol_param_change s v) (push_protocol_param_change u v).
Proof. revert Hr. setter. Qed.
Lemma push_pending_execution_request_sim v : sim (rel w d f) (push_pending_execution_request s v) (push_pending_execution_request u v).
Proof. revert Hr. setter. Qed.
Lemma increment_pending_active_validator_exits_sim : sim (rel w d f) (increment_pending_active_validator_exits s) (increment_pending_active_validator_exits u).
Proof. revert Hr. setter. Qed.
Lemma reset_pending_active_validator_exits_sim : sim (rel w d f) (reset_pending_active_validator_exits s) (reset_pending_active_validator_exits u).
Proof. revert Hr. setter. Qed.
Lemma clear_removed_validators_sim : sim (rel w d f) (clear_removed_validators s) (clear_removed_validators u).
Proof. revert Hr. setter. Qed.
End setters.
(** The data fields of a state are those of its data. *)
Ltac data_fields u x :=
  try change (epoch (attach u x)) with (epoch u);
  try change (view (attach u x)) with (view u);
  try change (latest_height (attach u x)) with (latest_height u);
  try change (head_digest (attach u x)) with (head_digest u);
  try change (deposit_queue (attach u x)) with (deposit_queue u);
  try change (withdrawal_queue (attach u x)) with (withdrawal_queue u);
  try change (validator_accounts (attach u x)) with (validator_accounts u);
  try change (protocol_param_changes (attach u x)) with (protocol_param_changes u);
  try change (pending_checkpoint (attach u x)) with (pending_checkpoint u);
  try change (added_validators (attach u x)) with (added_validators u);
  try change (removed_validators (attach u x)) with (removed_validators u);
  try change (pending_execution_requests (attach u x)) with (pending_execution_requests u);
  try change (forkchoice (attach u x)) with (forkchoice u);
  try change (epoch_genesis_hash (attach u x)) with (epoch_genesis_hash u);
  try change (validator_minimum_stake (attach u x)) with (validator_minimum_stake u);
  try change (allowed_timestamp_future_ms (attach u x)) with (allowed_timestamp_future_ms u);
  try change (treasury_address (attach u x)) with (treasury_address u);
  try change (max_deposits_per_epoch (attach u x)) with (max_deposits_per_epoch u);
  try change (max_withdrawals_per_epoch (attach u x)) with (max_withdrawals_per_epoch u);
  try change (observers_per_validator (attach u x)) with (observers_per_validator u);
  try change (max_validator_count (attach u x)) with (max_validator_count u);
  try change (minimum_validator_count (attach u x)) with (minimum_validator_count u);
  try change (pending_active_validator_exits (attach u x)) with (pending_active_validator_exits u);
  try change (invalid_deposit_tax (attach u x)) with (invalid_deposit_tax u);
  try change (max_pending_withdrawals_per_validator (attach u x)) with (max_pending_withdrawals_per_validator u);
  try change (epocher (attach u x)) with (epocher u);
  try change (prospective_minimum_stake (attach u x)) with (prospective_minimum_stake u);
  try change (prospective_minimum_validator_count (attach u x)) with (prospective_minimum_validator_count u);
  try change (prospective_max_validator_count (attach u x)) with (prospective_max_validator_count u);
  try change (active_or_joining_validator_count (attach u x)) with (active_or_joining_validator_count u);
  try change (current_epoch_active_validator_count (attach u x)) with (current_epoch_active_validator_count u);
  try change (can_accept_active_validator_exit (attach u x)) with (can_accept_active_validator_exit u);
  try change (get_account (attach u x)) with (get_account u);
  try change (has_added_validators (attach u x)) with (has_added_validators u);
  try change (verify_deposit_request (attach u x)) with (verify_deposit_request u);
  try change (deposit_account (attach u x)) with (deposit_account u);
  try change (selected (attach u x)) with (selected u);
  try change (emit_withdrawal_payouts (attach u x)) with (emit_withdrawal_payouts u);
  try change (retained_count (attach u x)) with (retained_count u);
  try change (stake_candidates (attach u x)) with (stake_candidates u).

(** A queue with the same entries can take the place of the one the tree saw. *)
Lemma attach_requeue u x q :
  iter_all q = iter_all (at_withdrawals x) → attach u (x <| at_withdrawals := q |>) = attach u x.
Proof.
  intros Hq. unfold attach. f_equal.
  exact (tree_queue_ok (tree_args u x) q Hq).
Qed.

Definition prel {A} (R : ConsensusState T → ConsensusState () → Prop) : ConsensusState T * A →
  ConsensusState () * A → Prop := λ p q, R p.1 q.1 ∧ p.2 = q.2.

Section operations.
Context (w d : bool) (f : Frozen T).
Implicit Types (s : ConsensusState T) (u : ConsensusState ()).

Ltac run_tree := repeat (erewrite on_tree_spec by reflexivity; cbn [mbind option_bind]).
Ltac open_rel x := intros (x & -> & Hf & Hw & Hd & Hs).
Ltac close_rel x := apply sim_ret; exists x; split_and!; [reflexivity|done..].
Ltac close_prel x :=
  apply sim_ret; split; [exists x; split_and!; [reflexivity|done..]|reflexivity].

Lemma take_pending_checkpoint_sim s u :
  rel w d f s u → sim (prel (rel w d f)) (take_pending_checkpoint s) (take_pending_checkpoint u).
Proof. open_rel x. unfold take_pending_checkpoint. run_tree. close_prel x. Qed.

Lemma set_forkchoice_sim s u fc :
  rel w d f s u → sim (rel w d f) (set_forkchoice s fc) (set_forkchoice u fc).
Proof. open_rel x. unfold set_forkchoice. run_tree. close_rel x. Qed.

Lemma set_forkchoice_safe_and_finalized_sim s u h :
  rel w d f s u →
  sim (rel w d f) (set_forkchoice_safe_and_finalized s h) (set_forkchoice_safe_and_finalized u h).
Proof. open_rel x. unfold set_forkchoice_safe_and_finalized. run_tree. close_rel x. Qed.

Lemma set_next_withdrawal_index_sim s u i :
  rel w d f s u → sim (rel w d f) (set_next_withdrawal_index s i) (set_next_withdrawal_index u i).
Proof.
  open_rel x. unfold set_next_withdrawal_index. run_tree. apply sim_ret.
  exists (x <| at_withdrawals := set_next_index (at_withdrawals x) i |>).
  split_and!; [by rewrite attach_requeue|done| |done|done]. intros Hwt. simpl. by rewrite Hw.
Qed.

Lemma add_validator_sim s u e v :
  rel w d f s u → sim (rel w d f) (add_validator s e v) (add_validator u e v).
Proof. open_rel x. unfold add_validator. run_tree. close_rel x. Qed.

Lemma set_params_sim s u l :
  rel w d f s u → (length l = length (protocol_param_changes u) → l = protocol_param_changes u) →
  sim (rel w d f)
    (let s' := s <| protocol_param_changes := l |> in
     if negb (length l =? length (protocol_param_changes s))
     then on_tree s' (Rebuild_protocol_params l) else Some s')
    (let u' := u <| protocol_param_changes := l |> in
     if negb (length l =? length (protocol_param_changes u))
     then on_tree u' (Rebuild_protocol_params l) else Some u').
Proof.
  open_rel x. intros Hl. cbv zeta. data_fields u x.
  destruct (Nat.eqb_spec (length l) (length (protocol_param_changes u))) as [E|E]; cbn [negb].
  - specialize (Hl E) as ->. apply sim_ret. exists x. split_and!; [by destruct u|done..].
  - run_tree. close_rel x.
Qed.

Lemma push_protocol_param_changes_sim s u ps :
  rel w d f s u → sim (rel w d f) (push_protocol_param_changes s ps) (push_protocol_param_changes u ps).
Proof.
  intros Hr. pose proof Hr as (x & -> & _).
  apply (set_params_sim _ _ (protocol_param_changes u ++ ps) Hr).
  rewrite length_app. intros Hl. destruct ps; [by rewrite app_nil_r|simpl in Hl; lia].
Qed.

Lemma remove_added_validators_for_epoch_sim s u e :
  rel w d f s u →
  sim (prel (rel w d f)) (remove_added_validators_for_epoch s e) (remove_added_validators_for_epoch u e).
Proof.
  open_rel x. unfold remove_added_validators_for_epoch. data_fields u x.
  destruct (BTree.get (added_validators u) e); [run_tree|]; close_prel x.
Qed.

Lemma remove_added_validator_sim s u e k :
  rel w d f s u →
  sim (prel (rel w d f)) (remove_added_validator s e k) (remove_added_validator u e k).
Proof.
  open_rel x. unfold remove_added_validator. data_fields u x.
  destruct (BTree.get (added_validators u) e ≫= _); [run_tree|]; close_prel x.
Qed.

Lemma take_pending_execution_requests_sim s u :
  rel w d f s u →
  sim (prel (rel w d f)) (take_pending_execution_requests s) (take_pending_execution_requests u).
Proof. open_rel x. unfold take_pending_execution_requests. run_tree. close_prel x. Qed.

Lemma buffer_execution_requests_sim s u rs :
  rel w d f s u → sim (rel w d f) (buffer_execution_requests s rs) (buffer_execution_requests u rs).
Proof. open_rel x. unfold buffer_execution_requests. destruct rs; [|run_tree]; close_rel x. Qed.

Lemma reject_invalid_validator_count_changes_sim s u :
  rel w d f s u →
  sim (rel w d f) (reject_invalid_validator_count_changes s) (reject_invalid_validator_count_changes u).
Proof.
  intros Hr. rewrite !reject_eq. pose proof Hr as (x & -> & _).
  apply (set_params_sim _ _ (kept_params u) Hr). apply kept_params_length.
Qed.

Lemma accounts_op u x m op :
  op_ok (tree_args u x) op = true →
  op_args (tree_args u x) op = (tree_args u x) <| a_validator_accounts := m |> →
  on_tree ((attach u x) <| validator_accounts := m |>) op
  = Some (attach (u <| validator_accounts := m |>) x).
Proof. intros Hok Hargs. erewrite on_tree_spec by (reflexivity || exact Hok). by rewrite Hargs. Qed.

Lemma set_account_tree u x k a :
  BTree.sorted (validator_accounts u) →
  set_account (attach u x) k a
  = Some (attach (u <| validator_accounts := BTree.insert (validator_accounts u) k a |>) x).
Proof.
  intros Hs. unfold set_account, BTree.contains_key. data_fields u x. cbv zeta.
  change (validator_accounts ((attach u x) <| validator_accounts := ?m |>)) with m.
  pose proof (BTree.sorted_insert _ k a Hs) as Hs'.
  destruct (BTree.get (validator_accounts u) k) as [v|] eqn:E.
  - destruct (BTree.get_Some_split _ _ _ Hs E) as (m1 & m2 & Hm & Hi & _). rewrite Hi in *.
    rewrite BTree.slot_of_split by done. cbn [mbind option_bind]. apply accounts_op.
    + apply Nat.ltb_lt. cbn. rewrite Hm, length_app. simpl. lia.
    + assert (<[length m1 := (k, a)]> (validator_accounts u) = m1 ++ (k, a) :: m2) as <-; [|done].
      rewrite Hm. etrans; [by apply insert_app_r_alt|]. by rewrite Nat.sub_diag.
  - destruct (BTree.get_None_split _ _ Hs E) as (m1 & m2 & Hm & Hi). rewrite Hi in *.
    rewrite BTree.slot_of_split by done. cbn [mbind option_bind]. apply accounts_op.
    + apply Nat.leb_le. cbn. rewrite Hm, length_app. lia.
    + assert (take (length m1) (validator_accounts u) ++ (k, a) :: drop (length m1) (validator_accounts u)
        = m1 ++ (k, a) :: m2) as <-; [|done]. by rewrite Hm, take_app_length, drop_app_length.
Qed.

Lemma remove_account_tree u x k :
  BTree.sorted (validator_accounts u) →
  remove_account (attach u x) k
  = Some (attach (u <| validator_accounts := BTree.remove (validator_accounts u) k |>) x,
          BTree.get (validator_accounts u) k).
Proof.
  intros Hs. unfold remove_account. data_fields u x. cbv zeta.
  destruct (BTree.get (validator_accounts u) k) as [v|] eqn:E.
  - destruct (BTree.get_Some_split _ _ _ Hs E) as (m1 & m2 & Hm & _ & Hr).
    assert (BTree.slot_of (validator_accounts u) k = Some (length m1)) as ->
      by (rewrite Hm; apply BTree.slot_of_split; by rewrite <-Hm).
    rewrite Hr, (accounts_op u x); [done| |].
    + apply Nat.ltb_lt. cbn. rewrite Hm, length_app. simpl. lia.
    + assert (list_delete (length m1) (validator_accounts u) = m1 ++ m2) as <-; [|done].
      rewrite Hm. apply delete_middle.
  - assert (BTree.remove (validator_accounts u) k = validator_accounts u) as ->
      by (by apply BTree.remove_None).
    destruct (BTree.slot_of _ k); do 2 f_equal; by destruct u.
Qed.

Lemma on_tree_data u op : on_tree u op = Some u.
Proof.
  unfold on_tree. simpl. f_equal. destruct u. simpl. f_equal.
  by repeat match goal with t : () |- _ => destruct t end.
Qed.

Lemma set_account_data u k a :
  BTree.sorted (validator_accounts u) →
  set_account u k a = Some (u <| validator_accounts := BTree.insert (validator_accounts u) k a |>).
Proof.
  intros Hs. unfold set_account. cbv zeta. destruct (BTree.slot_of_insert _ k a Hs) as [i Hi].
  cbn [validator_accounts]. change (validator_accounts (u <| validator_accounts := ?m |>)) with m.
  rewrite Hi. cbn [mbind option_bind]. rewrite !on_tree_data. by destruct (BTree.contains_key _ _).
Qed.

Lemma remove_account_data u k :
  remove_account u k = Some (u <| validator_accounts := BTree.remove (validator_accounts u) k |>,
                             BTree.get (validator_accounts u) k).
Proof.
  unfold remove_account. cbv zeta.
  by destruct (BTree.slot_of _ _), (BTree.get _ _); rewrite ?on_tree_data.
Qed.

Lemma set_account_sim s u k a :
  rel w d f s u → sim (rel w d f) (set_account s k a) (set_account u k a).
Proof.
  open_rel x. rewrite set_account_tree, set_account_data by done. apply sim_ret. exists x.
  split_and!; [done..|]. by apply BTree.sorted_insert.
Qed.

Lemma remove_account_sim s u k :
  rel w d f s u → sim (prel (rel w d f)) (remove_account s k) (remove_account u k).
Proof.
  open_rel x. rewrite remove_account_tree, remove_account_data by done. apply sim_ret.
  split; [|done]. exists x. split_and!; [done..|]. by apply BTree.sorted_remove.
Qed.
End operations.

(** ** Withdrawals *)

(** The result of a step that may leave the withdrawal subtree to be rebuilt: the
    flag is the same, and the subtree is up to date unless the flag is set. *)
Definition stale_rel (w d : bool) (f : Frozen T) : ConsensusState T * bool →
  ConsensusState () * bool → Prop :=
  λ p q, p.2 = q.2 ∧ rel (w && negb p.2) d f p.1 q.1.

Lemma rel_weaken w w' d d' f s u :
  (w' = true → w = true) → (d' = true → d = true) → rel w d f s u → rel w' d' f s u.
Proof. intros Hww Hdd (x & -> & Hf & Hw & Hd & Hs). exists x. split_and!; auto. Qed.

Lemma push_request_entry q request e k :
  ∃ p, back (push_request_with_kind q request e k).1 k = Some p ∧
    next_index (push_request_with_kind q request e k).1 = wrapping_add (next_index q) 1 ∧
    (k = DepositRefund ∨ back (push_request_with_kind q request e k).1 DepositRefund = None →
     iter_all (push_request_with_kind q request e k).1 = iter_all q ++ [p]).
Proof.
  eexists. destruct k; simpl.
  - split_and!; [apply last_snoc|done|]. intros [|Hb]; [done|].
    unfold back in Hb. simpl in Hb. apply last_None in Hb. unfold iter_all. simpl. rewrite Hb.
    by rewrite !app_nil_r.
  - split_and!; [apply last_snoc|done|]. intros _. unfold iter_all. simpl. by rewrite (assoc_L (++)).
Qed.

Lemma push_withdrawal_request_with_kind_sim w d f s u request e k defer :
  rel w d f s u →
  sim (stale_rel w d f) (push_withdrawal_request_with_kind s request e k defer)
    (push_withdrawal_request_with_kind u request e k defer).
Proof.
  intros (x & -> & Hf & Hw & Hd & Hs). unfold push_withdrawal_request_with_kind. data_fields u x.
  destruct (push_request_entry (withdrawal_queue u) request e k) as (p & Hp & Hni & Happ).
  destruct (push_request_with_kind _ _ _ _) as [q r] eqn:E. simpl in Hp, Hni, Happ.
  assert (r = Ok false) as -> by (unfold push_request_with_kind in E; by injection E).
  erewrite on_tree_spec by reflexivity. cbn [mbind option_bind].
  destruct (bool_decide (k = Validator) && _) eqn:Hc.
  - destruct defer.
    + apply sim_ret. split; [done|]. cbn [negb fst snd]. rewrite andb_false_r.
      exists x. by split_and!.
    + erewrite on_tree_spec by reflexivity. apply sim_ret. split; [done|]. simpl.
      rewrite andb_true_r. exists (x <| at_withdrawals := q |>). by split_and!.
  - rewrite Hp. cbn [mbind option_bind]. erewrite on_tree_spec by reflexivity. apply sim_ret.
    split; [done|]. simpl. rewrite andb_true_r.
    assert (Hq : iter_all q = iter_all (withdrawal_queue u) ++ [p]).
    { apply Happ. destruct k; [right|by left]. apply andb_false_iff in Hc as [Hc|Hc]; [done|].
      apply bool_decide_eq_false in Hc. by apply eq_None_not_Some. }
    destruct w.
    + exists (x <| at_withdrawals := q |>). split_and!; [|done..].
      erewrite <-(attach_requeue _ _ (append_entry (at_withdrawals x) p)); [reflexivity|].
      simpl. rewrite Hq, <-Hw by done. unfold iter_all. simpl. by rewrite (assoc_L (++)).
    + exists (x <| at_withdrawals := append_entry (at_withdrawals x) p |>). by split_and!.
Qed.

Lemma sim_with {A B} (R R' : A → B → Prop) m m' :
  sim R m m' → (∀ a b, m = Some a → m' = Some b → R a b → R' a b) → sim R' m m'.
Proof. intros [a b Hab|] Hi; constructor; auto. Qed.

Lemma push_flag {T'} `{!StateTree T'} (s : ConsensusState T') request e k defer s' b :
  push_withdrawal_request_with_kind s request e k defer = Some (s', b) → b = true →
  k = Validator ∧ defer = true.
Proof.
  unfold push_withdrawal_request_with_kind. destruct (push_request_with_kind _ _ _ _) as [q [r|]]; [|done].
  destruct (on_tree _ _) as [s1|]; [|done]. cbn [mbind option_bind].
  destruct (bool_decide_reflect (k = Validator)); cbn [andb].
  - destruct (bool_decide _), defer; try done.
    + destruct (on_tree s1 _); cbn; [|done]. by intros [= _ <-].
    + destruct (back q k); cbn; [|done]. destruct (on_tree s1 _); cbn; [|done]. by intros [= _ <-].
  - destruct (back q k); cbn; [|done]. destruct (on_tree s1 _); cbn; [|done]. by intros [= _ <-].
Qed.

Lemma push_refund_sim w d f s u request e :
  rel w d f s u →
  sim (rel w d f) (push_refund_withdrawal_request s request e) (push_refund_withdrawal_request u request e).
Proof.
  intros Hr. unfold push_refund_withdrawal_request.
  apply (sim_bind (λ p q, rel w d f p.1 q.1)); [|intros; by apply sim_ret].
  eapply sim_with; [by apply push_withdrawal_request_with_kind_sim|].
  intros [s' b] [u' b'] Es _ [_ Hrel]. destruct b; [|by rewrite andb_true_r in Hrel].
  by destruct (push_flag _ _ _ _ _ _ _ Es eq_refl).
Qed.

Lemma rebuild_withdrawal_tree_sim w d f s u :
  rel w d f s u → sim (rel true d f) (rebuild_withdrawal_tree s) (rebuild_withdrawal_tree u).
Proof.
  intros (x & -> & Hf & Hw & Hd & Hs). unfold rebuild_withdrawal_tree.
  eapply sim_tree; [reflexivity|reflexivity|].
  exists (x <| at_withdrawals := withdrawal_queue u |>). by split_and!.
Qed.

Lemma push_deposit_sim w d f s u r :
  rel w d f s u → sim (rel w d f) (push_deposit s r) (push_deposit u r).
Proof.
  intros (x & -> & Hf & Hw & Hd & Hs). unfold push_deposit.
  erewrite on_tree_spec by reflexivity. apply sim_ret.
  exists (x <| at_deposits := at_deposits x ++ [r] |>). split_and!; [done..| |done].
  intros Hdt. simpl. by rewrite Hd.
Qed.

Lemma pop_deposit_deferred_sim w d f s u :
  rel w d f s u → sim (prel (rel w false f)) (pop_deposit_deferred s) (pop_deposit_deferred u).
Proof.
  intros (x & -> & Hf & Hw & Hd & Hs). unfold pop_deposit_deferred. data_fields u x.
  destruct (deposit_queue u); [constructor|]. apply sim_ret. split; [|done]. exists x. by split_and!.
Qed.

Lemma rebuild_deposit_tree_sim w d f s u :
  rel w d f s u → sim (rel w true f) (rebuild_deposit_tree s) (rebuild_deposit_tree u).
Proof.
  intros (x & -> & Hf & Hw & Hd & Hs). unfold rebuild_deposit_tree.
  eapply sim_tree; [reflexivity|reflexivity|].
  exists (x <| at_deposits := deposit_queue u |>). by split_and!.
Qed.

(** ** Handlers *)
Section handlers.
Context `{Hc : Crypto}.
Implicit Types (s : ConsensusState T) (u : ConsensusState ()).

(** Splits a conditional or a match on data, on both sides at once. *)
Ltac same_data Hr :=
  let x := fresh "x" in
  destruct (id Hr) as (x & -> & _); match type of Hr with rel _ _ _ _ ?u => data_fields u x end.

Lemma refund_deposit_sim w d f s u c a reason n :
  rel w d f s u → sim (rel w d f) (refund_deposit s c a reason n) (refund_deposit u c a reason n).
Proof.
  intros Hr. unfold refund_deposit. same_data Hr.
  destruct (parse_withdrawal_credentials c) as [addr|]; [|by apply sim_ret].
  destruct (invalid_deposit_refund_split a (invalid_deposit_tax u)) as [ra ta].
  apply (sim_bind (rel w d f)).
  - destruct (0 <? ra)%Z; [by apply push_refund_sim|by apply sim_ret].
  - intros s1 u1 Hr1. same_data Hr1. destruct (0 <? ta)%Z; [by apply push_refund_sim|by apply sim_ret].
Qed.

Lemma credit_deposit_sim w d f s u r acc n :
  rel w d f s u → sim (rel w d f) (credit_deposit s r acc n) (credit_deposit u r acc n).
Proof.
  intros Hr. unfold credit_deposit. same_data Hr. cbv zeta.
  destruct (_ && _ && _ && _); [|by apply set_account_sim].
  eapply sim_bind; [by apply set_account_sim|]. intros. by apply add_validator_sim.
Qed.

Lemma process_deposit_sim w d f s u r dom n m :
  rel w d f s u → sim (rel w d f) (process_deposit s r dom n m) (process_deposit u r dom n m).
Proof.
  intros Hr. unfold process_deposit. same_data Hr.
  destruct (verify_deposit_request u r dom); [|by apply refund_deposit_sim].
  destruct (deposit_account u r); [by apply credit_deposit_sim|by apply sim_ret].
Qed.

Lemma process_deposits_loop_sim w f k s u b dom n m d :
  (b = false → d = true) → rel w d f s u →
  sim (λ p q, p.2 = q.2 ∧ rel w (negb p.2) f p.1 q.1) (process_deposits_loop k s b dom n m)
    (process_deposits_loop k u b dom n m).
Proof.
  revert s u b d. induction k as [|k IH]; intros s u b d Hb Hr; cbn [process_deposits_loop].
  - apply sim_ret. split; [done|]. eapply rel_weaken; [..|exact Hr]; destruct b; auto.
  - pose proof (pop_deposit_deferred_sim w d f s u Hr) as [[s1 r1] [u1 r2] [Hr1 ?]|].
    + simpl in *. subst. eapply sim_bind; [by apply process_deposit_sim|].
      intros. by eapply (IH _ _ true false).
    + apply sim_ret. split; [done|]. eapply rel_weaken; [..|exact Hr]; destruct b; auto.
Qed.

Lemma process_deposits_sim w f s u dom n m :
  rel w true f s u → sim (rel w true f) (process_deposits s dom n m) (process_deposits u dom n m).
Proof.
  intros Hr. unfold process_deposits.
  assert (max_deposits_per_epoch s = max_deposits_per_epoch u) as -> by (by destruct Hr as (x & -> & _)).
  eapply sim_bind; [by apply (process_deposits_loop_sim w f _ s u false dom n m true)|].
  intros [s' b] [u' b'] [Hb Hr']. simpl in *. subst b'. destruct b; [|by apply sim_ret].
  by eapply rebuild_deposit_tree_sim.
Qed.

Lemma no_stale w d f s u : rel w d f s u → sim (stale_rel w d f) (Some (s, false)) (Some (u, false)).
Proof. intros Hr. apply sim_ret. split; [done|]. simpl. by rewrite andb_true_r. Qed.

Lemma enqueue_sim w d f s u c k e a :
  rel w d f s u → sim (stale_rel w d f) (enqueue s c k e a) (enqueue u c k e a).
Proof. apply push_withdrawal_request_with_kind_sim. Qed.

Lemma apply_withdrawal_request_deferred_sim w d f s u r n :
  rel w d f s u →
  sim (stale_rel w d f) (apply_withdrawal_request_deferred s r n) (apply_withdrawal_request_deferred u r n).
Proof.
  intros Hr. unfold apply_withdrawal_request_deferred. same_data Hr.
  destruct (get_account u (validator_pubkey r)) as [acc|]; [|by apply no_stale].
  destruct (negb _); [by apply no_stale|].
  destruct (match status acc with SubmittedExitRequest | FullPayoutPending => true | _ => false end);
    [by apply no_stale|].
  destruct (_ <=? _)%Z; [by apply no_stale|].
  apply (sim_bind (prel (rel w d f))).
  { destruct (bool_decide _); [|by apply sim_ret].
    apply (sim_bind (rel w d f)).
    - destruct (_ && _); [|by apply sim_ret].
      eapply sim_bind; [by apply remove_added_validator_sim|]. intros ? ? [? _]. by apply sim_ret.
    - intros. eapply sim_bind; [by apply set_account_sim|]. intros. by apply sim_ret. }
  clear Hr. intros [s1 acc1] [u1 acc2] [Hr Hacc]. simpl in Hr, Hacc. subst acc2. same_data Hr.
  destruct (status acc1); try by apply no_stale.
  - destruct (_ =? _)%Z.
    + destruct (negb _); [by apply no_stale|]. destruct (negb _); [by apply no_stale|].
      eapply sim_bind; [by apply push_removed_validator_sim|]. intros.
      eapply sim_bind; [by apply increment_pending_active_validator_exits_sim|]. intros.
      eapply sim_bind; [by apply set_account_sim|]. intros. by apply enqueue_sim.
    + destruct (_ =? _)%Z; [by apply no_stale|by apply enqueue_sim].
  - destruct (_ =? _)%Z.
    + eapply sim_bind; [by apply set_account_sim|]. intros. by apply enqueue_sim.
    + destruct (_ =? _)%Z; [by apply no_stale|by apply enqueue_sim].
Qed.

(** The loops carry the flag along. *)
Definition route_rel (f : Frozen T) := λ (p : ConsensusState T * bool) (q : ConsensusState () * bool),
  p.2 = q.2 ∧ rel (negb p.2) true f p.1 q.1.

Lemma route_request_sim f p q r n :
  route_rel f p q → sim (route_rel f) (route_request p.1 p.2 r n) (route_request q.1 q.2 r n).
Proof.
  destruct p as [s b], q as [u b']. intros [Hb Hr]. simpl in *. subst b'. unfold route_request.
  destruct r as [[dep|wr|]|m].
  - eapply sim_bind; [by apply push_deposit_sim|]. intros. by apply sim_ret.
  - eapply sim_bind; [by apply apply_withdrawal_request_deferred_sim|].
    intros [s1 b1] [u1 b2] [Hb Hr1]. simpl in *. subst b2. apply sim_ret. split; [done|]. simpl.
    by rewrite negb_orb.
  - by apply sim_ret.
  - eapply sim_bind; [by apply refund_deposit_sim|]. intros. by apply sim_ret.
Qed.

Lemma sim_loop {A B C} (R : A → B → Prop) (g : A → C → option A) (h : B → C → option B) l a b :
  R a b → (∀ a b c, R a b → sim R (g a c) (h b c)) → sim R (for_each g a l) (for_each h b l).
Proof.
  intros Hr Hgh. revert a b Hr. induction l as [|c l IH]; intros a b Hr; [by apply sim_ret|].
  cbn [for_each]. by eapply sim_bind; [apply Hgh|].
Qed.

Lemma route_entry_sim f p q e n :
  route_rel f p q → sim (route_rel f) (route_entry p e n) (route_entry q e n).
Proof.
  intros Hr. unfold route_entry. destruct (parse_eth_entry e); [|by apply sim_ret].
  apply sim_loop; [done|]. intros. by apply route_request_sim.
Qed.

Lemma process_buffered_requests_sim f s u dom n m :
  rel true true f s u →
  sim (rel true true f) (process_buffered_requests s dom n m) (process_buffered_requests u dom n m).
Proof.
  intros Hr. unfold process_buffered_requests.
  eapply sim_bind; [by apply take_pending_execution_requests_sim|]. clear Hr.
  intros [s1 l] [u1 l'] [Hr Hl]. simpl in Hr, Hl. subst l'. cbv zeta.
  apply (sim_bind (rel true true f)).
  { destruct (concat _); [by apply sim_ret|by apply push_protocol_param_changes_sim]. }
  intros. eapply sim_bind; [by apply reject_invalid_validator_count_changes_sim|]. intros.
  eapply sim_bind; [apply (sim_loop (route_rel f)); [done|]; intros; by apply route_entry_sim|].
  intros [s2 c] [u2 c'] [Hst Hr2]. simpl in Hst, Hr2. subst c'.
  apply (sim_bind (rel true true f)).
  { destruct c; [by eapply rebuild_withdrawal_tree_sim|by apply sim_ret]. }
  intros. by apply process_deposits_sim.
Qed.

Lemma remove_below_minimum_sim w d f e l s u c :
  rel w d f s u → sim (rel w d f) (remove_below_minimum e l s c) (remove_below_minimum e l u c).
Proof.
  intros Hr. destruct c as [[k j] st]. unfold remove_below_minimum.
  destruct (negb _); [by apply sim_ret|]. destruct (bool_decide _); [by apply sim_ret|].
  destruct st; try by apply sim_ret.
  - eapply sim_bind; [by apply push_removed_validator_sim|]. intros.
    by apply increment_pending_active_validator_exits_sim.
  - destruct (_ <? _)%Z; [|by apply sim_ret].
    eapply sim_bind; [by apply remove_added_validator_sim|]. clear Hr.
    intros [s1 b1] [u1 b2] [Hr _]. simpl in *. same_data Hr.
    destruct (get_account u1 k); [by apply set_account_sim|by apply sim_ret].
Qed.

Lemma enforce_minimum_stake_sim w d f s u :
  rel w d f s u → sim (rel w d f) (enforce_minimum_stake s) (enforce_minimum_stake u).
Proof.
  intros Hr. unfold enforce_minimum_stake. destruct (id Hr) as (x & -> & Hf & Hw & Hd & Hs).
  cbv zeta. data_fields u x.
  destruct (negb _); [by apply sim_ret|]. destruct (_ <? _)%Z.
  - eapply sim_tree; [reflexivity|reflexivity|]. exists x. by split_and!.
  - apply sim_loop; [done|]. intros. by apply remove_below_minimum_sim.
Qed.

Lemma pay_entry_sim w d f min s u e :
  rel w d f s u → sim (rel w d f) (pay_entry min s e) (pay_entry min u e).
Proof.
  intros Hr. unfold pay_entry. same_data Hr.
  destruct (bool_decide _); [by apply sim_ret|].
  destruct (get_account u (pubkey e)) as [acc|]; [|by apply sim_ret].
  destruct (negb _); [by apply sim_ret|]. cbv zeta. destruct (_ =? _)%Z; [|by apply set_account_sim].
  eapply sim_bind; [by apply remove_account_sim|]. intros ? ? [? _]. by apply sim_ret.
Qed.

Lemma pop_by_index_next q e i q' w :
  pop_by_index q e i = Some (q', w) → next_index q' = next_index q.
Proof.
  unfold pop_by_index. destruct (front_is _ _).
  - destruct (withdrawals q) as [|w1 l]; [done|]. intros [= <- <-].
    unfold decrement_pending_count. destruct (negb _); [done|]. simpl. by destruct (_ !! _).
  - destruct (front_is _ _); [|done]. destruct (refunds q) as [|w1 l]; [done|]. by intros [= <- <-].
Qed.

(** Between the pops and the final rebuild the withdrawal subtree is stale. *)
Definition paid_rel (d : bool) (f : Frozen T) := λ (p : ConsensusState T * bool) (q : ConsensusState () * bool),
  p.2 = q.2 ∧ rel (negb p.2) d f p.1 q.1.

Lemma apply_index_sim d f e min p q i :
  paid_rel d f p q → sim (paid_rel d f) (apply_index e min p i) (apply_index e min q i).
Proof.
  destruct p as [s b], q as [u b']. intros [Hb Hr]. simpl in Hb, Hr. subst b'. unfold apply_index.
  destruct (id Hr) as (x & -> & Hf & Hw & Hd & Hs). data_fields u x.
  destruct (pop_by_index (withdrawal_queue u) e i) as [[q w]|] eqn:E; [|by apply sim_ret].
  apply (sim_bind (rel false d f)); [|intros; by apply sim_ret].
  apply pay_entry_sim. exists x. split_and!; [|done..].
  unfold attach. f_equal. unfold tree_args, rebuild_args. simpl. by rewrite (pop_by_index_next _ _ _ _ _ E).
Qed.

Lemma apply_withdrawal_payouts_sim d f s u e l :
  rel true d f s u →
  sim (rel true d f) (apply_withdrawal_payouts s e l) (apply_withdrawal_payouts u e l).
Proof.
  intros Hr. unfold apply_withdrawal_payouts. same_data Hr.
  destruct (negb _); [constructor|]. cbv zeta.
  eapply sim_bind; [apply (sim_loop (paid_rel d f)); [done|]; intros; by apply apply_index_sim|].
  intros [s1 b] [u1 b'] [Hb Hr1]. simpl in Hb, Hr1. subst b'. destruct b; [|by apply sim_ret].
  by eapply rebuild_withdrawal_tree_sim.
Qed.

Lemma activate_sim w d f s u v : rel w d f s u → sim (rel w d f) (activate s v) (activate u v).
Proof.
  intros Hr. unfold activate. same_data Hr. destruct (get_account u _); [|constructor].
  by apply set_account_sim.
Qed.

Lemma depart_sim w d f s u k : rel w d f s u → sim (rel w d f) (depart s k) (depart u k).
Proof.
  intros Hr. unfold depart. same_data Hr. destruct (get_account u k); [|by apply sim_ret].
  by apply set_account_sim.
Qed.

Lemma apply_committee_transition_sim w d f s u k :
  rel w d f s u →
  sim (prel (rel w d f)) (apply_committee_transition s k) (apply_committee_transition u k).
Proof.
  intros Hr. unfold apply_committee_transition. same_data Hr. cbv zeta.
  eapply sim_bind; [by apply reset_pending_active_validator_exits_sim|]. intros s1 u1 Hr1. same_data Hr1.
  destruct (_ && _); [by apply sim_ret|].
  apply (sim_bind (rel w d f)).
  { destruct (BTree.get _ _); [|by apply sim_ret]. apply sim_loop; [done|]. intros. by apply activate_sim. }
  intros s2 u2 Hr2. same_data Hr2.
  eapply sim_bind; [apply sim_loop; [exact Hr2|]; intros; by apply depart_sim|].
  intros. by apply sim_ret.
Qed.

Lemma apply_param_sim w d f s u p : rel w d f s u → sim (rel w d f) (apply_param s p) (apply_param u p).
Proof.
  intros Hr. destruct p; cbn [apply_param].
  - by apply set_minimum_stake_sim.
  - destruct (_ =? _)%Z; [constructor|]. destruct Hr as (x & -> & Hf & Hw & Hd & Hs). data_fields u x.
    destruct (expect _) as [e|]; [|constructor]. apply sim_ret. exists x. by split_and!.
  - by apply set_allowed_timestamp_future_ms_sim.
  - by apply set_treasury_address_sim.
  - by apply set_max_deposits_per_epoch_sim.
  - by apply set_max_withdrawals_per_epoch_sim.
  - destruct (_ <? _)%Z; [by apply set_observers_per_validator_sim|constructor].
  - by apply set_minimum_validator_count_sim.
  - destruct (_ <? _)%Z; [by apply sim_ret|by apply set_invalid_deposit_tax_sim].
  - by apply set_max_pending_withdrawals_per_validator_sim.
  - by apply set_max_validator_count_sim.
Qed.

(** The changes are drained before they are applied; applying one does not look at them. *)
Lemma apply_param_drained {T'} `{!StateTree T'} (s : ConsensusState T') l p :
  apply_param (s <| protocol_param_changes := l |>) p
  = (λ v : ConsensusState T', v <| protocol_param_changes := l |>) <$> apply_param s p.
Proof.
  destruct p; cbn [apply_param]; try (unfold set_minimum_stake, set_allowed_timestamp_future_ms,
    set_treasury_address, set_max_deposits_per_epoch, set_max_withdrawals_per_epoch,
    set_observers_per_validator, set_minimum_validator_count, set_invalid_deposit_tax,
    set_max_pending_withdrawals_per_validator, set_max_validator_count, on_tree);
    cbn [ssz_tree]; repeat (destruct (_ =? _)%Z || destruct (_ <? _)%Z || destruct (expect _)
      || destruct (tree_do _ _)); reflexivity.
Qed.

Lemma apply_params_drained {T'} `{!StateTree T'} (s : ConsensusState T') l ps :
  for_each apply_param (s <| protocol_param_changes := l |>) ps
  = (λ v : ConsensusState T', v <| protocol_param_changes := l |>) <$> for_each apply_param s ps.
Proof.
  revert s. induction ps as [|p ps IH]; intros s; [done|]. cbn [for_each].
  rewrite apply_param_drained. destruct (apply_param s p); [apply IH|done].
Qed.

Lemma apply_protocol_parameter_changes_sim w d f s u :
  rel w d f s u →
  sim (prel (rel w d f)) (apply_protocol_parameter_changes s) (apply_protocol_parameter_changes u).
Proof.
  intros Hr. unfold apply_protocol_parameter_changes.
  eapply sim_bind; [by apply reject_invalid_validator_count_changes_sim|]. clear Hr.
  intros s1 u1 Hr. cbv zeta. rewrite !apply_params_drained.
  assert (protocol_param_changes s1 = protocol_param_changes u1) as -> by (by destruct Hr as (x & -> & _)).
  pose proof (sim_loop (rel w d f) apply_param apply_param (protocol_param_changes u1) s1 u1 Hr
    (λ a b c, apply_param_sim w d f a b c)) as [s2 u2 Hr2|]; [|constructor].
  cbn [mbind option_bind fmap option_fmap option_map].
  destruct Hr2 as (x & -> & Hf & Hw & Hd & Hs).
  apply (sim_bind (rel w d f)); [|intros; by apply sim_ret].
  eapply sim_tree; [reflexivity|reflexivity|]. exists x. by split_and!.
Qed.
End handlers.
End sync.
