(* ===== verification/StateCodec.v ===== *)
(** * StateCodec: persistence of the state (types/src/consensus_state/mod.rs, from
    line 2086, [capture_state_root], and the checkpoint codec of types/src/checkpoint.rs)

    The serialized state carries the data fields and, as [captured_bytes], a
    serialized snapshot of itself taken when the state root was captured; the tree,
    its frozen copy and the captured root are rebuilt on decoding.  The [ssz] crate's
    container encoding of a checkpoint and the error of a key that does not decode
    are parameters ([SszLib]).  A decoder returns [None] inside [Ok] where the code
    would panic in the tree. *)
From S2P Require Import Prelude Codec Crypto BTree Epocher Account ExecutionRequest ProtocolParams.
From S2P Require Import Withdrawal SszTree SszTreeFacts SszHash SszStateTree SszStateTreeFacts.
From S2P Require Import ConsensusState StateSync.

(** The [ssz] crate's container of a byte list and a 32-byte vector. *)
Class SszLib := {
  ssz_container : bytes → bytes → bytes;
  ssz_parse : bytes → option (bytes * bytes);
  (** The error of [PublicKey::read_cfg] on bytes that are no key. *)
  key_error : Error
}.
Class SszLibOk `{SszLib} : Prop :=
  ssz_roundtrip data digest :
    length digest = 32 → ssz_parse (ssz_container data digest) = Some (data, digest).

Section codec.
Context `{Hc : Crypto} `{Hl : SszLib}.

(** ** Checkpoints *)
Definition from_ssz_bytes (bs : bytes) : option Checkpoint :=
  '(data, digest) ← ssz_parse bs;
  if negb (bool_decide (sha256 data = digest)) then None else Some (mkCheckpoint data digest).
Definition write_checkpoint (cp : Checkpoint) : bytes :=
  let ssz_bytes := ssz_container (cp_data cp) (cp_digest cp) in
  put_len (length ssz_bytes) ++ ssz_bytes.
Definition read_checkpoint : reader Checkpoint :=
  len ← get_len;
  n ← remaining;
  ensure (negb (n <? len)) (Invalid "Checkpoint" "improper encoded length");;
  payload ← take_bytes len;
  match from_ssz_bytes payload with
  | Some cp => mret cp
  | None => fail (Invalid "Checkpoint" "Unable to decode SSZ bytes for checkpoint")
  end.

(** ** Parts of the state *)
Definition read_node_key : reader bytes :=
  k ← take_bytes 32; ensure (ed25519_valid k) key_error;; mret k.
Definition read_bls_key : reader bytes :=
  k ← take_bytes 48; ensure (bls_valid k) key_error;; mret k.

Definition write_account_entry (e : bytes * ValidatorAccount) : bytes := e.1 ++ write_account e.2.
Definition read_account_entry : reader (bytes * ValidatorAccount) :=
  k ← take_bytes 32; a ← read_account; mret (k, a).

Definition write_added (v : AddedValidator) : bytes := node_key v ++ consensus_key v.
Definition read_added : reader AddedValidator :=
  nk ← read_node_key; ck ← read_bls_key; mret (mkAddedValidator nk ck).
Definition write_added_entry (e : Z * list AddedValidator) : bytes :=
  u64_to_be_bytes e.1 ++ write_list write_added e.2.
Definition read_added_entry : reader (Z * list AddedValidator) :=
  k ← try_get_u64; vs ← read_list read_added; mret (k, vs).

Definition write_bytes (bs : bytes) : bytes := put_len (length bs) ++ bs.
Definition read_bytes : reader bytes :=
  len ← get_len;
  n ← remaining;
  ensure (negb (n <? len)) EndOfBuffer;;
  take_bytes len.

Definition write_option {A} (w : A → bytes) (o : option A) : bytes :=
  match o with Some a => put_u8 1 ++ w a | None => put_u8 0 end.
Definition read_option {A} (r : reader A) : reader (option A) :=
  b ← try_get_u8;
  if negb (b =? 0)%Z then a ← r; mret (Some a) else mret None.

Definition insert_all {K V} `{Ord K} (l : list (K * V)) : BTreeMap K V :=
  foldl (λ m '(k, v), BTree.insert m k v) [] l.

Section state.
Context {T : Type} `{HT : StateTree T}.
Implicit Type s : ConsensusState T.

Definition write_state s : bytes :=
  u64_to_be_bytes (epoch s) ++ u64_to_be_bytes (view s) ++ u64_to_be_bytes (latest_height s)
  ++ write_list write_deposit (deposit_queue s)
  ++ write_queue (withdrawal_queue s)
  ++ write_list write_param (protocol_param_changes s)
  ++ write_list write_account_entry (validator_accounts s)
  ++ write_option write_checkpoint (pending_checkpoint s)
  ++ write_list write_added_entry (added_validators s)
  ++ write_list id (removed_validators s)
  ++ write_list write_bytes (pending_execution_requests s)
  ++ head_block_hash (forkchoice s) ++ safe_block_hash (forkchoice s)
  ++ finalized_block_hash (forkchoice s)
  ++ epoch_genesis_hash s ++ head_digest s
  ++ u64_to_be_bytes (validator_minimum_stake s) ++ u64_to_be_bytes (allowed_timestamp_future_ms s)
  ++ treasury_address s
  ++ u64_to_be_bytes (max_deposits_per_epoch s) ++ u64_to_be_bytes (max_withdrawals_per_epoch s)
  ++ u32_to_be_bytes (observers_per_validator s) ++ u64_to_be_bytes (max_validator_count s)
  ++ u64_to_be_bytes (minimum_validator_count s) ++ u64_to_be_bytes (pending_active_validator_exits s)
  ++ u64_to_be_bytes (invalid_deposit_tax s)
  ++ u64_to_be_bytes (max_pending_withdrawals_per_validator s)
  ++ write_epocher (epocher s)
  ++ u64_to_be_bytes (proof_el_block_number s)
  ++ write_option write_bytes (captured_bytes s).

Definition invalid_state (what : string) : Error := Invalid "ConsensusState" what.

(** The data fields, with the checks on their values; the derived fields are those
    of [SszStateTree::default()], before any rebuild. *)
Definition read_fields : reader (option (ConsensusState T)) :=
  epoch ← try_get_u64;
  view ← try_get_u64;
  latest_height ← try_get_u64;
  deposit_queue ← read_list read_deposit;
  withdrawal_queue ← read_queue;
  protocol_param_changes ← read_list read_param;
  accounts ← read_list read_account_entry;
  let validator_accounts := insert_all accounts in
  pending_checkpoint ← read_option read_checkpoint;
  added ← read_list read_added_entry;
  let added_validators := insert_all added in
  removed_validators ← read_list read_node_key;
  pending_execution_requests ← read_list read_bytes;
  head ← take_bytes 32;
  safe ← take_bytes 32;
  finalized ← take_bytes 32;
  epoch_genesis_hash ← take_bytes 32;
  head_digest ← take_bytes 32;
  validator_minimum_stake ← try_get_u64;
  allowed_timestamp_future_ms ← try_get_u64;
  ensure (contains MIN_ALLOWED_TIMESTAMP_FUTURE_MS MAX_ALLOWED_TIMESTAMP_FUTURE_MS
            allowed_timestamp_future_ms) (invalid_state "allowed timestamp future out of bounds");;
  treasury_address ← take_bytes 20;
  max_deposits_per_epoch ← try_get_u64;
  ensure (max_deposits_per_epoch <=? MAX_MAX_DEPOSITS_PER_EPOCH)%Z
    (invalid_state "max deposits per epoch out of bounds");;
  max_withdrawals_per_epoch ← try_get_u64;
  ensure (contains MAX_WITHDRAWALS_PER_EPOCH_MIN MAX_WITHDRAWALS_PER_EPOCH_MAX
            max_withdrawals_per_epoch) (invalid_state "max withdrawals per epoch out of bounds");;
  observers_per_validator ← try_get_u32;
  ensure (observers_per_validator <=? MAX_OBSERVERS_PER_VALIDATOR)%Z
    (invalid_state "observers per validator out of bounds");;
  max_validator_count ← try_get_u64;
  ensure (contains MIN_MAX_VALIDATOR_COUNT MAX_MAX_VALIDATOR_COUNT max_validator_count)
    (invalid_state "max validator count out of bounds");;
  minimum_validator_count ← try_get_u64;
  ensure (negb (minimum_validator_count =? 0)%Z)
    (invalid_state "minimum validator count out of bounds");;
  ensure (minimum_validator_count <=? max_validator_count)%Z
    (invalid_state "minimum validator count exceeds max validator count");;
  pending_active_validator_exits ← try_get_u64;
  ensure (pending_active_validator_exits <=? count is_serving (BTree.values validator_accounts))%Z
    (invalid_state "pending active validator exits exceeds active validator count");;
  invalid_deposit_tax ← try_get_u64;
  ensure (invalid_deposit_tax <=? MAX_INVALID_DEPOSIT_TAX)%Z
    (invalid_state "invalid deposit tax out of bounds");;
  max_pending_withdrawals_per_validator ← try_get_u64;
  ensure (contains MAX_PENDING_WITHDRAWALS_PER_VALIDATOR_MIN MAX_PENDING_WITHDRAWALS_PER_VALIDATOR_MAX
            max_pending_withdrawals_per_validator)
    (invalid_state "max pending withdrawals per validator out of bounds");;
  epocher ← read_epocher;
  proof_el_block_number ← try_get_u64;
  captured_bytes ← read_option read_bytes;
  mret (t ← tree_default;
    Some (mkConsensusState epoch view latest_height head_digest deposit_queue withdrawal_queue
      validator_accounts protocol_param_changes pending_checkpoint added_validators removed_validators
      pending_execution_requests (mkForkchoiceState head safe finalized) epoch_genesis_hash
      validator_minimum_stake allowed_timestamp_future_ms treasury_address max_deposits_per_epoch
      max_withdrawals_per_epoch observers_per_validator max_validator_count minimum_validator_count
      pending_active_validator_exits invalid_deposit_tax max_pending_withdrawals_per_validator epocher
      t t [] zero32 proof_el_block_number captured_bytes)).

(** The snapshot inside is decoded by the same decoder; it is shorter than the
    bytes it came in, so a fuel of their number is enough. *)
Fixpoint read_state_fuel (fuel : nat) : reader (option (ConsensusState T)) :=
  o ← read_fields;
  match o ≫= rebuild_ssz_tree with
  | None => mret None
  | Some state =>
      match captured_bytes state with
      | None => mret (Some state)
      | Some bs =>
          match fuel with
          | 0 => mret None
          | S fuel =>
              match decode_all (read_state_fuel fuel) bs with
              | Err e => fail e
              | Ok None => mret None
              | Ok (Some inner) =>
                  match tree_root (proof_tree inner) with
                  | None => mret None
                  | Some r =>
                      mret (Some (state <| proof_tree := proof_tree inner |> <| state_root := r |>
                        <| proof_validator_keys := BTree.keys (validator_accounts inner) |>))
                  end
              end
          end
      end
  end.
Definition read_state : reader (option (ConsensusState T)) := λ buf, read_state_fuel (length buf) buf.

(** ** Capturing the state root *)
Definition capture_state_root s (el_block_number : Z) : option (ConsensusState T) :=
  s ← on_tree s (Set_dynamic_epoch_schedule (write_epocher (epocher s)));
  r ← tree_root (ssz_tree s);
  let s := s <| state_root := r |> <| proof_tree := ssz_tree s |>
             <| proof_validator_keys := BTree.keys (validator_accounts s) |>
             <| proof_el_block_number := el_block_number |> in
  let snapshot := (clone_state s) <| captured_bytes := None |> in
  Some (s <| captured_bytes := Some (write_state snapshot) |>).

(** ** Checkpoints of the state *)
Definition checkpoint_new s : Checkpoint :=
  let data := write_state s in mkCheckpoint data (sha256 data).
Definition state_try_from (cp : Checkpoint) : result Error (option (ConsensusState T)) :=
  if negb (bool_decide (sha256 (cp_data cp) = cp_digest cp))
  then Err (Invalid "Checkpoint" "Digest verification failed") else
  match read_state (cp_data cp) with
  | Err e => Err e
  | Ok (None, _) => Ok None
  | Ok (Some state, _) =>
      match pending_checkpoint state with
      | Some _ => Err (Invalid "Checkpoint" "Pending checkpoint not allowed")
      | None => Ok (Some state)
      end
  end.
End state.
End codec.

(** ** Round trips of the parts *)
Section parts.
Context `{Hc : Crypto} `{!CryptoOk} `{Hl : SszLib} `{!SszLibOk}.

Definition checkpoint_wf (cp : Checkpoint) : Prop :=
  sha256 (cp_data cp) = cp_digest cp ∧ len_ok (length (ssz_container (cp_data cp) (cp_digest cp))).

Lemma len_fits n (buf rest : bytes) :
  length buf = n → negb (length (buf ++ rest) <? n) = true.
Proof. intros <-. rewrite length_app. apply negb_true_iff, Nat.ltb_ge. lia. Qed.

Lemma read_checkpoint_app cp rest :
  checkpoint_wf cp → read_checkpoint (write_checkpoint cp ++ rest) = Ok (cp, rest).
Proof.
  intros [Hd Hn]. unfold read_checkpoint, write_checkpoint. codec.
  erewrite reader_bind_step by reflexivity.
  erewrite reader_bind_step by (by apply ensure_true, len_fits).
  erewrite reader_bind_step by (by apply take_bytes_app).
  unfold from_ssz_bytes. rewrite ssz_roundtrip by (rewrite <-Hd; apply length_sha256).
  cbn [mbind option_bind]. rewrite bool_decide_true by done. by destruct cp.
Qed.

Lemma read_bytes_app bs rest : len_ok (length bs) → read_bytes (write_bytes bs ++ rest) = Ok (bs, rest).
Proof.
  intros Hn. unfold read_bytes, write_bytes. codec. erewrite reader_bind_step by reflexivity.
  erewrite reader_bind_step by (by apply ensure_true, len_fits). by apply take_bytes_app.
Qed.

Lemma read_option_app {A} (w : A → bytes) (r : reader A) (P : A → Prop) o rest :
  (∀ a rest, P a → r (w a ++ rest) = Ok (a, rest)) → (∀ a, o = Some a → P a) →
  read_option r (write_option w o ++ rest) = Ok (o, rest).
Proof.
  intros Hrw HP. unfold read_option, write_option. destruct o as [a|].
  - rewrite <-(assoc_L (++)). erewrite reader_bind_step by (apply try_get_u8_app; lia). cbn [Z.eqb negb].
    by erewrite reader_bind_step by (apply Hrw; auto).
  - by erewrite reader_bind_step by (apply try_get_u8_app; lia).
Qed.

Definition node_key_wf (k : bytes) : Prop := length k = 32 ∧ ed25519_valid k = true.
Definition added_wf (v : AddedValidator) : Prop :=
  node_key_wf (node_key v) ∧ length (consensus_key v) = 48 ∧ bls_valid (consensus_key v) = true.
Definition added_entry_wf (e : Z * list AddedValidator) : Prop :=
  is_u64 e.1 ∧ len_ok (length e.2) ∧ Forall added_wf e.2.
Definition account_entry_wf (e : bytes * ValidatorAccount) : Prop :=
  length e.1 = 32 ∧ account_wf e.2.

Lemma read_node_key_app k rest : node_key_wf k → read_node_key (k ++ rest) = Ok (k, rest).
Proof. intros [H1 H2]. unfold read_node_key. by codec. Qed.

Lemma read_added_app v rest : added_wf v → read_added (write_added v ++ rest) = Ok (v, rest).
Proof.
  intros (H1 & H2 & H3). unfold read_added, write_added. rewrite <-(assoc_L (++)).
  erewrite reader_bind_step by (by apply read_node_key_app).
  unfold read_bls_key. erewrite reader_bind_step; [|by codec]. by destruct v.
Qed.

Lemma read_added_entry_app e rest :
  added_entry_wf e → read_added_entry (write_added_entry e ++ rest) = Ok (e, rest).
Proof.
  intros (H1 & H2 & H3). unfold read_added_entry, write_added_entry. codec.
  erewrite reader_bind_step by (by apply (read_list_app _ _ added_wf); [apply read_added_app|..]).
  by destruct e.
Qed.

Lemma read_account_entry_app e rest :
  account_entry_wf e → read_account_entry (write_account_entry e ++ rest) = Ok (e, rest).
Proof.
  intros [H1 H2]. unfold read_account_entry, write_account_entry. codec.
  rewrite (reader_bind_step _ _ _ _ _ (ValidatorAccount_codec_ok e.2 rest H2)). by destruct e.
Qed.

Lemma insert_all_sorted {K V} `{OrdOk K} (l : list (K * V)) : BTree.sorted l → insert_all l = l.
Proof.
  unfold insert_all. intros Hs. change l with ([] ++ l) in Hs. rewrite <-(app_nil_l l) at 2.
  revert Hs. generalize (@nil (K * V)). induction l as [|[k v] l IH]; intros acc Hs; simpl.
  - by rewrite app_nil_r.
  - rewrite (BTree.insert_last acc k v).
    + rewrite IH by (by rewrite <-(assoc_L (++))). by rewrite <-(assoc_L (++)).
    + apply BTree.sorted_app in Hs as (_ & _ & Hlt). apply Forall_forall. intros e He.
      by apply (Hlt e (k, v)); [|left].
Qed.
End parts.

(** ** Round trip of the state *)
Section roundtrip.
Context `{Hc : Crypto} `{!CryptoOk} `{Hl : SszLib} `{!SszLibOk}.
Context {T : Type} `{!StateTree T} `{!StateTreeOk T}.
Implicit Type s : ConsensusState T.

(** The shape the Rust types give the fields, and the bounds the decoder checks. *)
Record state_wf s : Prop := {
  wf_epoch : is_u64 (epoch s);
  wf_view : is_u64 (view s);
  wf_height : is_u64 (latest_height s);
  wf_deposits : len_ok (length (deposit_queue s)) ∧ Forall deposit_wf (deposit_queue s);
  wf_withdrawals : queue_wf (withdrawal_queue s);
  wf_params : len_ok (length (protocol_param_changes s)) ∧ Forall codec_wf (protocol_param_changes s);
  wf_accounts : BTree.sorted (validator_accounts s) ∧ len_ok (length (validator_accounts s)) ∧
    Forall account_entry_wf (validator_accounts s);
  wf_checkpoint : ∀ cp, pending_checkpoint s = Some cp → checkpoint_wf cp;
  wf_added : BTree.sorted (added_validators s) ∧ len_ok (length (added_validators s)) ∧
    Forall added_entry_wf (added_validators s);
  wf_removed : len_ok (length (removed_validators s)) ∧ Forall node_key_wf (removed_validators s);
  wf_requests : len_ok (length (pending_execution_requests s)) ∧
    Forall (λ r, len_ok (length r)) (pending_execution_requests s);
  wf_hashes : Forall (λ h, length h = 32) [head_block_hash (forkchoice s);
    safe_block_hash (forkchoice s); finalized_block_hash (forkchoice s); epoch_genesis_hash s;
    head_digest s];
  wf_stake : is_u64 (validator_minimum_stake s);
  wf_timestamp : (MIN_ALLOWED_TIMESTAMP_FUTURE_MS ≤ allowed_timestamp_future_ms s
    ≤ MAX_ALLOWED_TIMESTAMP_FUTURE_MS)%Z;
  wf_treasury : length (treasury_address s) = 20;
  wf_max_deposits : (0 ≤ max_deposits_per_epoch s ≤ MAX_MAX_DEPOSITS_PER_EPOCH)%Z;
  wf_max_withdrawals : (MAX_WITHDRAWALS_PER_EPOCH_MIN ≤ max_withdrawals_per_epoch s
    ≤ MAX_WITHDRAWALS_PER_EPOCH_MAX)%Z;
  wf_observers : (0 ≤ observers_per_validator s ≤ MAX_OBSERVERS_PER_VALIDATOR)%Z;
  wf_max_count : (MIN_MAX_VALIDATOR_COUNT ≤ max_validator_count s ≤ MAX_MAX_VALIDATOR_COUNT)%Z;
  wf_min_count : (0 < minimum_validator_count s ≤ max_validator_count s)%Z;
  wf_exits : (0 ≤ pending_active_validator_exits s ≤ current_epoch_active_validator_count s)%Z;
  wf_tax : (0 ≤ invalid_deposit_tax s ≤ MAX_INVALID_DEPOSIT_TAX)%Z;
  wf_max_pending : (MAX_PENDING_WITHDRAWALS_PER_VALIDATOR_MIN ≤ max_pending_withdrawals_per_validator s
    ≤ MAX_PENDING_WITHDRAWALS_PER_VALIDATOR_MAX)%Z;
  wf_epocher : epocher_wf (epocher s);
  wf_el : is_u64 (proof_el_block_number s);
  wf_captured : ∀ bs, captured_bytes s = Some bs → len_ok (length bs)
}.

(** A count of accounts that fit a length prefix is a [u64]. *)
Lemma exits_u64 s : state_wf s → is_u64 (pending_active_validator_exits s).
Proof.
  intros Hwf. pose proof (wf_exits s Hwf) as [H1 H2]. destruct (wf_accounts s Hwf) as (_ & Hn & _).
  unfold current_epoch_active_validator_count, count in H2.
  pose proof (retain_length_le is_serving (BTree.values (validator_accounts s))) as Hle.
  unfold BTree.values in Hle at 2. rewrite length_fmap in Hle. unfold len_ok in Hn. u64_unfold. lia.
Qed.

Lemma contains_spec lo hi v : (lo ≤ v ≤ hi)%Z → contains lo hi v = true.
Proof. intros. unfold contains. apply andb_true_iff. split; apply Z.leb_le; lia. Qed.

Ltac read_step lem := rewrite <-?(assoc_L (++)); erewrite reader_bind_step by lem.
Ltac small_u64 := unfold MIN_ALLOWED_TIMESTAMP_FUTURE_MS, MAX_ALLOWED_TIMESTAMP_FUTURE_MS,
  MAX_MAX_DEPOSITS_PER_EPOCH, MAX_WITHDRAWALS_PER_EPOCH_MIN, MAX_WITHDRAWALS_PER_EPOCH_MAX,
  MAX_OBSERVERS_PER_VALIDATOR, MIN_MAX_VALIDATOR_COUNT, MAX_MAX_VALIDATOR_COUNT,
  MAX_INVALID_DEPOSIT_TAX, MAX_PENDING_WITHDRAWALS_PER_VALIDATOR_MIN,
  MAX_PENDING_WITHDRAWALS_PER_VALIDATOR_MAX in *; u64_unfold; lia.
Ltac get_u64 := read_step ltac:(apply try_get_u64_app; (assumption || small_u64)).
Ltac check := read_step ltac:(apply ensure_true;
  first [by apply contains_spec | apply Z.leb_le; lia | by apply Z.leb_le | apply negb_true_iff, Z.eqb_neq; lia]).

Definition without_derived s (t : T) : ConsensusState T :=
  s <| ssz_tree := t |> <| proof_tree := t |> <| proof_validator_keys := [] |> <| state_root := zero32 |>.

Lemma read_fields_app s rest :
  state_wf s →
  read_fields (write_state s ++ rest) = Ok (t ← tree_default; Some (without_derived s t), rest).
Proof.
  intros Hwf. pose proof (exits_u64 s Hwf). destruct Hwf.
  destruct wf_deposits0, wf_params0, wf_accounts0 as (? & ? & ?), wf_added0 as (? & ? & ?),
    wf_removed0, wf_requests0. rewrite !Forall_cons in wf_hashes0.
  destruct wf_hashes0 as (? & ? & ? & ? & ? & _).
  unfold current_epoch_active_validator_count in wf_exits0. destruct wf_exits0 as [_ ?].
  unfold read_fields, write_state. do 3 get_u64.
  read_step ltac:(by apply (read_list_app _ _ deposit_wf); [apply read_deposit_app|..]).
  read_step ltac:(by apply (WithdrawalQueue_codec_ok (withdrawal_queue s))).
  read_step ltac:(by apply (read_list_app _ _ codec_wf); [apply ProtocolParam_codec_ok|..]).
  read_step ltac:(by apply (read_list_app _ _ account_entry_wf); [apply read_account_entry_app|..]).
  cbv zeta. rewrite insert_all_sorted by done.
  read_step ltac:(by apply (read_option_app _ _ checkpoint_wf); [apply read_checkpoint_app|..]).
  read_step ltac:(by apply (read_list_app _ _ added_entry_wf); [apply read_added_entry_app|..]).
  rewrite insert_all_sorted by done.
  read_step ltac:(by apply (read_list_app id _ node_key_wf); [apply read_node_key_app|..]).
  read_step ltac:(by apply (read_list_app _ _ (λ r, len_ok (length r))); [apply read_bytes_app|..]).
  do 5 (read_step ltac:(by apply take_bytes_app)).
  do 2 get_u64. check. read_step ltac:(by apply take_bytes_app).
  get_u64. check. get_u64. check.
  read_step ltac:(apply try_get_u32_app; small_u64). check.
  get_u64. check. get_u64. do 2 check. get_u64. check. get_u64. check. get_u64. check.
  read_step ltac:(by apply (DynamicEpocher_codec_ok (epocher s))). get_u64.
  erewrite reader_bind_step by (by apply (read_option_app _ _ (λ b, len_ok (length b)));
    [apply read_bytes_app|..]).
  unfold mret, reader_ret. do 2 f_equal. destruct tree_default as [t|]; [|done].
  cbn [mbind option_bind]. f_equal. by destruct s as [? ? ? ? ? ? ? ? ? ? ? ? []].
Qed.

(** ** Decoding what was written *)

(** [rebuild_ssz_tree] as a function of the data. *)
Definition rebuilt s : ConsensusState T :=
  let t := tree_spec (rebuild_args s) in
  s <| ssz_tree := t |> <| state_root := default zero32 (tree_root t) |> <| proof_tree := t |>
    <| proof_validator_keys := BTree.keys (validator_accounts s) |>.

Lemma rebuild_ssz_tree_ok s : rebuild_ssz_tree s = Some (rebuilt s).
Proof.
  unfold rebuild_ssz_tree. rewrite tree_rebuild_ok. cbn [mbind option_bind].
  change (ssz_tree (s <| ssz_tree := ?t |>)) with t. unfold rebuilt.
  by destruct (tree_root_ok (rebuild_args s)) as [r ->].
Qed.

Lemma rebuilt_without_derived s t : rebuilt (without_derived s t) = rebuilt s.
Proof. reflexivity. Qed.

Lemma read_plain_app n s rest :
  state_wf s → captured_bytes s = None →
  read_state_fuel n (write_state s ++ rest) = Ok (Some (rebuilt s), rest).
Proof.
  intros Hwf Hcap. destruct n; cbn [read_state_fuel];
    rewrite (reader_bind_step _ _ _ _ _ (read_fields_app s rest Hwf));
    destruct tree_default_ok as [t ->]; cbn [mbind option_bind];
    rewrite rebuild_ssz_tree_ok, rebuilt_without_derived;
    change (captured_bytes (rebuilt s)) with (captured_bytes s); by rewrite Hcap.
Qed.

Lemma read_captured_app n s snap rest :
  state_wf s → captured_bytes s = Some (write_state snap) →
  state_wf snap → captured_bytes snap = None →
  read_state_fuel (S n) (write_state s ++ rest)
  = Ok (Some ((rebuilt s) <| proof_tree := proof_tree (rebuilt snap) |>
                <| state_root := state_root (rebuilt snap) |>
                <| proof_validator_keys := proof_validator_keys (rebuilt snap) |>), rest).
Proof.
  intros Hwf Hcap Hwf' Hcap'. cbn [read_state_fuel].
  rewrite (reader_bind_step _ _ _ _ _ (read_fields_app s rest Hwf)).
  destruct tree_default_ok as [t ->]. cbn [mbind option_bind].
  rewrite rebuild_ssz_tree_ok, rebuilt_without_derived.
  change (captured_bytes (rebuilt s)) with (captured_bytes s). rewrite Hcap.
  rewrite (decode_all_app _ _ _ (read_plain_app n snap [] Hwf' Hcap')).
  change (proof_tree (rebuilt snap)) with (tree_spec (rebuild_args snap)).
  destruct (tree_root_ok (rebuild_args snap)) as [r Hr].
  assert (state_root (rebuilt snap) = r) as ->
    by (change (default zero32 (tree_root (tree_spec (rebuild_args snap))) = r); by rewrite Hr).
  by rewrite Hr.
Qed.
End roundtrip.

(** ** The fuel of the decoder *)
Section fuel.
Context `{Hc : Crypto} `{Hl : SszLib}.

(** A reader that gives bytes back gives back no more than it got. *)
Definition consumes {A} (r : reader A) : Prop :=
  ∀ buf a rest, r buf = Ok (a, rest) → length rest ≤ length buf.

Lemma consumes_bind {A B} (r : reader A) (f : A → reader B) :
  consumes r → (∀ a, consumes (f a)) → consumes (r ≫= f).
Proof.
  intros Hr Hf buf b rest (a & buf' & Ha & Hb)%reader_bind_Ok.
  apply Hr in Ha. apply Hf in Hb. lia.
Qed.
Lemma consumes_ret {A} (a : A) : consumes (mret a).
Proof. intros buf b rest [= _ <-]. done. Qed.
Lemma consumes_fail {A} e : consumes (@fail A e).
Proof. intros buf b rest [=]. Qed.
Lemma consumes_take n : consumes (take_bytes n).
Proof. intros buf bs rest (-> & _)%take_bytes_Ok. rewrite length_app. lia. Qed.
Lemma consumes_ensure c e : consumes (ensure c e).
Proof. intros buf u rest [_ ->]%ensure_Ok. done. Qed.
Lemma consumes_remaining : consumes remaining.
Proof. intros buf n rest [= _ <-]. done. Qed.
Lemma consumes_read_n {A} (r : reader A) n : consumes r → consumes (read_n r n).
Proof.
  intros Hr. induction n; simpl; [apply consumes_ret|].
  apply consumes_bind; [done|]. intros. apply consumes_bind; [done|]. intros. apply consumes_ret.
Qed.
End fuel.

Create HintDb consumes discriminated.
#[export] Hint Resolve consumes_ret consumes_fail consumes_take consumes_ensure consumes_remaining
  consumes_read_n : consumes.
Ltac consumes :=
  repeat first [ apply consumes_bind; [|intros ?] | progress (eauto with consumes nocore)
               | match goal with |- consumes (match ?x with _ => _ end) => destruct x end
               | match goal with |- consumes (if ?x then _ else _) => destruct x end ].

Section fuel_facts.
Context `{Hc : Crypto} `{Hl : SszLib}.
Context {T : Type} `{!StateTree T} `{!StateTreeOk T}.

Lemma consumes_u8 : consumes try_get_u8. Proof. unfold try_get_u8. consumes. Qed.
Lemma consumes_u32 : consumes try_get_u32. Proof. unfold try_get_u32. consumes. Qed.
Lemma consumes_u64 : consumes try_get_u64. Proof. unfold try_get_u64. consumes. Qed.
Lemma consumes_u64_le : consumes get_u64_le. Proof. unfold get_u64_le. consumes. Qed.
Hint Resolve consumes_u8 consumes_u32 consumes_u64 consumes_u64_le : consumes.
Lemma consumes_len : consumes get_len. Proof. unfold get_len. consumes. Qed.
Hint Resolve consumes_len : consumes.
Lemma consumes_list {A} (r : reader A) : consumes r → consumes (read_list r).
Proof. intros. unfold read_list. consumes. Qed.
Lemma consumes_option {A} (r : reader A) : consumes r → consumes (read_option r).
Proof. intros. unfold read_option. consumes. Qed.
Hint Resolve consumes_list consumes_option : consumes.
Lemma consumes_deposit : consumes read_deposit. Proof. unfold read_deposit. consumes. Qed.
Lemma consumes_account : consumes read_account. Proof. unfold read_account, read_status. consumes. Qed.
Lemma consumes_param : consumes read_param. Proof. unfold read_param, read_validated. consumes. Qed.
Lemma consumes_pending : consumes read_pending. Proof. unfold read_pending, read_kind. consumes. Qed.
Hint Resolve consumes_deposit consumes_account consumes_param consumes_pending : consumes.
Lemma consumes_flat n k next prev idx : consumes (read_flat_loop n k next prev idx).
Proof.
  revert prev idx. induction n; intros; cbn [read_flat_loop]; consumes.
Qed.
Hint Resolve consumes_flat : consumes.
Lemma consumes_queue : consumes read_queue. Proof. unfold read_queue, read_flat. consumes. Qed.
Lemma consumes_bytes : consumes read_bytes. Proof. unfold read_bytes. consumes. Qed.
Lemma consumes_checkpoint : consumes read_checkpoint. Proof. unfold read_checkpoint. consumes. Qed.
Lemma consumes_node_key : consumes read_node_key. Proof. unfold read_node_key. consumes. Qed.
Lemma consumes_bls_key : consumes read_bls_key. Proof. unfold read_bls_key. consumes. Qed.
Lemma consumes_segment : consumes read_segment. Proof. unfold read_segment. consumes. Qed.
Hint Resolve consumes_node_key consumes_bls_key consumes_segment : consumes.
Lemma consumes_added : consumes read_added. Proof. unfold read_added. consumes. Qed.
Hint Resolve consumes_added : consumes.
Lemma consumes_added_entry : consumes read_added_entry. Proof. unfold read_added_entry. consumes. Qed.
Lemma consumes_account_entry : consumes read_account_entry. Proof. unfold read_account_entry. consumes. Qed.
Lemma consumes_epocher : consumes read_epocher. Proof. unfold read_epocher. consumes. Qed.
Hint Resolve consumes_queue consumes_bytes consumes_checkpoint consumes_added_entry
  consumes_account_entry consumes_epocher : consumes.

(** Reading gives back no more than it got, and the result is below the bytes read. *)
Definition bounded {A} (P : nat → A → Prop) (r : reader A) : Prop :=
  ∀ buf a rest, r buf = Ok (a, rest) → length rest ≤ length buf ∧ P (length buf) a.

Lemma bounded_bind {A B} (P : nat → B → Prop) (r : reader A) (f : A → reader B) :
  (∀ n m b, n ≤ m → P n b → P m b) →
  consumes r → (∀ a, bounded P (f a)) → bounded P (r ≫= f).
Proof.
  intros Hm Hr Hf buf b rest (a & buf' & Ha & Hb)%reader_bind_Ok.
  apply Hr in Ha. apply Hf in Hb as [? ?]. split; [lia|]. by eapply Hm.
Qed.

(** The captured snapshot in a decoded state is strictly shorter than the bytes it
    was decoded from. *)
Definition captured_below (n : nat) (o : option (ConsensusState T)) : Prop :=
  ∀ s bs, o = Some s → captured_bytes s = Some bs → length bs < n.

Lemma read_captured_below (f : option bytes → option (ConsensusState T)) :
  (∀ cb s, f cb = Some s → captured_bytes s = cb) →
  bounded captured_below (cb ← read_option read_bytes; mret (f cb)).
Proof.
  intros Hf buf o rest (cb & buf' & Hcb & Ho)%reader_bind_Ok. injection Ho as <- <-.
  split; [by apply (consumes_option read_bytes consumes_bytes) in Hcb|].
  intros s bs Hs Hbs. rewrite (Hf _ _ Hs) in Hbs. subst cb. clear Hf Hs.
  apply reader_bind_Ok in Hcb as (b & buf1 & Hb & Hcb).
  destruct (negb _); [|by injection Hcb].
  apply reader_bind_Ok in Hcb as (bs' & buf2 & Hbs & [= -> ->]).
  apply reader_bind_Ok in Hb as (one & buf3 & (-> & Hone)%take_bytes_Ok & Hb).
  assert (buf3 = buf1) as ->.
  { revert Hb. by intros [= _ ->]. }
  apply reader_bind_Ok in Hbs as (len & b3 & Hlen & Hbs). apply consumes_len in Hlen.
  apply reader_bind_Ok in Hbs as (n & b4 & [= _ ->] & Hbs).
  apply reader_bind_Ok in Hbs as (u & b5 & [_ ->]%ensure_Ok & (-> & _)%take_bytes_Ok).
  rewrite length_app in *. lia.
Qed.

Lemma read_fields_bounded : bounded captured_below read_fields.
Proof.
  assert (∀ n m b, n ≤ m → captured_below n b → captured_below m b) as Hm.
  { intros n m b ? H s bs Hs Hbs. specialize (H s bs Hs Hbs). lia. }
  unfold read_fields.
  repeat first [ apply read_captured_below
               | apply bounded_bind; [exact Hm|eauto with consumes nocore|intros ?] ].
  intros cb s Hs. by apply bind_Some in Hs as (t & _ & [= <-]).
Qed.

Lemma read_fields_no_panic buf o rest : read_fields (T:=T) buf = Ok (o, rest) → is_Some o.
Proof.
  intros H. cut (bounded (λ _ o, is_Some o) (read_fields (T:=T))); [intros Hb; by apply Hb in H as [_ ?]|].
  clear o rest H. unfold read_fields.
  repeat (apply bounded_bind; [done|eauto with consumes nocore|intros ?]).
  intros buf' o rest [= <- <-]. destruct tree_default_ok as [t ->]. by split; [|eexists].
Qed.

(** What a decoder returned is not a panic, and the root of its frozen tree exists. *)
Definition returns (r : result Error (option (ConsensusState T) * bytes)) : Prop :=
  match r with
  | Ok (Some s, _) => is_Some (tree_root (proof_tree s))
  | Ok (None, _) => False
  | Err _ => True
  end.

Lemma read_state_fuel_returns n buf : length buf ≤ n → returns (read_state_fuel n buf).
Proof.
  revert buf. induction n as [|n IH]; intros buf Hn; cbn [read_state_fuel];
    unfold mbind at 1, reader_bind;
    destruct (read_fields buf) as [[o rest]|e] eqn:Hf; try exact I;
    destruct (read_fields_no_panic _ _ _ Hf) as [s ->];
    apply read_fields_bounded in Hf as [_ Hb]; cbn [mbind option_bind];
    rewrite rebuild_ssz_tree_ok;
    change (captured_bytes (rebuilt s)) with (captured_bytes s);
    destruct (captured_bytes s) as [bs|] eqn:Hcb; try exact (tree_root_ok _);
    specialize (Hb s bs eq_refl Hcb); [lia|].
  specialize (IH bs ltac:(lia)). unfold decode_all.
  destruct (read_state_fuel n bs) as [[[inner|] [|b rest']]|e]; try done.
  destruct IH as [r Hr]. rewrite Hr. by exists r.
Qed.
End fuel_facts.

#[export] Hint Resolve consumes_u8 consumes_u32 consumes_u64 consumes_u64_le consumes_len consumes_list
  consumes_option consumes_deposit consumes_account consumes_param consumes_pending consumes_queue
  consumes_bytes consumes_checkpoint consumes_added_entry consumes_account_entry consumes_node_key
  consumes_epocher : consumes.
