(* ===== verification/StateDecode.v ===== *)
(** * StateDecode: what the state decoder accepts

    [yields P r]: every value the reader [r] returns satisfies [P].  The rules
    follow the readers' structure; the result is that whatever bytes decode, the
    state they decode to has the shape and the bounds of [state_wf]. *)
From S2P Require Import Prelude Codec Crypto BTree Epocher Account ExecutionRequest ProtocolParams.
From S2P Require Import Withdrawal SszTree SszTreeFacts SszHash SszStateTree SszStateTreeFacts.
From S2P Require Import ConsensusState StateSync StateCodec.

Definition yields {A} (P : A → Prop) (r : reader A) : Prop :=
  ∀ buf a rest, r buf = Ok (a, rest) → P a.

Lemma yields_bind {A B} (Q : A → Prop) (P : B → Prop) (r : reader A) (f : A → reader B) :
  yields Q r → (∀ a, Q a → yields P (f a)) → yields P (r ≫= f).
Proof. intros Hr Hf buf b rest (a & buf' & Ha & Hb)%reader_bind_Ok. eapply Hf; [by eapply Hr|done]. Qed.

Lemma yields_ret {A} (P : A → Prop) a : P a → yields P (mret a).
Proof. intros HP buf b rest [= <- _]. done. Qed.
Lemma yields_fail {A} (P : A → Prop) e : yields P (fail e).
Proof. intros buf b rest [=]. Qed.
Lemma yields_take n : yields (λ bs, length bs = n) (take_bytes n).
Proof. by intros buf bs rest (_ & ?)%take_bytes_Ok. Qed.
Lemma yields_ensure c e : yields (λ _, c = true) (ensure c e).
Proof. by intros buf u rest [? _]%ensure_Ok. Qed.
Lemma yields_any {A} (r : reader A) : yields (λ _, True) r.
Proof. done. Qed.
Lemma yields_impl {A} (Q P : A → Prop) (r : reader A) : yields Q r → (∀ a, Q a → P a) → yields P r.
Proof. intros Hr Hi buf a rest Ha. by eapply Hi, Hr. Qed.
Lemma yields_u64 : yields is_u64 try_get_u64.
Proof. by intros buf x rest [? _]%try_get_u64_Ok. Qed.
Lemma yields_u64_le : yields is_u64 get_u64_le.
Proof. by intros buf x rest [? _]%get_u64_le_Ok. Qed.
Lemma yields_u32 : yields (λ x, 0 ≤ x < 2 ^ 32)%Z try_get_u32.
Proof.
  unfold try_get_u32. eapply yields_bind; [apply yields_take|]. intros bs Hbs. apply yields_ret.
  pose proof (from_be_bytes_bound bs) as Hb. by rewrite Hbs in Hb.
Qed.
Lemma yields_len : yields len_ok get_len.
Proof.
  unfold get_len. eapply yields_bind; [apply yields_u32|]. intros n [? ?]. apply yields_ret.
  unfold len_ok. by rewrite Z2Nat.id.
Qed.
Lemma yields_read_n {A} (P : A → Prop) (r : reader A) n :
  yields P r → yields (λ l, length l = n ∧ Forall P l) (read_n r n).
Proof.
  intros Hr. induction n as [|n IH]; simpl; [by apply yields_ret|].
  eapply yields_bind; [exact Hr|]. intros a Ha. eapply yields_bind; [exact IH|].
  intros l [<- Hl]. apply yields_ret. split; [done|by constructor].
Qed.
Lemma yields_list {A} (P : A → Prop) (r : reader A) :
  yields P r → yields (λ l, len_ok (length l) ∧ Forall P l) (read_list r).
Proof.
  intros Hr. unfold read_list. eapply yields_bind; [apply yields_len|]. intros n Hn.
  eapply yields_impl; [by apply yields_read_n|]. by intros l [-> ?].
Qed.
Lemma yields_option {A} (P : A → Prop) (r : reader A) :
  yields P r → yields (λ o, ∀ a, o = Some a → P a) (read_option r).
Proof.
  intros Hr. unfold read_option. eapply yields_bind; [apply yields_any|]. intros b _.
  destruct (negb _); [|by apply yields_ret]. eapply yields_bind; [exact Hr|]. intros a Ha.
  apply yields_ret. by intros ? [= <-].
Qed.
Lemma yields_bytes : yields (λ bs, len_ok (length bs)) read_bytes.
Proof.
  unfold read_bytes. eapply yields_bind; [apply yields_len|]. intros n Hn.
  eapply yields_bind; [apply yields_any|]. intros m _. eapply yields_bind; [apply yields_any|]. intros _ _.
  eapply yields_impl; [apply yields_take|]. by intros bs ->.
Qed.

(** One step of a reader: the fact about the value read goes to the context. *)
Ltac yield lem H := eapply yields_bind; [apply lem|intros ? H; cbv beta in H].
Ltac skip := eapply yields_bind; [apply yields_any|intros ? _].

(** ** Parts of the state *)
Section parts.
Context `{Hc : Crypto} `{Hl : SszLib}.

Lemma yields_deposit : yields deposit_wf read_deposit.
Proof.
  unfold read_deposit. skip. skip. yield yields_take H1. yield yields_ensure H2. yield yields_take H3.
  yield yields_ensure H4. yield yields_take H5. yield yields_u64_le H6. yield yields_take H7.
  yield yields_take H8. yield yields_u64_le H9. by apply yields_ret.
Qed.

Lemma yields_account : yields account_wf read_account.
Proof.
  unfold read_account. skip. skip. yield yields_take H1. yield yields_ensure H2. yield yields_take H3.
  yield yields_u64_le H4. skip. yield yields_u64_le H5. yield yields_u64_le H6. by apply yields_ret.
Qed.

Lemma yields_account_entry : yields account_entry_wf read_account_entry.
Proof.
  unfold read_account_entry. yield yields_take H1. yield yields_account H2. by apply yields_ret.
Qed.

Lemma yields_node_key : yields node_key_wf read_node_key.
Proof. unfold read_node_key. yield yields_take H1. yield yields_ensure H2. by apply yields_ret. Qed.

Lemma yields_added : yields added_wf read_added.
Proof.
  unfold read_added, read_bls_key. yield yields_node_key H1. eapply (yields_bind (λ k, length k = 48 ∧ bls_valid k = true)).
  - yield yields_take H2. yield yields_ensure H3. by apply yields_ret.
  - intros k H2. by apply yields_ret.
Qed.

Lemma yields_added_entry : yields added_entry_wf read_added_entry.
Proof.
  unfold read_added_entry. yield yields_u64 H1. yield (yields_list _ _ yields_added) H2. by apply yields_ret.
Qed.

Lemma yields_segment : yields segment_wf read_segment.
Proof.
  unfold read_segment. yield yields_u64 H1. yield yields_u64 H2. yield yields_u64 H3. yield yields_ensure H4.
  apply yields_ret. split_and!; try done. by apply negb_true_iff, Z.eqb_neq in H4.
Qed.

Lemma yields_epocher : yields epocher_wf read_epocher.
Proof.
  unfold read_epocher. yield yields_u64 H1. yield yields_len H2. yield yields_ensure H3.
  yield (yields_read_n _ _ a0 yields_segment) H4. destruct H4 as [<- H4]. apply yields_ret.
  split_and!; try done. apply negb_true_iff, Nat.eqb_neq in H3. simpl. by intros ->.
Qed.

Lemma yields_flat n k ni prev ixs :
  yields (λ p, length p.1 = n ∧ flat_ok k ni prev ixs p.1 ∧ Forall pending_wf p.1 ∧
    p.2 = list_to_set (idx <$> p.1) ∪ ixs) (read_flat_loop n k ni prev ixs).
Proof.
  intros buf [l ixs'] rest H. split; [|by apply read_flat_loop_Ok in H].
  revert prev ixs buf l ixs' rest H. induction n as [|n IH]; intros prev ixs buf l ixs' rest; cbn [read_flat_loop].
  { by intros [= <- _ _]. }
  intros (w & b1 & _ & H)%reader_bind_Ok. do 4 apply reader_bind_Ok in H as (? & ? & _ & H).
  apply reader_bind_Ok in H as ([l1 ixs1] & ? & H & [= <- _ _]). simpl. f_equal. by eapply IH in H.
Qed.

Lemma yields_queue : yields queue_wf read_queue.
Proof.
  unfold read_queue, read_flat. yield yields_u64 H1. yield yields_ensure H2.
  eapply (yields_bind (λ p, len_ok (length p.1) ∧ flat_ok Validator a 0 ∅ p.1 ∧ Forall pending_wf p.1 ∧
    p.2 = list_to_set (idx <$> p.1) ∪ (∅ : gset Z))).
  { yield yields_len H3. eapply yields_impl; [apply yields_flat|]. by intros [l ix] (<- & ?). }
  intros [ws ix1] (L1 & F1 & W1 & E1).
  eapply (yields_bind (λ p, len_ok (length p.1) ∧ flat_ok DepositRefund a 0 ix1 p.1 ∧ Forall pending_wf p.1)).
  { yield yields_len H3. eapply yields_impl; [apply yields_flat|]. by intros [l ix] (<- & ? & ? & _). }
  intros [rs ix2] (L2 & F2 & W2). apply yields_ret. simpl in *.
  apply negb_true_iff, Z.eqb_neq in H2. split_and!; try done; simpl.
  - by eapply flat_ok_queue.
  - by apply Forall_app.
  - u64_unfold. lia.
Qed.
End parts.

(** ** Maps built from the entries read *)
Lemma insert_all_spec {K V} `{OrdOk K} (P : K * V → Prop) (l : list (K * V)) :
  Forall P l →
  BTree.sorted (insert_all l) ∧ length (insert_all l) ≤ length l ∧ Forall P (insert_all l).
Proof.
  intros Hl. unfold insert_all.
  cut (∀ m : BTreeMap K V, BTree.sorted m → Forall P m →
    let m' := foldl (λ m '(k, v), BTree.insert m k v) m l in
    BTree.sorted m' ∧ length m' ≤ length m + length l ∧ Forall P m').
  { intros Hc. apply (Hc []); constructor. }
  induction Hl as [|[k v] l Hkv Hl IH]; intros m Hm HP; simpl; [split_and!; [done|lia|done]|].
  destruct (IH (BTree.insert m k v)) as (H1 & H2 & H3).
  - by apply BTree.sorted_insert.
  - apply Forall_forall. intros e [->|He]%BTree.elem_of_insert; [done|]. by eapply Forall_forall in HP.
  - split_and!; [done| |done]. pose proof (BTree.length_insert m k v). lia.
Qed.

Lemma insert_all_is_sorted {K V} `{OrdOk K} (l : list (K * V)) : BTree.sorted (insert_all l).
Proof. by apply (insert_all_spec (λ _, True)), Forall_true. Qed.

Section state.
Context `{Hc : Crypto} `{Hl : SszLib} {T : Type} `{!StateTree T}.
Implicit Type s : ConsensusState T.

Lemma yields_checkpoint : yields (λ cp, sha256 (cp_data cp) = cp_digest cp) read_checkpoint.
Proof.
  unfold read_checkpoint. skip. skip. skip. skip. unfold from_ssz_bytes.
  destruct (ssz_parse _) as [[data digest]|]; cbn [mbind option_bind]; [|apply yields_fail].
  destruct (bool_decide _) eqn:E; simpl; [|apply yields_fail]. apply yields_ret. by apply bool_decide_eq_true in E.
Qed.

Lemma contains_bounds lo hi v : contains lo hi v = true → (lo ≤ v ≤ hi)%Z.
Proof. unfold contains. intros [?%Z.leb_le ?%Z.leb_le]%andb_true_iff. lia. Qed.

Definition decoded_wf s : Prop :=
  state_wf (s <| pending_checkpoint := None |>) ∧
  ∀ cp, pending_checkpoint s = Some cp → sha256 (cp_data cp) = cp_digest cp.

Lemma yields_fields : yields (λ o, ∀ s, o = Some s → decoded_wf s) (read_fields (T:=T)).
Proof.
  unfold read_fields.
  yield yields_u64 H1. yield yields_u64 H2. yield yields_u64 H3.
  yield (yields_list _ _ yields_deposit) H4. yield yields_queue H5.
  yield (yields_list in_bounds read_param read_param_in_bounds) H6.
  yield (yields_list _ _ yields_account_entry) H7.
  yield (yields_option _ _ yields_checkpoint) H8.
  yield (yields_list _ _ yields_added_entry) H9.
  yield (yields_list _ _ yields_node_key) H10.
  yield (yields_list _ _ yields_bytes) H11.
  yield yields_take H12. yield yields_take H13. yield yields_take H14. yield yields_take H15. yield yields_take H16.
  yield yields_u64 H17. yield yields_u64 H18. yield yields_ensure H19. yield yields_take H20.
  yield yields_u64 H21. yield yields_ensure H22. yield yields_u64 H23. yield yields_ensure H24.
  yield yields_u32 H25. yield yields_ensure H26. yield yields_u64 H27. yield yields_ensure H28.
  yield yields_u64 H29. yield yields_ensure H30. yield yields_ensure H31. yield yields_u64 H32.
  yield yields_ensure H33. yield yields_u64 H34. yield yields_ensure H35. yield yields_u64 H36.
  yield yields_ensure H37. yield yields_epocher H38. yield yields_u64 H39.
  yield (yields_option _ _ yields_bytes) H40.
  apply yields_ret. intros s (t & _ & [= <-])%bind_Some. split; [|done].
  destruct H7 as [H7 H7'], H9 as [H9 H9'].
  destruct (insert_all_spec _ _ H7') as (S1 & L1 & F1), (insert_all_spec _ _ H9') as (S2 & L2 & F2).
  repeat match goal with H : contains _ _ _ = true |- _ => apply contains_bounds in H end.
  repeat match goal with H : (_ <=? _)%Z = true |- _ => apply Z.leb_le in H end.
  apply negb_true_iff, Z.eqb_neq in H30.
  assert (∀ n m : nat, n ≤ m → len_ok m → len_ok n) as Hlen by (unfold len_ok; lia).
  split; simpl; try done; try (split_and!; try done; try (u64_unfold; lia); by eapply Hlen).
  by repeat constructor.
Qed.

(** A state that decodes from its own encoding is well-formed: how concrete states
    are checked. *)
Lemma wf_by_decoding s t :
  read_fields (write_state s) = Ok (Some (without_derived s t), []) → pending_checkpoint s = None → state_wf s.
Proof.
  intros Hread Hp. destruct (yields_fields _ _ _ Hread _ eq_refl) as [Hwf _].
  assert (without_derived s t <| pending_checkpoint := None |> = without_derived s t) as E
    by (destruct s; simpl in *; by subst).
  rewrite E in Hwf. destruct Hwf. by split.
Qed.
End state.
