(* ===== verification/StateRun.v ===== *)
(** * StateRun: sequences of operations on the state

    [state_op] is the public interface of [ConsensusState] that changes it, and
    [run_state] a sequence of its calls.  The theorems say that the Merkle tree is
    bookkeeping (it neither panics nor changes what the data does), that the live
    tree is at all times the one [rebuild] makes from the data, and that a captured
    root survives a restart. *)
From S2P Require Import Prelude Codec Crypto BTree Epocher Account ExecutionRequest ProtocolParams.
From S2P Require Import Withdrawal SszTree SszTreeFacts SszHash SszStateTree SszStateTreeFacts.
From S2P Require Import ConsensusState StateSync StateCodec StateDecode.

(** ** The operations *)
Inductive state_op :=
| op_set_epoch (x : Z)
| op_set_view (x : Z)
| op_set_latest_height (x : Z)
| op_set_head_digest (d : bytes)
| op_set_epoch_genesis_hash (h : bytes)
| op_set_minimum_stake (x : Z)
| op_set_allowed_timestamp_future_ms (x : Z)
| op_set_max_deposits_per_epoch (x : Z)
| op_set_max_withdrawals_per_epoch (x : Z)
| op_set_observers_per_validator (x : Z)
| op_set_max_validator_count (x : Z)
| op_set_max_pending_withdrawals_per_validator (x : Z)
| op_set_minimum_validator_count (x : Z)
| op_increment_pending_active_validator_exits
| op_reset_pending_active_validator_exits
| op_set_invalid_deposit_tax (x : Z)
| op_set_treasury_address (a : bytes)
| op_set_next_withdrawal_index (x : Z)
| op_set_pending_checkpoint (cp : option Checkpoint)
| op_take_pending_checkpoint
| op_set_forkchoice (fc : ForkchoiceState)
| op_set_forkchoice_head (h : bytes)
| op_set_forkchoice_safe_and_finalized (h : bytes)
| op_add_validator (e : Z) (v : AddedValidator)
| op_set_removed_validators (l : list bytes)
| op_push_removed_validator (k : bytes)
| op_clear_removed_validators
| op_push_protocol_param_change (p : ProtocolParam)
| op_push_protocol_param_changes (ps : list ProtocolParam)
| op_remove_added_validators_for_epoch (e : Z)
| op_remove_added_validator (e : Z) (k : bytes)
| op_take_pending_execution_requests
| op_push_pending_execution_request (r : bytes)
| op_buffer_execution_requests (rs : list bytes)
| op_set_account (k : bytes) (a : ValidatorAccount)
| op_remove_account (k : bytes)
| op_set_validator_accounts (l : list (bytes * ValidatorAccount))
| op_push_withdrawal_request (r : WithdrawalRequest) (e : Z)
| op_push_refund_withdrawal_request (r : WithdrawalRequest) (e : Z)
| op_push_withdrawal (w : PendingWithdrawal)
| op_pop_withdrawal (e : Z)
| op_push_deposit (r : DepositRequest)
| op_pop_deposit
| op_refund_deposit (c : bytes) (a : Z) (reason : DepositRejectionReason) (n : Z)
| op_process_deposits (domain : bytes) (warm_up n : Z)
| op_apply_withdrawal_request (r : WithdrawalRequest) (n : Z)
| op_process_buffered_requests (domain : bytes) (warm_up n : Z)
| op_enforce_minimum_stake
| op_apply_withdrawal_payouts (e : Z) (ws : list Withdrawal)
| op_apply_committee_transition (k : bytes)
| op_apply_protocol_parameter_changes
| op_clone_with_epocher (e : DynamicEpocher)
| op_rebuild_ssz_tree
| op_capture_state_root (el_block_number : Z).

Section run.
Context `{Hc : Crypto} `{Hl : SszLib} {T : Type} `{!StateTree T}.

(** The call; results other than the state are dropped. *)
Definition run_state_op (s : ConsensusState T) (op : state_op) : option (ConsensusState T) :=
  match op with
  | op_set_epoch x => set_epoch s x
  | op_set_view x => set_view s x
  | op_set_latest_height x => set_latest_height s x
  | op_set_head_digest d => set_head_digest s d
  | op_set_epoch_genesis_hash h => set_epoch_genesis_hash s h
  | op_set_minimum_stake x => set_minimum_stake s x
  | op_set_allowed_timestamp_future_ms x => set_allowed_timestamp_future_ms s x
  | op_set_max_deposits_per_epoch x => set_max_deposits_per_epoch s x
  | op_set_max_withdrawals_per_epoch x => set_max_withdrawals_per_epoch s x
  | op_set_observers_per_validator x => set_observers_per_validator s x
  | op_set_max_validator_count x => set_max_validator_count s x
  | op_set_max_pending_withdrawals_per_validator x => set_max_pending_withdrawals_per_validator s x
  | op_set_minimum_validator_count x => set_minimum_validator_count s x
  | op_increment_pending_active_validator_exits => increment_pending_active_validator_exits s
  | op_reset_pending_active_validator_exits => reset_pending_active_validator_exits s
  | op_set_invalid_deposit_tax x => set_invalid_deposit_tax s x
  | op_set_treasury_address a => set_treasury_address s a
  | op_set_next_withdrawal_index x => set_next_withdrawal_index s x
  | op_set_pending_checkpoint cp => set_pending_checkpoint s cp
  | op_take_pending_checkpoint => fst <$> take_pending_checkpoint s
  | op_set_forkchoice fc => set_forkchoice s fc
  | op_set_forkchoice_head h => set_forkchoice_head s h
  | op_set_forkchoice_safe_and_finalized h => set_forkchoice_safe_and_finalized s h
  | op_add_validator e v => add_validator s e v
  | op_set_removed_validators l => set_removed_validators s l
  | op_push_removed_validator k => push_removed_validator s k
  | op_clear_removed_validators => clear_removed_validators s
  | op_push_protocol_param_change p => push_protocol_param_change s p
  | op_push_protocol_param_changes ps => push_protocol_param_changes s ps
  | op_remove_added_validators_for_epoch e => fst <$> remove_added_validators_for_epoch s e
  | op_remove_added_validator e k => fst <$> remove_added_validator s e k
  | op_take_pending_execution_requests => fst <$> take_pending_execution_requests s
  | op_push_pending_execution_request r => push_pending_execution_request s r
  | op_buffer_execution_requests rs => buffer_execution_requests s rs
  | op_set_account k a => set_account s k a
  | op_remove_account k => fst <$> remove_account s k
  | op_set_validator_accounts l => set_validator_accounts s (insert_all l)
  | op_push_withdrawal_request r e => push_withdrawal_request s r e
  | op_push_refund_withdrawal_request r e => push_refund_withdrawal_request s r e
  | op_push_withdrawal w => push_withdrawal s w
  | op_pop_withdrawal e => fst <$> pop_withdrawal s e
  | op_push_deposit r => push_deposit s r
  | op_pop_deposit => fst <$> pop_deposit s
  | op_refund_deposit c a reason n => refund_deposit s c a reason n
  | op_process_deposits domain m n => process_deposits s domain m n
  | op_apply_withdrawal_request r n => apply_withdrawal_request s r n
  | op_process_buffered_requests domain m n => process_buffered_requests s domain m n
  | op_enforce_minimum_stake => enforce_minimum_stake s
  | op_apply_withdrawal_payouts e ws => apply_withdrawal_payouts s e ws
  | op_apply_committee_transition k => fst <$> apply_committee_transition s k
  | op_apply_protocol_parameter_changes => fst <$> apply_protocol_parameter_changes s
  | op_clone_with_epocher e => Some (clone_with_epocher s e)
  | op_rebuild_ssz_tree => rebuild_ssz_tree s
  | op_capture_state_root n => capture_state_root s n
  end.
Definition run_state (s : ConsensusState T) (ops : list state_op) : option (ConsensusState T) :=
  for_each run_state_op s ops.
End run.

(** The operations that leave the frozen part (captured root, proof tree, keys,
    snapshot) alone. *)
Definition keeps_frozen (op : state_op) : bool :=
  match op with
  | op_set_validator_accounts _ | op_rebuild_ssz_tree | op_capture_state_root _ => false
  | _ => true
  end.

Create HintDb state_sim discriminated.

Section simulation.
Context `{Hc : Crypto} `{Hl : SszLib} {T : Type} `{!StateTree T} `{!StateTreeOk T}.
Implicit Types (s : ConsensusState T) (u : ConsensusState ()) (f : Frozen T).

Lemma sim_fst {A} w d f (m : option (ConsensusState T * A)) (m' : option (ConsensusState () * A)) :
  sim (prel (rel w d f)) m m' → sim (rel w d f) (fst <$> m) (fst <$> m').
Proof. intros [a b [Hab _]|]; constructor; auto. Qed.

Lemma decrement_next q w : next_index (decrement_pending_count q w) = next_index q.
Proof. unfold decrement_pending_count. destruct (negb _); [done|]. simpl. by destruct (_ !! _). Qed.

Lemma pop_next q e q' p : pop q e = Some (q', p) → next_index q' = next_index q.
Proof.
  unfold pop, pop_kind. destruct (deque q Validator); [|destruct (due _ _)].
  2: { intros [= <- <-]. by rewrite decrement_next. }
  all: destruct (deque q DepositRefund); [done|]; destruct (due _ _); [|done];
    intros [= <- <-]; by rewrite decrement_next.
Qed.

Lemma push_next q p : next_index (push q p) = next_index q.
Proof. unfold push. destruct (bool_decide _), (kind p); reflexivity. Qed.

(** Replacing the queue and rebuilding its subtree. *)
Lemma requeue_sim w d f s u q :
  rel w d f s u → next_index q = next_index (withdrawal_queue u) →
  sim (rel true d f) (on_tree (s <| withdrawal_queue := q |>) (Rebuild_withdrawals q))
    (on_tree (u <| withdrawal_queue := q |>) (Rebuild_withdrawals q)).
Proof.
  intros (x & -> & Hf & Hw & Hd & Hs) Hq.
  eapply (sim_tree _ _ _ (tree_args (u <| withdrawal_queue := q |>) x)); [|reflexivity|].
  - unfold tree_args, rebuild_args. simpl. by rewrite Hq.
  - exists (x <| at_withdrawals := q |>). by split_and!.
Qed.

Lemma push_withdrawal_sim w d f s u p :
  rel w d f s u → sim (rel true d f) (push_withdrawal s p) (push_withdrawal u p).
Proof.
  intros Hr. unfold push_withdrawal.
  assert (withdrawal_queue s = withdrawal_queue u) as -> by (by destruct Hr as (x & -> & _)).
  by eapply requeue_sim; [|apply push_next].
Qed.

Lemma pop_withdrawal_sim d f s u e :
  rel true d f s u → sim (prel (rel true d f)) (pop_withdrawal s e) (pop_withdrawal u e).
Proof.
  intros Hr. unfold pop_withdrawal.
  assert (withdrawal_queue s = withdrawal_queue u) as -> by (by destruct Hr as (x & -> & _)).
  destruct (pop _ _) as [[q p]|] eqn:E; [|by apply sim_ret].
  eapply sim_bind; [by eapply requeue_sim; [|eapply pop_next]|]. intros. by apply sim_ret.
Qed.

Lemma pop_deposit_sim w f s u :
  rel w true f s u → sim (prel (rel w true f)) (pop_deposit s) (pop_deposit u).
Proof.
  intros (x & -> & Hf & Hw & Hd & Hs). unfold pop_deposit.
  change (deposit_queue (attach u x)) with (deposit_queue u).
  destruct (deposit_queue u) as [|r q] eqn:E; [apply sim_ret; split; [|done]; exists x; split_and!; try done; simpl; by rewrite E|].
  apply (sim_bind (rel w true f)); [|intros; by apply sim_ret].
  eapply sim_tree; [reflexivity|reflexivity|]. exists (x <| at_deposits := q |>). by split_and!.
Qed.

Lemma push_withdrawal_request_sim w d f s u r e :
  rel w d f s u → sim (rel w d f) (push_withdrawal_request s r e) (push_withdrawal_request u r e).
Proof.
  intros Hr. unfold push_withdrawal_request.
  apply (sim_bind (λ p q, rel w d f p.1 q.1)); [|intros; by apply sim_ret].
  eapply sim_with; [by apply (push_withdrawal_request_with_kind_sim w d f)|].
  intros [s1 b1] [u1 b2] Hs Hu [Hb Hrel]. simpl in *. destruct b1; [|by rewrite andb_true_r in Hrel].
  by destruct (push_flag _ _ _ _ _ _ _ Hs eq_refl).
Qed.

Lemma apply_withdrawal_request_sim d f s u r n :
  rel true d f s u → sim (rel true d f) (apply_withdrawal_request s r n) (apply_withdrawal_request u r n).
Proof.
  intros Hr. unfold apply_withdrawal_request.
  eapply sim_bind; [by apply (apply_withdrawal_request_deferred_sim true d f)|].
  intros [s1 b1] [u1 b2] [Hb Hrel]. simpl in *. subst b2. destruct b1; simpl in *; [|by apply sim_ret].
  by eapply rebuild_withdrawal_tree_sim.
Qed.

Lemma clone_state_id {T'} (v : ConsensusState T') : clone_state v = v.
Proof. by destruct v. Qed.

(** [capture_state_root] as a function of the data. *)
Definition captured {T'} `{!StateTree T'} `{!StateTreeOk T'} (v : ConsensusState T') (n : Z)
  : ConsensusState T' :=
  let v := (rebuilt v) <| proof_el_block_number := n |> in
  v <| captured_bytes := Some (write_state (v <| captured_bytes := None |>)) |>.

Lemma capture_state_root_eq {T'} `{!StateTree T'} `{!StateTreeOk T'} (v : ConsensusState T') c n :
  ssz_tree v = tree_spec ((rebuild_args v) <| a_dynamic_epoch_schedule := c |>) →
  capture_state_root v n = Some (captured v n).
Proof.
  intros Hv. unfold capture_state_root. rewrite (on_tree_spec _ _ _ Hv) by done.
  cbn [mbind option_bind]. change (op_args _ _) with (rebuild_args v).
  change (ssz_tree (v <| ssz_tree := ?t |>)) with t.
  change (validator_accounts (v <| ssz_tree := ?t |>)) with (validator_accounts v).
  unfold captured, rebuilt. cbv zeta. destruct (tree_root_ok (rebuild_args v)) as [r ->].
  cbn [mbind option_bind default]. by rewrite clone_state_id.
Qed.

Hint Resolve set_epoch_sim set_view_sim set_latest_height_sim set_head_digest_sim
  set_epoch_genesis_hash_sim set_minimum_stake_sim set_allowed_timestamp_future_ms_sim
  set_max_deposits_per_epoch_sim set_max_withdrawals_per_epoch_sim set_observers_per_validator_sim
  set_max_validator_count_sim set_max_pending_withdrawals_per_validator_sim
  set_minimum_validator_count_sim increment_pending_active_validator_exits_sim
  reset_pending_active_validator_exits_sim set_invalid_deposit_tax_sim set_treasury_address_sim
  set_next_withdrawal_index_sim set_pending_checkpoint_sim take_pending_checkpoint_sim
  set_forkchoice_sim set_forkchoice_head_sim set_forkchoice_safe_and_finalized_sim
  add_validator_sim set_removed_validators_sim push_removed_validator_sim
  clear_removed_validators_sim push_protocol_param_change_sim push_protocol_param_changes_sim
  remove_added_validators_for_epoch_sim remove_added_validator_sim
  take_pending_execution_requests_sim push_pending_execution_request_sim
  buffer_execution_requests_sim set_account_sim remove_account_sim push_withdrawal_request_sim
  push_refund_sim push_withdrawal_sim pop_withdrawal_sim push_deposit_sim pop_deposit_sim
  refund_deposit_sim process_deposits_sim apply_withdrawal_request_sim
  process_buffered_requests_sim enforce_minimum_stake_sim apply_withdrawal_payouts_sim
  apply_committee_transition_sim apply_protocol_parameter_changes_sim : state_sim.

Lemma run_state_op_sim f s u op :
  keeps_frozen op = true → rel true true f s u →
  sim (rel true true f) (run_state_op s op) (run_state_op u op).
Proof.
  intros Hk Hr. destruct op; try discriminate Hk; cbn [run_state_op];
    try (by eauto 2 with state_sim nocore); try (apply sim_fst; by eauto 2 with state_sim nocore).
  destruct Hr as (x & -> & ?). apply sim_ret. by exists x.
Qed.

End simulation.

(** ** Coherent states *)
Section coherence.
Context `{Hc : Crypto} `{Hl : SszLib} {T : Type} `{!StateTree T} `{!StateTreeOk T}.
Implicit Types (s : ConsensusState T) (u : ConsensusState ()).

(** The data fields alone. *)
Definition data_of s : ConsensusState () :=
  mkConsensusState (epoch s) (view s) (latest_height s) (head_digest s) (deposit_queue s)
    (withdrawal_queue s) (validator_accounts s) (protocol_param_changes s) (pending_checkpoint s)
    (added_validators s) (removed_validators s) (pending_execution_requests s) (forkchoice s)
    (epoch_genesis_hash s) (validator_minimum_stake s) (allowed_timestamp_future_ms s)
    (treasury_address s) (max_deposits_per_epoch s) (max_withdrawals_per_epoch s)
    (observers_per_validator s) (max_validator_count s) (minimum_validator_count s)
    (pending_active_validator_exits s) (invalid_deposit_tax s)
    (max_pending_withdrawals_per_validator s) (epocher s) () () (proof_validator_keys s) zero32
    (proof_el_block_number s) (captured_bytes s).

(** The tree is the one made from the data, with the schedule it was last told. *)
Definition tree_at (c : bytes) s : Prop :=
  ssz_tree s = tree_spec ((rebuild_args s) <| a_dynamic_epoch_schedule := c |>).
Definition coherent s : Prop :=
  BTree.sorted (validator_accounts s) ∧ ∃ c, tree_at c s.

Definition frozen_in (c : bytes) s : Frozen T :=
  (c, proof_tree s, state_root s, proof_validator_keys s, proof_el_block_number s, captured_bytes s).

Lemma rel_data c s :
  BTree.sorted (validator_accounts s) → tree_at c s → rel true true (frozen_in c s) s (data_of s).
Proof.
  intros Hs Ht.
  exists (mkAttached c (deposit_queue s) (withdrawal_queue s) (proof_tree s) (state_root s)
            (proof_validator_keys s) (proof_el_block_number s) (captured_bytes s)).
  split_and!; try done. unfold tree_at in Ht. destruct s. unfold attach. simpl in *. by rewrite Ht.
Qed.

Lemma rel_frozen w d f s u :
  rel w d f s u → f = (f.1.1.1.1.1, proof_tree s, state_root s, proof_validator_keys s,
    proof_el_block_number s, captured_bytes s).
Proof. by intros (x & -> & <- & _). Qed.

Lemma rel_coherent f s u : rel true true f s u → coherent s.
Proof.
  intros (x & -> & Hf & Hw & Hd & Hs). split; [done|]. exists (at_schedule x).
  unfold tree_at, attach. simpl. unfold tree_args. by rewrite Hw, Hd.
Qed.

Lemma data_of_rebuilt s : data_of (rebuilt s) = rebuilt (data_of s).
Proof. reflexivity. Qed.

Lemma data_of_captured s n : data_of (captured s n) = captured (data_of s) n.
Proof. reflexivity. Qed.

Lemma rebuilt_coherent s : BTree.sorted (validator_accounts s) → coherent (rebuilt s).
Proof. intros Hs. split; [done|]. by exists (write_epocher (epocher s)). Qed.

Lemma captured_coherent s n : coherent s → coherent (captured s n).
Proof. intros [Hs _]. split; [done|]. by exists (write_epocher (epocher s)). Qed.

End coherence.

Section steps.
Context `{Hc : Crypto} `{Hl : SszLib} {T : Type} `{!StateTree T} `{!StateTreeOk T}.
Implicit Types (s : ConsensusState T) (u : ConsensusState ()).

(** Both runs return, the result is coherent and has the data of the data-only run. *)
Definition same_run s' u' : Prop := coherent s' ∧ u' = data_of s'.

(** A related pair whose frozen parts were equal at the start. *)
Lemma rel_same_run c c' s s' u' :
  rel true true (frozen_in c s) s' u' → rel true true (frozen_in c' (data_of s)) u' u' →
  same_run s' u'.
Proof.
  intros Hr Hu. split; [by eapply rel_coherent|].
  apply rel_frozen in Hu. destruct Hr as (x & -> & Hf & _).
  unfold frozen_in, frozen_of in Hu, Hf. simpl in Hu. injection Hu as Hp Hk Hroot He Hcap.
  injection Hf as _ _ _ Hk' He' Hcap'.
  destruct u' as [? ? ? ? ? ? ? ? ? ? ? ? ? ? ? ? ? ? ? ? ? ? ? ? ? ? [] [] ? ? ? ?]. unfold data_of, attach.
  simpl in *. by rewrite Hk', He', Hcap', Hroot, He, Hcap, <-Hk.
Qed.
Lemma run_state_op_step s op :
  coherent s → sim same_run (run_state_op s op) (run_state_op (data_of s) op).
Proof.
  intros Hcoh. pose proof Hcoh as [Hs [c Ht]]. destruct (keeps_frozen op) eqn:Hk.
  - eapply sim_with; [by apply (run_state_op_sim (frozen_in c s)), rel_data|].
    intros s' u' _ Hu Hr. apply (rel_same_run c c s); [done|].
    pose proof (run_state_op_sim (frozen_in c (data_of s)) (data_of s) (data_of s) op Hk) as Hsim.
    rewrite Hu in Hsim. assert (data_of (data_of s) = data_of s) as E by done.
    pose proof (rel_data c (data_of s) Hs eq_refl) as Hd. rewrite E in Hd.
    specialize (Hsim Hd). by inversion_clear Hsim.
  - destruct op; try discriminate Hk; cbn [run_state_op]; unfold set_validator_accounts.
    + rewrite !rebuild_ssz_tree_ok. apply sim_ret. split; [|done].
      apply rebuilt_coherent, insert_all_is_sorted.
    + rewrite !rebuild_ssz_tree_ok. apply sim_ret. split; [|done]. by apply rebuilt_coherent.
    + rewrite (capture_state_root_eq s c) by done. rewrite (capture_state_root_eq (data_of s) c) by done.
      apply sim_ret. split; [by apply captured_coherent|done].
Qed.

Lemma run_state_step s ops :
  coherent s → sim same_run (run_state s ops) (run_state (data_of s) ops).
Proof.
  intros Hcoh. unfold run_state. apply sim_loop; [done|].
  intros s' u op [Hco ->]. by apply run_state_op_step.
Qed.

Lemma run_op_data s op d1 :
  coherent s → run_state_op (data_of s) op = Some d1 →
  ∃ s1, run_state_op s op = Some s1 ∧ coherent s1 ∧ d1 = data_of s1.
Proof.
  intros Hco Hd. pose proof (run_state_op_step s op Hco) as Hsim. rewrite Hd in Hsim.
  inversion Hsim as [s1 ? [? ?]|]; subst. by exists s1.
Qed.

Lemma run_data s ops d1 :
  coherent s → run_state (data_of s) ops = Some d1 →
  ∃ s1, run_state s ops = Some s1 ∧ coherent s1 ∧ d1 = data_of s1.
Proof.
  intros Hco Hd. pose proof (run_state_step s ops Hco) as Hsim. rewrite Hd in Hsim.
  inversion Hsim as [s1 ? [? ?]|]; subst. by exists s1.
Qed.

(** What only a capture or a rebuild changes. *)
Definition frozen_part s := (proof_tree s, state_root s, proof_validator_keys s, proof_el_block_number s,
  captured_bytes s).

Lemma run_state_op_frozen s op s' :
  coherent s → keeps_frozen op = true → run_state_op s op = Some s' → frozen_part s' = frozen_part s.
Proof.
  intros [Hs [c Ht]] Hk Hrun.
  pose proof (run_state_op_sim (frozen_in c s) s (data_of s) op Hk (rel_data c s Hs Ht)) as Hsim.
  rewrite Hrun in Hsim. inversion Hsim as [? u' Hr|]; subst. apply rel_frozen in Hr.
  unfold frozen_in in Hr. unfold frozen_part. by injection Hr as -> -> -> -> ->.
Qed.

Lemma run_state_frozen s ops s' :
  coherent s → forallb keeps_frozen ops = true → run_state s ops = Some s' →
  frozen_part s' = frozen_part s ∧ coherent s'.
Proof.
  revert s. induction ops as [|op ops IH]; intros s Hcoh Hk; [by intros [= ->]|].
  simpl in Hk. apply andb_true_iff in Hk as [Hk Hks]. unfold run_state. cbn [for_each].
  intros (s1 & H1 & H2)%bind_Some. pose proof (run_state_op_step s op Hcoh) as Hsim.
  rewrite H1 in Hsim. inversion Hsim as [? ? [Hc1 _]|]; subst.
  destruct (IH s1 Hc1 Hks H2) as [-> ?]. split; [|done]. by eapply run_state_op_frozen.
Qed.
End steps.

(** ** Decoded states are coherent *)
Section decoded.
Context `{Hc : Crypto} `{!CryptoOk} `{Hl : SszLib} `{!SszLibOk} {T : Type} `{!StateTree T} `{!StateTreeOk T}.
Implicit Types (s : ConsensusState T).

Lemma read_fields_sorted buf s rest :
  read_fields buf = Ok (Some s, rest) → BTree.sorted (validator_accounts s).
Proof. intros Hread. destruct (yields_fields _ _ _ Hread s eq_refl) as [Hwf _]. by destruct (wf_accounts _ Hwf). Qed.

Lemma read_state_coherent n buf s rest : read_state_fuel n buf = Ok (Some s, rest) → coherent s.
Proof.
  destruct n; cbn [read_state_fuel]; intros (o & buf' & Hf & Hs)%reader_bind_Ok;
    destruct (read_fields_no_panic _ _ _ Hf) as [s0 ->]; apply read_fields_sorted in Hf;
    cbn [mbind option_bind] in Hs; rewrite rebuild_ssz_tree_ok in Hs;
    destruct (captured_bytes (rebuilt s0)).
  - discriminate Hs.
  - injection Hs as <- _. by apply rebuilt_coherent.
  - destruct (decode_all _ _) as [[inner|]|]; try discriminate Hs.
    destruct (tree_root _); [|discriminate Hs]. injection Hs as <- _.
    destruct (rebuilt_coherent s0 Hf) as [? [c Hc']]. split; [done|]. by exists c.
  - injection Hs as <- _. by apply rebuilt_coherent.
Qed.

Lemma rebuild_coherent s s' :
  BTree.sorted (validator_accounts s) → rebuild_ssz_tree s = Some s' → coherent s'.
Proof. intros Hv. rewrite rebuild_ssz_tree_ok. intros [= <-]. by apply rebuilt_coherent. Qed.

Lemma new_coherent fc stake len future treasury deposits withdrawals observers maxv minv tax pending s :
  new_state fc stake len future treasury deposits withdrawals observers maxv minv tax pending = Some s →
  coherent s.
Proof. intros (t & _ & Hs)%bind_Some. eapply rebuild_coherent; [|exact Hs]. constructor. Qed.

Lemma default_coherent s : default_state = Some s → coherent s.
Proof. intros (t & _ & Hs)%bind_Some. eapply rebuild_coherent; [|exact Hs]. constructor. Qed.

Lemma captured_root s n : tree_root (proof_tree (captured s n)) = Some (state_root (captured s n)).
Proof.
  change (tree_root (tree_spec (rebuild_args s))
    = Some (default zero32 (tree_root (tree_spec (rebuild_args s))))).
  by destruct (tree_root_ok (rebuild_args s)) as [r ->].
Qed.

Lemma read_state_wf n buf s rest : read_state_fuel n buf = Ok (Some s, rest) → decoded_wf s.
Proof.
  destruct n; cbn [read_state_fuel]; intros (o & buf' & Hf & Hs)%reader_bind_Ok;
    destruct (read_fields_no_panic _ _ _ Hf) as [s0 ->];
    destruct (yields_fields _ _ _ Hf s0 eq_refl) as [Hwf Hcp];
    cbn [mbind option_bind] in Hs; rewrite rebuild_ssz_tree_ok in Hs;
    destruct (captured_bytes (rebuilt s0)); try discriminate Hs.
  - injection Hs as <- _. split; [destruct Hwf; by split|done].
  - destruct (decode_all _ _) as [[inner|]|]; try discriminate Hs.
    destruct (tree_root _) eqn:Hr; [|discriminate Hs]. injection Hs as <- _.
    split; [destruct Hwf; by split|done].
  - injection Hs as <- _. split; [destruct Hwf; by split|done].
Qed.

(** What any bytes decode to: the live tree is that of the data, the captured root
    that of the frozen tree. *)
Lemma read_state_tree n buf s rest :
  read_state_fuel n buf = Ok (Some s, rest) →
  ssz_tree s = tree_spec (rebuild_args s) ∧ tree_root (proof_tree s) = Some (state_root s).
Proof.
  destruct n; cbn [read_state_fuel]; intros (o & buf' & Hf & Hs)%reader_bind_Ok;
    destruct (read_fields_no_panic _ _ _ Hf) as [s0 ->];
    cbn [mbind option_bind] in Hs; rewrite rebuild_ssz_tree_ok in Hs;
    destruct (captured_bytes (rebuilt s0)).
  - discriminate Hs.
  - injection Hs as <- _. split; [done|exact (captured_root s0 0)].
  - destruct (decode_all _ _) as [[inner|]|]; try discriminate Hs.
    destruct (tree_root _) eqn:Hr; [|discriminate Hs]. injection Hs as <- _. by split.
  - injection Hs as <- _. split; [done|exact (captured_root s0 0)].
Qed.

Lemma default_data : ∃ s, default_state = Some s ∧ Some (data_of s) = default_state.
Proof.
  unfold default_state at 1. destruct (tree_default_ok (T:=T)) as [t ->]. cbn [mbind option_bind].
  rewrite rebuild_ssz_tree_ok. by eexists.
Qed.

Lemma length_write_state s : 1 ≤ length (write_state s).
Proof. unfold write_state. rewrite length_app, length_u64_to_be_bytes. lia. Qed.

Lemma wf_snapshot s : state_wf s → state_wf (s <| captured_bytes := None |>).
Proof. intros []. by split. Qed.

(** A restart between captures: what is decoded has the data, the captured root,
    the frozen tree and its keys; its live tree is the one of the data. *)
Definition restarted s : ConsensusState T := s <| ssz_tree := tree_spec (rebuild_args s) |>.

Lemma captured_snapshot s n :
  captured s n = (captured s n) <| captured_bytes := Some (write_state ((captured s n) <| captured_bytes := None |>)) |>.
Proof. reflexivity. Qed.

Lemma read_restarted s0 n s rest :
  state_wf (captured s0 n) → state_wf s → frozen_part s = frozen_part (captured s0 n) →
  read_state (write_state s ++ rest) = Ok (Some (restarted s), rest).
Proof.
  intros Hwf0 Hwf Hfr. unfold read_state. rewrite length_app.
  pose proof (length_write_state s) as Hlen.
  destruct (length (write_state s) + length rest) as [|k] eqn:E; [lia|].
  injection Hfr as Hp Hr Hk He Hcap.
  rewrite (read_captured_app k s ((captured s0 n) <| captured_bytes := None |>)); try done.
  - do 3 f_equal. unfold restarted.
    transitivity ((rebuilt s) <| proof_tree := proof_tree s |> <| state_root := state_root s |>
      <| proof_validator_keys := proof_validator_keys s |>); [by rewrite Hp, Hr, Hk|by destruct s].
  - by apply wf_snapshot.
Qed.
End decoded.

(** ** Properties *)
Section properties.
Context `{Hc : Crypto} `{!CryptoOk} `{Hl : SszLib} `{!SszLibOk}.
Implicit Type s : ConsensusState SszStateTree.

(** The states a node can hold: created, decoded from any bytes, or reached by an
    operation. *)
Inductive reachable : ConsensusState SszStateTree → Prop :=
| reach_new fc stake len future treasury deposits withdrawals observers maxv minv tax pending s :
    new_state fc stake len future treasury deposits withdrawals observers maxv minv tax pending = Some s →
    reachable s
| reach_default s : default_state = Some s → reachable s
| reach_decode buf s rest : read_state buf = Ok (Some s, rest) → reachable s
| reach_op s op s' : reachable s → run_state_op s op = Some s' → reachable s'.

Lemma reachable_coherent s : reachable s → coherent s.
Proof.
  induction 1 as [????????????? Hs|? Hs|? ? ? Hs|s op s' _ IH Hs].
  - by eapply new_coherent.
  - by eapply default_coherent.
  - by eapply read_state_coherent.
  - pose proof (run_state_op_step s op IH) as Hsim. rewrite Hs in Hsim.
    by inversion Hsim as [? ? [? _]|].
Qed.

Lemma reachable_run s ops s' : reachable s → run_state s ops = Some s' → reachable s'.
Proof.
  unfold run_state. revert s. induction ops as [|op ops IH]; intros s Hs; [by intros [= <-]|].
  intros (s1 & H1 & H2)%bind_Some. eapply IH; [|exact H2]. by eapply reach_op.
Qed.

(** C16: The Merkle tree is bookkeeping.  From every state a node can hold, any
    sequence of operations with the tree gives exactly the data that the same
    sequence gives on the data alone: the tree never panics, never blocks an
    operation and never changes its outcome; and an operation that panics does so
    for its data. *)
Theorem tree_is_bookkeeping s (ops : list state_op) :
  reachable s → data_of <$> run_state s ops = run_state (data_of s) ops.
Proof.
  intros Hs. pose proof (run_state_step s ops (reachable_coherent s Hs)) as Hsim.
  by inversion Hsim as [? ? [_ ->] H1 H2|].
Qed.

(** C17: The live tree commits to the data.  In every state a node can hold the
    incrementally maintained tree is, node for node, the one [rebuild] makes from
    the current data fields (with the epoch schedule it was last told, which
    [capture_state_root] refreshes); so [capture_state_root] never panics, and the
    root, the proof tree and the key list it freezes are those of a fresh rebuild. *)
Theorem live_tree_is_rebuilt s :
  reachable s →
  (∃ c, rebuild ((rebuild_args s) <| a_dynamic_epoch_schedule := c |>) = Some (ssz_tree s)) ∧
  ∀ n, ∃ s', capture_state_root s n = Some s' ∧
    rebuild (rebuild_args s) = Some (proof_tree s') ∧
    SszStateTree.root (proof_tree s') = Some (state_root s') ∧
    proof_validator_keys s' = BTree.keys (validator_accounts s) ∧
    rebuild_args s' = rebuild_args s.
Proof.
  intros [_ [c Ht]]%reachable_coherent. split; [exists c; rewrite Ht; apply rebuild_spec|].
  intros n. exists (captured s n). rewrite (capture_state_root_eq s c n Ht).
  split_and!; [reflexivity|exact (rebuild_spec _)|exact (captured_root s n)|reflexivity|reflexivity].
Qed.


(** C19: Decoding is total.  On any bytes whatsoever the state decoder returns: an
    error, or a state whose live tree is the rebuild of its data, whose captured
    root is the root of its proof tree, and whose fields have the shape and bounds the
    rest of the node relies on (sorted accounts with valid keys, a consistent
    withdrawal queue, parameters within their limits).  It never panics, and the nested snapshot
    never exhausts the decoder, since it is shorter than the bytes around it. *)
Theorem decoding_is_total (buf : bytes) :
  (∃ e, read_state (T:=SszStateTree) buf = Err e) ∨
  ∃ s rest, read_state buf = Ok (Some s, rest) ∧
    rebuild (rebuild_args s) = Some (ssz_tree s) ∧
    SszStateTree.root (proof_tree s) = Some (state_root s) ∧ decoded_wf s.
Proof.
  destruct (read_state (T:=SszStateTree) buf) as [[[s|] rest]|e] eqn:E; [right|exfalso|left; by exists e].
  - exists s, rest. split; [done|]. destruct (read_state_tree _ _ _ _ E) as [Ht Hr].
    split_and!; [rewrite Ht; apply rebuild_spec|exact Hr|by eapply read_state_wf].
  - pose proof (read_state_fuel_returns (T:=SszStateTree) (length buf) buf (le_n _)) as Hret.
    unfold read_state in E. by rewrite E in Hret.
Qed.

End properties.

(** ** A concrete run *)
Module Demo.
#[local] Existing Instance ToyCrypto.toy.
#[local] Existing Instance ToyCrypto.toy_ok.

(** A container that puts the digest first. *)
#[local] Instance toy_ssz : SszLib := {|
  ssz_container data digest := digest ++ data;
  ssz_parse bs := if length bs <? 32 then None else Some (drop 32 bs, take 32 bs);
  key_error := EndOfBuffer
|}.
#[local] Instance toy_ssz_ok : SszLibOk.
Proof.
  intros data digest Hl. unfold ssz_parse, ssz_container, toy_ssz. rewrite length_app, Hl.
  rewrite (proj2 (Nat.ltb_ge _ _)) by lia. by rewrite drop_app_length', take_app_length'.
Qed.

Lemma state_wf_data (s : ConsensusState SszStateTree) : state_wf (data_of s) → state_wf s.
Proof. intros []. by split. Qed.

Definition ops : list state_op := [op_set_view 7; op_buffer_execution_requests [zero_bytes 3]].

Definition data0 : option (ConsensusState ()) := default_state.
Definition data1 : option (ConsensusState ()) := d ← data0; capture_state_root d 5.
Lemma data_wf : ∃ d1 d2, data1 = Some d1 ∧ run_state d1 ops = Some d2 ∧ state_wf d1 ∧ state_wf d2 ∧
  pending_checkpoint d2 = None.
Proof.
  destruct data1 as [d1|] eqn:E1; [|by vm_compute in E1].
  destruct (run_state d1 ops) as [d2|] eqn:E2; vm_compute in E1; injection E1 as <-;
    vm_compute in E2; [injection E2 as <-|done].
  do 2 eexists. split_and!; [done|done| | |done]; apply (wf_by_decoding _ ()); vm_compute; reflexivity.
Qed.

(** A reachable state with the data that a run of operations makes. *)
Lemma reachable_data (l : list state_op) (d0 d : ConsensusState ()) :
  default_state = Some d0 → run_state d0 l = Some d →
  ∃ s : ConsensusState SszStateTree, reachable s ∧ data_of s = d.
Proof.
  intros Hd0 Hd. destruct (default_data (T:=SszStateTree)) as (s & Hs & Hds).
  rewrite Hd0 in Hds. injection Hds as <-.
  assert (Hr : reachable s) by by apply reach_default.
  destruct (run_data s l d (reachable_coherent s Hr) Hd) as (s1 & H1 & _ & ->).
  exists s1. split; [by eapply reachable_run|done].
Qed.

(** A concrete run of operations from the default state whose result decodes from
    its own encoding, and a boolean fact about it. *)
Definition run_default (l : list state_op) : option (ConsensusState ()) := d ← default_state; run_state d l.
Definition runs_to (l : list state_op) (P : ConsensusState () → Prop) : Prop :=
  match run_default l with
  | Some d => read_fields (write_state d) = Ok (Some (without_derived d ()), []) ∧
      pending_checkpoint d = None ∧ P d
  | None => False
  end.

Lemma runs_to_reachable l P :
  runs_to l P → ∃ s : ConsensusState SszStateTree, reachable s ∧ state_wf s ∧ P (data_of s).
Proof.
  unfold runs_to, run_default. destruct default_state as [d0|] eqn:E0; [|done]. cbn [mbind option_bind].
  destruct (run_state d0 l) as [d|] eqn:E; [|done]. intros (Hread & Hp & HP).
  destruct (reachable_data l d0 d E0 E) as (s & Hr & Hd). exists s. rewrite Hd.
  split_and!; [done| |done]. apply state_wf_data. rewrite Hd. by apply (wf_by_decoding _ ()).
Qed.

Lemma demo_run : ∃ s s1 s2 : ConsensusState SszStateTree,
  reachable s ∧ capture_state_root s 5 = Some s1 ∧ run_state s1 ops = Some s2 ∧
  state_wf s1 ∧ state_wf s2 ∧ pending_checkpoint s2 = None.
Proof.
  destruct (default_data (T:=SszStateTree)) as (s & Hs & Hd).
  assert (Hr : reachable s) by by apply reach_default.
  pose proof (reachable_coherent s Hr) as Hc.
  destruct data_wf as (d1 & d2 & Hd1 & Hd2 & Hwf1 & Hwf2 & Hp). unfold data1, data0 in Hd1. rewrite <-Hd in Hd1.
  destruct (run_op_data s (op_capture_state_root 5) d1 Hc Hd1) as (s1 & H1 & Hc1 & ->).
  destruct (run_data s1 ops d2 Hc1 Hd2) as (s2 & H2 & Hc2 & ->).
  exists s, s1, s2. split_and!; [exact Hr|exact H1|exact H2| | |exact Hp];
    by apply state_wf_data.
Qed.

Lemma tree_is_bookkeeping_witness : ∃ s : ConsensusState SszStateTree,
  data_of <$> run_state s ops = run_state (data_of s) ops.
Proof.
  destruct demo_run as (s & s1 & s2 & Hs & _). exists s. exact (tree_is_bookkeeping s ops Hs).
Defined.

Lemma live_tree_is_rebuilt_witness : ∃ s s' : ConsensusState SszStateTree,
  capture_state_root s 5 = Some s' ∧ SszStateTree.root (proof_tree s') = Some (state_root s').
Proof.
  destruct demo_run as (s & s1 & s2 & Hs & _).
  destruct (live_tree_is_rebuilt s Hs) as [_ Hcap]. destruct (Hcap 5%Z) as (s' & H1 & _ & H2 & _).
  exists s, s'. split; [exact H1|exact H2].
Defined.


Lemma decoding_is_total_witness :
  (∃ e, read_state (T:=SszStateTree) (zero_bytes 40) = Err e) ∨
  ∃ s rest, read_state (T:=SszStateTree) (zero_bytes 40) = Ok (Some s, rest).
Proof.
  destruct (decoding_is_total (zero_bytes 40)) as [H|(s & rest & H & _)]; [left; exact H|right; eauto].
Defined.

End Demo.
