(* ===== verification/StatePayouts.v ===== *)
(** * StatePayouts: the withdrawals of an epoch (types/src/consensus_state/mod.rs,
    [emit_withdrawal_payouts] and [apply_withdrawal_payouts])

    [emit_withdrawal_payouts] predicts, over a map of running balances, what
    [apply_withdrawal_payouts] will debit from the accounts.  The two sweeps are
    shown to agree entry by entry, so that what a block pays out is what the
    accounts lose. *)
From S2P Require Import Prelude Codec Crypto BTree Epocher Account ExecutionRequest ProtocolParams.
From S2P Require Import Withdrawal SszStateTree SszStateTreeFacts ConsensusState StateSync StateCodec StateDecode StateRun.

(** The sum of all balances. *)
Definition total (m : BTreeMap bytes ValidatorAccount) : Z := sum (λ e, balance e.2) m.

(** ** The debits as a function of the accounts *)
Definition pay_account (min_stake : Z) (m : BTreeMap bytes ValidatorAccount) (entry : PendingWithdrawal)
  : BTreeMap bytes ValidatorAccount :=
  if bool_decide (kind entry = DepositRefund) then m else
  match BTree.get m (pubkey entry) with
  | None => m
  | Some account =>
      if negb (bool_decide (address (inner entry) = withdrawal_credentials account)) then m else
      let payout := withdrawal_payout_amount entry (balance account)
                      (has_minimum_stake_floor (status account)) min_stake in
      let account := account <| balance := saturating_sub (balance account) payout |> in
      if (balance account =? 0)%Z then BTree.remove m (pubkey entry)
      else BTree.insert m (pubkey entry) account
  end.

Section data.
Implicit Type u : ConsensusState ().

Definition with_paid u (q : WithdrawalQueue) (m : BTreeMap bytes ValidatorAccount) : ConsensusState () :=
  u <| withdrawal_queue := q |> <| validator_accounts := m |>.

Lemma pay_account_sorted min m e : BTree.sorted m → BTree.sorted (pay_account min m e).
Proof.
  intros Hs. unfold pay_account. repeat (case_match; try done);
    first [by apply BTree.sorted_remove|by apply BTree.sorted_insert].
Qed.

Lemma pay_entry_data min u e :
  BTree.sorted (validator_accounts u) →
  pay_entry min u e = Some (u <| validator_accounts := pay_account min (validator_accounts u) e |>).
Proof.
  intros Hs. unfold pay_entry, pay_account, get_account. cbv zeta.
  assert (u <| validator_accounts := validator_accounts u |> = u) as Hid by (by destruct u).
  destruct (bool_decide _); [by rewrite Hid|].
  destruct (BTree.get _ _) as [a|]; [|by rewrite Hid]. destruct (negb _); [by rewrite Hid|].
  destruct (_ =? _)%Z; [by rewrite remove_account_data|by rewrite set_account_data].
Qed.

Lemma apply_indices e min u b q' ws ids :
  BTree.sorted (validator_accounts u) → replay (withdrawal_queue u) e ids = Some (q', ws) →
  for_each (apply_index e min) (u, b) ids
  = Some (with_paid u q' (foldl (pay_account min) (validator_accounts u) ws),
          b || negb (length ids =? 0)).
Proof.
  revert u b ws. induction ids as [|i ids IH]; intros u b ws Hs Hr.
  - injection Hr as <- <-. simpl. rewrite orb_false_r. by destruct u.
  - cbn [replay] in Hr. apply bind_Some in Hr as ([q1 w] & Hp & Hr).
    apply bind_Some in Hr as ([q2 ws1] & Hr & [= <- <-]). cbn [for_each apply_index].
    rewrite Hp, pay_entry_data by done. cbn [mbind option_bind].
    rewrite (IH _ _ ws1); [|by apply pay_account_sorted|done]. simpl. by rewrite orb_true_r.
Qed.

(** ** The prediction agrees with the debits *)

(** The accounts after part of the sweep, from the running balances. *)
Definition tracks (m0 : BTreeMap bytes ValidatorAccount) (running : gmap bytes Z)
    (m : BTreeMap bytes ValidatorAccount) : Prop :=
  BTree.sorted m ∧ ∀ k,
    match running !! k with
    | None => BTree.get m k = BTree.get m0 k
    | Some b => (0 ≤ b)%Z ∧ ∃ a0, BTree.get m0 k = Some a0 ∧
        BTree.get m k = if (b =? 0)%Z then None else Some (a0 <| balance := b |>)
    end.

(** The account of an entry and its running balance: the one the debit sees, or a
    drained account whose running balance is zero. *)
Lemma tracks_get m0 r m k a0 :
  tracks m0 r m → BTree.get m0 k = Some a0 →
  let b := default (balance a0) (r !! k) in
  (b = 0%Z ∧ r !! k = Some 0%Z ∧ BTree.get m k = None) ∨ BTree.get m k = Some (a0 <| balance := b |>).
Proof.
  intros [_ Ht] Hg. specialize (Ht k). destruct (r !! k) as [b|]; simpl.
  - destruct Ht as (Hb & a1 & Hg1 & Hm). simplify_eq. destruct (b =? 0)%Z eqn:E; [left|by right].
    apply Z.eqb_eq in E. by subst.
  - right. rewrite Ht, Hg. by destruct a0.
Qed.

(** Writing a new running balance and debiting the account keep them in step. *)
Lemma tracks_debit m0 r m k a0 b b' :
  tracks m0 r m → BTree.get m0 k = Some a0 → BTree.get m k = Some (a0 <| balance := b |>) → (0 ≤ b')%Z →
  let m' := if (b' =? 0)%Z then BTree.remove m k else BTree.insert m k (a0 <| balance := b' |>) in
  tracks m0 (<[k := b']> r) m' ∧ total m' = (total m - b + b')%Z.
Proof.
  intros [Hs Ht] Hg Hm Hb'. cbv zeta. split; [split|].
  - destruct (_ =? _)%Z; [by apply BTree.sorted_remove|by apply BTree.sorted_insert].
  - intros k'. destruct (decide (k = k')) as [<-|Hne].
    + rewrite lookup_insert_eq. split; [done|]. exists a0. split; [done|].
      destruct (_ =? _)%Z; [by apply BTree.get_remove_eq|apply BTree.get_insert_eq].
    + rewrite lookup_insert_ne by done. specialize (Ht k').
      destruct (b' =? 0)%Z; by rewrite ?BTree.get_remove_ne, ?BTree.get_insert_ne by done.
  - unfold total. destruct (b' =? 0)%Z eqn:E.
    + rewrite (BTree.sum_remove_Some _ _ _ _ Hs Hm). apply Z.eqb_eq in E. simpl. lia.
    + rewrite (BTree.sum_insert_Some _ _ _ _ _ Hs Hm). done.
Qed.

Lemma payout_le entry b floor min :
  (0 ≤ b)%Z → (0 ≤ min)%Z → (0 ≤ amount (inner entry))%Z → kind entry = Validator →
  (0 ≤ withdrawal_payout_amount entry b floor min ≤ b)%Z.
Proof.
  intros Hb Hm Ha Hk. unfold withdrawal_payout_amount. rewrite Hk.
  destruct (_ =? _)%Z; [lia|]. unfold saturating_sub. destruct floor; lia.
Qed.

Definition refund_amount (w : PendingWithdrawal) : Z :=
  if bool_decide (kind w = DepositRefund) then amount (inner w) else 0%Z.

Lemma emit_step_tracks u min r ps m w :
  (0 ≤ min)%Z → (0 ≤ amount (inner w))%Z →
  (∀ k a, BTree.get (validator_accounts u) k = Some a → (0 ≤ balance a)%Z) →
  tracks (validator_accounts u) r m →
  let st := emit_step u min (r, ps) w in
  tracks (validator_accounts u) st.1 (pay_account min m w) ∧
  (total (pay_account min m w) + sum amount st.2 = total m + sum amount ps + refund_amount w)%Z.
Proof.
  intros Hmin Ha Hbal Ht. unfold emit_step, pay_account, refund_amount, get_account.
  destruct (kind w) eqn:Hk; [rewrite !bool_decide_false by done|rewrite !bool_decide_true by done].
  2: { simpl. rewrite sum_app. simpl. split; [done|lia]. }
  destruct (BTree.get (validator_accounts u) (pubkey w)) as [a0|] eqn:Hg.
  2: { destruct Ht as [Hs Ht]. pose proof (Ht (pubkey w)) as Hp.
       destruct (r !! pubkey w); [destruct Hp as (_ & a1 & ? & _); congruence|].
       rewrite Hp, Hg. simpl. split; [by split|lia]. }
  pose proof (tracks_get _ _ _ _ _ Ht Hg) as Hcase. cbv zeta in Hcase.
  set (b := default (balance a0) (r !! pubkey w)) in *.
  assert (Hb : (0 ≤ b)%Z).
  { subst b. destruct Ht as [_ Ht]. specialize (Ht (pubkey w)).
    destruct (r !! pubkey w); [by destruct Ht|]. by apply (Hbal _ _ Hg). }
  destruct Hcase as [(Hb0 & Hr & Hm)|Hm]; rewrite Hm.
  - (* a drained account pays nothing more *)
    destruct (negb _); [simpl; split; [done|lia]|]. rewrite Hb0.
    pose proof (payout_le w 0 (has_minimum_stake_floor (status a0)) min (Z.le_refl 0) Hmin Ha Hk) as Hp.
    assert (withdrawal_payout_amount w 0 (has_minimum_stake_floor (status a0)) min = 0%Z) as -> by lia.
    cbn [Z.ltb Z.compare fst snd]. rewrite insert_id by done. split; [done|lia].
  - change (withdrawal_credentials (a0 <| balance := b |>)) with (withdrawal_credentials a0).
    change (status (a0 <| balance := b |>)) with (status a0).
    change (balance (a0 <| balance := b |>)) with b.
    destruct (negb _); [simpl; split; [done|lia]|]. cbv zeta.
    pose proof (payout_le w b (has_minimum_stake_floor (status a0)) min Hb Hmin Ha Hk) as Hp.
    set (p := withdrawal_payout_amount _ _ _ _) in *.
    change (a0 <| balance := b |> <| balance := saturating_sub b p |>)
      with (a0 <| balance := saturating_sub b p |>).
    change (balance (a0 <| balance := saturating_sub b p |>)) with (saturating_sub b p).
    assert (saturating_sub b p = b - p)%Z as -> by (unfold saturating_sub; lia).
    destruct (tracks_debit _ r m (pubkey w) a0 b (b - p) Ht Hg Hm ltac:(lia)) as [Ht' ->].
    destruct (0 <? p)%Z eqn:E; cbn [fst snd]; (split; [done|]); rewrite ?sum_app; simpl.
    + lia.
    + apply Z.ltb_ge in E. lia.
Qed.

Lemma emit_tracks u min ws r ps m :
  (0 ≤ min)%Z → Forall (λ w, (0 ≤ amount (inner w))%Z) ws →
  (∀ k a, BTree.get (validator_accounts u) k = Some a → (0 ≤ balance a)%Z) →
  tracks (validator_accounts u) r m →
  let st := foldl (emit_step u min) (r, ps) ws in
  (total (foldl (pay_account min) m ws) + sum amount st.2
   = total m + sum amount ps + sum refund_amount ws)%Z.
Proof.
  intros Hmin Hws Hbal. revert r ps m. induction Hws as [|w ws Hw Hws IH]; intros r ps m Ht; [simpl; lia|].
  destruct (emit_step_tracks u min r ps m w Hmin Hw Hbal Ht) as [Ht' Htot].
  cbn [foldl sum foldr]. destruct (emit_step u min (r, ps) w) as [r' ps'] eqn:E. cbn [fst snd] in *.
  specialize (IH _ ps' _ Ht'). cbv zeta in IH. unfold sum in *. lia.
Qed.

(** ** The stake floor *)
Definition above_floor (min k : _) (m : BTreeMap bytes ValidatorAccount) : Prop :=
  ∃ a, BTree.get m k = Some a ∧ has_minimum_stake_floor (status a) = true ∧ (min ≤ balance a)%Z.

Lemma pay_account_floor min k m w :
  (0 < min)%Z → (pubkey w = k → amount (inner w) ≠ 0%Z) →
  above_floor min k m → above_floor min k (pay_account min m w).
Proof.
  intros Hmin Hw (a & Hg & Hf & Hb). unfold pay_account.
  destruct (bool_decide (kind w = DepositRefund)) eqn:Hk; [by exists a|]. apply bool_decide_eq_false in Hk.
  destruct (decide (pubkey w = k)) as [<-|Hne].
  - rewrite Hg. destruct (negb _); [by exists a|]. rewrite Hf. unfold withdrawal_payout_amount.
    destruct (kind w); [|done]. rewrite (proj2 (Z.eqb_neq (amount (inner w)) 0)) by auto. cbv beta iota zeta.
    set (p := Z.min _ _). change (balance (a <| balance := ?x |>)) with x.
    assert (min ≤ saturating_sub (balance a) p)%Z by (unfold p, saturating_sub; lia).
    rewrite (proj2 (Z.eqb_neq _ _)) by lia. exists (a <| balance := saturating_sub (balance a) p |>).
    by rewrite BTree.get_insert_eq.
  - repeat (case_match; try by exists a); exists a;
      by rewrite ?BTree.get_remove_ne, ?BTree.get_insert_ne by done.
Qed.

Lemma pay_accounts_floor min k m ws :
  (0 < min)%Z → Forall (λ w, pubkey w = k → amount (inner w) ≠ 0%Z) ws →
  above_floor min k m → above_floor min k (foldl (pay_account min) m ws).
Proof.
  intros Hmin Hws. revert m. induction Hws; intros m Hm; [done|]. simpl. by apply IHHws, pay_account_floor.
Qed.

(** ** The whole sweep *)
Lemma apply_payouts_data u e :
  BTree.sorted (validator_accounts u) → queue_ok (withdrawal_queue u) →
  ∃ q' i j,
    apply_withdrawal_payouts u e (emit_withdrawal_payouts u e)
    = Some (with_paid u q' (foldl (pay_account (prospective_minimum_stake u)) (validator_accounts u)
                              (selected u e))) ∧
    selected u e = take i (withdrawals (withdrawal_queue u)) ++ take j (refunds (withdrawal_queue u)) ∧
    withdrawals q' = drop i (withdrawals (withdrawal_queue u)) ∧
    refunds q' = drop j (refunds (withdrawal_queue u)) ∧
    next_index q' = next_index (withdrawal_queue u) ∧ queue_ok q'.
Proof.
  intros Hs Hq. destruct (selection_prefix (withdrawal_queue u) e (Z.to_nat (max_withdrawals_per_epoch u)))
    as (i & j & Hsel).
  destruct (replay_prefix (withdrawal_queue u) e (take i (withdrawals (withdrawal_queue u)))
    (drop i (withdrawals (withdrawal_queue u))) (take j (refunds (withdrawal_queue u)))
    (drop j (refunds (withdrawal_queue u)))) as (q' & Hr & Hok & H1 & H2 & H3);
    [done|by rewrite take_drop|by rewrite take_drop|].
  exists q', i, j. split_and!; try done. unfold apply_withdrawal_payouts.
  rewrite bool_decide_true by done. cbn [negb]. cbv zeta. unfold selected. rewrite Hsel.
  rewrite (apply_indices e _ u false q' _ _ Hs Hr). cbn [mbind option_bind].
  destruct (_ || _); [by rewrite on_tree_data|done].
Qed.
End data.

Lemma find_map_elem {A B} (f : A → option B) l b : find_map f l = Some b → ∃ a, a ∈ l ∧ f a = Some b.
Proof.
  induction l as [|a l IH]; simpl; [done|]. destruct (f a) eqn:E.
  - intros [= ->]. exists a. split; [left|done].
  - intros (a' & ? & ?)%IH. exists a'. split; [by right|done].
Qed.

Section wf.
Context `{Hc : Crypto} `{Hl : SszLib} {T : Type} `{!StateTree T}.
Implicit Type s : ConsensusState T.

Lemma prospective_minimum_stake_u64 s : state_wf s → is_u64 (prospective_minimum_stake s).
Proof.
  intros Hwf. unfold prospective_minimum_stake, rev_find_map.
  destruct (find_map _ _) as [v|] eqn:E; [|by apply wf_stake]. simpl.
  apply find_map_elem in E as (p & Hp & Hv). destruct p; try discriminate Hv. injection Hv as <-.
  destruct (wf_params s Hwf) as [_ Hall]. rewrite Forall_forall in Hall.
  apply (Hall (MinimumStake v0)). by apply list_elem_of_In, in_rev, list_elem_of_In.
Qed.

Lemma wf_balance s k a : state_wf s → BTree.get (validator_accounts s) k = Some a → is_u64 (balance a).
Proof.
  intros Hwf Hg. destruct (wf_accounts s Hwf) as (_ & _ & Hall). rewrite Forall_forall in Hall.
  apply BTree.get_elem_of, Hall in Hg as [_ (_ & _ & _ & ? & _)]. done.
Qed.

Lemma wf_amount s w : state_wf s → w ∈ iter_all (withdrawal_queue s) → is_u64 (amount (inner w)).
Proof.
  intros Hwf Hw. destruct (wf_withdrawals s Hwf) as (_ & Hall & _). rewrite Forall_forall in Hall.
  by apply Hall in Hw as (_ & _ & _ & ? & _).
Qed.
End wf.

Lemma emit_data {T} (s : ConsensusState T) e :
  emit_withdrawal_payouts s e = emit_withdrawal_payouts (data_of s) e.
Proof. reflexivity. Qed.

Section properties.
Context `{Hc : Crypto} `{!CryptoOk} `{Hl : SszLib} `{!SszLibOk}.
Implicit Type s : ConsensusState SszStateTree.

Lemma selected_amounts (u : ConsensusState ()) e :
  state_wf u → Forall (λ w, (0 ≤ amount (inner w))%Z) (selected u e).
Proof.
  intros Hwf. apply Forall_forall. intros w Hw. unfold selected in Hw.
  destruct (selection_prefix (withdrawal_queue u) e (Z.to_nat (max_withdrawals_per_epoch u)))
    as (i & j & Hsel). rewrite Hsel in Hw.
  assert (w ∈ iter_all (withdrawal_queue u)) as Hin.
  { unfold iter_all. apply elem_of_app. apply elem_of_app in Hw as [Hw|Hw]; [left|right];
      by eapply elem_of_take in Hw as (? & ? & _); eapply list_elem_of_lookup_2. }
  apply (wf_amount u w Hwf) in Hin. u64_unfold. lia.
Qed.

(** C15: A block pays out exactly what the accounts lose.  For every state a node
    can hold: a withdrawal list other than the predicted one halts the node before
    any balance is touched; with the predicted list the sweep never panics, consumes
    exactly the selected entries from the front of the two queues, and the balances
    it debits plus the refunds it releases are, to the unit, the sum the block pays;
    and a staking account that met the prospective minimum stake and has no exit
    marker among the selected entries still meets it afterwards. *)
Theorem payouts_equal_debits s (e : Z) (ws : list Withdrawal) :
  reachable s → state_wf s →
  (ws ≠ emit_withdrawal_payouts s e → apply_withdrawal_payouts s e ws = None) ∧
  ∃ s' i j, apply_withdrawal_payouts s e (emit_withdrawal_payouts s e) = Some s' ∧
    selected s e = take i (withdrawals (withdrawal_queue s)) ++ take j (refunds (withdrawal_queue s)) ∧
    withdrawals (withdrawal_queue s') = drop i (withdrawals (withdrawal_queue s)) ∧
    refunds (withdrawal_queue s') = drop j (refunds (withdrawal_queue s)) ∧
    (total (validator_accounts s') + sum amount (emit_withdrawal_payouts s e)
     = total (validator_accounts s) + sum refund_amount (selected s e))%Z ∧
    ∀ k, (0 < prospective_minimum_stake s)%Z →
      Forall (λ w, pubkey w = k → amount (inner w) ≠ 0%Z) (selected s e) →
      above_floor (prospective_minimum_stake s) k (validator_accounts s) →
      above_floor (prospective_minimum_stake s) k (validator_accounts s').
Proof.
  intros Hr Hwf. split.
  { intros Hne. unfold apply_withdrawal_payouts. by rewrite bool_decide_false. }
  destruct (wf_accounts s Hwf) as [Hs _]. destruct (wf_withdrawals s Hwf) as [Hq _].
  destruct (apply_payouts_data (data_of s) e Hs Hq) as (q' & i & j & Happ & Hsel & H1 & H2 & H3 & _).
  destruct (run_op_data s (op_apply_withdrawal_payouts e (emit_withdrawal_payouts s e)) _
    (reachable_coherent s Hr) Happ) as (s' & Hrun & _ & Hd).
  assert (Hq' : withdrawal_queue s' = q').
  { change (withdrawal_queue (data_of s') = q'). by rewrite <-Hd. }
  assert (Ha' : validator_accounts s' =
    foldl (pay_account (prospective_minimum_stake s)) (validator_accounts s) (selected s e)).
  { change (validator_accounts (data_of s') = foldl (pay_account (prospective_minimum_stake s))
      (validator_accounts s) (selected s e)). by rewrite <-Hd. }
  pose proof (prospective_minimum_stake_u64 s Hwf) as Hmin.
  exists s', i, j. rewrite Hq', Ha'. split_and!; try done.
  - assert (Hwf' : state_wf (data_of s)) by (destruct Hwf; by split).
    assert (Hz : (0 ≤ prospective_minimum_stake s)%Z) by (u64_unfold; lia).
    pose proof (emit_tracks (data_of s) (prospective_minimum_stake s) (selected s e) ∅ []
      (validator_accounts s) Hz (selected_amounts (data_of s) e Hwf')) as Hem. simpl in Hem.
    unfold emit_withdrawal_payouts. rewrite Z.add_0_r in Hem. apply Hem.
    + intros k a Hg. pose proof (wf_balance s k a Hwf Hg). u64_unfold. lia.
    + by split; [|intros k; rewrite lookup_empty].
  - intros k Hpos Hall. by apply pay_accounts_floor.
Qed.
End properties.

(** ** A concrete sweep *)
Module Demo.
Import StateRun.Demo.
#[local] Existing Instance ToyCrypto.toy.
#[local] Existing Instance ToyCrypto.toy_ok.
#[local] Existing Instance toy_ssz.
#[local] Existing Instance toy_ssz_ok.

Definition key : bytes := demo_key 1.
Definition account : ValidatorAccount :=
  mkValidatorAccount (zero_bytes 48) (zero_bytes 20) 50 Active 0 0.
Definition setup : list state_op :=
  [ op_set_minimum_stake 32; op_set_account key account;
    op_push_withdrawal_request (mkWithdrawalRequest (zero_bytes 20) key 30) 0;
    op_push_refund_withdrawal_request (mkWithdrawalRequest (zero_bytes 20) (zero_bytes 32) 7) 0 ].

Lemma demo_state : ∃ s : ConsensusState SszStateTree, reachable s ∧ state_wf s ∧
  emit_withdrawal_payouts (data_of s) 0
  = [mkWithdrawal 0 0 (zero_bytes 20) 18; mkWithdrawal 1 0 (zero_bytes 20) 7].
Proof. apply (runs_to_reachable setup (λ d, emit_withdrawal_payouts d 0 = _)). by vm_compute. Qed.

Lemma payouts_equal_debits_witness : ∃ s s' : ConsensusState SszStateTree,
  apply_withdrawal_payouts s 0 [mkWithdrawal 0 0 (zero_bytes 20) 18; mkWithdrawal 1 0 (zero_bytes 20) 7] = Some s' ∧
  (total (validator_accounts s') + 25 = total (validator_accounts s) + sum refund_amount (selected s 0))%Z.
Proof.
  destruct demo_state as (s & Hr & Hwf & Hem).
  destruct (payouts_equal_debits s 0 [] Hr Hwf) as [_ (s' & i & j & Happ & _ & _ & _ & Hsum & _)].
  rewrite emit_data, Hem in Happ, Hsum. exists s, s'. split; [exact Happ|]. exact Hsum.
Defined.
End Demo.
