(* ===== verification/Block.v ===== *)
(** * Block: headers, blocks and finalized headers (types/src/header.rs, types/src/block.rs)

    A header commits to the body of its block by two hashes and is itself
    identified by the hash of its encoding; decoding a block checks the body against
    its header, decoding a finalized header checks the header against the signed
    payload of its certificate.  The SSZ encodings derived by [ssz_derive], the
    execution payload of [alloy] and the certificate of the consensus library are
    parameters ([BlockLib]); their laws say that what was encoded decodes. *)
From S2P Require Import Prelude Codec Crypto SszHash Withdrawal.

(** A header; [digest] is the memoised digest, which [Block::genesis] seeds. *)
Record Header := mkHeader {
  parent : bytes;
  height : Z;
  timestamp : Z;
  h_epoch : Z;
  h_view : Z;
  payload_hash : bytes;
  execution_request_hash : bytes;
  checkpoint_hash : bytes;
  prev_epoch_header_hash : bytes;
  h_added_validators : list AddedValidator;
  h_removed_validators : list bytes;
  parent_beacon_block_root : bytes;
  digest : option bytes
}.
#[global] Instance Header_eta : Eta Header := λ h,
  mkHeader (parent h) (height h) (timestamp h) (h_epoch h) (h_view h) (payload_hash h)
    (execution_request_hash h) (checkpoint_hash h) (prev_epoch_header_hash h) (h_added_validators h)
    (h_removed_validators h) (parent_beacon_block_root h) (digest h).

(** [Header::new]: a cold digest cache. *)
Definition header_new (parent : bytes) (height timestamp epoch view : Z)
    (payload_hash execution_request_hash checkpoint_hash prev_epoch_header_hash : bytes)
    (added : list AddedValidator) (removed : list bytes) (root : bytes) : Header :=
  mkHeader parent height timestamp epoch view payload_hash execution_request_hash checkpoint_hash
    prev_epoch_header_hash added removed root None.
Definition header_new_with_digest (parent : bytes) (height timestamp epoch view : Z)
    (payload_hash execution_request_hash checkpoint_hash prev_epoch_header_hash : bytes)
    (added : list AddedValidator) (removed : list bytes) (root digest : bytes) : Header :=
  mkHeader parent height timestamp epoch view payload_hash execution_request_hash checkpoint_hash
    prev_epoch_header_hash added removed root (Some digest).

(** [PartialEq for Header]: the cache is not compared. *)
Definition cold (h : Header) : Header := h <| digest := None |>.
Definition header_eq (h1 h2 : Header) : Prop := cold h1 = cold h2.

(** The third-party code behind blocks. *)
Class BlockLib := {
  (** [alloy]'s [ExecutionPayloadV3] and the fields of it that are read. *)
  Payload : Type;
  block_hash : Payload → bytes;
  parent_hash : Payload → bytes;
  block_number : Payload → Z;
  payload_withdrawals : Payload → list Withdrawal;
  (** [ExecutionPayloadV3::from_block_slow] of the default block. *)
  default_payload : Payload;
  payload_ssz : Payload → bytes;
  requests_ssz : list bytes → bytes;
  (** [ssz_derive] on [Header]. *)
  header_ssz : Header → bytes;
  header_from_ssz : bytes → option Header;
  (** The container of a header, a payload and requests. *)
  block_ssz : Header → Payload → list bytes → bytes;
  block_parse : bytes → option (Header * Payload * list bytes);
  (** A finalization certificate, its signed payload, and its codec, which is told
      the number of participants. *)
  Finalization : Type;
  signed_payload : Finalization → bytes;
  write_finalization : Finalization → bytes;
  read_finalization : nat → reader Finalization;
  (** The certificate decodes under this number of participants. *)
  certificate_fits : nat → Finalization → Prop;
  (** The container of header bytes, a participant count and certificate bytes. *)
  finalized_ssz : bytes → Z → bytes → bytes;
  finalized_parse : bytes → option (bytes * Z * bytes)
}.

Section block.
Context `{Hc : Crypto} `{Hb : BlockLib}.

(** ** Headers *)
Definition write_header (h : Header) : bytes :=
  let ssz_bytes := header_ssz h in put_len (length ssz_bytes) ++ ssz_bytes.
Definition read_header : reader Header :=
  len ← get_len;
  n ← remaining;
  ensure (negb (n <? len)) (Invalid "Header" "improper encoded length");;
  payload ← take_bytes len;
  match header_from_ssz payload with
  | Some h => mret h
  | None => fail (Invalid "Header" "Unable to decode bytes for header")
  end.

Definition computed_digest (h : Header) : bytes := sha256 (write_header h).
(** The cache is filled on first use; reading it again gives the same value. *)
Definition get_digest (h : Header) : bytes :=
  match digest h with Some d => d | None => computed_digest h end.

(** ** Blocks *)
Record Block := mkBlock {
  header : Header;
  payload : Payload;
  execution_requests : list bytes
}.

Definition hash_requests (rs : list bytes) : bytes :=
  match rs with [] => zero_bytes 32 | _ => sha256 (requests_ssz rs) end.

Definition compute_digest (parent : bytes) (height timestamp : Z) (payload : Payload)
    (execution_requests : list bytes) (epoch view : Z) (checkpoint_hash : option bytes)
    (prev_epoch_header_hash : bytes) (added : list AddedValidator) (removed : list bytes)
    (root : bytes) : Block :=
  mkBlock (header_new parent height timestamp epoch view (sha256 (payload_ssz payload))
    (hash_requests execution_requests) (default (zero_bytes 32) checkpoint_hash)
    prev_epoch_header_hash added removed root) payload execution_requests.

Definition new_with_verify (header : Header) (payload : Payload) (execution_requests : list bytes)
  : result string Block :=
  if negb (bool_decide (sha256 (payload_ssz payload) = payload_hash header))
  then Err "Payload hash mismatch" else
  if negb (bool_decide (hash_requests execution_requests = execution_request_hash header))
  then Err "Execution request hash mismatch" else
  Ok (mkBlock header payload execution_requests).

Definition genesis (genesis_hash : bytes) : Block :=
  mkBlock (header_new_with_digest genesis_hash 0 0 0 1 (sha256 (payload_ssz default_payload))
    (zero_bytes 32) (zero_bytes 32) (zero_bytes 32) [] [] (zero_bytes 32) genesis_hash)
    default_payload [].

Definition block_parent (b : Block) : bytes := parent (header b).
Definition block_height (b : Block) : Z := height (header b).
Definition block_digest (b : Block) : bytes := get_digest (header b).
Definition block_view (b : Block) : Z := h_view (header b).
Definition block_epoch (b : Block) : Z := h_epoch (header b).
Definition eth_block_hash (b : Block) : bytes :=
  if (height (header b) =? 0)%Z then get_digest (header b) else block_hash (payload b).
Definition eth_parent_hash (b : Block) : bytes := parent_hash (payload b).

Definition block_from_ssz (bs : bytes) : option Block :=
  '(header, payload, execution_requests) ← block_parse bs;
  match new_with_verify header payload execution_requests with Ok b => Some b | Err _ => None end.
Definition write_block (b : Block) : bytes :=
  let ssz_bytes := block_ssz (header b) (payload b) (execution_requests b) in
  put_len (length ssz_bytes) ++ ssz_bytes.
(** Both branches of the source, on the contiguous chunk and on a copy, read the
    same [len] bytes. *)
Definition read_block : reader Block :=
  len ← get_len;
  n ← remaining;
  ensure (negb (n <? len)) (Invalid "Block" "improper encoded length");;
  bs ← take_bytes len;
  match block_from_ssz bs with
  | Some b => mret b
  | None => fail (Invalid "Block" "Unable to decode bytes for block")
  end.

(** ** Finalized headers *)
Record FinalizedHeader := mkFinalizedHeader {
  fh_header : Header;
  fh_finalization : Finalization;
  participant_count : nat
}.
Definition MAX_FINALIZED_HEADER_PARTICIPANTS : Z := 100000.

Inductive FinalizedHeaderError := PayloadDigestMismatch.
Definition finalized_new (h : Header) (f : Finalization) (n : nat)
  : result FinalizedHeaderError FinalizedHeader :=
  if negb (bool_decide (signed_payload f = computed_digest h)) then Err PayloadDigestMismatch
  else Ok (mkFinalizedHeader h f n).

Definition finalized_from_ssz (bs : bytes) : option FinalizedHeader :=
  '(header_bytes, participant_count, finalized_bytes) ← finalized_parse bs;
  if (MAX_FINALIZED_HEADER_PARTICIPANTS <? participant_count)%Z then None else
  h ← header_from_ssz header_bytes;
  match read_finalization (Z.to_nat participant_count) finalized_bytes with
  | Ok (f, _) =>
      match finalized_new h f (Z.to_nat participant_count) with Ok fh => Some fh | Err _ => None end
  | Err _ => None
  end.
Definition write_finalized (fh : FinalizedHeader) : bytes :=
  let ssz_bytes := finalized_ssz (header_ssz (fh_header fh)) (as_u32 (participant_count fh))
                     (write_finalization (fh_finalization fh)) in
  put_len (length ssz_bytes) ++ ssz_bytes.
Definition read_finalized : reader FinalizedHeader :=
  len ← get_len;
  n ← remaining;
  ensure (negb (n <? len)) (Invalid "FinalizedHeader" "improper encoded length");;
  bs ← take_bytes len;
  match finalized_from_ssz bs with
  | Some fh => mret fh
  | None => fail (Invalid "FinalizedHeader" "Unable to decode bytes for finalized header")
  end.
End block.

(** ** Laws of the encodings *)
Definition header_wf `{Crypto} (h : Header) : Prop :=
  Forall (λ d, length d = 32) [parent h; payload_hash h; execution_request_hash h; checkpoint_hash h;
    prev_epoch_header_hash h; parent_beacon_block_root h] ∧
  Forall is_u64 [height h; timestamp h; h_epoch h; h_view h] ∧
  Forall (λ v, length (node_key v) = 32 ∧ ed25519_valid (node_key v) = true ∧
    length (consensus_key v) = 48 ∧ bls_valid (consensus_key v) = true) (h_added_validators h) ∧
  Forall (λ k, length k = 32 ∧ ed25519_valid k = true) (h_removed_validators h).

Class BlockLibOk `{Hc : Crypto} `{Hb : BlockLib} : Prop := {
  (** The cache is skipped, and what was encoded decodes, with a cold cache. *)
  header_ssz_skip h : header_ssz (cold h) = header_ssz h;
  header_ssz_decode h : header_wf h → header_from_ssz (header_ssz h) = Some (cold h);
  block_ssz_skip h p rs : block_ssz (cold h) p rs = block_ssz h p rs;
  block_ssz_decode h p rs : header_wf h → block_parse (block_ssz h p rs) = Some (cold h, p, rs);
  (** A decoded header has fields of its types. *)
  block_parse_wf bs h p rs : block_parse bs = Some (h, p, rs) → header_wf h ∧ digest h = None;
  payload_ssz_inj p1 p2 : payload_ssz p1 = payload_ssz p2 → p1 = p2;
  requests_ssz_inj r1 r2 : requests_ssz r1 = requests_ssz r2 → r1 = r2;
  finalized_ssz_decode hb n fb : (0 ≤ n < 2 ^ 32)%Z → finalized_parse (finalized_ssz hb n fb) = Some (hb, n, fb);
  finalization_decode n f : certificate_fits n f → read_finalization n (write_finalization f) = Ok (f, [])
}.

Section facts.
Context `{Hc : Crypto} `{!CryptoOk} `{Hb : BlockLib} `{!BlockLibOk}.

Lemma write_header_cold h : write_header (cold h) = write_header h.
Proof. unfold write_header. by rewrite header_ssz_skip. Qed.

Lemma computed_digest_cold h : computed_digest (cold h) = computed_digest h.
Proof. unfold computed_digest. by rewrite write_header_cold. Qed.

Lemma write_header_inj h1 h2 :
  header_wf h1 → header_wf h2 → write_header h1 = write_header h2 → header_eq h1 h2.
Proof.
  intros Hw1 Hw2. unfold write_header. intros [_ E]%app_inj_1; [|by rewrite !length_put_len].
  apply header_ssz_decode in Hw1, Hw2. rewrite E in Hw1. unfold header_eq. congruence.
Qed.

(** The body the header commits to. *)
Definition body_bound (b : Block) : Prop :=
  sha256 (payload_ssz (payload b)) = payload_hash (header b) ∧
  hash_requests (execution_requests b) = execution_request_hash (header b).

Lemma new_with_verify_Ok h p rs b :
  new_with_verify h p rs = Ok b ↔ b = mkBlock h p rs ∧ body_bound b.
Proof.
  unfold new_with_verify, body_bound. split.
  - destruct (bool_decide _) eqn:E1; [|done]. destruct (bool_decide (hash_requests _ = _)) eqn:E2; [|done].
    intros [= <-]. apply bool_decide_eq_true in E1, E2. done.
  - intros (-> & H1 & H2). simpl in *. by rewrite !bool_decide_true by done.
Qed.

Lemma read_block_Ok buf b rest :
  read_block buf = Ok (b, rest) → header_wf (header b) ∧ digest (header b) = None ∧ body_bound b.
Proof.
  unfold read_block. intros (len & ? & _ & Hr)%reader_bind_Ok.
  apply reader_bind_Ok in Hr as (n & ? & _ & Hr). apply reader_bind_Ok in Hr as (? & ? & _ & Hr).
  apply reader_bind_Ok in Hr as (bs & ? & _ & Hr).
  destruct (block_from_ssz bs) as [b'|] eqn:E; [|done]. injection Hr as <- _.
  unfold block_from_ssz in E. apply bind_Some in E as ([[h p] rs] & Hp & E).
  destruct (new_with_verify h p rs) as [b2|] eqn:Hn; [|done]. injection E as ->.
  apply new_with_verify_Ok in Hn as [-> Hbound]. apply block_parse_wf in Hp as [? ?]. done.
Qed.

Lemma read_framed {A} (f : bytes → option A) e1 e2 (bs rest : bytes) :
  len_ok (length bs) →
  (len ← get_len; n ← remaining; ensure (negb (n <? len)) e1;; p ← take_bytes len;
   match f p with Some a => mret a | None => fail e2 end) (put_len (length bs) ++ bs ++ rest)
  = match f bs with Some a => Ok (a, rest) | None => Err e2 end.
Proof.
  intros Hn. codec. erewrite reader_bind_step by reflexivity.
  erewrite reader_bind_step.
  2: { apply ensure_true, negb_true_iff, Nat.ltb_ge. rewrite length_app. lia. }
  erewrite reader_bind_step by (by apply take_bytes_app). by destruct (f bs).
Qed.

Lemma read_block_app b rest :
  len_ok (length (block_ssz (header b) (payload b) (execution_requests b))) →
  read_block (write_block b ++ rest) =
  match '(h, p, rs) ← block_parse (block_ssz (header b) (payload b) (execution_requests b));
        match new_with_verify h p rs with Ok b => Some b | Err _ => None end with
  | Some b => Ok (b, rest)
  | None => Err (Invalid "Block" "Unable to decode bytes for block")
  end.
Proof. intros Hn. unfold read_block, write_block. rewrite <-(assoc_L (++)). by rewrite read_framed. Qed.

Lemma read_finalized_app fh rest :
  header_wf (fh_header fh) → (Z.of_nat (participant_count fh) < 2 ^ 32)%Z →
  certificate_fits (participant_count fh) (fh_finalization fh) →
  len_ok (length (finalized_ssz (header_ssz (fh_header fh)) (as_u32 (participant_count fh))
                    (write_finalization (fh_finalization fh)))) →
  read_finalized (write_finalized fh ++ rest) =
  match if (MAX_FINALIZED_HEADER_PARTICIPANTS <? Z.of_nat (participant_count fh))%Z then None
        else match finalized_new (cold (fh_header fh)) (fh_finalization fh) (participant_count fh) with
             | Ok fh => Some fh | Err _ => None
             end with
  | Some fh => Ok (fh, rest)
  | None => Err (Invalid "FinalizedHeader" "Unable to decode bytes for finalized header")
  end.
Proof.
  intros Hw Hn Hf Hlen. unfold read_finalized, write_finalized. rewrite <-(assoc_L (++)), read_framed by done.
  unfold finalized_from_ssz. unfold as_u32. rewrite Z.mod_small, finalized_ssz_decode by lia.
  cbn [mbind option_bind]. destruct (_ <? _)%Z; [done|].
  rewrite header_ssz_decode by done. cbn [mbind option_bind].
  by rewrite Nat2Z.id, finalization_decode by done.
Qed.

(** Two different inputs with the same SHA-256 hash. *)
Definition clash (x y : bytes) : Prop := x ≠ y ∧ sha256 x = sha256 y.

Lemma clash_or_eq x y : sha256 x = sha256 y → x = y ∨ clash x y.
Proof. intros Hxy. destruct (decide (x = y)); [by left|right]. by split. Qed.

Lemma requests_bind r1 r2 :
  hash_requests r1 = hash_requests r2 →
  r1 = r2 ∨ clash (requests_ssz r1) (requests_ssz r2) ∨
  sha256 (requests_ssz (r1 ++ r2)) = zero_bytes 32.
Proof.
  destruct r1 as [|x r1], r2 as [|y r2]; simpl; intros E; [by left|right; right; by symmetry| |].
  - rewrite app_nil_r. by right; right.
  - apply clash_or_eq in E as [E|]; [left; by apply requests_ssz_inj|by right; left].
Qed.

(** C38: The digest of a block identifies its whole content.  If two blocks that the
    decoder accepted -- whatever bytes they came from -- have the same digest, then
    they have the same header, payload and execution requests, or the blocks at hand
    exhibit a SHA-256 collision (of their headers, payloads or request lists) or a
    request list that hashes to zero, the mark of an empty list. *)
Theorem block_digest_binds_content buf1 buf2 (b1 b2 : Block) rest1 rest2 :
  read_block buf1 = Ok (b1, rest1) → read_block buf2 = Ok (b2, rest2) →
  block_digest b1 = block_digest b2 →
  b1 = b2 ∨
  clash (write_header (header b1)) (write_header (header b2)) ∨
  clash (payload_ssz (payload b1)) (payload_ssz (payload b2)) ∨
  clash (requests_ssz (execution_requests b1)) (requests_ssz (execution_requests b2)) ∨
  sha256 (requests_ssz (execution_requests b1 ++ execution_requests b2)) = zero_bytes 32.
Proof.
  intros (W1 & D1 & P1 & R1)%read_block_Ok (W2 & D2 & P2 & R2)%read_block_Ok.
  unfold block_digest, get_digest. rewrite D1, D2. simpl. intros [E|?]%clash_or_eq; [|by right; left].
  apply (write_header_inj _ _ W1 W2) in E. unfold header_eq, cold in E.
  assert (header b1 = header b2) as Eh.
  { destruct (header b1), (header b2). simpl in *. by subst. }
  rewrite Eh in P1, R1. rewrite <-P2 in P1. rewrite <-R2 in R1.
  apply clash_or_eq in P1 as [P1|?]; [|by right; right; left].
  destruct (requests_bind _ _ R1) as [Er|[?|?]]; [left|by right; right; right; left|by right; right; right; right].
  destruct b1, b2. simpl in *. apply payload_ssz_inj in P1. by subst.
Qed.

(** Blocks and finalized headers round-trip exactly when they are bound.  A
    block is decoded from its encoding, with a cold digest cache, if its header
    commits to its body, and refused otherwise; a finalized header whose certificate
    signs the digest of its fields, for at most the maximal number of participants,
    is decoded from its encoding, and one whose certificate signs anything else, or
    with too many participants, is refused. *)
Theorem bound_blocks_roundtrip (b : Block) (fh : FinalizedHeader) rest :
  header_wf (header b) → len_ok (length (block_ssz (header b) (payload b) (execution_requests b))) →
  header_wf (fh_header fh) → (Z.of_nat (participant_count fh) < 2 ^ 32)%Z →
  certificate_fits (participant_count fh) (fh_finalization fh) →
  len_ok (length (finalized_ssz (header_ssz (fh_header fh)) (as_u32 (participant_count fh))
                    (write_finalization (fh_finalization fh)))) →
  (body_bound b → read_block (write_block b ++ rest)
     = Ok (mkBlock (cold (header b)) (payload b) (execution_requests b), rest)) ∧
  (¬ body_bound b → read_block (write_block b ++ rest)
     = Err (Invalid "Block" "Unable to decode bytes for block")) ∧
  (signed_payload (fh_finalization fh) = computed_digest (fh_header fh) →
   (Z.of_nat (participant_count fh) ≤ MAX_FINALIZED_HEADER_PARTICIPANTS)%Z →
   read_finalized (write_finalized fh ++ rest)
     = Ok (mkFinalizedHeader (cold (fh_header fh)) (fh_finalization fh) (participant_count fh), rest)) ∧
  (signed_payload (fh_finalization fh) ≠ computed_digest (fh_header fh) ∨
   (MAX_FINALIZED_HEADER_PARTICIPANTS < Z.of_nat (participant_count fh))%Z →
   read_finalized (write_finalized fh ++ rest)
     = Err (Invalid "FinalizedHeader" "Unable to decode bytes for finalized header")).
Proof.
  intros Hw Hlen Hfw Hn Hfit Hflen. split_and!.
  - intros Hbound. rewrite read_block_app, block_ssz_decode by done. cbn [mbind option_bind].
    by rewrite (proj2 (new_with_verify_Ok _ _ _ (mkBlock (cold (header b)) (payload b) (execution_requests b)))).
  - intros Hbound. rewrite read_block_app, block_ssz_decode by done. cbn [mbind option_bind].
    destruct (new_with_verify _ _ _) as [b'|] eqn:E; [|done].
    apply new_with_verify_Ok in E as [-> Hb']. by destruct Hbound.
  - intros Hsig Hmax. rewrite read_finalized_app by done. unfold finalized_new.
    by rewrite (proj2 (Z.ltb_ge _ _)), computed_digest_cold, bool_decide_true by done.
  - intros Hbad. rewrite read_finalized_app by done. unfold finalized_new. rewrite computed_digest_cold.
    destruct (_ <? _)%Z eqn:E; [done|]. apply Z.ltb_ge in E.
    destruct Hbad as [Hbad|Hbad]; [by rewrite bool_decide_false|lia].
Qed.
End facts.

(** ** A concrete instance *)
Module ToyBlocks.
#[local] Existing Instance ToyCrypto.toy.
#[local] Existing Instance ToyCrypto.toy_ok.

(** Any countable type as bytes: one byte per bit of its number. *)
Fixpoint pos_bytes (p : positive) : bytes :=
  match p with
  | xH => []
  | xO p => u8_to_byte 0 :: pos_bytes p
  | xI p => u8_to_byte 1 :: pos_bytes p
  end.
Fixpoint bytes_pos (bs : bytes) : positive :=
  match bs with
  | [] => xH
  | b :: bs => if bool_decide (b = u8_to_byte 0) then xO (bytes_pos bs) else xI (bytes_pos bs)
  end.
Lemma bytes_pos_bytes p : bytes_pos (pos_bytes p) = p.
Proof. induction p; simpl; [..|done]; by rewrite IHp. Qed.

Definition enc {A} `{Countable A} (a : A) : bytes := pos_bytes (encode a).
Definition dec {A} `{Countable A} (bs : bytes) : option A := decode (bytes_pos bs).
Lemma dec_enc {A} `{Countable A} (a : A) : dec (enc a) = Some a.
Proof. unfold dec, enc. by rewrite bytes_pos_bytes, decode_encode. Qed.
Lemma enc_inj {A} `{Countable A} (a b : A) : enc a = enc b → a = b.
Proof. intros E. apply (f_equal (dec (A:=A))) in E. rewrite !dec_enc in E. by injection E. Qed.

(** Bytes behind their length in unary. *)
Definition frame (bs : bytes) : bytes := replicate (length bs) (u8_to_byte 1) ++ u8_to_byte 0 :: bs.
Fixpoint ones (bs : bytes) : nat :=
  match bs with b :: bs => if bool_decide (b = u8_to_byte 1) then S (ones bs) else 0 | [] => 0 end.
Definition unframe (bs : bytes) : bytes * bytes :=
  let n := ones bs in (take n (drop (S n) bs), drop (S n + n) bs).
Lemma ones_frame n rest : ones (replicate n (u8_to_byte 1) ++ u8_to_byte 0 :: rest) = n.
Proof. induction n; simpl; [done|by rewrite IHn]. Qed.
Lemma unframe_frame bs rest : unframe (frame bs ++ rest) = (bs, rest).
Proof.
  unfold unframe, frame. rewrite <-(assoc_L (++)). simpl app. rewrite ones_frame. cbv zeta.
  assert (∀ r, drop (S (length bs)) (replicate (length bs) (u8_to_byte 1) ++ u8_to_byte 0 :: r) = r) as E.
  { intros r. rewrite (cons_middle (u8_to_byte 0)), (assoc_L (++)), drop_app_length'; [done|].
    rewrite length_app, length_replicate. simpl. lia. }
  rewrite <-drop_drop, !E, take_app_length, drop_app_length. done.
Qed.

Definition small : Type := Z * Z * Z * Z * list (bytes * bytes) * list bytes.
Definition toy_header (h : Header) : bytes :=
  frame (parent h) ++ frame (payload_hash h) ++ frame (execution_request_hash h)
  ++ frame (checkpoint_hash h) ++ frame (prev_epoch_header_hash h) ++ frame (parent_beacon_block_root h)
  ++ enc (height h, timestamp h, h_epoch h, h_view h,
          map (λ v, (node_key v, consensus_key v)) (h_added_validators h), h_removed_validators h).
Definition toy_unheader (bs : bytes) : option Header :=
  let '(p, bs) := unframe bs in let '(ph, bs) := unframe bs in let '(eh, bs) := unframe bs in
  let '(ch, bs) := unframe bs in let '(pe, bs) := unframe bs in let '(pb, bs) := unframe bs in
  '(he, t, e, v, ad, rm) ← dec (A:=small) bs;
  Some (mkHeader p he t e v ph eh ch pe (map (λ '(k, c), mkAddedValidator k c) ad) rm pb None).
Lemma toy_header_decode h : toy_unheader (toy_header h) = Some (cold h).
Proof.
  unfold toy_unheader, toy_header. rewrite !unframe_frame, dec_enc. cbn [mbind option_bind].
  destruct h as [p he t e v ph eh ch pe ad rm pb d]. unfold cold. simpl. rewrite map_map. do 2 f_equal.
  rewrite <-(map_id ad) at 2. apply map_ext. by intros [].
Qed.
Lemma toy_unheader_cold bs h : toy_unheader bs = Some h → digest h = None.
Proof.
  unfold toy_unheader. repeat (destruct (unframe _)). intros ([[[[[he t] e] v] ad] rm] & _ & [= <-])%bind_Some.
  done.
Qed.

#[global] Instance header_wf_dec h : Decision (header_wf h).
Proof. unfold header_wf, is_u64. solve_decision. Defined.
Definition checked (h : Header) : option Header := if bool_decide (header_wf h) then Some h else None.

#[global] Instance toy_blocks : BlockLib := {|
  Payload := bytes;
  block_hash p := take 32 (p ++ zero_bytes 32);
  parent_hash p := take 32 (drop 8 p ++ zero_bytes 32);
  block_number p := from_le_bytes (take 8 p);
  payload_withdrawals _ := [];
  default_payload := [];
  payload_ssz p := p;
  requests_ssz := enc;
  header_ssz := toy_header;
  header_from_ssz bs := h ← toy_unheader bs; checked h;
  block_ssz h p rs := frame (toy_header h) ++ frame p ++ enc rs;
  block_parse bs :=
    let '(hb, bs) := unframe bs in let '(p, bs) := unframe bs in
    h ← toy_unheader hb; h ← checked h; rs ← dec bs; Some (h, p, rs);
  Finalization := bytes;
  signed_payload f := f;
  write_finalization f := f;
  read_finalization n := λ buf, Ok (buf, []);
  certificate_fits _ _ := True;
  finalized_ssz hb n fb := frame hb ++ u32_to_be_bytes n ++ fb;
  finalized_parse bs :=
    let '(hb, rest) := unframe bs in
    match try_get_u32 rest with Ok (n, fb) => Some (hb, n, fb) | Err _ => None end
|}.

#[global] Instance toy_blocks_ok : BlockLibOk.
Proof.
  split.
  - done.
  - intros h Hw. cbn [header_from_ssz header_ssz toy_blocks]. rewrite toy_header_decode.
    cbn [mbind option_bind]. unfold checked. by rewrite bool_decide_true.
  - done.
  - intros h p rs Hw. cbn [block_parse block_ssz toy_blocks]. rewrite !unframe_frame, toy_header_decode.
    cbn [mbind option_bind]. unfold checked. rewrite bool_decide_true by done. cbn [mbind option_bind].
    by rewrite dec_enc.
  - intros bs h p rs. cbn [block_parse toy_blocks]. destruct (unframe _) as [hb bs1], (unframe _) as [p1 bs2].
    intros (h1 & Hh & E)%bind_Some. apply bind_Some in E as (h2 & E2 & E).
    apply bind_Some in E as (rs' & _ & [= <- _ _]). unfold checked in E2.
    destruct (bool_decide _) eqn:Hw; [|done]. injection E2 as <-. apply bool_decide_eq_true in Hw.
    split; [done|]. by eapply toy_unheader_cold.
  - done.
  - intros r1 r2. apply enc_inj.
  - intros hb n fb Hn. cbn [finalized_parse finalized_ssz toy_blocks]. rewrite unframe_frame.
    by rewrite try_get_u32_app.
  - done.
Qed.

Definition demo_block : Block :=
  compute_digest (zero_bytes 32) 7 1000 (zero_bytes 3) [zero_bytes 2] 1 4 None (zero_bytes 32) [] [] (zero_bytes 32).
Definition demo_finalized : FinalizedHeader :=
  mkFinalizedHeader (header demo_block) (computed_digest (header demo_block)) 4.

Lemma demo_header_wf : header_wf (header demo_block).
Proof. apply (proj1 (bool_decide_eq_true (header_wf (header demo_block)))). vm_compute. reflexivity. Qed.

Lemma demo_len : len_ok (length (block_ssz (header demo_block) (payload demo_block) (execution_requests demo_block))).
Proof. vm_compute. reflexivity. Qed.

Lemma demo_bound : body_bound demo_block.
Proof. done. Qed.

Lemma demo_decodes :
  read_block (write_block demo_block ++ []) = Ok (demo_block, []).
Proof.
  rewrite read_block_app by exact demo_len. rewrite block_ssz_decode by exact demo_header_wf.
  cbn [mbind option_bind]. by rewrite (proj2 (new_with_verify_Ok _ _ _ demo_block)).
Qed.

Lemma demo_flen : len_ok (length (finalized_ssz (header_ssz (fh_header demo_finalized))
  (as_u32 (participant_count demo_finalized)) (write_finalization (fh_finalization demo_finalized)))).
Proof. vm_compute. reflexivity. Qed.
Lemma demo_fwf : header_wf (fh_header demo_finalized).
Proof. exact demo_header_wf. Qed.
Lemma demo_count : (Z.of_nat (participant_count demo_finalized) < 2 ^ 32)%Z.
Proof. done. Qed.
Lemma demo_fits : certificate_fits (participant_count demo_finalized) (fh_finalization demo_finalized).
Proof. exact I. Qed.

Lemma block_digest_binds_content_witness :
  demo_block = demo_block ∨
  clash (write_header (header demo_block)) (write_header (header demo_block)) ∨
  clash (payload_ssz (payload demo_block)) (payload_ssz (payload demo_block)) ∨
  clash (requests_ssz (execution_requests demo_block)) (requests_ssz (execution_requests demo_block)) ∨
  sha256 (requests_ssz (execution_requests demo_block ++ execution_requests demo_block)) = zero_bytes 32.
Proof.
  exact (block_digest_binds_content _ _ demo_block demo_block [] [] demo_decodes demo_decodes eq_refl).
Defined.

Lemma bound_blocks_roundtrip_witness :
  read_block (write_block demo_block ++ zero_bytes 1) = Ok (demo_block, zero_bytes 1) ∧
  read_finalized (write_finalized demo_finalized ++ zero_bytes 1) = Ok (demo_finalized, zero_bytes 1).
Proof.
  pose proof (bound_blocks_roundtrip demo_block demo_finalized (zero_bytes 1) demo_header_wf demo_len
    demo_fwf demo_count demo_fits demo_flen) as Hrt.
  destruct Hrt as [H1 Hrt]. destruct Hrt as (_ & H2 & _).
  split; [exact (H1 demo_bound)|]. apply H2; [reflexivity|vm_compute; discriminate].
Defined.
End ToyBlocks.
