(* ===== verification/Execution.v ===== *)
(** * Execution: applying a block to a consensus state (finalizer/src/actor.rs)

    [execute_block] asks the execution client about a block and, when it adopts it,
    applies the block's effects to the consensus state it is given; the finalized
    path then runs the epoch boundary.  The execution client is a service: a state
    machine [Engine] answering [check_payload] and [commit_hash] (the trait
    [EngineClient] of types/src/engine_client.rs). *)
From S2P Require Import Prelude BTree Codec Crypto Epocher Account ExecutionRequest ProtocolParams.
From S2P Require Import Withdrawal SszHash SszStateTree ConsensusState StateCodec Block.

(** The status of the Engine API. *)
Inductive PayloadStatus := VALID | INVALID | SYNCING | ACCEPTED.
Definition is_valid (st : PayloadStatus) : bool := match st with VALID => true | _ => false end.
Definition is_syncing (st : PayloadStatus) : bool := match st with SYNCING => true | _ => false end.

Class EngineClient `{BlockLib} := {
  Engine : Type;
  EngineClientError : Type;
  check_payload : Engine → Block → Engine * result EngineClientError PayloadStatus;
  commit_hash : Engine → ForkchoiceState → Engine * result EngineClientError PayloadStatus
}.

Inductive ExecuteOutcome := Applied | InvalidPayload | Syncing.

Record ProtocolConsts := mkProtocolConsts {
  validator_num_warm_up_epochs : Z;
  validator_withdrawal_num_epochs : Z
}.

Section execution.
Context `{Hc : Crypto} `{Hl : SszLib} `{Hb : BlockLib}.

Section state.
Context {T : Type} `{!StateTree T}.
Implicit Type s : ConsensusState T.

Definition process_execution_requests (block : Block) (new_height : Z) s
    (deposit_signature_domain : bytes) (consts : ProtocolConsts) : option (ConsensusState T) :=
  penultimate ← is_penultimate_block_of_epoch (epocher s) new_height;
  s ← (if penultimate : bool then
         s ← process_buffered_requests s deposit_signature_domain
               (validator_num_warm_up_epochs consts) (validator_withdrawal_num_epochs consts);
         enforce_minimum_stake s
       else Some s);
  last ← is_last_block_of_epoch (epocher s) new_height;
  if last : bool then apply_withdrawal_payouts s (epoch s) (payload_withdrawals (payload block))
  else Some s.

(** The withdrawals the block has to carry. *)
Definition expected_withdrawals s (new_height : Z) : option (list Withdrawal) :=
  last ← is_last_block_of_epoch (epocher s) new_height;
  Some (if last : bool then emit_withdrawal_payouts s (epoch s) else []).

(** The effects of an adopted block, from the forkchoice head to the captured root. *)
Definition apply_block (block : Block) s (consts : ProtocolConsts) (deposit_signature_domain : bytes)
  : option (ConsensusState T) :=
  let new_height := block_height block in
  s ← set_forkchoice_head s (eth_block_hash block);
  s ← buffer_execution_requests s (execution_requests block);
  s ← process_execution_requests block new_height s deposit_signature_domain consts;
  s ← set_latest_height s new_height;
  s ← set_view s (block_view block);
  s ← set_head_digest s (block_digest block);
  penultimate ← is_penultimate_block_of_epoch (epocher s) new_height;
  s ← (if penultimate : bool then set_pending_checkpoint s (Some (checkpoint_new s)) else Some s);
  s ← set_forkchoice_safe_and_finalized s (head_block_hash (forkchoice s));
  capture_state_root s (block_number (payload block)).

(** ** The epoch boundary, as [handle_finalized_block] runs it on the canonical state

    Parameters and committee, and the checkpoint to be stored. *)
Definition boundary_committee s (node_public_key : bytes)
  : option (ConsensusState T * bool * option Checkpoint) :=
  r ← apply_protocol_parameter_changes s;
  r ← apply_committee_transition r.1 node_public_key;
  let '(s, validator_exit) := r in
  r ← take_pending_checkpoint s;
  let '(s, checkpoint) := r in
  Some (s, validator_exit, checkpoint).

(** The new epoch, the clearing of the deltas and the capture of the root. *)
Definition boundary_advance s (block : Block) : option (ConsensusState T) :=
  let next_epoch := wrapping_add (epoch s) 1 in
  s ← set_epoch s next_epoch;
  s ← set_view s 0;
  let s := s <| epocher := advance_epoch (epocher s) next_epoch |> in
  s ← set_epoch_genesis_hash s (block_digest block);
  r ← remove_added_validators_for_epoch s next_epoch;
  let s := r.1 in
  s ← (if negb (length (removed_validators s) =? 0) then clear_removed_validators s else Some s);
  capture_state_root s (block_number (payload block)).

Definition epoch_boundary s (block : Block) (node_public_key : bytes) : option (ConsensusState T) :=
  r ← boundary_committee s node_public_key;
  boundary_advance r.1.1 block.
End state.

Context `{He : !EngineClient}.

Definition commit_forkchoice (engine : Engine) (fc : ForkchoiceState)
  : Engine * result EngineClientError ExecuteOutcome :=
  match commit_hash engine fc with
  | (engine, Err e) => (engine, Err e)
  | (engine, Ok status) =>
      (engine, Ok (if is_syncing status then Syncing
                   else if negb (is_valid status) then InvalidPayload else Applied))
  end.

(** [None] is a panic; otherwise the client, the outcome and the state. *)
Definition execute_block {T} `{!StateTree T} (engine : Engine) (block : Block) (s : ConsensusState T)
    (consts : ProtocolConsts) (deposit_signature_domain : bytes) (fork_finalized : option bytes)
  : option (Engine * result EngineClientError ExecuteOutcome * ConsensusState T) :=
  if negb (block_epoch block =? epoch s)%Z then Some (engine, Ok InvalidPayload, s) else
  match check_payload engine block with
  | (engine, Err e) => Some (engine, Err e, s)
  | (engine, Ok payload_status) =>
      let new_height := block_height block in
      if is_syncing payload_status then Some (engine, Ok Syncing, s) else
      if negb (is_valid payload_status) then Some (engine, Ok InvalidPayload, s) else
      expected ← expected_withdrawals s new_height;
      if negb (bool_decide (payload_withdrawals (payload block) = expected))
      then Some (engine, Ok InvalidPayload, s) else
      let eth_hash := eth_block_hash block in
      let safe_finalized := default eth_hash fork_finalized in
      match commit_forkchoice engine (mkForkchoiceState eth_hash safe_finalized safe_finalized) with
      | (engine, Ok Applied) =>
          s ← apply_block block s consts deposit_signature_domain;
          Some (engine, Ok Applied, s)
      | (engine, other) => Some (engine, other, s)
      end
  end.
End execution.
