(* ===== verification/StateInvariant.v ===== *)
(** * StateInvariant: what block processing keeps true of the consensus state

    The accounts, the staged committee changes, the withdrawal queue and the
    parameters are bound by invariants that no single operation checks: a validator
    waiting to join has its entry in [added_validators] and no withdrawal pending, a
    validator about to leave is listed once in [removed_validators] and still
    serves, and so on.  They are what the [expect]s of the epoch boundary rely on.
    Everything here is about the data ([ConsensusState ()]); [StateRun] carries it
    over to states with their trees. *)
From S2P Require Import Prelude Codec Crypto BTree Epocher Account ExecutionRequest ProtocolParams.
From S2P Require Import Withdrawal SszHash SszStateTree ConsensusState StateSync StateCodec StatePayouts.

(** ** The account views the invariants are about *)

(** What [added_validators] has to say of a joining validator. *)
Definition join_view (a : ValidatorAccount) : option (Z * bytes) :=
  if bool_decide (status a = Joining) then Some (joining_epoch a, consensus_public_key a) else None.
Definition joining_of (m : BTreeMap bytes ValidatorAccount) (k : bytes) : option (Z * bytes) :=
  BTree.get m k ≫= join_view.
Definition status_of (m : BTreeMap bytes ValidatorAccount) (k : bytes) : option ValidatorStatus :=
  status <$> BTree.get m k.

Lemma joining_of_insert m k k' a :
  joining_of (BTree.insert m k a) k' = if decide (k = k') then join_view a else joining_of m k'.
Proof.
  unfold joining_of. destruct (decide (k = k')) as [<-|]; [by rewrite BTree.get_insert_eq|].
  by rewrite BTree.get_insert_ne.
Qed.
Lemma status_of_insert m k k' a :
  status_of (BTree.insert m k a) k' = if decide (k = k') then Some (status a) else status_of m k'.
Proof.
  unfold status_of. destruct (decide (k = k')) as [<-|]; [by rewrite BTree.get_insert_eq|].
  by rewrite BTree.get_insert_ne.
Qed.

Lemma joining_status m k e c : joining_of m k = Some (e, c) → status_of m k = Some Joining.
Proof.
  unfold joining_of, status_of, join_view. destruct (BTree.get m k); [|done]. simpl.
  case_bool_decide as Hst; [by rewrite Hst|done].
Qed.
Lemma not_joining m k : status_of m k ≠ Some Joining → joining_of m k = None.
Proof. intros Hs. destruct (joining_of m k) as [[e c]|] eqn:E; [|done]. by apply joining_status in E. Qed.

Section invariant.
Context `{Hc : Crypto}.

(** ** Accounts *)
Definition valid_entry (e : bytes * ValidatorAccount) : Prop :=
  account_entry_wf e ∧ ed25519_valid e.1 = true.
Definition accounts_ok (m : BTreeMap bytes ValidatorAccount) : Prop :=
  BTree.sorted m ∧ Forall valid_entry m.

Lemma accounts_get m k a :
  accounts_ok m → BTree.get m k = Some a → node_key_wf k ∧ account_wf a.
Proof.
  intros [_ Hf] Hg%BTree.get_elem_of. rewrite Forall_forall in Hf.
  destruct (Hf _ Hg) as [[H1 H2] H3]. by split_and!.
Qed.
Lemma accounts_insert m k a :
  accounts_ok m → node_key_wf k → account_wf a → accounts_ok (BTree.insert m k a).
Proof.
  intros [Hs Hf] [Hk1 Hk2] Ha. split; [by apply BTree.sorted_insert|]. rewrite Forall_forall in *.
  intros e [->|He]%BTree.elem_of_insert; [by split|by apply Hf].
Qed.
Lemma accounts_remove m k : accounts_ok m → accounts_ok (BTree.remove m k).
Proof.
  intros [Hs Hf]. split; [by apply BTree.sorted_remove|]. rewrite Forall_forall in *.
  intros e He%BTree.elem_of_remove. by apply Hf.
Qed.

(** No two validators share a consensus key. *)
Definition keys_unique (m : BTreeMap bytes ValidatorAccount) : Prop := ∀ k1 k2 a1 a2,
  BTree.get m k1 = Some a1 → BTree.get m k2 = Some a2 →
  consensus_public_key a1 = consensus_public_key a2 → k1 = k2.

Lemma keys_unique_insert m k a :
  keys_unique m →
  (∀ k' a', BTree.get m k' = Some a' → consensus_public_key a' = consensus_public_key a → k' = k) →
  keys_unique (BTree.insert m k a).
Proof.
  intros Hu Ha k1 k2 a1 a2. destruct (decide (k = k1)) as [<-|N1], (decide (k = k2)) as [<-|N2];
    rewrite ?BTree.get_insert_eq, ?BTree.get_insert_ne by done; [done|..].
  - intros [= <-] H2 E. symmetry. by eapply Ha.
  - intros H1 [= <-] E. by eapply Ha.
  - apply Hu.
Qed.
(** An update that keeps the key of an account. *)
Lemma keys_unique_update m k a0 a :
  keys_unique m → BTree.get m k = Some a0 → consensus_public_key a = consensus_public_key a0 →
  keys_unique (BTree.insert m k a).
Proof. intros Hu Hg E. apply keys_unique_insert; [done|]. intros k' a' Hg' E'. eapply Hu; eauto. congruence. Qed.

(** ** The withdrawal queue

    [floor] bounds the payout epochs of the entries, [room] is the number of
    entries that can still be numbered. *)
Record queue_inv (floor room : Z) (q : WithdrawalQueue) : Prop := {
  qi_ok : queue_ok q;
  qi_wf : Forall pending_wf (iter_all q);
  qi_below : below floor q;
  qi_room : (next_index q + room < u64_max)%Z
}.

Lemma queue_inv_weaken floor room floor' room' q :
  (floor ≤ floor')%Z → (room' ≤ room)%Z → queue_inv floor room q → queue_inv floor' room' q.
Proof.
  intros Hf Hr [H1 H2 H3 H4]. split; [done|done| |lia].
  intros k. eapply Forall_impl; [apply (H3 k)|]. simpl. lia.
Qed.

Lemma queue_inv_push floor room q request k :
  is_u64 floor → withdrawal_wf request → queue_inv floor (room + 1) q → (0 ≤ room)%Z →
  queue_inv floor room (push_request_with_kind q request floor k).1.
Proof.
  intros Hfl (Ha & Hp & Hw) [H1 H2 H3 H4] Hr. pose proof (q_next q H1) as Hn.
  destruct (push_request_spec q request floor k) as (Hd & Ho & Hni & _).
  assert (Hok : queue_ok (push_request_with_kind q request floor k).1)
    by (apply push_request_ok; [done|lia|apply H3]).
  revert Hok Hd Ho Hni. generalize (push_request_with_kind q request floor k).1. intros q' Hok Hd Ho Hni.
  rewrite wrapping_add_small in Hni by (u64_unfold; lia).
  assert (Hnew : pending_wf (mkPendingWithdrawal (mkWithdrawal (next_index q) 0 (source_address request)
    (wr_amount request)) (validator_pubkey request) floor k)).
  { unfold pending_wf. simpl. split_and!; first [done|u64_solve]. }
  split; [done| | |lia].
  - unfold iter_all in *. apply Forall_app in H2 as [Hw1 Hr1]. destruct k; simpl in *.
    + specialize (Ho DepositRefund ltac:(done)). simpl in Ho. rewrite Hd, Ho, !Forall_app.
      split_and!; [done|by constructor|done].
    + specialize (Ho Validator ltac:(done)). simpl in Ho. rewrite Hd, Ho, !Forall_app.
      split_and!; [done|done|by constructor].
  - intros k'. destruct (decide (k' = k)) as [->|Hne]; [|rewrite Ho by done; apply H3].
    rewrite Hd, Forall_app. split; [apply H3|]. constructor; [simpl; lia|constructor].
Qed.

Lemma pending_count_push q request e k pk :
  queue_ok q → (next_index q < u64_max)%Z → (k = Validator → validator_pubkey request ≠ pk) →
  pending_count (push_request_with_kind q request e k).1 pk = pending_count q pk.
Proof.
  intros Hq Hn Hk. destruct (push_request_spec q request e k) as (_ & _ & _ & Hp). unfold pending_count.
  rewrite Hp. destruct k; [|done]. unfold incr. rewrite lookup_insert_ne; [done|by apply Hk].
Qed.

(** ** The staged committee changes *)
Definition joins (m : BTreeMap bytes ValidatorAccount) (e : Z) (v : AddedValidator) : Prop :=
  added_wf v ∧ joining_of m (node_key v) = Some (e, consensus_key v).

(** [added_validators] and the joining accounts agree, all of them join after the
    epoch [ep], and none has a withdrawal pending. *)
Record staged (ep : Z) (m : BTreeMap bytes ValidatorAccount)
    (added : BTreeMap Z (list AddedValidator)) (q : WithdrawalQueue) : Prop := {
  sg_sorted : BTree.sorted added;
  sg_entry : ∀ e vs, BTree.get added e = Some vs →
    (ep < e)%Z ∧ is_u64 e ∧ NoDup (node_key <$> vs) ∧ Forall (joins m e) vs;
  sg_joining : ∀ k e c, joining_of m k = Some (e, c) →
    pending_count q k = 0%Z ∧ ∃ vs, BTree.get added e = Some vs ∧ k ∈ node_key <$> vs
}.

(** [removed_validators] lists each leaving validator once, while it still serves;
    before the minimum stake is enforced ([f]), only those that asked to leave. *)
Definition leaver (f : bool) (st : ValidatorStatus) : bool :=
  match st with SubmittedExitRequest => true | Active => negb f | _ => false end.
Record leaving (f : bool) (m : BTreeMap bytes ValidatorAccount) (removed : list bytes) (exits : Z) : Prop := {
  lv_nodup : NoDup removed;
  lv_exits : exits = Z.min u64_max (Z.of_nat (length removed));
  lv_serving : ∀ k, k ∈ removed → node_key_wf k ∧ ∃ st, status_of m k = Some st ∧ leaver f st = true;
  lv_submitted : ∀ k, status_of m k = Some SubmittedExitRequest → k ∈ removed
}.

Lemma staged_ext ep m m' added q q' :
  (∀ k, joining_of m' k = joining_of m k) →
  (∀ k e c, joining_of m k = Some (e, c) → pending_count q' k = pending_count q k) →
  staged ep m added q → staged ep m' added q'.
Proof.
  intros Hm Hq [H1 H2 H3]. split; [done| |].
  - intros e vs (? & ? & ? & Hf)%H2. split_and!; try done. eapply Forall_impl; [exact Hf|].
    intros v [? ?]. split; [done|]. by rewrite Hm.
  - intros k e c Hk. rewrite Hm in Hk. rewrite (Hq _ _ _ Hk). by apply (H3 k e c).
Qed.

Lemma leaving_ext f m m' removed exits :
  (∀ k, status_of m' k = status_of m k) → leaving f m removed exits → leaving f m' removed exits.
Proof.
  intros Hm [H1 H2 H3 H4]. split; [done|done| |]; intros k; rewrite Hm; [apply H3|apply H4].
Qed.

(** A validator that is not joining is in no list of [added_validators]. *)
Lemma staged_absent ep m added q k e vs :
  staged ep m added q → joining_of m k = None → BTree.get added e = Some vs → k ∉ node_key <$> vs.
Proof.
  intros [_ H2 _] Hk Hg (v & -> & Hv)%list_elem_of_fmap. apply H2 in Hg as (_ & _ & _ & Hf).
  rewrite Forall_forall in Hf. destruct (Hf v Hv) as [_ Hj]. congruence.
Qed.

Lemma staged_insert ep m added q k a :
  staged ep m added q → join_view a = joining_of m k → staged ep (BTree.insert m k a) added q.
Proof.
  intros Hst Hj. apply (staged_ext ep m _ added q q); [|done|done]. intros k'.
  rewrite joining_of_insert. by case_decide; subst.
Qed.

Lemma leaving_absent f m removed exits k :
  leaving f m removed exits → (∀ st, status_of m k = Some st → leaver f st = false) → k ∉ removed.
Proof. intros [_ _ H3 _] Hk (_ & st & Hst & Hs)%H3. rewrite Hk in Hs by done. done. Qed.

Lemma leaving_insert f m removed exits k a :
  leaving f m removed exits →
  (status_of m k = Some (status a) ∨ k ∉ removed ∧ status a ≠ SubmittedExitRequest ∨
   k ∈ removed ∧ leaver f (status a) = true) →
  leaving f (BTree.insert m k a) removed exits.
Proof.
  intros [H1 H2 H3 H4] Ha. split; [done|done| |]; intros k'; rewrite status_of_insert; case_decide as E;
    [subst k'|by apply H3|subst k'|by apply H4].
  - intros Hk. destruct (H3 k Hk) as (? & st & Hst & ?). split; [done|]. exists (status a). naive_solver.
  - intros [= Hs]. destruct Ha as [Ha|[[_ ?]|[? _]]]; [|done|done]. apply H4. congruence.
Qed.

(** One more validator leaves. *)
Lemma leaving_push f m removed exits k st :
  leaving f m removed exits → k ∉ removed → node_key_wf k → status_of m k = Some st → leaver f st = true →
  leaving f m (removed ++ [k]) (saturating_add exits 1).
Proof.
  intros [H1 H2 H3 H4] Hk Hw Hst Hs. split.
  - apply NoDup_app. split_and!; [done| |apply NoDup_singleton]. by intros x Hx ->%list_elem_of_singleton.
  - rewrite H2, length_app. simpl. unfold saturating_add. u64_unfold. lia.
  - intros k' [Hk'| ->%list_elem_of_singleton]%elem_of_app; [by apply H3|]. split; [done|]. by exists st.
  - intros k' Hk'%H4. apply elem_of_app. by left.
Qed.

(** One more validator asks to leave. *)
Lemma leaving_exit f m removed exits k a :
  leaving f m removed exits → k ∉ removed → node_key_wf k → status a = SubmittedExitRequest →
  leaving f (BTree.insert m k a) (removed ++ [k]) (saturating_add exits 1).
Proof.
  intros [H1 H2 H3 H4] Hk Hw Ha. split.
  - apply NoDup_app. split_and!; [done| |apply NoDup_singleton]. by intros x Hx ->%list_elem_of_singleton.
  - rewrite H2, length_app. simpl. unfold saturating_add. u64_unfold. lia.
  - intros k'. rewrite status_of_insert, elem_of_app, list_elem_of_singleton. case_decide as E.
    + intros _. subst k'. split; [done|]. eexists. split; [done|]. by rewrite Ha.
    + intros [Hin| ->]; [by apply H3|done].
  - intros k'. rewrite status_of_insert, elem_of_app, list_elem_of_singleton. case_decide; naive_solver.
Qed.

Lemma leaving_weaken f m removed exits : leaving true m removed exits → leaving f m removed exits.
Proof.
  intros [H1 H2 H3 H4]. split; [done|done| |done]. intros k (Hk & st & Hst & Hs)%H3. split; [done|].
  exists st. split; [done|]. by destruct st, f.
Qed.

(** A validator starts joining. *)
Lemma staged_join ep m added q k a :
  staged ep m added q → joining_of m k = None → pending_count q k = 0%Z → status a = Joining →
  (ep < joining_epoch a)%Z → is_u64 (joining_epoch a) → node_key_wf k → account_wf a →
  staged ep (BTree.insert m k a)
    (BTree.insert added (joining_epoch a)
       (default [] (BTree.get added (joining_epoch a)) ++ [mkAddedValidator k (consensus_public_key a)])) q.
Proof.
  intros Hst Hk Hp Ha He Heu Hkw Haw. pose proof Hst as [H1 H2 H3].
  assert (Hjoin : join_view a = Some (joining_epoch a, consensus_public_key a))
    by (unfold join_view; by rewrite bool_decide_true).
  assert (Hold : ∀ e vs, BTree.get added e = Some vs → Forall (joins (BTree.insert m k a) e) vs).
  { intros e vs Hg. pose proof (staged_absent _ _ _ _ _ _ _ Hst Hk Hg) as Hnot.
    apply H2 in Hg as (_ & _ & _ & Hf). rewrite Forall_forall in *. intros v Hv. destruct (Hf v Hv) as [? Hj].
    split; [done|]. rewrite joining_of_insert, decide_False; [done|]. intros ->. apply Hnot.
    by apply list_elem_of_fmap_2. }
  assert (Hnew : joins (BTree.insert m k a) (joining_epoch a) (mkAddedValidator k (consensus_public_key a))).
  { split; [|simpl; by rewrite joining_of_insert, decide_True].
    destruct Haw as (? & ? & _). by split_and!. }
  split; [by apply BTree.sorted_insert| |].
  - intros e vs. destruct (decide (joining_epoch a = e)) as [<-|Hne].
    + rewrite BTree.get_insert_eq. intros [= <-]. split_and!; [done|done| |].
      * rewrite fmap_app. destruct (BTree.get added (joining_epoch a)) as [vs|] eqn:Hg; simpl; [|apply NoDup_singleton].
        apply NoDup_app. split_and!; [by apply H2 in Hg as (_ & _ & ? & _)| |apply NoDup_singleton].
        intros k' Hk' ->%list_elem_of_singleton. by eapply staged_absent.
      * apply Forall_app. split; [|by constructor].
        destruct (BTree.get added (joining_epoch a)) as [vs|] eqn:Hg; simpl; [by apply Hold|constructor].
    + rewrite BTree.get_insert_ne by done. intros Hg. pose proof (Hold _ _ Hg). destruct (H2 _ _ Hg) as (? & ? & ? & _). by split_and!.
  - intros k' e c. rewrite joining_of_insert. case_decide as E.
    + subst k'. rewrite Hjoin. intros [= <- <-]. split; [done|]. rewrite BTree.get_insert_eq.
      eexists. split; [done|]. rewrite fmap_app, elem_of_app. right. by left.
    + intros (? & vs & Hg & Hin)%H3. split; [done|]. destruct (decide (joining_epoch a = e)) as [<-|].
      * rewrite BTree.get_insert_eq. eexists. split; [done|]. rewrite Hg. simpl.
        rewrite fmap_app, elem_of_app. by left.
      * rewrite BTree.get_insert_ne by done. eauto.
Qed.

(** A joining validator is dropped from the list of its epoch. *)
Definition dropped (added : BTreeMap Z (list AddedValidator)) (e : Z) (k : bytes)
  : BTreeMap Z (list AddedValidator) :=
  match vs ← BTree.get added e; take_validator vs k with
  | None => added
  | Some [] => BTree.remove (BTree.insert added e []) e
  | Some vs => BTree.insert added e vs
  end.

(** What is left of a list without a validator. *)
Lemma take_validator_spec vs k :
  NoDup (node_key <$> vs) → k ∈ node_key <$> vs →
  ∃ vs', take_validator vs k = Some vs' ∧ NoDup (node_key <$> vs') ∧
    ∀ v, v ∈ vs' ↔ v ∈ vs ∧ node_key v ≠ k.
Proof.
  intros Hnd (v0 & -> & Hv0)%list_elem_of_fmap. unfold take_validator.
  destruct (position _ vs) as [i|] eqn:Hp.
  2: { apply position_None in Hp. rewrite Forall_forall in Hp. specialize (Hp v0 Hv0).
       by rewrite bool_decide_true in Hp. }
  apply position_Some in Hp as (l1 & v & l2 & -> & <- & Hk%bool_decide_eq_true & _). cbn [mbind option_bind].
  change (list_delete ?i ?l) with (base.delete i l). rewrite delete_middle. eexists. split; [done|].
  rewrite fmap_app, fmap_cons in Hnd. apply NoDup_app in Hnd as (N1 & N2 & [N3 N4]%NoDup_cons).
  split.
  - rewrite fmap_app. apply NoDup_app. split_and!; [done| |done]. intros x Hx Hx2. apply (N2 x Hx). by right.
  - intros v'. rewrite !elem_of_app, elem_of_cons. rewrite <-Hk. split.
    + intros [Hin|Hin]; split; try naive_solver; intros E.
      * apply (N2 (node_key v')); [by apply list_elem_of_fmap_2|]. rewrite E. by left.
      * apply N3. rewrite <-E. by apply list_elem_of_fmap_2.
    + naive_solver.
Qed.

Lemma dropped_get added e k vs vs' e' :
  BTree.sorted added → BTree.get added e = Some vs → take_validator vs k = Some vs' →
  BTree.sorted (dropped added e k) ∧
  BTree.get (dropped added e k) e' =
    if decide (e = e') then match vs' with [] => None | _ => Some vs' end else BTree.get added e'.
Proof.
  intros Hs Hg Ht. unfold dropped. rewrite Hg. cbn [mbind option_bind]. rewrite Ht.
  destruct vs' as [|v vs'].
  - split; [by apply BTree.sorted_remove, BTree.sorted_insert|]. case_decide as E.
    + subst e'. by apply BTree.get_remove_eq, BTree.sorted_insert.
    + by rewrite BTree.get_remove_ne, BTree.get_insert_ne.
  - split; [by apply BTree.sorted_insert|]. case_decide as E; [subst e'; apply BTree.get_insert_eq|].
    by rewrite BTree.get_insert_ne.
Qed.

Lemma staged_cancel ep m added q k e c a :
  staged ep m added q → joining_of m k = Some (e, c) → status a ≠ Joining →
  staged ep (BTree.insert m k a) (dropped added e k) q.
Proof.
  intros [H1 H2 H3] Hk Ha. destruct (H3 _ _ _ Hk) as (_ & vs & Hg & Hin).
  destruct (H2 _ _ Hg) as (He & Hu & Hnd & Hf). destruct (take_validator_spec vs k Hnd Hin) as (vs' & Ht & Hnd' & Hvs').
  assert (Hget := λ e', dropped_get added e k vs vs' e' H1 Hg Ht).
  assert (Hkeep : ∀ e' v, joins m e' v → node_key v ≠ k → joins (BTree.insert m k a) e' v).
  { intros e' v [? ?] Hne. split; [done|]. by rewrite joining_of_insert, decide_False. }
  split; [apply (Hget e)| |].
  - intros e' l. rewrite (proj2 (Hget e')). case_decide as E.
    + subst e'. destruct vs' as [|v0 vt] eqn:Evs; [done|]. intros [= <-]. rewrite <-Evs in *. split_and!; try done.
      rewrite Forall_forall in *. intros v [Hv Hne]%Hvs'. by apply Hkeep; [apply Hf|].
    + intros Hg'. destruct (H2 _ _ Hg') as (? & ? & ? & Hf'). split_and!; try done.
      rewrite Forall_forall in *. intros v Hv. apply Hkeep; [by apply Hf'|]. intros E'.
      destruct (Hf' v Hv) as [_ Hj]. rewrite E', Hk in Hj. by injection Hj as ? ?.
  - intros k' e' c'. rewrite joining_of_insert. case_decide as E.
    { unfold join_view. by rewrite bool_decide_false. }
    intros Hj. destruct (H3 _ _ _ Hj) as (? & l & Hg' & Hin'). split; [done|].
    rewrite (proj2 (Hget e')). case_decide as E'; [|by exists l].
    subst e'. rewrite Hg in Hg'. injection Hg' as <-. apply list_elem_of_fmap in Hin' as (v & -> & Hv).
    assert (Hv' : v ∈ vs') by (apply Hvs'; split; [done|congruence]).
    destruct vs' as [|v0 vs']; [by apply not_elem_of_nil in Hv'|]. eexists. split; [done|].
    by apply list_elem_of_fmap_2.
Qed.

(** ** The state *)

(** The bounds of the parameters in force. *)
Record limits_ok {T} (s : ConsensusState T) : Prop := {
  lm_stake : is_u64 (validator_minimum_stake s);
  lm_timestamp : (MIN_ALLOWED_TIMESTAMP_FUTURE_MS ≤ allowed_timestamp_future_ms s
    ≤ MAX_ALLOWED_TIMESTAMP_FUTURE_MS)%Z;
  lm_treasury : length (treasury_address s) = 20;
  lm_deposits : (0 ≤ max_deposits_per_epoch s ≤ MAX_MAX_DEPOSITS_PER_EPOCH)%Z;
  lm_withdrawals : (MAX_WITHDRAWALS_PER_EPOCH_MIN ≤ max_withdrawals_per_epoch s
    ≤ MAX_WITHDRAWALS_PER_EPOCH_MAX)%Z;
  lm_observers : (0 ≤ observers_per_validator s ≤ MAX_OBSERVERS_PER_VALIDATOR)%Z;
  lm_max_count : (MIN_MAX_VALIDATOR_COUNT ≤ max_validator_count s ≤ MAX_MAX_VALIDATOR_COUNT)%Z;
  lm_min_count : (0 < minimum_validator_count s ≤ max_validator_count s)%Z;
  lm_tax : (0 ≤ invalid_deposit_tax s ≤ MAX_INVALID_DEPOSIT_TAX)%Z;
  lm_pending : (MAX_PENDING_WITHDRAWALS_PER_VALIDATOR_MIN ≤ max_pending_withdrawals_per_validator s
    ≤ MAX_PENDING_WITHDRAWALS_PER_VALIDATOR_MAX)%Z
}.

(** Everything but the fields that requests change. *)
Definition outside {T} (s : ConsensusState T) : ConsensusState T :=
  s <| deposit_queue := [] |> <| withdrawal_queue := queue_default |> <| validator_accounts := [] |>
    <| added_validators := [] |> <| removed_validators := [] |> <| pending_active_validator_exits := 0%Z |>
    <| protocol_param_changes := [] |> <| pending_execution_requests := [] |>.

(** The invariant of a state whose withdrawals are paid [n] epochs after the
    request and whose queue can still number [room] entries; [f] says that the
    minimum stake was not enforced yet in this epoch. *)
Record live {T} (f : bool) (n room : Z) (s : ConsensusState T) : Prop := {
  ls_epoch : (0 ≤ epoch s)%Z ∧ is_u64 (epoch s + n);
  ls_accounts : accounts_ok (validator_accounts s);
  ls_queue : queue_inv (epoch s + n) room (withdrawal_queue s);
  ls_unique : keys_unique (validator_accounts s);
  ls_staged : staged (epoch s) (validator_accounts s) (added_validators s) (withdrawal_queue s);
  ls_leaving : leaving f (validator_accounts s) (removed_validators s) (pending_active_validator_exits s);
  ls_deposits : Forall deposit_wf (deposit_queue s);
  ls_params : Forall in_bounds (protocol_param_changes s);
  ls_limits : limits_ok s
}.

Lemma outside_limits {T} (s s' : ConsensusState T) : outside s' = outside s → limits_ok s → limits_ok s'.
Proof.
  intros E. pose proof (f_equal validator_minimum_stake E). pose proof (f_equal allowed_timestamp_future_ms E).
  pose proof (f_equal treasury_address E). pose proof (f_equal max_deposits_per_epoch E).
  pose proof (f_equal max_withdrawals_per_epoch E). pose proof (f_equal observers_per_validator E).
  pose proof (f_equal max_validator_count E). pose proof (f_equal minimum_validator_count E).
  pose proof (f_equal invalid_deposit_tax E). pose proof (f_equal max_pending_withdrawals_per_validator E).
  simpl in *. intros []. split; congruence.
Qed.

Lemma live_weaken {T} f n room (s : ConsensusState T) : live true n room s → live f n room s.
Proof. intros [H1 H2 H3 Hu H4 H5 H6 H7 H8]. split; try done. by apply leaving_weaken. Qed.

Lemma live_room {T} f n room room' (s : ConsensusState T) : (room' ≤ room)%Z → live f n room s → live f n room' s.
Proof. intros Hr [H1 H2 H3 H4 H5 H6 H7 H8 H9]. split; try done. by eapply queue_inv_weaken; [..|exact H3]. Qed.
End invariant.
