(* ===== verification/StateProcess.v ===== *)
(** * StateProcess: processing requests keeps the invariant (types/src/consensus_state/mod.rs)

    [process_buffered_requests] and [enforce_minimum_stake], step by step: on a
    state that satisfies [live] they return, whatever bytes the requests are, and
    the state they return satisfies it again. *)
From S2P Require Import Prelude Codec Crypto BTree Epocher Account ExecutionRequest ProtocolParams.
From S2P Require Import Withdrawal SszHash SszStateTree ConsensusState StateSync StateCodec StatePayouts.
From S2P Require Import StateInvariant.

(** The invariant of an updated state: what is left are the changed parts. *)
Ltac live_split :=
  split; try assumption; try (eapply outside_limits; [|eassumption]; reflexivity).

Section process.
Context `{Hc : Crypto} `{!CryptoOk}.
Implicit Type u : ConsensusState ().

(** A step that returns, keeps the invariant and touches nothing outside. *)
Definition steps (f : bool) (n room : Z) u (r : option (ConsensusState ())) : Prop :=
  ∃ u', r = Some u' ∧ live f n room u' ∧ outside u' = outside u.

Lemma steps_ret f n room u : live f n room u → steps f n room u (Some u).
Proof. intros. by exists u. Qed.
Lemma steps_room f n room room' u r : (room' ≤ room)%Z → steps f n room u r → steps f n room' u r.
Proof. intros Hr (u' & -> & Hl & Ho). exists u'. split_and!; [done| |done]. by eapply live_room. Qed.
Lemma steps_bind f n room room' u r g :
  steps f n room u r →
  (∀ u', live f n room u' → outside u' = outside u → steps f n room' u' (g u')) →
  steps f n room' u (r ≫= g).
Proof.
  intros (u1 & -> & Hl & Ho) Hf. destruct (Hf u1 Hl Ho) as (u2 & E & Hl2 & Ho2).
  exists u2. split_and!; [done|done|congruence].
Qed.

Lemma epoch_floor f n room u :
  live f n room u → wrapping_add (epoch u) n = (epoch u + n)%Z ∧ is_u64 (epoch u + n).
Proof. intros [[H1 H2] _]. rewrite wrapping_add_small by (u64_unfold; lia). done. Qed.

(** ** Entries of the withdrawal queue *)
Lemma push_withdrawal_data u request e k b :
  ∃ stale, push_withdrawal_request_with_kind u request e k b
  = Some (u <| withdrawal_queue := (push_request_with_kind (withdrawal_queue u) request e k).1 |>, stale).
Proof.
  destruct (push_request_spec (withdrawal_queue u) request e k) as (Hd & _).
  unfold push_withdrawal_request_with_kind.
  destruct (push_request_with_kind (withdrawal_queue u) request e k) as [q r] eqn:E.
  assert (∃ x, r = Ok x) as [x ->] by (unfold push_request_with_kind in E; injection E as _ <-; eauto).
  cbn [fst] in *. rewrite on_tree_data. cbn [mbind option_bind].
  assert (back q k = Some (mkPendingWithdrawal (mkWithdrawal (next_index (withdrawal_queue u)) 0
    (source_address request) (wr_amount request)) (validator_pubkey request) e k)) as ->
    by (unfold back; by rewrite Hd, last_snoc).
  destruct (_ && _); [destruct b|]; cbn [mbind option_bind]; rewrite ?on_tree_data; cbn [mbind option_bind]; eauto.
Qed.

(** The queue after a push: the invariant is kept unless the entry is for a joining
    validator. *)
Lemma live_push f n room u request k :
  live f n (room + 1) u → (0 ≤ room)%Z → withdrawal_wf request →
  (k = Validator → joining_of (validator_accounts u) (validator_pubkey request) = None) →
  live f n room (u <| withdrawal_queue :=
    (push_request_with_kind (withdrawal_queue u) request (epoch u + n) k).1 |>).
Proof.
  intros Hl Hr Hw Hk. destruct (epoch_floor _ _ _ _ Hl) as [_ Hfl]. destruct Hl as [H1 H2 H3 Hu H4 H5 H6 H7 H8].
  live_split; [by apply queue_inv_push|].
  apply (staged_ext _ (validator_accounts u) _ _ (withdrawal_queue u)); [done| |done]. intros k' e c Hj. apply pending_count_push;
    [by destruct H3|destruct H3; lia|]. intros -> <-. by rewrite Hk in Hj.
Qed.

Lemma refund_steps f n room u request :
  live f n (room + 1) u → (0 ≤ room)%Z → withdrawal_wf request →
  steps f n room u (push_refund_withdrawal_request u request (wrapping_add (epoch u) n)).
Proof.
  intros Hl Hr Hw. destruct (epoch_floor _ _ _ _ Hl) as [-> _]. unfold push_refund_withdrawal_request.
  destruct (push_withdrawal_data u request (epoch u + n) DepositRefund false) as [b ->].
  eexists. split_and!; [done|by apply live_push|done].
Qed.

Lemma refund_deposit_steps f n room u credentials amount reason :
  live f n (room + 2) u → (0 ≤ room)%Z → is_u64 amount → length credentials = 32 →
  steps f n room u (refund_deposit u credentials amount reason n).
Proof.
  intros Hl Hr Ha Hcr. unfold refund_deposit.
  destruct (parse_withdrawal_credentials credentials) as [addr|] eqn:Ep;
    [|apply steps_ret; by eapply live_room; [|exact Hl]; lia].
  assert (length addr = 20) as Haddr by (by eapply parse_credentials_length).
  pose proof (ls_limits _ _ _ _ Hl) as Hlim.
  destruct (invalid_deposit_refund_split amount (invalid_deposit_tax u)) as [refund tax] eqn:Es.
  destruct (refund_split_u64 amount (invalid_deposit_tax u) refund tax) as [Hrf Htx];
    [done|done|].
  assert (∀ r u', live f n (r + 1) u' → (0 ≤ r)%Z → outside u' = outside u → ∀ a x, length a = 20 → is_u64 x →
    steps f n r u' (if (0 <? x)%Z then push_refund_withdrawal_request u' (mkWithdrawalRequest a (zero_bytes 32) x)
      (wrapping_add (epoch u) n) else Some u')) as Hstep.
  { intros r u' Hl' Hr' Ho a x Hla Hx. destruct (0 <? x)%Z.
    - replace (epoch u) with (epoch u') by (by apply (f_equal epoch) in Ho).
      apply refund_steps; [done|done|]. split_and!; simpl; [done|by rewrite length_zero_bytes|done].
    - apply steps_ret. by eapply live_room; [|exact Hl']; lia. }
  apply (steps_bind f n (room + 1)).
  - apply Hstep; [by replace (room + 1 + 1)%Z with (room + 2)%Z by lia|lia|done|done|done].
  - intros u' Hl' Ho. apply Hstep; [done|done|done| |done].
    replace (treasury_address u') with (treasury_address u) by (by apply (f_equal treasury_address) in Ho).
    apply Hlim.
Qed.

(** ** Deposits *)
Lemma deposit_account_ok f n room u request a :
  live f n room u → deposit_wf request → deposit_account u request = Some a →
  account_wf a ∧
  ((get_account u (node_pubkey request) = Some a) ∨
   (get_account u (node_pubkey request) = None ∧ status a = Inactive ∧
    consensus_public_key a = consensus_pubkey request)).
Proof.
  intros Hl [(Hs1 & Hs2 & Hs3 & Hs4 & _ & _ & Hs5) [_ Hb]]. unfold deposit_account.
  destruct (get_account u (node_pubkey request)) as [a0|] eqn:Hg.
  - intros [= <-]. split; [by eapply accounts_get; [apply Hl|exact Hg]|by left].
  - destruct (parse_withdrawal_credentials _) as [cr|] eqn:Hp; [|done]. intros [= <-].
    split; [|by right]. apply parse_credentials_length in Hp. unfold account_wf. simpl. split_and!; try done; u64_solve.
Qed.

(** The key checks of [verify_deposit_request]. *)
Lemma verify_deposit_keys u request domain k a :
  BTree.sorted (validator_accounts u) → verify_deposit_request u request domain = Ok () →
  BTree.get (validator_accounts u) k = Some a → consensus_public_key a = consensus_pubkey request →
  k = node_pubkey request.
Proof.
  intros Hs. unfold verify_deposit_request.
  repeat match goal with |- context [if ?b then Err _ else _] => destruct b eqn:?; [done|] end.
  intros _ Hg%BTree.get_elem_of Hk. destruct (decide (k = node_pubkey request)) as [|Hne]; [done|].
  match goal with H : existsb _ _ = false |- _ => rewrite <-not_true_iff_false in H; destruct H end.
  apply existsb_exists. exists (k, a). split; [by apply list_elem_of_In|].
  by rewrite bool_decide_false, bool_decide_true by done.
Qed.

Lemma credit_deposit_steps f n room u request domain a w :
  live f n room u → deposit_wf request → (1 ≤ w)%Z → is_u64 (epoch u + w) →
  verify_deposit_request u request domain = Ok () → deposit_account u request = Some a →
  steps f n room u (credit_deposit u request a w).
Proof.
  intros Hl Hd Hw Hwu Hv Ha. destruct (deposit_account_ok _ _ _ _ _ _ Hl Hd Ha) as [Hwf Hcase].
  pose proof Hl as [H1 H2 H3 Hu H4 H5 H6 H7 H8]. unfold get_account in Hcase.
  destruct Hd as [(Hs1 & Hs2 & Hs3 & Hs4 & _ & _ & Hs5) [He Hb]].
  assert (Hkey : node_key_wf (node_pubkey request)) by done.
  set (a1 := a <| balance := saturating_add (balance a) (dep_amount request) |>
               <| last_deposit_index := dep_index request |>).
  assert (Hwf1 : account_wf a1).
  { destruct Hwf as (? & ? & ? & ? & ? & ?). unfold account_wf, a1. simpl. split_and!; try done.
    by apply saturating_add_is_u64. }
  assert (Hjv : joining_of (validator_accounts u) (node_pubkey request) = join_view a).
  { unfold joining_of. destruct Hcase as [->|(-> & Hst & _)]; [done|].
    unfold join_view. by rewrite bool_decide_false by (by rewrite Hst). }
  assert (Hst : status_of (validator_accounts u) (node_pubkey request) = Some (status a) ∨
    status_of (validator_accounts u) (node_pubkey request) = None ∧ status a = Inactive).
  { unfold status_of. destruct Hcase as [->|(-> & ? & _)]; naive_solver. }
  assert (Hun : ∀ a', consensus_public_key a' = consensus_public_key a →
    keys_unique (BTree.insert (validator_accounts u) (node_pubkey request) a')).
  { intros a' Ha'. apply keys_unique_insert; [done|]. intros k b Hg Ek. destruct Hcase as [Hg'|(Hg' & _ & E)].
    - eapply Hu; [exact Hg|exact Hg'|congruence].
    - eapply verify_deposit_keys; [apply H2|exact Hv|exact Hg|congruence]. }
  assert (Hnot : status a = Inactive → node_pubkey request ∉ removed_validators u).
  { intros Hi. eapply leaving_absent; [exact H5|]. intros st E. destruct Hst as [Hst|[Hst _]]; [|congruence].
    rewrite Hst, Hi in E. by injection E as <-. }
  unfold credit_deposit. cbv zeta. fold a1. destruct (_ && _) eqn:Hcond.
  - rewrite !andb_true_iff in Hcond. destruct Hcond as [[[Hi%bool_decide_eq_true _] Hp%Z.eqb_eq] _].
    change (status a1) with (status a) in Hi.
    rewrite wrapping_add_small by done.
    set (a2 := a1 <| status := Joining |> <| joining_epoch := (epoch u + w)%Z |>).
    rewrite set_account_data by apply H2. cbn [mbind option_bind]. unfold add_validator. rewrite on_tree_data.
    eexists. split_and!; [reflexivity| |reflexivity].
    assert (Hwf2 : account_wf a2) by (destruct Hwf1 as (? & ? & ? & ? & ? & ?); by split_and!).
    live_split; [by apply accounts_insert|by apply Hun| |].
    + apply (staged_join (epoch u) _ _ _ _ a2); try done; [|simpl; lia].
      rewrite Hjv. unfold join_view. by rewrite bool_decide_false by (by rewrite Hi).
    + apply leaving_insert; [done|]. right; left. split; [by apply Hnot|done].
  - rewrite set_account_data by apply H2. eexists. split_and!; [reflexivity| |reflexivity].
    live_split; [by apply accounts_insert|by apply Hun| |].
    + by apply staged_insert.
    + apply leaving_insert; [done|]. destruct Hst as [Hst|[Hst Hi]]; [by left|right; left].
      split; [by apply Hnot|]. change (status a1) with (status a). by rewrite Hi.
Qed.

Lemma process_deposit_steps f n room u request domain w :
  live f n (room + 2) u → (0 ≤ room)%Z → deposit_wf request → (1 ≤ w)%Z → is_u64 (epoch u + w) →
  steps f n room u (process_deposit u request domain w n).
Proof.
  intros Hl Hr Hd Hw Hwu. unfold process_deposit.
  destruct (verify_deposit_request u request domain) as [[]|reason] eqn:Hv.
  - apply (steps_room f n (room + 2)); [lia|]. destruct (deposit_account u request) as [a|] eqn:Ha.
    + by eapply credit_deposit_steps.
    + by apply steps_ret.
  - destruct Hd as [(_ & _ & ? & ? & _) _]. by apply refund_deposit_steps.
Qed.

Lemma live_deposits {T} f n room (s : ConsensusState T) l :
  live f n room s → Forall deposit_wf l → live f n room (s <| deposit_queue := l |>).
Proof. intros [H1 H2 H3 Hu H4 H5 H6 H7 H8] Hd. by live_split. Qed.

Lemma deposits_loop_steps f n w domain : ∀ k room u b,
  live f n (room + 2 * Z.of_nat k) u → (0 ≤ room)%Z → (1 ≤ w)%Z → is_u64 (epoch u + w) →
  ∃ u' b', process_deposits_loop k u b domain w n = Some (u', b') ∧ live f n room u' ∧ outside u' = outside u.
Proof.
  induction k as [|k IH]; intros room u b Hl Hr Hw Hwu; cbn [process_deposits_loop].
  { exists u, b. split_and!; [done| |done]. by eapply live_room; [|exact Hl]; lia. }
  destruct (deposit_queue u) as [|d q] eqn:Hq; unfold pop_deposit_deferred; rewrite Hq.
  { exists u, b. split_and!; [done| |done]. by eapply live_room; [|exact Hl]; lia. }
  pose proof (ls_deposits _ _ _ _ Hl) as Hd. rewrite Hq in Hd. apply Forall_cons in Hd as [Hd Hds].
  destruct (process_deposit_steps f n (room + 2 * Z.of_nat k) (u <| deposit_queue := q |>) d domain w)
    as (u1 & -> & Hl1 & Ho1); [|lia|done|done|done|].
  { apply live_deposits; [|done]. by replace (room + 2 * Z.of_nat k + 2)%Z with (room + 2 * Z.of_nat (S k))%Z by lia. }
  cbn [mbind option_bind].
  destruct (IH room u1 true) as (u2 & b2 & -> & Hl2 & Ho2); try done.
  { apply (f_equal epoch) in Ho1. simpl in Ho1. by rewrite Ho1. }
  exists u2, b2. split_and!; [done|done|]. rewrite Ho2, Ho1. done.
Qed.

Lemma process_deposits_steps f n room u domain w :
  live f n (room + 2 * max_deposits_per_epoch u) u → (0 ≤ room)%Z → (1 ≤ w)%Z → is_u64 (epoch u + w) →
  steps f n room u (process_deposits u domain w n).
Proof.
  intros Hl Hr Hw Hwu. unfold process_deposits. pose proof (lm_deposits _ (ls_limits _ _ _ _ Hl)) as Hm.
  destruct (deposits_loop_steps f n w domain (Z.to_nat (max_deposits_per_epoch u)) room u false)
    as (u' & b & -> & Hl' & Ho); [by rewrite Z2Nat.id by lia|done..|].
  cbn [mbind option_bind]. destruct b; [unfold rebuild_deposit_tree; rewrite on_tree_data|]; by exists u'.
Qed.

(** ** Withdrawal requests *)
Lemma remove_added_data u e k :
  ∃ b, remove_added_validator u e k = Some (u <| added_validators := dropped (added_validators u) e k |>, b).
Proof.
  unfold remove_added_validator, dropped. destruct (_ ← BTree.get _ _; _) as [vs|]; cbv zeta.
  - rewrite on_tree_data. exists true. by destruct vs.
  - exists false. by destruct u.
Qed.

Definition steps2 (f : bool) (n room : Z) u (r : option (ConsensusState () * bool)) : Prop :=
  ∃ u' b, r = Some (u', b) ∧ live f n room u' ∧ outside u' = outside u.

Lemma steps2_ret f n room u b : live f n (room + 1) u → steps2 f n room u (Some (u, b)).
Proof. intros Hl. exists u, b. split_and!; [done| |done]. by eapply live_room; [|exact Hl]; lia. Qed.

Lemma enqueue_steps f n room u credentials k amount :
  live f n (room + 1) u → (0 ≤ room)%Z → length credentials = 20 → length k = 32 → is_u64 amount →
  joining_of (validator_accounts u) k = None →
  steps2 f n room u (enqueue u credentials k (wrapping_add (epoch u) n) amount).
Proof.
  intros Hl Hr Hcr Hk Ha Hj. destruct (epoch_floor _ _ _ _ Hl) as [-> _]. unfold enqueue.
  edestruct push_withdrawal_data as [b ->]. eexists _, b. split_and!; [done|by apply live_push|done].
Qed.

(** An account whose status changes between statuses that are not [Joining]. *)
Lemma live_status f n room u k a st :
  live f n room u → get_account u k = Some a → status a ≠ Joining → st ≠ Joining →
  (k ∉ removed_validators u ∧ st ≠ SubmittedExitRequest ∨ k ∈ removed_validators u ∧ leaver f st = true) →
  live f n room (u <| validator_accounts := BTree.insert (validator_accounts u) k (a <| status := st |>) |>).
Proof.
  intros [H1 H2 H3 Hu H4 H5 H6 H7 H8] Hg Ha Hst Hlv.
  destruct (accounts_get _ _ _ H2 Hg) as [Hk (? & ? & ? & ? & ? & ?)]. live_split.
  - apply accounts_insert; [done|done|]. by split_and!.
  - by eapply keys_unique_update.
  - apply staged_insert; [done|]. unfold join_view, joining_of, get_account in *. rewrite Hg. simpl.
    unfold join_view. by rewrite !bool_decide_false by done.
  - apply leaving_insert; [done|]. by right.
Qed.

Lemma not_removed f n room u k a :
  live f n room u → get_account u k = Some a → leaver f (status a) = false → k ∉ removed_validators u.
Proof.
  intros Hl Hg Ha. eapply leaving_absent; [apply Hl|]. intros st. unfold status_of, get_account in *.
  rewrite Hg. by intros [= <-].
Qed.

Lemma joining_None u k a : get_account u k = Some a → status a ≠ Joining → joining_of (validator_accounts u) k = None.
Proof.
  intros Hg Ha. apply not_joining. unfold status_of, get_account in *. rewrite Hg. simpl. congruence.
Qed.

Lemma inactive_request_steps f n room u k a x :
  live f n (room + 1) u → (0 ≤ room)%Z → get_account u k = Some a → status a = Inactive → is_u64 x →
  steps2 f n room u
    (if (x =? 0)%Z then
       s ← set_account u k (a <| status := FullPayoutPending |>);
       enqueue s (withdrawal_credentials a) k (wrapping_add (epoch u) n) 0
     else
       let amount := Z.min x (balance a) in
       if (amount =? 0)%Z then Some (u, false)
       else enqueue u (withdrawal_credentials a) k (wrapping_add (epoch u) n) amount).
Proof.
  intros Hl Hr Hg Ha Hx. destruct (accounts_get _ _ _ (ls_accounts _ _ _ _ Hl) Hg) as [[Hk _] (? & ? & ? & Hb & ? & ?)].
  pose proof (joining_None u k a Hg ltac:(by rewrite Ha)) as Hj.
  destruct (_ =? _)%Z; cbv zeta.
  - rewrite set_account_data by apply (ls_accounts _ _ _ _ Hl). cbn [mbind option_bind].
    change (epoch u) with (epoch (u <| validator_accounts :=
      BTree.insert (validator_accounts u) k (a <| status := FullPayoutPending |>) |>)).
    destruct (enqueue_steps f n room (u <| validator_accounts :=
      BTree.insert (validator_accounts u) k (a <| status := FullPayoutPending |>) |>)
      (withdrawal_credentials a) k 0) as (u' & b & E & Hl' & Ho); try done.
    + apply live_status; try done; [by rewrite Ha|]. left. split; [|done].
      eapply not_removed; [done..|]. by rewrite Ha.
    + simpl. by rewrite joining_of_insert, decide_True.
    + exists u', b. by split_and!.
  - destruct (_ =? _)%Z; [by apply steps2_ret|]. apply enqueue_steps; try done. u64_solve.
Qed.

Lemma active_request_steps n room u k a x :
  live true n (room + 1) u → (0 ≤ room)%Z → get_account u k = Some a → status a = Active → is_u64 x →
  steps2 true n room u
    (if (x =? 0)%Z then
       if negb (can_accept_active_validator_exit u) then Some (u, false) else
       if negb (ed25519_valid k) then Some (u, false) else
       s ← push_removed_validator u k;
       s ← increment_pending_active_validator_exits s;
       s ← set_account s k (a <| status := SubmittedExitRequest |>);
       enqueue s (withdrawal_credentials a) k (wrapping_add (epoch u) n) 0
     else
       let withdrawable := saturating_sub (balance a) (validator_minimum_stake u) in
       let amount := Z.min x withdrawable in
       if (amount =? 0)%Z then Some (u, false)
       else enqueue u (withdrawal_credentials a) k (wrapping_add (epoch u) n) amount).
Proof.
  intros Hl Hr Hg Ha Hx. pose proof Hl as [H1 H2 H3 Hu H4 H5 H6 H7 H8].
  destruct (accounts_get _ _ _ H2 Hg) as [Hkw (? & ? & ? & Hb & ? & ?)].
  pose proof (joining_None u k a Hg ltac:(by rewrite Ha)) as Hj. pose proof (lm_stake _ H8).
  destruct (_ =? _)%Z; cbv zeta.
  - destruct (negb _); [by apply steps2_ret|]. destruct (negb _); [by apply steps2_ret|].
    unfold push_removed_validator, set_removed_validators, increment_pending_active_validator_exits.
    rewrite !on_tree_data. cbn [mbind option_bind]. rewrite !on_tree_data. cbn [mbind option_bind].
    rewrite set_account_data by apply H2. cbn [mbind option_bind].
    match goal with |- context [enqueue ?v _ _ _ _] => set (u1 := v) end.
    destruct (enqueue_steps true n room u1 (withdrawal_credentials a) k 0) as (u' & b & E & Hl' & Ho);
      try done; [|apply Hkw|unfold u1; simpl; by rewrite joining_of_insert, decide_True|].
    + assert (Hnr : k ∉ removed_validators u) by (eapply not_removed; [done..|by rewrite Ha]).
      unfold u1. live_split.
      * by apply accounts_insert.
      * by eapply keys_unique_update.
      * apply staged_insert; [done|]. simpl. rewrite Hj. done.
      * by apply leaving_exit.
    + exists u', b. split_and!; [exact E|done|]. rewrite Ho. done.
  - destruct (_ =? _)%Z; [by apply steps2_ret|]. apply enqueue_steps; try done; [apply Hkw|u64_solve].
Qed.

(** The activation of a joining validator is cancelled. *)
Lemma cancel_live f n room u k a :
  live f n room u → get_account u k = Some a → status a = Joining →
  (epoch u < joining_epoch a)%Z ∧ ed25519_valid k = true ∧
  live f n room (u <| added_validators := dropped (added_validators u) (joining_epoch a) k |>
    <| validator_accounts := BTree.insert (validator_accounts u) k (a <| status := Inactive |>) |>).
Proof.
  intros Hl Hg Ha. pose proof Hl as [H1 H2 H3 Hu H4 H5 H6 H7 H8].
  destruct (accounts_get _ _ _ H2 Hg) as [Hkw (? & ? & ? & Hb & ? & ?)].
  assert (Hj : joining_of (validator_accounts u) k = Some (joining_epoch a, consensus_public_key a)).
  { unfold joining_of, get_account in *. rewrite Hg. simpl. unfold join_view. by rewrite bool_decide_true. }
  destruct (sg_joining _ _ _ _ H4 _ _ _ Hj) as (_ & vs & Hvs & _).
  destruct (sg_entry _ _ _ _ H4 _ _ Hvs) as (He & _). split_and!; [done|apply Hkw|]. live_split.
  - apply accounts_insert; [done|done|]. by split_and!.
  - by eapply keys_unique_update.
  - by eapply staged_cancel.
  - apply leaving_insert; [done|]. right; left. split; [|done]. apply (not_removed f n room u k a); [done..|]. by rewrite Ha.
Qed.

Lemma withdrawal_request_steps n room u request :
  live true n (room + 1) u → (0 ≤ room)%Z → withdrawal_wf request →
  steps2 true n room u (apply_withdrawal_request_deferred u request n).
Proof.
  intros Hl Hr (_ & _ & Hx). unfold apply_withdrawal_request_deferred.
  destruct (get_account u (validator_pubkey request)) as [a|] eqn:Hg; [|by apply steps2_ret].
  destruct (negb _); [by apply steps2_ret|].
  destruct (match status a with SubmittedExitRequest | FullPayoutPending => true | _ => false end) eqn:Hst;
    [by apply steps2_ret|].
  destruct (_ <=? _)%Z; [by apply steps2_ret|]. cbv zeta.
  destruct (status a) eqn:Ha; try done; [rewrite bool_decide_false by done..|rewrite bool_decide_true by done];
    cbn [mbind option_bind].
  - rewrite Ha. by apply active_request_steps.
  - rewrite Ha. by apply inactive_request_steps.
  - destruct (cancel_live _ _ _ _ _ _ Hl Hg Ha) as (Hlt & Hed & Hl1).
    rewrite (proj2 (Z.ltb_lt _ _) Hlt), Hed. cbn [andb].
    destruct (remove_added_data u (joining_epoch a) (validator_pubkey request)) as [b ->].
    cbn [fmap option_fmap option_map fst mbind option_bind].
    rewrite set_account_data by apply (ls_accounts _ _ _ _ Hl). cbn [mbind option_bind].
    change (status (a <| status := Inactive |>)) with Inactive. cbv iota.
    match goal with |- steps2 _ _ _ _ (if _ then _ ← set_account ?v _ _; _ else _) => set (u1 := v) end.
    destruct (inactive_request_steps true n room u1 (validator_pubkey request) (a <| status := Inactive |>)
      (wr_amount request)) as (u' & b' & E & Hl' & Ho); try done; [apply BTree.get_insert_eq|].
    exists u', b'. split_and!; [exact E|done|by rewrite Ho].
Qed.

(** ** Routing the buffered requests *)
Lemma push_deposit_steps f n room u d :
  live f n room u → deposit_wf d → steps f n room u (push_deposit u d).
Proof.
  intros Hl Hd. unfold push_deposit. rewrite on_tree_data. cbn [mbind option_bind].
  eexists. split_and!; [reflexivity| |reflexivity]. apply live_deposits; [done|].
  apply Forall_app. split; [by apply Hl|by constructor].
Qed.

Lemma route_request_steps n room u stale p :
  live true n (room + 2) u → (0 ≤ room)%Z → parsed_wf p → steps2 true n room u (route_request u stale p n).
Proof.
  intros Hl Hr Hp. assert (live true n (room + 1) u) as Hl1 by (by eapply live_room; [|exact Hl]; lia).
  unfold route_request. destruct p as [[d|w|q]|c]; simpl in Hp.
  - destruct (push_deposit_steps true n room u d) as (u' & -> & Hl' & Ho); [|done|].
    { by eapply live_room; [|exact Hl]; lia. }
    by exists u', stale.
  - destruct (withdrawal_request_steps n room u w) as (u' & b & -> & Hl' & Ho); [done..|]. by eexists u', _.
  - by apply steps2_ret.
  - destruct Hp as [? ?].
    destruct (refund_deposit_steps true n room u (mal_withdrawal_credentials c) (mal_amount c) MalformedKey)
      as (u' & -> & Hl' & Ho); [done..|]. by exists u', stale.
Qed.

(** The entries of the queue that processing an entry may number. *)
Definition request_count (entry : bytes) : Z :=
  match parse_eth_entry entry with Ok l => Z.of_nat (length l) | Err _ => 0 end.

Lemma route_parsed_steps n l : ∀ room u stale,
  live true n (room + 2 * Z.of_nat (length l)) u → (0 ≤ room)%Z → Forall parsed_wf l →
  steps2 true n room u (for_each (λ st p, route_request st.1 st.2 p n) (u, stale) l).
Proof.
  induction l as [|p l IH]; intros room u stale Hl Hr Hf; cbn [for_each].
  { exists u, stale. split_and!; [done| |done]. by eapply live_room; [|exact Hl]; simpl; lia. }
  apply Forall_cons in Hf as [Hp Hf]. cbn [length] in Hl.
  destruct (route_request_steps n (room + 2 * Z.of_nat (length l)) u stale p) as (u1 & b1 & E & Hl1 & Ho1);
    [|lia|done|].
  { by eapply live_room; [|exact Hl]; lia. }
  cbn [fst snd]. rewrite E. cbn [mbind option_bind].
  destruct (IH room u1 b1) as (u2 & b2 & -> & Hl2 & Ho2); [done..|].
  exists u2, b2. split_and!; [done|done|congruence].
Qed.

Lemma route_entries_steps n entries : ∀ room u stale,
  live true n (room + 2 * sum request_count entries) u → (0 ≤ room)%Z →
  steps2 true n room u (for_each (λ st entry, route_entry st entry n) (u, stale) entries).
Proof.
  induction entries as [|e entries IH]; intros room u stale Hl Hr; cbn [for_each].
  { exists u, stale. split_and!; [done| |done]. by eapply live_room; [|exact Hl]; simpl; lia. }
  assert (Hsum : (0 ≤ sum request_count entries)%Z).
  { clear. induction entries as [|e l IH]; simpl; [lia|]. unfold request_count at 1. destruct (parse_eth_entry e); lia. }
  assert (steps2 true n (room + 2 * sum request_count entries) u (route_entry (u, stale) e n))
    as (u1 & b1 & -> & Hl1 & Ho1).
  { unfold route_entry. change (sum request_count (e :: entries)) with (request_count e + sum request_count entries)%Z in Hl.
    unfold request_count at 1 in Hl.
    destruct (parse_eth_entry e) as [l|] eqn:E.
    - apply route_parsed_steps; [|lia|by eapply parse_eth_entry_wf].
      by eapply live_room; [|exact Hl]; lia.
    - exists u, stale. split_and!; [done| |done]. by eapply live_room; [|exact Hl]; lia. }
  cbn [mbind option_bind].
  destruct (IH room u1 b1) as (u2 & b2 & -> & Hl2 & Ho2); [done..|].
  exists u2, b2. split_and!; [done|done|congruence].
Qed.

(** ** Parameter changes *)
Lemma find_map_retain {A B} (h : A → option B) (p : A → bool) l :
  (∀ a, p a = false → h a = None) → find_map h (retain p l) = find_map h l.
Proof.
  intros Hp. induction l as [|a l IH]; [done|]. simpl. destruct (p a) eqn:E; simpl.
  - by rewrite IH.
  - by rewrite (Hp a E), IH.
Qed.
Lemma find_map_none {A B} (h : A → option B) (p : A → bool) l :
  (∀ a, p a = true → h a = None) → find_map h (retain p l) = None.
Proof.
  intros Hp. induction l as [|a l IH]; [done|]. simpl. destruct (p a) eqn:E; simpl; [|done].
  by rewrite (Hp a E).
Qed.
Lemma retain_rev {A} (p : A → bool) l : rev (retain p l) = retain p (rev l).
Proof.
  induction l as [|a l IH]; [done|]. simpl. rewrite retain_app, <-IH. simpl.
  destruct (p a); simpl; [done|by rewrite app_nil_r].
Qed.

Lemma with_params_id u : u <| protocol_param_changes := protocol_param_changes u |> = u.
Proof. by destruct u. Qed.

(** The two prunings of [reject_invalid_validator_count_changes] as lists. *)
Definition without_excess_max u : list ProtocolParam :=
  if (prospective_minimum_validator_count u <=? prospective_max_validator_count u)%Z
     && existsb is_max_count (protocol_param_changes u)
     && (prospective_max_validator_count u <? active_or_joining_validator_count u)%Z
  then retain (λ p, negb (is_max_count p)) (protocol_param_changes u) else protocol_param_changes u.
Definition with_counts_in_order u : list ProtocolParam :=
  let l := without_excess_max u in
  if (prospective_max_validator_count (u <| protocol_param_changes := l |>)
      <? prospective_minimum_validator_count u)%Z
  then retain (λ p, negb (is_count_param p)) l else l.

Lemma reject_data u :
  reject_invalid_validator_count_changes u
  = Some (u <| protocol_param_changes := with_counts_in_order u |>).
Proof.
  unfold reject_invalid_validator_count_changes. cbv zeta.
  match goal with |- context [prospective_max_validator_count (if ?c then _ else _)] =>
    assert ((if c then if (prospective_max_validator_count u <? active_or_joining_validator_count u)%Z
      then u <| protocol_param_changes := retain (λ p, negb (is_max_count p)) (protocol_param_changes u) |> else u
      else u) = u <| protocol_param_changes := without_excess_max u |>) as ->
  end.
  { unfold without_excess_max. destruct (_ && _); [destruct (_ <? _)%Z|]; cbn [andb]; [done|by rewrite with_params_id..]. }
  unfold with_counts_in_order. cbv zeta. destruct (_ <? _)%Z;
    (destruct (negb _); [by rewrite on_tree_data|done]).
Qed.

Lemma counts_in_order_retain u (P : list ProtocolParam → Prop) :
  P (protocol_param_changes u) → (∀ p l, (∀ x, is_count_param x = false → p x = true) → P l → P (retain p l)) →
  P (with_counts_in_order u).
Proof.
  intros H0 Hr. unfold with_counts_in_order, without_excess_max. cbv zeta.
  destruct (_ && _ && _); destruct (_ <? _)%Z; try done; repeat apply Hr; try done; by intros [].
Qed.

Lemma counts_in_order_sub u : with_counts_in_order u ⊆ protocol_param_changes u.
Proof. apply counts_in_order_retain; [done|]. intros p l _ Hl x [? _]%elem_of_retain. by apply Hl. Qed.

Lemma counts_in_order_stake u :
  existsb is_minimum_stake (with_counts_in_order u) = existsb is_minimum_stake (protocol_param_changes u).
Proof.
  apply counts_in_order_retain; [done|]. intros p l Hp <-. apply eq_iff_eq_true. rewrite !existsb_exists.
  split; intros (x & Hx & Ex); exists x.
  - by apply list_elem_of_In, elem_of_retain in Hx as [?%list_elem_of_In _].
  - split; [|done]. apply list_elem_of_In, elem_of_retain. split; [by apply list_elem_of_In|].
    apply Hp. by destruct x.
Qed.

Lemma prospective_minimum_pos u :
  limits_ok u → Forall in_bounds (protocol_param_changes u) → (0 < prospective_minimum_validator_count u)%Z.
Proof.
  intros Hlim Hb. unfold prospective_minimum_validator_count, rev_find_map.
  destruct (find_map _ _) as [v|] eqn:E; simpl; [|apply Hlim].
  apply find_map_elem in E as (p & Hp & Ep). destruct p; simplify_eq. rewrite Forall_forall in Hb.
  apply list_elem_of_In, in_rev, list_elem_of_In, Hb in Hp. simpl in Hp.
  unfold MIN_MINIMUM_VALIDATOR_COUNT in Hp. lia.
Qed.

(** The counts that will apply are in order. *)
Lemma counts_in_order u :
  limits_ok u →
  (prospective_minimum_validator_count (u <| protocol_param_changes := with_counts_in_order u |>)
   ≤ prospective_max_validator_count (u <| protocol_param_changes := with_counts_in_order u |>))%Z.
Proof.
  intros Hlim.
  assert (Hmin1 : prospective_minimum_validator_count (u <| protocol_param_changes := without_excess_max u |>)
    = prospective_minimum_validator_count u).
  { unfold prospective_minimum_validator_count, without_excess_max, rev_find_map. simpl.
    destruct (_ && _ && _); [|done]. rewrite retain_rev, find_map_retain; [done|]. by intros []. }
  unfold with_counts_in_order. cbv zeta.
  destruct (Z.ltb_spec (prospective_max_validator_count (u <| protocol_param_changes := without_excess_max u |>))
    (prospective_minimum_validator_count u)); [|by rewrite Hmin1].
  unfold prospective_minimum_validator_count, prospective_max_validator_count, rev_find_map. simpl.
  rewrite !retain_rev, !find_map_none by (by intros []). simpl. apply Hlim.
Qed.

Lemma live_params f n room u l :
  live f n room u → Forall in_bounds l → live f n room (u <| protocol_param_changes := l |>).
Proof. intros [H1 H2 H3 Hu H4 H5 H6 H7 H8] Hl. by live_split. Qed.
Lemma live_requests f n room u l :
  live f n room u → live f n room (u <| pending_execution_requests := l |>).
Proof. intros [H1 H2 H3 Hu H4 H5 H6 H7 H8]. by live_split. Qed.

Lemma entry_params_bounds entry : Forall in_bounds (entry_params entry).
Proof.
  unfold entry_params. destruct (parse_eth_entry entry) as [l|]; [|constructor].
  apply Forall_forall. intros p (q & _ & Hq)%list_elem_of_omap. destruct q as [[| |r]|]; try done.
  destruct (try_from_request r) as [p'|] eqn:E; [|done]. simplify_eq. by apply (try_from_request_in_bounds r).
Qed.

Lemma params_steps f n room u ps :
  live f n room u → Forall in_bounds ps →
  steps f n room u (match ps with [] => Some u | _ => push_protocol_param_changes u ps end).
Proof.
  intros Hl Hps. assert (steps f n room u (Some u)) as Hret by by apply steps_ret.
  destruct ps as [|p ps]; [done|]. unfold push_protocol_param_changes. cbv zeta. rewrite on_tree_data.
  match goal with |- steps _ _ _ _ (if _ then Some ?v else _) =>
    assert (steps f n room u (Some v)) by (exists v; split_and!; [done| |done];
      apply live_params; [done|apply Forall_app; split; [apply Hl|done]]) end.
  by destruct (negb _).
Qed.

Lemma reject_steps f n room u :
  live f n room u → steps f n room u (reject_invalid_validator_count_changes u).
Proof.
  intros Hl. rewrite reject_data. eexists. split_and!; [done| |done]. apply live_params; [done|].
  rewrite Forall_forall. intros p Hp%counts_in_order_sub. pose proof (ls_params _ _ _ _ Hl) as Hb.
  rewrite Forall_forall in Hb. by apply Hb.
Qed.

(** The numbers that processing the buffered requests may use up. *)
Definition index_need u (entries : list bytes) : Z :=
  2 * max_deposits_per_epoch u + 2 * sum request_count entries.

Lemma process_buffered_steps n room u domain w :
  live true n (room + index_need u (pending_execution_requests u)) u → (0 ≤ room)%Z →
  (1 ≤ w)%Z → is_u64 (epoch u + w) →
  steps true n room u (process_buffered_requests u domain w n).
Proof.
  intros Hl Hr Hw Hwu. unfold process_buffered_requests, take_pending_execution_requests. cbv zeta.
  set (es := pending_execution_requests u) in *. rewrite on_tree_data. cbn [mbind option_bind].
  set (u0 := u <| pending_execution_requests := [] |>).
  change (steps true n room u0 (s ← match concat (map entry_params es) with [] => Some u0
    | _ :: _ => push_protocol_param_changes u0 (concat (map entry_params es)) end;
    s ← reject_invalid_validator_count_changes s;
    r ← for_each (λ st entry, route_entry st entry n) (s, false) es;
    let '(s, withdrawal_tree_stale) := r in
    s ← (if withdrawal_tree_stale : bool then rebuild_withdrawal_tree s else Some s);
    process_deposits s domain w n)).
  assert (Hl0 : live true n (room + index_need u es) u0) by by apply live_requests.
  apply (steps_bind _ _ (room + index_need u es)).
  { apply params_steps; [done|]. apply Forall_concat, Forall_map, Forall_forall. intros e _.
    apply entry_params_bounds. }
  intros u1 Hl1 Ho1. apply (steps_bind _ _ (room + index_need u es)); [by apply reject_steps|].
  intros u2 Hl2 Ho2. unfold index_need in Hl2.
  destruct (route_entries_steps n es (room + 2 * max_deposits_per_epoch u) u2 false) as (u3 & b & -> & Hl3 & Ho3).
  { by eapply live_room; [|exact Hl2]; lia. }
  { pose proof (lm_deposits _ (ls_limits _ _ _ _ Hl)). lia. }
  assert (Ho : outside u3 = outside u) by (rewrite Ho3, Ho2, Ho1; done).
  pose proof (f_equal epoch Ho) as He. pose proof (f_equal max_deposits_per_epoch Ho) as Hm. simpl in He, Hm.
  rewrite <-Hm in Hl3. rewrite <-He in Hwu. cbn [mbind option_bind].
  destruct (process_deposits_steps true n room u3 domain w Hl3 Hr Hw Hwu) as (u4 & E4 & Hl4 & Ho4).
  exists u4. split_and!; [|done|by rewrite Ho4, Ho3].
  destruct b; [unfold rebuild_withdrawal_tree; rewrite on_tree_data|]; cbn [mbind option_bind]; done.
Qed.

(** ** Minimum stake *)
Notation candidate := (bytes * Z * ValidatorStatus)%type.
Definition candidate_of u (c : candidate) : Prop :=
  ∃ a, get_account u c.1.1 = Some a ∧ status a = c.2 ∧ joining_epoch a = c.1.2 ∧
    (c.2 = Active ∨ c.2 = Joining).

Lemma stake_candidates_spec u min :
  BTree.sorted (validator_accounts u) →
  NoDup ((λ c : candidate, c.1.1) <$> stake_candidates u min) ∧
  Forall (candidate_of u) (stake_candidates u min).
Proof.
  intros Hs. unfold stake_candidates. split.
  - pose proof (BTree.sorted_keys_NoDup _ Hs) as Hnd. revert Hnd. clear.
    induction (validator_accounts u) as [|[k a] m IH]; [done|]. intros [Hk Hnd]%NoDup_cons.
    specialize (IH Hnd). cbn [omap list_omap]. destruct (_ <=? _)%Z; [done|].
    assert (k ∉ (λ c : candidate, c.1.1) <$> omap (λ '(k0, a0), if (min <=? balance a0)%Z then None
      else match status a0 with Active | Joining => Some (k0, joining_epoch a0, status a0) | _ => None end) m) as Hk'.
    { intros (c & -> & ([k' a'] & Hin & Hc)%list_elem_of_omap)%list_elem_of_fmap. apply Hk.
      apply list_elem_of_fmap. exists (k', a'). split; [|done]. destruct (_ <=? _)%Z; [done|].
      by destruct (status a'); simplify_eq. }
    destruct (status a); try done; by apply NoDup_cons.
  - apply Forall_forall. intros c ([k a] & Hin & Hca)%list_elem_of_omap.
    destruct (_ <=? _)%Z; [done|]. apply BTree.elem_of_get in Hin; [|done].
    destruct (status a) eqn:Ea; simplify_eq; exists a; simpl; split_and!; auto.
Qed.

(** The loop state: the candidates still to come have their accounts untouched and
    are not listed as removed, unless they were at the start. *)
Definition enforcing (n room : Z) u0 (already : list bytes) u (l : list candidate) : Prop :=
  live false n room u ∧ outside u = outside u0 ∧ NoDup ((λ c : candidate, c.1.1) <$> l) ∧
  Forall (λ c : candidate, candidate_of u c ∧ (c.1.1 ∉ already → c.1.1 ∉ removed_validators u)) l.

Lemma enforcing_next n room u0 already u u' k l c :
  enforcing n room u0 already u (c :: l) → c.1.1 = k → live false n room u' → outside u' = outside u →
  (∀ k', k' ≠ k → get_account u' k' = get_account u k') →
  (∀ k', k' ≠ k → k' ∈ removed_validators u' → k' ∈ removed_validators u) →
  enforcing n room u0 already u' l.
Proof.
  intros (Hl & Ho & Hnd & Hf) <- Hl' Ho' Hg Hr. apply NoDup_cons in Hnd as [Hk Hnd].
  apply Forall_cons in Hf as [_ Hf]. split_and!; [done|congruence|done|]. rewrite Forall_forall in *.
  intros c' Hc'. assert (c'.1.1 ≠ c.1.1) as Hne.
  { intros E. apply Hk. rewrite <-E. by apply (list_elem_of_fmap_2 (λ c : candidate, c.1.1)). }
  destruct (Hf c' Hc') as [(a & Ha & Hrest) Hrm]. split; [exists a; by rewrite Hg|]. naive_solver.
Qed.

Lemma remove_below_minimum_steps n room u0 already u c l :
  enforcing n room u0 already u (c :: l) →
  ∃ u', remove_below_minimum (epoch u0) already u c = Some u' ∧ enforcing n room u0 already u' l.
Proof.
  intros He. pose proof He as (Hl & Ho & _ & [[(a & Hg & Hst & Hj & Hc2) Hnr] _]%Forall_cons).
  assert (Hskip : enforcing n room u0 already u l) by (by eapply enforcing_next).
  destruct c as [[k j] st]. cbn [fst snd] in *. subst j. unfold remove_below_minimum.
  destruct (negb _); [by exists u|]. case_bool_decide as Hal; [by exists u|]. specialize (Hnr Hal).
  destruct Hc2 as [->| ->].
  - unfold push_removed_validator, set_removed_validators, increment_pending_active_validator_exits.
    rewrite on_tree_data. cbn [mbind option_bind]. rewrite on_tree_data.
    eexists. split; [done|]. eapply (enforcing_next _ _ _ _ _ _ k); [exact He|done| |done|done|].
    + destruct Hl as [H1 H2 H3 Hu H4 H5 H6 H7 H8]. live_split.
      apply (leaving_push false (validator_accounts u) _ _ k Active); [done|done|by eapply accounts_get| |done].
      unfold status_of, get_account in *. rewrite Hg. simpl. by rewrite Hst.
    + intros k' Hne [?| ->%list_elem_of_singleton]%elem_of_app; done.
  - destruct (cancel_live _ _ _ _ _ _ Hl Hg Hst) as (Hlt & _ & Hl').
    pose proof (f_equal epoch Ho) as Hep. simpl in Hep. rewrite <-Hep, (proj2 (Z.ltb_lt _ _) Hlt).
    destruct (remove_added_data u (joining_epoch a) k) as [b ->]. cbn [mbind option_bind fst]. cbv zeta.
    change (get_account (u <| added_validators := ?m |>) k) with (get_account u k). rewrite Hg.
    rewrite set_account_data by apply (ls_accounts _ _ _ _ Hl). eexists. split; [done|].
    eapply (enforcing_next _ _ _ _ _ _ k); [exact He|done|exact Hl'|done| |done].
    intros k' Hne. unfold get_account. simpl. by apply BTree.get_insert_ne.
Qed.

Lemma enforce_minimum_stake_steps n room u :
  live true n room u → steps false n room u (enforce_minimum_stake u).
Proof.
  intros Hl. assert (Hl' : live false n room u) by by apply live_weaken.
  unfold enforce_minimum_stake. destruct (negb _); [by apply steps_ret|]. cbv zeta.
  destruct (_ <? _)%Z.
  - rewrite on_tree_data. eexists. split_and!; [done| |done]. apply live_params; [done|].
    apply Forall_forall. intros p [Hp _]%elem_of_retain. pose proof (ls_params _ _ _ _ Hl) as Hb.
    rewrite Forall_forall in Hb. by apply Hb.
  - destruct (stake_candidates_spec u (prospective_minimum_stake u)) as [Hnd Hf]; [apply Hl|].
    destruct (for_each_total (remove_below_minimum (epoch u) (removed_validators u))
      (enforcing n room u (removed_validators u)) u (stake_candidates u (prospective_minimum_stake u)))
      as (u' & E & (? & ? & _)).
    + split_and!; [done|done|done|]. eapply Forall_impl; [exact Hf|]. naive_solver.
    + intros. by apply remove_below_minimum_steps.
    + by exists u'.
Qed.
End process.
