(* ===== verification/StateBoundary.v ===== *)
(** * StateBoundary: payouts, parameters and the committee at the end of an epoch

    The last block of an epoch pays the withdrawals; the boundary then applies the
    parameter changes, activates and dismisses validators, and opens the next epoch.
    On a state that satisfies the invariant none of these steps panics, and the new
    epoch starts with the invariant again. *)
From S2P Require Import Prelude Codec Crypto BTree Epocher Account ExecutionRequest ProtocolParams.
From S2P Require Import Withdrawal SszHash SszStateTree ConsensusState StateSync StateCodec StatePayouts.
From S2P Require Import StateInvariant StateProcess.

Ltac rewrite_set := unfold set_minimum_stake, set_allowed_timestamp_future_ms, set_treasury_address,
  set_max_deposits_per_epoch, set_max_withdrawals_per_epoch, set_max_validator_count,
  set_minimum_validator_count, set_max_pending_withdrawals_per_validator.

Section boundary.
Context `{Hc : Crypto} `{!CryptoOk}.
Implicit Type u : ConsensusState ().

(** ** After the payouts

    A leaving validator may be gone; one that is still there serves until the
    boundary. *)
Record departing (m : BTreeMap bytes ValidatorAccount) (removed : list bytes) : Prop := {
  dp_nodup : NoDup removed;
  dp_keys : Forall node_key_wf removed;
  dp_serving : ∀ k st, k ∈ removed → status_of m k = Some st → leaver false st = true;
  dp_submitted : ∀ k, status_of m k = Some SubmittedExitRequest → k ∈ removed
}.

Record closing {T} (n : Z) (s : ConsensusState T) : Prop := {
  cl_epoch : (0 ≤ epoch s)%Z ∧ is_u64 (epoch s + n);
  cl_accounts : accounts_ok (validator_accounts s);
  cl_queue : queue_inv (epoch s + n) 0 (withdrawal_queue s);
  cl_unique : keys_unique (validator_accounts s);
  cl_staged : staged (epoch s) (validator_accounts s) (added_validators s) (withdrawal_queue s);
  cl_departing : departing (validator_accounts s) (removed_validators s);
  cl_deposits : Forall deposit_wf (deposit_queue s);
  cl_params : Forall in_bounds (protocol_param_changes s);
  cl_limits : limits_ok s
}.

(** ** Payouts *)

(** What a payout does to one account: nothing, a lower balance, or removal. *)
Definition paid_from (o o' : option ValidatorAccount) : Prop :=
  o' = o ∨ ∃ a, o = Some a ∧ (o' = None ∨ ∃ b, is_u64 b ∧ o' = Some (a <| balance := b |>)).

Lemma paid_from_trans o1 o2 o3 : paid_from o1 o2 → paid_from o2 o3 → paid_from o1 o3.
Proof.
  intros [->|(a & -> & H1)]; [done|]. intros [->|(a' & -> & H2)]; [by right; exists a|].
  right. exists a. split; [done|]. destruct H1 as [|(b & _ & [= ->])]; [done|].
  destruct H2 as [->|(b' & ? & ->)]; [by left|]. right. exists b'. by split.
Qed.

Lemma paid_key o o' a' :
  paid_from o o' → o' = Some a' → ∃ a, o = Some a ∧ consensus_public_key a' = consensus_public_key a.
Proof. intros [->|(a & -> & [->|(b & _ & ->)])]; intros; simplify_eq; eauto. Qed.

(** Each payout touches only the account of a validator withdrawal. *)
Lemma pay_account_paid min m w k :
  accounts_ok m → pending_wf w → (0 ≤ min)%Z →
  accounts_ok (pay_account min m w) ∧ paid_from (BTree.get m k) (BTree.get (pay_account min m w) k) ∧
  (kind w = DepositRefund ∨ pubkey w ≠ k → BTree.get (pay_account min m w) k = BTree.get m k).
Proof.
  intros Hm Hw Hmin. unfold pay_account. case_bool_decide as Hk; [split_and!; [done|by left|done]|].
  destruct (BTree.get m (pubkey w)) as [a|] eqn:Hg; [|split_and!; [done|by left|done]].
  destruct (negb _); [split_and!; [done|by left|done]|]. cbv zeta.
  destruct (accounts_get _ _ _ Hm Hg) as [Hkw (? & ? & ? & Hb & ? & ?)].
  set (p := withdrawal_payout_amount _ _ _ _).
  assert (Hp : is_u64 (saturating_sub (balance a) p)).
  { assert (0 ≤ p)%Z; [|u64_solve]. unfold p, withdrawal_payout_amount.
    destruct Hw as (_ & _ & _ & Ha & _). destruct (kind w); [|u64_solve].
    destruct (_ =? _)%Z; [u64_solve|]. cbv zeta. u64_unfold. lia. }
  destruct (decide (pubkey w = k)) as [<-|Hne]; (destruct (_ =? _)%Z;
    [split_and!; [by apply accounts_remove| |]|split_and!; [by apply accounts_insert| |]]).
  - rewrite BTree.get_remove_eq by apply Hm. right. exists a. split; [done|]. by left.
  - intros [?|?]; done.
  - rewrite BTree.get_insert_eq. right. exists a. split; [done|]. right. by eexists.
  - intros [?|?]; done.
  - rewrite BTree.get_remove_ne by done. by left.
  - intros _. by rewrite BTree.get_remove_ne.
  - rewrite BTree.get_insert_ne by done. by left.
  - intros _. by rewrite BTree.get_insert_ne.
Qed.

Lemma pay_accounts_paid min ws : ∀ m,
  accounts_ok m → Forall pending_wf ws → (0 ≤ min)%Z →
  let m' := foldl (pay_account min) m ws in
  accounts_ok m' ∧ (∀ k, paid_from (BTree.get m k) (BTree.get m' k)) ∧
  ∀ k, (∀ w, w ∈ ws → kind w = DepositRefund ∨ pubkey w ≠ k) → BTree.get m' k = BTree.get m k.
Proof.
  induction ws as [|w ws IH]; intros m Hm Hw Hmin; cbv zeta; simpl.
  { split_and!; [done| |done]. by left. }
  apply Forall_cons in Hw as [Hw Hws].
  destruct (pay_account_paid min m w [] Hm Hw Hmin) as [Hm1 _].
  destruct (IH _ Hm1 Hws Hmin) as (Hm' & Hp & Hk). split_and!; [done| |].
  - intros k. eapply paid_from_trans; [|apply Hp]. by apply pay_account_paid.
  - intros k Hkw. rewrite Hk by (intros w' Hw'; apply Hkw; by right).
    apply pay_account_paid; [done..|]. apply Hkw. by left.
Qed.

Lemma paid_joining o o' : paid_from o o' → (o' ≫= join_view = o ≫= join_view) ∨ o' = None.
Proof. intros [->|(a & -> & [->|(b & _ & ->)])]; [by left|by right|by left]. Qed.
Lemma paid_status o o' st : paid_from o o' → status <$> o' = Some st → status <$> o = Some st.
Proof. by intros [->|(a & -> & [->|(b & _ & ->)])]. Qed.

Lemma pending_count_zero q k w :
  queue_ok q → pending_count q k = 0%Z → w ∈ withdrawals q → pubkey w ≠ k.
Proof.
  intros Hq Hp Hw <-. unfold pending_count in Hp. rewrite (counts_ok_default _ _ _ (q_counts q Hq)) in Hp.
  unfold count_of in Hp. assert (w ∈ retain (of_pubkey (pubkey w)) (withdrawals q)) as Hin.
  { apply elem_of_retain. split; [done|]. by apply bool_decide_eq_true. }
  destruct (retain _ _); [by apply not_elem_of_nil in Hin|done].
Qed.

Lemma pending_count_drop q q' k i :
  queue_ok q → queue_ok q' → withdrawals q' = drop i (withdrawals q) →
  pending_count q k = 0%Z → pending_count q' k = 0%Z.
Proof.
  intros Hq Hq' Hw. unfold pending_count. rewrite (counts_ok_default _ _ _ (q_counts q Hq)).
  rewrite (counts_ok_default _ _ _ (q_counts q' Hq')), Hw. intros H0.
  pose proof (count_of_nonneg k (take i (withdrawals q))). pose proof (count_of_nonneg k (drop i (withdrawals q))).
  rewrite <-(take_drop i (withdrawals q)), count_of_app in H0. lia.
Qed.

(** The payouts of the last block, on any account and staging. *)
Lemma payouts_closing f n u :
  live f n 0 u →
  ∃ q' m', apply_withdrawal_payouts u (epoch u) (emit_withdrawal_payouts u (epoch u)) = Some (with_paid u q' m') ∧
    closing n (with_paid u q' m').
Proof.
  intros [H1 H2 H3 Hu H4 H5 H6 H7 H8]. pose proof H3 as [Q1 Q2 Q3 Q4].
  destruct (apply_payouts_data u (epoch u)) as (q' & i & j & E & Hsel & Hw & Hr & Hn & Hok); [apply H2|done|].
  assert (Hmin : (0 ≤ prospective_minimum_stake u)%Z).
  { unfold prospective_minimum_stake, rev_find_map. destruct (find_map _ _) as [v|] eqn:Ev.
    - apply find_map_elem in Ev as (p & Hp & Ev). destruct p; simplify_eq. simpl.
      apply list_elem_of_In, in_rev, list_elem_of_In in Hp. rewrite Forall_forall in H7.
      specialize (H7 _ Hp). simpl in H7. u64_solve.
    - pose proof (lm_stake _ H8). simpl. u64_solve. }
  unfold iter_all in Q2. apply Forall_app in Q2 as [Q2 Q2'].
  assert (Hwf : Forall pending_wf (selected u (epoch u))).
  { rewrite Hsel. apply Forall_app. split; by apply Forall_take. }
  destruct (pay_accounts_paid (prospective_minimum_stake u) (selected u (epoch u)) (validator_accounts u) H2 Hwf Hmin)
    as (Hacc & Hpaid & Hsame).
  set (m' := foldl _ _ _) in *. exists q', m'. split; [exact E|].
  assert (Hj : ∀ k, joining_of m' k = joining_of (validator_accounts u) k).
  { intros k. destruct (joining_of (validator_accounts u) k) as [[e c]|] eqn:Ej.
    - destruct (sg_joining _ _ _ _ H4 _ _ _ Ej) as [Hz _]. unfold joining_of in *. rewrite Hsame; [done|].
      intros w. rewrite Hsel. intros [Hin|Hin]%elem_of_app; apply subseteq_take in Hin.
      + right. exact (pending_count_zero _ _ _ Q1 Hz Hin).
      + left. pose proof (q_kind_r _ Q1) as Hk. rewrite Forall_forall in Hk. by apply Hk.
    - unfold joining_of in *. destruct (paid_joining _ _ (Hpaid k)) as [->| ->]; done. }
  split; try done.
  - split; [done| | |simpl; lia].
    + unfold iter_all. simpl. rewrite Hw, Hr. apply Forall_app. split; by apply Forall_drop.
    + intros []; simpl; [rewrite Hw|rewrite Hr]; apply Forall_drop; [apply (Q3 Validator)|apply (Q3 DepositRefund)].
  - intros k1 k2 a1 a2 G1 G2. destruct (paid_key _ _ _ (Hpaid k1) G1) as (b1 & B1 & ->).
    destruct (paid_key _ _ _ (Hpaid k2) G2) as (b2 & B2 & ->). by apply Hu.
  - apply (staged_ext _ (validator_accounts u) _ _ (withdrawal_queue u)); [done| |done].
    intros k e c Hjk. destruct (sg_joining _ _ _ _ H4 _ _ _ Hjk) as [Hz _]. rewrite Hz.
    exact (pending_count_drop _ _ _ _ Q1 Hok Hw Hz).
  - destruct H5 as [L1 L2 L3 L4]. split; [done|..].
    + apply Forall_forall. intros k Hk. by apply L3.
    + intros k st Hk Hst. apply (paid_status _ _ _ (Hpaid k)) in Hst.
      destruct (L3 k Hk) as (_ & st' & Hst' & Hlv). unfold status_of in Hst'. rewrite Hst in Hst'.
      injection Hst' as <-. by destruct st, f.
    + intros k Hk. apply L4. by apply (paid_status _ _ _ (Hpaid k)).
  - by apply (outside_limits u).
Qed.

(** ** Parameter changes *)

(** Everything but the parameters in force, the queued changes and the schedule. *)
Definition settled {T} (s : ConsensusState T) : ConsensusState T :=
  s <| protocol_param_changes := [] |> <| validator_minimum_stake := 0%Z |>
    <| allowed_timestamp_future_ms := 0%Z |> <| treasury_address := [] |> <| max_deposits_per_epoch := 0%Z |>
    <| max_withdrawals_per_epoch := 0%Z |> <| observers_per_validator := 0%Z |> <| max_validator_count := 0%Z |>
    <| minimum_validator_count := 0%Z |> <| invalid_deposit_tax := 0%Z |>
    <| max_pending_withdrawals_per_validator := 0%Z |> <| epocher := Epocher.new 1 |>.

(** The schedule may change beyond the next epoch only. *)
Definition same_epochs (ep ep' : DynamicEpocher) : Prop :=
  sched_ok ep' ∧ horizon ep' MAX_EPOCH_LENGTH ∧ current_epoch ep' = current_epoch ep ∧
  ∀ e, (0 ≤ e ≤ current_epoch ep + 2)%Z →
    start_rev (rev (segments ep')) e = start_rev (rev (segments ep)) e.

Lemma same_epochs_trans ep ep1 ep2 : same_epochs ep ep1 → same_epochs ep1 ep2 → same_epochs ep ep2.
Proof.
  intros (_ & _ & Hc1 & H1) (? & ? & Hc2 & H2). split_and!; [done|done|congruence|].
  intros e He. rewrite H2 by (rewrite Hc1; done). by apply H1.
Qed.

(** The bounds of the parameters, apart from the order of the two counts. *)
Definition limits_each {T} (s : ConsensusState T) : Prop := limits_ok (s <| minimum_validator_count := 1%Z |>).

(** One change: it is applied and the counts that will apply stay the same. *)
Lemma apply_param_steps u p l :
  in_bounds p → limits_each u → sched_ok (epocher u) → horizon (epocher u) MAX_EPOCH_LENGTH →
  ∃ u', apply_param u p = Some u' ∧ settled u' = settled u ∧ limits_each u' ∧
    same_epochs (epocher u) (epocher u') ∧
    prospective_minimum_validator_count (u' <| protocol_param_changes := l |>)
    = prospective_minimum_validator_count (u <| protocol_param_changes := p :: l |>) ∧
    prospective_max_validator_count (u' <| protocol_param_changes := l |>)
    = prospective_max_validator_count (u <| protocol_param_changes := p :: l |>) ∧
    protocol_param_changes u' = protocol_param_changes u.
Proof.
  intros Hp Hlim Hs Hh.
  assert (Hsame : same_epochs (epocher u) (epocher u)) by by split_and!.
  assert (Hfind : ∀ B (h : ProtocolParam → option B) d, default d (rev_find_map h (p :: l))
    = default (default d (h p)) (rev_find_map h l)).
  { intros B h d. unfold rev_find_map. simpl. generalize (rev l). intros l'.
    induction l' as [|a l' IH]; simpl; [by destruct (h p)|]. by destruct (h a). }
  unfold prospective_minimum_validator_count, prospective_max_validator_count.
  destruct p as [v|v|v|a|v|v|v|v|v|v|v]; cbn [apply_param];
    rewrite !(Hfind Z); simpl in Hp.
  2: { destruct (Z.eqb_spec v 0) as [->|]; [unfold MIN_EPOCH_LENGTH in Hp; lia|].
       destruct (update_length_horizon (epocher u) v MAX_EPOCH_LENGTH Hs Hh) as (ep' & -> & Hrest);
         [unfold MIN_EPOCH_LENGTH in Hp; lia|].
       eexists. split; [reflexivity|]. split_and!; try done. destruct Hlim. by split. }
  6: { rewrite (proj2 (Z.ltb_lt _ _)) by (unfold MAX_OBSERVERS_PER_VALIDATOR in Hp; lia).
       eexists. split; [unfold set_observers_per_validator; by rewrite on_tree_data|].
       split_and!; try done. destruct Hlim. split; try done; unfold MIN_OBSERVERS_PER_VALIDATOR in Hp; simpl; lia. }
  7: { rewrite (proj2 (Z.ltb_ge _ _)) by lia.
       eexists. split; [unfold set_invalid_deposit_tax; by rewrite on_tree_data|].
       split_and!; try done. destruct Hlim. split; try done; unfold MIN_INVALID_DEPOSIT_TAX in Hp; simpl; lia. }
  all: eexists; split; [rewrite_set; by rewrite on_tree_data|]; split_and!; try done;
    destruct Hlim; split; try done; simpl; bounds_unfold; lia.
Qed.

Lemma closing_settled {T} n (s s' : ConsensusState T) :
  settled s' = settled s → limits_ok s' → Forall in_bounds (protocol_param_changes s') →
  closing n s → closing n s'.
Proof.
  intros E Hlim Hp [H1 H2 H3 H4 H5 H6 H7 H8 H9].
  pose proof (f_equal epoch E) as E1. pose proof (f_equal validator_accounts E) as E2.
  pose proof (f_equal withdrawal_queue E) as E3. pose proof (f_equal added_validators E) as E4.
  pose proof (f_equal removed_validators E) as E5. pose proof (f_equal deposit_queue E) as E6.
  simpl in *. split; rewrite ?E1, ?E2, ?E3, ?E4, ?E5, ?E6; done.
Qed.

Lemma apply_params_steps l : ∀ u,
  Forall in_bounds l → limits_each u → sched_ok (epocher u) → horizon (epocher u) MAX_EPOCH_LENGTH →
  ∃ u', for_each apply_param u l = Some u' ∧ settled u' = settled u ∧ limits_each u' ∧
    same_epochs (epocher u) (epocher u') ∧ protocol_param_changes u' = protocol_param_changes u ∧
    minimum_validator_count u' = prospective_minimum_validator_count (u <| protocol_param_changes := l |>) ∧
    max_validator_count u' = prospective_max_validator_count (u <| protocol_param_changes := l |>).
Proof.
  induction l as [|p l IH]; intros u Hb Hlim Hs Hh; cbn [for_each].
  { exists u. by split_and!. }
  apply Forall_cons in Hb as [Hp Hb].
  destruct (apply_param_steps u p l Hp Hlim Hs Hh) as (u1 & -> & E1 & L1 & Hsame & <- & <- & P1).
  cbn [mbind option_bind]. destruct (id Hsame) as (Hs1 & Hh1 & _).
  destruct (IH u1 Hb L1 Hs1 Hh1) as (u2 & -> & E2 & L2 & Hsame2 & P2 & Hmin & Hmax).
  exists u2. split_and!; try congruence. by eapply same_epochs_trans.
Qed.

Lemma params_closing n u :
  closing n u → sched_ok (epocher u) → horizon (epocher u) MAX_EPOCH_LENGTH →
  ∃ u' b, apply_protocol_parameter_changes u = Some (u', b) ∧ closing n u' ∧
    protocol_param_changes u' = [] ∧ settled u' = settled u ∧ same_epochs (epocher u) (epocher u').
Proof.
  intros Hcl Hs Hh. pose proof (cl_limits _ _ Hcl) as Hlim. pose proof (cl_params _ _ Hcl) as Hb.
  unfold apply_protocol_parameter_changes. rewrite reject_data. cbn [mbind option_bind]. cbv zeta.
  change (protocol_param_changes (u <| protocol_param_changes := ?l |>)) with l.
  set (l := with_counts_in_order u).
  assert (Hl : Forall in_bounds l).
  { rewrite Forall_forall in *. intros p Hp%counts_in_order_sub. by apply Hb. }
  destruct (apply_params_steps l (u <| protocol_param_changes := [] |>)) as
    (u1 & E & Es & L1 & Hsame & P1 & Hmin & Hmax); [done| |done|done|].
  { destruct Hlim. split; try done. simpl. unfold MIN_MAX_VALIDATOR_COUNT in *. lia. }
  change (u <| protocol_param_changes := l |> <| protocol_param_changes := [] |>)
    with (u <| protocol_param_changes := [] |>).
  rewrite E. cbn [mbind option_bind]. rewrite on_tree_data. cbn [mbind option_bind].
  eexists u1, _. split; [done|]. split_and!; try done. apply (closing_settled n u); [done| |by rewrite P1|done].
  pose proof (counts_in_order u Hlim) as Hord. fold l in Hord.
  pose proof (prospective_minimum_pos (u <| protocol_param_changes := l |>)) as Hpos.
  destruct L1. split; try done. rewrite Hmin, Hmax. split; [|exact Hord]. apply Hpos; [|done].
  by apply (outside_limits u).
Qed.

(** ** The committee *)

(** The status an account has after the transition. *)
Definition turned (joining removed : list bytes) (k : bytes) (st : ValidatorStatus) : ValidatorStatus :=
  let st := if bool_decide (k ∈ joining) then Active else st in
  if bool_decide (k ∈ removed) then
    match st with SubmittedExitRequest => FullPayoutPending | _ => Inactive end
  else st.
Definition turned_account (joining removed : list bytes) (k : bytes) (a : ValidatorAccount) : ValidatorAccount :=
  a <| status := turned joining removed k (status a) |>.

Definition with_accounts u (m : BTreeMap bytes ValidatorAccount) : ConsensusState () :=
  u <| validator_accounts := m |>.

Lemma activate_steps vs : ∀ u,
  accounts_ok (validator_accounts u) → (∀ v, v ∈ vs → is_Some (BTree.get (validator_accounts u) (node_key v))) →
  ∃ m', for_each activate u vs = Some (with_accounts u m') ∧ accounts_ok m' ∧
    ∀ k, BTree.get m' k = turned_account (node_key <$> vs) [] k <$> BTree.get (validator_accounts u) k.
Proof.
  induction vs as [|v vs IH]; intros u Hm Hg; cbn [for_each].
  { exists (validator_accounts u). split_and!; [by destruct u|done|]. intros k.
    destruct (BTree.get _ k) as [a|]; [|done]. simpl. unfold turned_account, turned.
    rewrite bool_decide_false by apply not_elem_of_nil. by destruct a. }
  destruct (Hg v) as [a Ha]; [by left|].
  assert (activate u v = Some (with_accounts u
    (BTree.insert (validator_accounts u) (node_key v) (a <| status := Active |>)))) as ->.
  { unfold activate, get_account. rewrite Ha. cbn [mbind option_bind]. by rewrite set_account_data by apply Hm. }
  cbn [mbind option_bind].
  destruct (accounts_get _ _ _ Hm Ha) as [Hk (? & ? & ? & ? & ? & ?)].
  destruct (IH (with_accounts u (BTree.insert (validator_accounts u) (node_key v) (a <| status := Active |>))))
    as (m' & E & Hm' & Hget).
  - simpl. apply accounts_insert; [done|done|by split_and!].
  - intros v' Hv'. simpl. destruct (decide (node_key v = node_key v')) as [<-|];
      [rewrite BTree.get_insert_eq; eauto|]. rewrite BTree.get_insert_ne by done. apply Hg. by right.
  - exists m'. split_and!; [exact E|done|]. intros k. rewrite Hget. simpl.
    destruct (decide (node_key v = k)) as [<-|Hne].
    + rewrite BTree.get_insert_eq, Ha. simpl. f_equal. unfold turned_account, turned. simpl.
      rewrite (bool_decide_true (_ ∈ _ :: _)) by (by left). by destruct (bool_decide _).
    + rewrite BTree.get_insert_ne by done. destruct (BTree.get _ k) as [b|]; [|done]. simpl. f_equal.
      unfold turned_account, turned. f_equal. rewrite (bool_decide_ext (_ ∈ _ :: _) (k ∈ node_key <$> vs)); [done|].
      rewrite elem_of_cons. naive_solver.
Qed.

Lemma depart_steps ks : ∀ u,
  accounts_ok (validator_accounts u) → NoDup ks →
  ∃ m', for_each depart u ks = Some (with_accounts u m') ∧ accounts_ok m' ∧
    ∀ k, BTree.get m' k = turned_account [] ks k <$> BTree.get (validator_accounts u) k.
Proof.
  induction ks as [|k0 ks IH]; intros u Hm Hnd; cbn [for_each].
  { exists (validator_accounts u). split_and!; [by destruct u|done|]. intros k.
    destruct (BTree.get _ k) as [a|]; [|done]. simpl. unfold turned_account, turned.
    rewrite bool_decide_false by apply not_elem_of_nil. by destruct a. }
  apply NoDup_cons in Hnd as [Hk0 Hnd].
  assert (∃ m1, depart u k0 = Some (with_accounts u m1) ∧ accounts_ok m1 ∧
    ∀ k, BTree.get m1 k = turned_account [] [k0] k <$> BTree.get (validator_accounts u) k) as (m1 & -> & Hm1 & Hg1).
  { unfold depart, get_account. destruct (BTree.get _ k0) as [a|] eqn:Ha.
    - destruct (accounts_get _ _ _ Hm Ha) as [Hk (? & ? & ? & ? & ? & ?)].
      rewrite set_account_data by apply Hm. eexists. split; [reflexivity|].
      split; [apply accounts_insert; [done|done|by split_and!]|]. intros k.
      destruct (decide (k0 = k)) as [<-|].
      + rewrite BTree.get_insert_eq, Ha. simpl. unfold turned_account, turned. simpl.
        by rewrite bool_decide_true by (by left).
      + rewrite BTree.get_insert_ne by done. destruct (BTree.get _ k) as [b|]; [|done]. simpl. f_equal.
        unfold turned_account, turned. rewrite (bool_decide_false (k ∈ [k0])) by set_solver. by destruct b.
    - exists (validator_accounts u). split; [by destruct u|]. split; [done|]. intros k.
      destruct (decide (k0 = k)) as [<-|]; [by rewrite Ha|]. destruct (BTree.get _ k) as [b|]; [|done]. simpl. f_equal.
      unfold turned_account, turned. rewrite (bool_decide_false (k ∈ [k0])) by set_solver. by destruct b. }
  cbn [mbind option_bind]. destruct (IH (with_accounts u m1) Hm1 Hnd) as (m' & E & Hm' & Hget).
  exists m'. split_and!; [exact E|done|]. intros k. rewrite Hget. simpl. rewrite Hg1.
  destruct (BTree.get _ k) as [b|]; [|done]. simpl. f_equal. unfold turned_account, turned. simpl.
  rewrite ?(bool_decide_false (k ∈ [])) by apply not_elem_of_nil. destruct (decide (k = k0)) as [->|Hne].
  - rewrite (bool_decide_false (k0 ∈ ks)), (bool_decide_true (k0 ∈ [k0])), (bool_decide_true (k0 ∈ k0 :: ks)) by set_solver.
    by destruct b.
  - rewrite (bool_decide_false (k ∈ [k0])) by set_solver.
    rewrite (bool_decide_ext (k ∈ k0 :: ks) (k ∈ ks)) by set_solver. by destruct b.
Qed.

Definition next_committee u : list bytes :=
  node_key <$> default [] (BTree.get (added_validators u) (epoch u + 1)%Z).

Lemma transition_steps n u key :
  closing n u → is_u64 (epoch u + 1) →
  ∃ m' b, apply_committee_transition u key
    = Some (u <| pending_active_validator_exits := 0%Z |> <| validator_accounts := m' |>, b) ∧ accounts_ok m' ∧
    ∀ k, BTree.get m' k
      = turned_account (next_committee u) (removed_validators u) k <$> BTree.get (validator_accounts u) k.
Proof.
  intros Hcl He. pose proof Hcl as [H1 H2 H3 H4 H5 H6 H7 H8 H9].
  unfold apply_committee_transition, reset_pending_active_validator_exits, next_committee.
  rewrite wrapping_add_small by done. cbv zeta. rewrite on_tree_data. cbn [mbind option_bind].
  set (u0 := u <| pending_active_validator_exits := 0%Z |>).
  destruct (activate_steps (default [] (BTree.get (added_validators u) (epoch u + 1)%Z)) u0 H2) as (m1 & E1 & Hm1 & Hg1).
  { intros v Hv. destruct (BTree.get (added_validators u) (epoch u + 1)%Z) as [vs|] eqn:Eg;
      [|by apply not_elem_of_nil in Hv]. apply (sg_entry _ _ _ _ H5) in Eg as (_ & _ & _ & Hf).
    rewrite Forall_forall in Hf. destruct (Hf v Hv) as [_ Hj]. unfold joining_of in Hj.
    simpl. destruct (BTree.get _ (node_key v)); [eauto|done]. }
  destruct (depart_steps (removed_validators u) (with_accounts u0 m1) Hm1) as (m2 & E2 & Hm2 & Hg2); [apply H6|].
  assert (Hget : ∀ k, BTree.get m2 k = turned_account (node_key <$> default [] (BTree.get (added_validators u) (epoch u + 1)%Z))
    (removed_validators u) k <$> BTree.get (validator_accounts u) k).
  { intros k. rewrite Hg2. simpl. rewrite Hg1. simpl. destruct (BTree.get _ k) as [a|]; [|done]. simpl. f_equal. }
  unfold has_added_validators, BTree.contains_key. change (added_validators u0) with (added_validators u).
  change (removed_validators u0) with (removed_validators u).
  destruct (negb _ && _) eqn:Hno.
  - apply andb_true_iff in Hno as [Hno1 Hno2%Nat.eqb_eq]. exists (validator_accounts u), false.
    split_and!; [by destruct u|done|]. intros k. apply length_zero_iff_nil in Hno2. rewrite Hno2.
    destruct (BTree.get (added_validators u) _); [done|]. simpl.
    destruct (BTree.get _ k) as [a|]; [|done]. simpl. f_equal. unfold turned_account, turned.
    rewrite ?(bool_decide_false (k ∈ [])) by apply not_elem_of_nil. by destruct a.
  - exists m2. eexists. split_and!; [|done|done].
    destruct (BTree.get (added_validators u) _) as [vs|].
    + change (default [] (Some vs)) with vs in E1. rewrite E1. cbn [mbind option_bind]. change (removed_validators (with_accounts u0 m1)) with (removed_validators u).
      rewrite E2. reflexivity.
    + apply (inj Some) in E1. cbn [mbind option_bind]. rewrite <-E1 in E2.
      change (removed_validators u0) with (removed_validators u). rewrite E2. reflexivity.
Qed.

(** ** The next epoch *)
Section next.
Context (n : Z) (u : ConsensusState ()) (m' : BTreeMap bytes ValidatorAccount).
Context (Hcl : closing n u).
Context (Hget : ∀ k, BTree.get m' k
  = turned_account (next_committee u) (removed_validators u) k <$> BTree.get (validator_accounts u) k).

Lemma next_status k :
  status_of m' k = turned (next_committee u) (removed_validators u) k <$> status_of (validator_accounts u) k.
Proof. unfold status_of. rewrite Hget. by destruct (BTree.get _ k). Qed.

(** The validators of the next committee were joining. *)
Lemma next_joining k : k ∈ next_committee u → status_of (validator_accounts u) k = Some Joining.
Proof.
  unfold next_committee. destruct (BTree.get _ _) as [vs|] eqn:Eg; [|by intros ?%not_elem_of_nil].
  intros (v & -> & Hv)%list_elem_of_fmap. apply (sg_entry _ _ _ _ (cl_staged _ _ Hcl)) in Eg as (_ & _ & _ & Hf).
  rewrite Forall_forall in Hf. destruct (Hf v Hv) as [_ Hj]. by eapply joining_status.
Qed.

Lemma next_joining_of k :
  joining_of m' k = if bool_decide (k ∈ next_committee u) then None else joining_of (validator_accounts u) k.
Proof.
  unfold joining_of. rewrite Hget. pose proof (next_joining k) as Hn.
  pose proof (λ st, dp_serving _ _ (cl_departing _ _ Hcl) k st) as Hd. unfold status_of in *.
  destruct (BTree.get (validator_accounts u) k) as [a|]; [|by case_bool_decide]. simpl in *.
  unfold join_view, turned_account, turned. simpl.
  destruct (bool_decide_reflect (k ∈ next_committee u)) as [Hin|Hin],
    (bool_decide_reflect (k ∈ removed_validators u)) as [Hrm|Hrm]; try done.
  - specialize (Hd _ Hrm eq_refl). destruct (status a); by rewrite !bool_decide_false by done.
Qed.

Lemma next_staged :
  is_u64 (epoch u + 1) →
  staged (epoch u + 1) m' (BTree.remove (added_validators u) (epoch u + 1)%Z) (withdrawal_queue u).
Proof.
  intros He. pose proof (cl_staged _ _ Hcl) as [H1 H2 H3].
  assert (Hnext : ∀ k e c vs, joining_of (validator_accounts u) k = Some (e, c) →
    BTree.get (added_validators u) e = Some vs → k ∈ node_key <$> vs → k ∈ next_committee u ↔ e = (epoch u + 1)%Z).
  { intros k e c vs Hj Hg Hin. unfold next_committee. split; [|by intros ->; rewrite Hg].
    destruct (BTree.get _ (epoch u + 1)%Z) as [vs'|] eqn:Eg; [|by intros ?%not_elem_of_nil].
    intros (v & -> & Hv)%list_elem_of_fmap. apply H2 in Eg as (_ & _ & _ & Hf). rewrite Forall_forall in Hf.
    destruct (Hf v Hv) as [_ Hj']. rewrite Hj in Hj'. by injection Hj'. }
  split; [by apply BTree.sorted_remove| |].
  - intros e vs. destruct (decide (epoch u + 1 = e)%Z) as [<-|Hne]; [by rewrite BTree.get_remove_eq|].
    rewrite BTree.get_remove_ne by done. intros Hg. destruct (H2 _ _ Hg) as (? & ? & ? & Hf).
    split_and!; [lia|done|done|]. rewrite Forall_forall in *. intros v Hv. destruct (Hf v Hv) as [? Hj].
    split; [done|]. rewrite next_joining_of, bool_decide_false; [done|].
    rewrite (Hnext _ _ _ vs Hj Hg) by by apply list_elem_of_fmap_2. lia.
  - intros k e c. rewrite next_joining_of. case_bool_decide as Hk; [done|]. intros Hj.
    destruct (H3 _ _ _ Hj) as (? & vs & Hg & Hin). split; [done|]. exists vs. split; [|done].
    rewrite BTree.get_remove_ne; [done|]. intros <-. apply Hk. by eapply Hnext.
Qed.

Lemma next_leaving : leaving true m' [] 0.
Proof.
  split; [constructor|done|by intros k ?%not_elem_of_nil|]. intros k. rewrite next_status.
  pose proof (dp_submitted _ _ (cl_departing _ _ Hcl) k) as Hd.
  destruct (status_of (validator_accounts u) k) as [st|]; [|done]. simpl. intros [= Hst].
  unfold turned in Hst. destruct (bool_decide (k ∈ next_committee u)); [by destruct (bool_decide _)|].
  case_bool_decide as Hrm; [by destruct st|]. subst st. by specialize (Hd eq_refl).
Qed.

Lemma next_unique : keys_unique m'.
Proof.
  intros k1 k2 a1 a2. rewrite !Hget. intros (b1 & G1 & ->)%fmap_Some (b2 & G2 & ->)%fmap_Some.
  exact (cl_unique _ _ Hcl k1 k2 b1 b2 G1 G2).
Qed.
End next.
End boundary.
