(* ===== verification/StateSigners.v ===== *)
(** * StateSigners: who signs for an epoch

    The committee of an epoch is fixed when the epoch opens: whatever requests its
    blocks carry, the validators that sign ([Active] or [SubmittedExitRequest]) and
    their consensus keys stay the same until the boundary, which removes those listed
    in [removed_validators] and seats those staged for the next epoch.  The payouts of
    the last block delete an account whose balance they exhaust; the floor of the
    minimum stake keeps them from deleting an active one, as long as it is positive. *)
From S2P Require Import Prelude Codec Crypto BTree Epocher Account ExecutionRequest ProtocolParams.
From S2P Require Import Withdrawal SszHash SszStateTree ConsensusState StateSync StateCodec StatePayouts.
From S2P Require Import StateInvariant StateProcess StateBoundary.

(** The consensus key of an account that signs. *)
Definition signer (a : ValidatorAccount) : option bytes :=
  if is_current_epoch_signer (status a) then Some (consensus_public_key a) else None.
Definition signer_of (m : BTreeMap bytes ValidatorAccount) (k : bytes) : option bytes :=
  BTree.get m k ≫= signer.

Lemma signer_of_insert m k k' a :
  signer_of (BTree.insert m k a) k' = if decide (k = k') then signer a else signer_of m k'.
Proof.
  unfold signer_of. destruct (decide (k = k')) as [<-|]; [by rewrite BTree.get_insert_eq|].
  by rewrite BTree.get_insert_ne.
Qed.
Lemma signer_status m k c :
  signer_of m k = Some c → status_of m k = Some Active ∨ status_of m k = Some SubmittedExitRequest.
Proof.
  unfold signer_of, status_of, signer. destruct (BTree.get m k) as [a|]; [|done]. simpl.
  destruct (status a); try done; [by left|by right].
Qed.

(** An account that serves or is about to has a balance, and none of the withdrawals
    queued for an active one pays all of it. *)
Definition solvent (q : WithdrawalQueue) (m : BTreeMap bytes ValidatorAccount) : Prop := ∀ k a,
  BTree.get m k = Some a →
  (status a = Active ∨ status a = Joining → 0 < balance a)%Z ∧
  (status a = Active → ∀ w, w ∈ withdrawals q → pubkey w = k → amount (inner w) ≠ 0%Z).

Section signers.
Context `{Hc : Crypto}.
Implicit Type u : ConsensusState ().

Record funded u : Prop := {
  fu_stake : (0 < validator_minimum_stake u)%Z;
  fu_deposits : Forall (λ d, 0 ≤ dep_amount d)%Z (deposit_queue u);
  fu_solvent : solvent (withdrawal_queue u) (validator_accounts u)
}.
(** The same signers, and, under a condition [P] on the input, still funded. *)
Context (P : Prop).
Definition tracks u u' : Prop :=
  (∀ k, signer_of (validator_accounts u') k = signer_of (validator_accounts u) k) ∧ (P → funded u → funded u').

Lemma tracks_refl u : tracks u u.
Proof. by split. Qed.
Lemma tracks_trans u1 u2 u3 : tracks u1 u2 → tracks u2 u3 → tracks u1 u3.
Proof. intros [H1 H2] [H3 H4]. split; [intros k; by rewrite H3|tauto]. Qed.
(** A change of anything else. *)
Lemma tracks_same u u' :
  validator_accounts u' = validator_accounts u → withdrawals (withdrawal_queue u') = withdrawals (withdrawal_queue u) →
  validator_minimum_stake u' = validator_minimum_stake u →
  deposit_queue u' = deposit_queue u ∨ (∃ d, deposit_queue u = d :: deposit_queue u') ∨
    (∃ d, deposit_queue u' = deposit_queue u ++ [d] ∧ 0 ≤ dep_amount d)%Z →
  tracks u u'.
Proof.
  intros Hm Hq Hs Hd. split; [by rewrite Hm|]. intros _ [H1 H2 H3]. split; [by rewrite Hs| |].
  - destruct Hd as [->|[[d Hd]|(d & -> & Hd)]]; [done| |apply Forall_app; by split; [|constructor]].
    rewrite Hd in H2. by apply Forall_cons in H2 as [_ ?].
  - unfold solvent. by rewrite Hm, Hq.
Qed.

(** What every way an operation returns keeps. *)
Definition keeps {A} (p : A → ConsensusState ()) u (o : option A) : Prop := ∀ r, o = Some r → tracks u (p r).
Notation keeping := (keeps id).

Lemma keeps_ret {A} (p : A → _) u (r : A) : tracks u (p r) → keeps p u (Some r).
Proof. by intros ? ? [= <-]. Qed.
Lemma keeps_bind {A B} (p : A → ConsensusState ()) (p' : B → ConsensusState ()) u o (f : A → option B) :
  keeps p u o → (∀ r, o = Some r → tracks u (p r) → keeps p' (p r) (f r)) → keeps p' u (o ≫= f).
Proof.
  intros Ho Hf r (r1 & E & Er)%bind_Some. eapply tracks_trans; [by apply Ho|]. by eapply Hf; [|apply Ho|].
Qed.
Lemma keeps_fmap {A B} (g : A → B) (p : B → ConsensusState ()) u o : keeps (λ r, p (g r)) u o → keeps p u (g <$> o).
Proof. intros Ho r (r1 & E & ->)%fmap_Some. by apply Ho. Qed.
Lemma keeps_for_each {S A} (p : S → ConsensusState ()) (f : S → A → option S) s l :
  (∀ s a, a ∈ l → keeps p (p s) (f s a)) → keeps p (p s) (for_each f s l).
Proof.
  intros Hf r E. apply (for_each_inv f (λ s', tracks (p s) (p s')) s l r); [apply tracks_refl| |done].
  intros s1 a s2 Ha Ht E1. eapply tracks_trans; [done|]. by eapply Hf.
Qed.
Lemma keeps_tree u op : keeping u (on_tree u op).
Proof. rewrite on_tree_data. apply keeps_ret, tracks_refl. Qed.

Lemma set_account_Some u k a u' :
  set_account u k a = Some u' → u' = u <| validator_accounts := BTree.insert (validator_accounts u) k a |>.
Proof.
  unfold set_account. cbv zeta. intros (slot & _ & E)%bind_Some. rewrite !on_tree_data in E.
  destruct (BTree.contains_key _ _); congruence.
Qed.
(** Writing an account: what it signs with is the same, and it stays solvent. *)
Lemma keeps_set_account u k a :
  signer a = signer_of (validator_accounts u) k →
  (P → funded u → (status a = Active ∨ status a = Joining → 0 < balance a)%Z) →
  (status a = Active → status_of (validator_accounts u) k = Some Active) →
  keeping u (set_account u k a).
Proof.
  intros Hsig Hbal Hact u' ->%set_account_Some.
  split; [intros k'; simpl; rewrite signer_of_insert; by case_decide; subst|].
  intros HP Hf. pose proof Hf as [H1 H2 H3]. split; [done|done|]. intros k' a'. simpl.
  destruct (decide (k = k')) as [<-|]; [|rewrite BTree.get_insert_ne by done; apply H3].
  rewrite BTree.get_insert_eq. intros [= <-]. split; [by apply Hbal|]. intros Ha. specialize (Hact Ha).
  unfold status_of in Hact. destruct (BTree.get _ k) as [a0|] eqn:E0; [|done]. injection Hact as Hact.
  by apply (H3 k a0).
Qed.

(** An update that keeps the status and the key and does not lower the balance. *)
Lemma keeps_credit u k a0 a :
  get_account u k = Some a0 → status a = status a0 → consensus_public_key a = consensus_public_key a0 →
  (P → 0 < balance a0 → 0 < balance a)%Z → keeping u (set_account u k a).
Proof.
  intros Hg Hs Hk Hb. unfold get_account in Hg. apply keeps_set_account.
  - unfold signer_of, signer. rewrite Hg. simpl. by rewrite Hs, Hk.
  - intros HP Hf. rewrite Hs. intros Ha. apply (Hb HP). by apply (fu_solvent _ Hf k a0 Hg).
  - intros Ha. unfold status_of. rewrite Hg. simpl. congruence.
Qed.
(** Leaving a status in which a validator does not sign for another one. *)
Lemma keeps_idle u k a0 a :
  get_account u k = Some a0 → is_current_epoch_signer (status a0) = false → is_current_epoch_signer (status a) = false →
  (funded u → status a = Joining → 0 < balance a)%Z → keeping u (set_account u k a).
Proof.
  intros Hg H0 H1 Hb. unfold get_account in Hg. apply keeps_set_account.
  - unfold signer_of, signer. rewrite Hg. simpl. unfold signer. by rewrite H0, H1.
  - intros _ Hf [Ha|Ha]; [by rewrite Ha in H1|by apply Hb].
  - intros Ha. by rewrite Ha in H1.
Qed.

(** ** Queue entries *)
Lemma keeps_push u request e k b :
  (k = Validator → wr_amount request = 0%Z → status_of (validator_accounts u) (validator_pubkey request) ≠ Some Active) →
  keeps fst u (push_withdrawal_request_with_kind u request e k b).
Proof.
  intros Hk. destruct (push_withdrawal_data u request e k b) as [stale ->].
  destruct (push_request_spec (withdrawal_queue u) request e k) as (Hd & Ho & _).
  revert Hd Ho. generalize (push_request_with_kind (withdrawal_queue u) request e k).1. intros q Hd Ho.
  apply keeps_ret. split; [done|]. intros _ [H1 H2 H3]. split; [done|done|].
  change (solvent q (validator_accounts u)). intros k' a Hg. destruct (H3 k' a Hg) as [Hb Hw]. split; [done|]. intros Ha w. destruct k; simpl in Hd, Ho.
  - rewrite Hd. intros [Hin| ->%list_elem_of_singleton]%elem_of_app; [by apply Hw|]. simpl.
    intros <- E. apply (Hk eq_refl E). unfold status_of. rewrite Hg. simpl. by rewrite Ha.
  - specialize (Ho Validator ltac:(done)). simpl in Ho. rewrite Ho. by apply Hw.
Qed.
Lemma keeps_refund u request e : keeping u (push_refund_withdrawal_request u request e).
Proof. apply keeps_fmap. by apply keeps_push. Qed.
Lemma keeps_refund_deposit u credentials amount reason n : keeping u (refund_deposit u credentials amount reason n).
Proof.
  unfold refund_deposit. destruct (parse_withdrawal_credentials _); [|apply keeps_ret, tracks_refl]. cbv zeta.
  destruct (invalid_deposit_refund_split _ _) as [refund tax].
  apply (keeps_bind id); [destruct (0 <? refund)%Z; [apply keeps_refund|apply keeps_ret, tracks_refl]|].
  intros u1 _ _. simpl. destruct (0 <? tax)%Z; [apply keeps_refund|apply keeps_ret, tracks_refl].
Qed.

(** ** Deposits *)
Lemma keeps_credit_deposit u request account w :
  deposit_account u request = Some account → (P → 0 ≤ dep_amount request)%Z →
  keeping u (credit_deposit u request account w).
Proof.
  intros Hacc Hd. unfold credit_deposit. cbv zeta. simpl status. simpl balance.
  set (b := saturating_add (balance account) (dep_amount request)).
  assert (Hkeep : keeping u (set_account u (node_pubkey request)
    (account <| balance := b |> <| last_deposit_index := dep_index request |>))).
  { unfold deposit_account in Hacc. destruct (get_account u _) as [a0|] eqn:Hg.
    - injection Hacc as ->. apply (keeps_credit _ _ account); [done..|]. intros HP. specialize (Hd HP).
      simpl. unfold b, saturating_add. u64_unfold. lia.
    - destruct (parse_withdrawal_credentials _); [|done]. injection Hacc as <-. unfold get_account in Hg.
      apply keeps_set_account; simpl; [|naive_solver|done]. unfold signer_of. by rewrite Hg. }
  destruct (bool_decide _ && _ && _ && _) eqn:Hjoin; [|done].
  apply andb_true_iff in Hjoin as [[[Hst%bool_decide_eq_true Hmin%Z.leb_le]%andb_true_iff _]%andb_true_iff _].
  apply (keeps_bind id); [|intros u1 _ _].
  - apply keeps_set_account; simpl; [|intros _ Hf _; pose proof (fu_stake _ Hf); lia|done].
    unfold deposit_account in Hacc. unfold signer_of. destruct (BTree.get _ _) as [a0|] eqn:Hg.
    + unfold get_account in Hacc. rewrite Hg in Hacc. injection Hacc as ->. simpl. unfold signer. by rewrite Hst.
    + done.
  - unfold add_validator. cbv zeta. rewrite on_tree_data. apply keeps_ret, tracks_same; try done. by left.
Qed.
Lemma keeps_process_deposit u request domain w n :
  (P → 0 ≤ dep_amount request)%Z → keeping u (process_deposit u request domain w n).
Proof.
  intros Hd. unfold process_deposit. destruct (verify_deposit_request _ _ _); [|apply keeps_refund_deposit].
  destruct (deposit_account u request) as [acc|] eqn:Ha; [by apply keeps_credit_deposit|apply keeps_ret, tracks_refl].
Qed.
End signers.

(** From here on without a condition. *)
Notation follows := (tracks True).
Notation preserves := (keeps True).

Section process.
Context `{Hc : Crypto} `{!CryptoOk}.
Implicit Type u : ConsensusState ().

Lemma deposits_loop_follows domain w n k : ∀ u b, preserves fst u (process_deposits_loop k u b domain w n).
Proof.
  induction k as [|k IH]; intros u b; cbn [process_deposits_loop]; [apply keeps_ret, tracks_refl|].
  unfold pop_deposit_deferred. destruct (deposit_queue u) as [|d q] eqn:Eq; [apply keeps_ret, tracks_refl|].
  set (u0 := u <| deposit_queue := q |>). intros r (u1 & E1 & E2)%bind_Some.
  destruct (keeps_process_deposit (0 ≤ dep_amount d)%Z u0 d domain w n id u1 E1) as [Hs1 Hf1].
  eapply tracks_trans; [|exact (IH u1 true r E2)]. split; [exact Hs1|]. intros _ Hf. pose proof Hf as [H1 H2 H3].
  rewrite Eq in H2. apply Forall_cons in H2 as [Hd Hds]. apply (Hf1 Hd). by split.
Qed.
Lemma process_deposits_follows u domain w n : preserves id u (process_deposits u domain w n).
Proof.
  unfold process_deposits. apply (keeps_bind True fst); [apply deposits_loop_follows|].
  intros [u1 b] _ _. simpl. destruct b; [apply keeps_tree|apply keeps_ret, tracks_refl].
Qed.

(** ** Withdrawal requests *)
Lemma enqueue_follows u credentials k e x :
  (x = 0%Z → status_of (validator_accounts u) k ≠ Some Active) →
  preserves fst u (enqueue u credentials k e x).
Proof. intros Hk. apply keeps_push. simpl. intros _. exact Hk. Qed.
Lemma remove_added_follows u e k : preserves fst u (remove_added_validator u e k).
Proof.
  destruct (remove_added_data u e k) as [b ->]. apply keeps_ret, tracks_same; try done. by left.
Qed.
Lemma status_set_account u k a u' : set_account u k a = Some u' → status_of (validator_accounts u') k = Some (status a).
Proof.
  intros ->%set_account_Some. simpl. rewrite status_of_insert. by rewrite decide_True.
Qed.

(** A request to an account that does not sign and is not joining. *)
Lemma inactive_request_follows u k a credentials e x :
  get_account u k = Some a → status a = Inactive →
  preserves fst u
    (if (x =? 0)%Z then
       s ← set_account u k (a <| status := FullPayoutPending |>); enqueue s credentials k e 0
     else if (Z.min x (balance a) =? 0)%Z then Some (u, false)
     else enqueue u credentials k e (Z.min x (balance a))).
Proof.
  intros Hg Hst. destruct (x =? 0)%Z.
  - apply (keeps_bind True id); [apply (keeps_idle True u k a); [done|by rewrite Hst|done|done]|]. intros u1 E1 _.
    apply enqueue_follows. intros _. by rewrite (status_set_account _ _ _ _ E1).
  - destruct (Z.eqb_spec (Z.min x (balance a)) 0); [apply keeps_ret, tracks_refl|]. apply enqueue_follows. by intros.
Qed.
Lemma active_request_follows u k a credentials e x :
  get_account u k = Some a → status a = Active →
  preserves fst u
    (if (x =? 0)%Z then
       if negb (can_accept_active_validator_exit u) then Some (u, false) else
       if negb (ed25519_valid k) then Some (u, false) else
       s ← push_removed_validator u k;
       s ← increment_pending_active_validator_exits s;
       s ← set_account s k (a <| status := SubmittedExitRequest |>);
       enqueue s credentials k e 0
     else
       let withdrawable := saturating_sub (balance a) (validator_minimum_stake u) in
       let amount := Z.min x withdrawable in
       if (amount =? 0)%Z then Some (u, false) else enqueue u credentials k e amount).
Proof.
  intros Hg Hst. destruct (x =? 0)%Z; cbv zeta.
  - destruct (negb _); [apply keeps_ret, tracks_refl|]. destruct (negb _); [apply keeps_ret, tracks_refl|].
    unfold push_removed_validator, set_removed_validators, increment_pending_active_validator_exits.
    rewrite !on_tree_data. cbn [mbind option_bind]. rewrite !on_tree_data. cbn [mbind option_bind].
    set (u0 := u <| removed_validators := _ |> <| pending_active_validator_exits := _ |>).
    intros r Er. apply (tracks_trans True u u0); [apply tracks_same; try done; by left|]. revert r Er.
    apply (keeps_bind True id).
    + apply keeps_set_account; simpl; [|naive_solver|done]. unfold get_account in Hg.
      change (validator_accounts u0) with (validator_accounts u). unfold signer_of. rewrite Hg. simpl.
      unfold signer. by rewrite Hst.
    + intros u1 E1 _. apply enqueue_follows. intros _. by rewrite (status_set_account _ _ _ _ E1).
  - destruct (Z.eqb_spec (Z.min x (saturating_sub (balance a) (validator_minimum_stake u))) 0); [apply keeps_ret, tracks_refl|].
    apply enqueue_follows. by intros.
Qed.
Lemma withdrawal_request_follows u request n : preserves fst u (apply_withdrawal_request_deferred u request n).
Proof.
  unfold apply_withdrawal_request_deferred. destruct (get_account u _) as [a|] eqn:Hg; [|apply keeps_ret, tracks_refl].
  cbv zeta. destruct (negb _); [apply keeps_ret, tracks_refl|].
  destruct (match status a with SubmittedExitRequest | FullPayoutPending => true | _ => false end) eqn:Hst; [apply keeps_ret, tracks_refl|].
  destruct (_ <=? _)%Z; [apply keeps_ret, tracks_refl|].
  destruct (status a) eqn:Ha; try done; [rewrite bool_decide_false by done..|rewrite bool_decide_true by done];
    cbn [mbind option_bind].
  - rewrite Ha. by apply active_request_follows.
  - rewrite Ha. by apply inactive_request_follows.
  - apply (keeps_bind True fst).
    + apply (keeps_bind True id).
      * destruct (_ && _); [apply keeps_fmap, remove_added_follows|apply keeps_ret, tracks_refl].
      * intros u1 E1 _. assert (get_account u1 (validator_pubkey request) = Some a) as Hg1.
        { destruct (_ && _); [|injection E1 as <-; done].
          destruct (remove_added_data u (joining_epoch a) (validator_pubkey request)) as [b Eb]. rewrite Eb in E1.
          injection E1 as <-. exact Hg. }
        apply (keeps_bind True id); [apply (keeps_idle True _ _ a); [done|by rewrite Ha|done|done]|].
        intros u2 _ _. apply keeps_ret, tracks_refl.
    + intros [u1 a1] E1 _. assert (get_account u1 (validator_pubkey request) = Some a1 ∧ status a1 = Inactive) as [Hg1 Ha1].
      { apply bind_Some in E1 as (u2 & _ & (u3 & ->%set_account_Some & [= <- <-])%bind_Some).
        split; [|done]. apply BTree.get_insert_eq. }
      rewrite Ha1. by apply inactive_request_follows.
Qed.

(** ** The buffered requests *)
Lemma route_request_follows u stale parsed n :
  parsed_wf parsed → preserves fst u (route_request u stale parsed n).
Proof.
  intros Hw. destruct parsed as [[d|w|p]|m]; cbn [route_request].
  - unfold push_deposit. rewrite on_tree_data. cbn [mbind option_bind].
    apply keeps_ret, tracks_same; try done. right; right. exists d. split; [done|].
    simpl in Hw. destruct Hw as [(? & ? & ? & Ha & _) _]. u64_solve.
  - apply (keeps_bind True fst); [apply withdrawal_request_follows|]. intros [u1 b] _ _. apply keeps_ret, tracks_refl.
  - apply keeps_ret, tracks_refl.
  - apply (keeps_bind True id); [apply keeps_refund_deposit|]. intros u1 _ _. apply keeps_ret, tracks_refl.
Qed.
Lemma route_entry_follows st entry n : preserves fst st.1 (route_entry st entry n).
Proof.
  unfold route_entry. destruct (parse_eth_entry entry) as [l|] eqn:El; [|apply keeps_ret, tracks_refl].
  apply parse_eth_entry_wf in El. rewrite Forall_forall in El.
  apply keeps_for_each. intros [u1 b1] p Hp. by apply route_request_follows, El.
Qed.
Lemma process_buffered_follows u domain w n : preserves id u (process_buffered_requests u domain w n).
Proof.
  unfold process_buffered_requests, take_pending_execution_requests. rewrite on_tree_data. cbn [mbind option_bind].
  set (u0 := u <| pending_execution_requests := [] |>). intros r Er.
  apply (tracks_trans True u u0); [apply tracks_same; try done; by left|]. revert r Er.
  apply (keeps_bind True id).
  { unfold push_protocol_param_changes. destruct (concat _); [apply keeps_ret, tracks_refl|]. cbv zeta.
    intros r Er. rewrite on_tree_data in Er.
    assert (r = u0 <| protocol_param_changes := protocol_param_changes u0 ++ p :: l |>) as -> by (destruct (negb _); congruence).
    apply tracks_same; try done. by left. }
  intros u1 _ _. apply (keeps_bind True id).
  { simpl. rewrite reject_data. apply keeps_ret, tracks_same; try done. by left. }
  intros u2 _ _. apply (keeps_bind True fst); [apply (keeps_for_each True fst); intros; apply route_entry_follows|].
  intros [u3 stale] _ _. simpl. apply (keeps_bind True id); [destruct stale; [apply keeps_tree|apply keeps_ret, tracks_refl]|].
  intros u4 _ _. apply process_deposits_follows.
Qed.

(** ** The minimum stake *)
Lemma remove_below_follows e already u c :
  candidate_of u c → preserves id u (remove_below_minimum e already u c).
Proof.
  destruct c as [[k joining] st]. intros (a & Hg & Hst & _). simpl in Hg, Hst.
  unfold remove_below_minimum. destruct (negb _); [apply keeps_ret, tracks_refl|].
  destruct (bool_decide _); [apply keeps_ret, tracks_refl|]. destruct st; try apply keeps_ret, tracks_refl.
  - unfold push_removed_validator, set_removed_validators, increment_pending_active_validator_exits.
    rewrite !on_tree_data. cbn [mbind option_bind]. rewrite !on_tree_data. apply keeps_ret, tracks_same; try done. by left.
  - destruct (_ <? _)%Z; [|apply keeps_ret, tracks_refl].
    apply (keeps_bind True fst); [apply remove_added_follows|]. intros [u1 b] E1 _. simpl.
    assert (get_account u1 k = Some a) as ->.
    { destruct (remove_added_data u joining k) as [b' Eb]. rewrite Eb in E1. by injection E1 as <- _. }
    intros r Er. apply (keeps_idle True u1 k a) in Er; [done| |by rewrite Hst|done|done].
    destruct (remove_added_data u joining k) as [b' Eb]. rewrite Eb in E1. by injection E1 as <- _.
Qed.
Lemma enforce_follows n room u u' : live true n room u → enforce_minimum_stake u = Some u' → follows u u'.
Proof.
  intros Hl E. unfold enforce_minimum_stake in E. destruct (negb _); [injection E as <-; apply tracks_refl|].
  cbv zeta in E. destruct (_ <? _)%Z.
  { rewrite on_tree_data in E. injection E as <-. apply tracks_same; try done. by left. }
  destruct (stake_candidates_spec u (prospective_minimum_stake u)) as [Hnd Hf]; [apply Hl|].
  apply (for_each_partial _ (λ u1 l, enforcing n room u (removed_validators u) u1 l ∧ follows u u1)) in E as [_ Ht]; [done| |].
  - split; [|apply tracks_refl]. split_and!; [by apply live_weaken|done|done|].
    eapply Forall_impl; [exact Hf|]. naive_solver.
  - intros u1 c l u2 [He Ht] E2. destruct (remove_below_minimum_steps _ _ _ _ _ _ _ He) as (u3 & E3 & He3).
    rewrite E2 in E3. injection E3 as <-. split; [done|]. eapply tracks_trans; [exact Ht|].
    eapply remove_below_follows; [|exact E2]. destruct He as (_ & _ & _ & [[Hca _] _]%Forall_cons). exact Hca.
Qed.

(** ** Payouts *)

(** An active account survives every payout that is not for its whole balance. *)
Definition in_service (m : BTreeMap bytes ValidatorAccount) (k c : bytes) : Prop :=
  ∃ a, BTree.get m k = Some a ∧ status a = Active ∧ consensus_public_key a = c ∧ (0 < balance a)%Z.
Lemma pay_account_service min m w k c :
  (0 < min)%Z → (kind w = Validator → pubkey w = k → amount (inner w) ≠ 0%Z) →
  in_service m k c → in_service (pay_account min m w) k c.
Proof.
  intros Hmin Hw (a & Hg & Hst & Hc1 & Hb). unfold pay_account.
  case_bool_decide as Hk; [by exists a|].
  destruct (BTree.get m (pubkey w)) as [a1|] eqn:Hg1; [|by exists a]. destruct (negb _); [by exists a|]. cbv zeta.
  destruct (decide (pubkey w = k)) as [E|Hne].
  2: { destruct (_ =? _)%Z; exists a; [rewrite BTree.get_remove_ne by done|rewrite BTree.get_insert_ne by done]; done. }
  rewrite E in Hg1 |- *. rewrite Hg in Hg1. injection Hg1 as <-. rewrite Hst. simpl has_minimum_stake_floor.
  assert (Hv : kind w = Validator) by (destruct (kind w); done).
  assert (Hpos : (0 < saturating_sub (balance a) (withdrawal_payout_amount w (balance a) true min))%Z).
  { unfold withdrawal_payout_amount. rewrite Hv. rewrite (proj2 (Z.eqb_neq _ _)) by auto. cbv zeta.
    unfold saturating_sub. lia. }
  simpl balance. rewrite (proj2 (Z.eqb_neq _ _)) by lia.
  eexists. split; [apply BTree.get_insert_eq|]. by split_and!.
Qed.
Lemma pay_accounts_service min k c ws : ∀ m,
  (0 < min)%Z → (∀ w, w ∈ ws → kind w = Validator → pubkey w = k → amount (inner w) ≠ 0%Z) →
  in_service m k c → in_service (foldl (pay_account min) m ws) k c.
Proof.
  induction ws as [|w ws IH]; intros m Hmin Hw Hm; simpl; [done|]. apply IH; [done|set_solver|].
  apply pay_account_service; [done|set_solver|done].
Qed.

(** The payouts of the last block: who is not leaving still signs. *)
Section payouts.
Context (f : bool) (n : Z) (u : ConsensusState ()).
Context (Hl : live f n 0 u) (Hf : funded u) (Hmin : (0 < prospective_minimum_stake u)%Z).
Notation m := (validator_accounts u).
Notation m' := (foldl (pay_account (prospective_minimum_stake u)) m (selected u (epoch u))).

Lemma selected_entry w : w ∈ selected u (epoch u) →
  pending_wf w ∧ (kind w = Validator → w ∈ withdrawals (withdrawal_queue u)) ∧
  (w ∈ withdrawals (withdrawal_queue u) ∨ kind w = DepositRefund).
Proof.
  destruct (ls_queue _ _ _ _ Hl) as [Q1 Q2 _ _]. rewrite Forall_forall in Q2. unfold iter_all in Q2.
  destruct (apply_payouts_data u (epoch u)) as (q' & i & j & _ & -> & _); [apply Hl|done|].
  pose proof (q_kind_r _ Q1) as Hr. rewrite Forall_forall in Hr.
  intros [Hin|Hin]%elem_of_app; apply subseteq_take in Hin; (split; [apply Q2, elem_of_app; by auto|]).
  - by auto.
  - specialize (Hr w Hin). split; [congruence|by right].
Qed.
Lemma payouts_paid :
  (∀ k, paid_from (BTree.get m k) (BTree.get m' k)) ∧
  ∀ k, (∀ w, w ∈ selected u (epoch u) → kind w = DepositRefund ∨ pubkey w ≠ k) → BTree.get m' k = BTree.get m k.
Proof.
  apply pay_accounts_paid; [apply Hl| |lia]. apply Forall_forall. intros w Hw. by apply selected_entry.
Qed.
Lemma service_kept k c : in_service m k c → in_service m' k c.
Proof.
  intros Hk. apply pay_accounts_service; [done| |done]. destruct Hk as (a & Hg & Hst & _).
  intros w Hin Hv. apply (fu_solvent _ Hf k a Hg); [done|]. by apply selected_entry.
Qed.
Lemma joining_kept k a : BTree.get m k = Some a → status a = Joining → BTree.get m' k = Some a.
Proof.
  intros Hg Ha. assert (joining_of m k = Some (joining_epoch a, consensus_public_key a)) as Hj.
  { unfold joining_of, join_view. rewrite Hg. simpl. by rewrite bool_decide_true. }
  destruct (sg_joining _ _ _ _ (ls_staged _ _ _ _ Hl) _ _ _ Hj) as [Hz _]. rewrite (proj2 payouts_paid); [done|].
  intros w Hw. destruct (selected_entry w Hw) as (_ & _ & [Hin|?]); [right|by left].
  exact (pending_count_zero _ _ _ (qi_ok _ _ _ (ls_queue _ _ _ _ Hl)) Hz Hin).
Qed.
Lemma payouts_status k a' : BTree.get m' k = Some a' →
  ∃ a, BTree.get m k = Some a ∧ status a' = status a ∧ consensus_public_key a' = consensus_public_key a.
Proof.
  intros Hg'. destruct (paid_key _ _ _ (proj1 payouts_paid k) Hg') as (a & Hg & Ek). exists a. split_and!; [done| |done].
  pose proof (paid_status _ _ (status a') (proj1 payouts_paid k)) as Ep. rewrite Hg', Hg in Ep.
  specialize (Ep eq_refl). simpl in Ep. congruence.
Qed.
Lemma payouts_solvent q' : withdrawals q' ⊆ withdrawals (withdrawal_queue u) → solvent q' m'.
Proof.
  intros Hq k a' Hg'. destruct (payouts_status k a' Hg') as (a & Hg & Es & _).
  destruct (fu_solvent _ Hf k a Hg) as [Hb Hw]. rewrite Es. split.
  - intros [Ha|Ha]; [|pose proof (joining_kept k a Hg Ha); naive_solver].
    destruct (service_kept k (consensus_public_key a)) as (a2 & Hg2 & _ & _ & Hb2); [exists a; split_and!; auto|]. congruence.
  - intros Ha w Hin. by apply (Hw Ha), Hq.
Qed.
Lemma payouts_signer k : k ∉ removed_validators u → signer_of m' k = signer_of m k.
Proof.
  intros Hk. unfold signer_of. destruct (BTree.get m k) as [a|] eqn:Hg.
  - simpl. destruct (signer a) as [c|] eqn:Es.
    + assert (signer_of m k = Some c) as Hsg by (unfold signer_of; by rewrite Hg).
      apply signer_status in Hsg as [Hst|Hst]; [|by apply (lv_submitted _ _ _ _ (ls_leaving _ _ _ _ Hl)) in Hst].
      unfold status_of in Hst. rewrite Hg in Hst. injection Hst as Hst.
      unfold signer in Es. rewrite Hst in Es. injection Es as <-.
      destruct (service_kept k (consensus_public_key a)) as (a2 & Hg2 & Hst2 & Hk2 & _);
        [exists a; split_and!; try done; apply (fu_solvent _ Hf k a Hg); by left|].
      rewrite Hg2. simpl. unfold signer. by rewrite Hst2, Hk2.
    + destruct (proj1 payouts_paid k) as [->|(a1 & E1 & [->|(b & _ & ->)])]; [by rewrite Hg|done|].
      rewrite Hg in E1. by injection E1 as <-.
  - destruct (proj1 payouts_paid k) as [->|(a1 & E1 & _)]; [by rewrite Hg|]. congruence.
Qed.

Lemma payouts_signers u' :
  apply_withdrawal_payouts u (epoch u) (emit_withdrawal_payouts u (epoch u)) = Some u' →
  removed_validators u' = removed_validators u ∧ added_validators u' = added_validators u ∧ funded u' ∧
  (∀ k, k ∉ removed_validators u → signer_of (validator_accounts u') k = signer_of m k).
Proof.
  intros E. destruct (apply_payouts_data u (epoch u)) as (q' & i & j & E' & _ & Hw & _); [apply Hl|apply Hl|].
  rewrite E in E'. injection E' as ->. split_and!; [done|done| |exact payouts_signer].
  destruct Hf as [F1 F2 _]. split; [done|done|]. apply payouts_solvent. simpl. rewrite Hw. intros w. apply subseteq_drop.
Qed.
End payouts.
End process.
