(* ===== verification/ExecutionFacts.v ===== *)
(** * ExecutionFacts: executing blocks never goes wrong

    [apply_block] and [epoch_boundary] on the states of a running chain: they never
    panic, whatever the requests of the blocks are, and lead from one state of the
    chain to the next. *)
From S2P Require Import Prelude Codec Crypto BTree Epocher Account ExecutionRequest ProtocolParams.
From S2P Require Import Withdrawal SszTree SszHash SszStateTree SszStateTreeFacts ConsensusState StateSync StateCodec.
From S2P Require Import StateRun StatePayouts StateInvariant StateProcess StateBoundary Block Execution.

(** A record update outside the parts of an invariant keeps it. *)
Ltac keep H := destruct H; split; first [assumption|keep_limits]
with keep_limits := match goal with L : limits_ok _ |- limits_ok _ => destruct L; split; assumption end.

Section facts.
Context `{Hc : Crypto} `{!CryptoOk} `{Hl : SszLib} `{Hb : BlockLib}.
Context (consts : ProtocolConsts) (domain : bytes).
Notation delay := (validator_withdrawal_num_epochs consts).
Notation warm_up := (validator_num_warm_up_epochs consts).

(** ** Where the chain is *)

(** The state is in an epoch whose heights are [first..last]. *)
Record clock {T} (first last : Z) (s : ConsensusState T) : Prop := {
  ck_sched : sched_ok (epocher s);
  ck_current : current_epoch (epocher s) = epoch s;
  ck_bounds : epoch_bounds (epocher s) (epoch s) = Some (first, last);
  ck_height : (first - 1 ≤ latest_height s ≤ last)%Z ∧ (0 ≤ latest_height s)%Z;
  ck_last : (last < u64_max)%Z
}.

(** Within an epoch: the invariant, with the minimum stake not yet enforced until
    the penultimate block. *)
Definition steady {T} (s : ConsensusState T) : Prop := ∃ first last,
  clock first last s ∧ (latest_height s < last)%Z ∧ live (latest_height s + 1 <? last)%Z delay 0 s.
(** After the last block of an epoch. *)
Definition at_end {T} (s : ConsensusState T) : Prop := ∃ first last,
  clock first last s ∧ latest_height s = last ∧ closing delay s.

(** The next block of the epoch, with the withdrawals the state asks for. *)
Record extends {T} (b : Block) (s : ConsensusState T) : Prop := {
  ex_height : block_height b = (latest_height s + 1)%Z;
  ex_withdrawals : expected_withdrawals s (block_height b) = Some (payload_withdrawals (payload b))
}.
(** The counters have room for the block's requests. *)
Record capacity {T} (b : Block) (s : ConsensusState T) : Prop := {
  cp_warm_up : (1 ≤ warm_up)%Z ∧ is_u64 (epoch s + warm_up);
  cp_index : (next_index (withdrawal_queue s) + 2 * max_deposits_per_epoch s
    + 2 * sum request_count (pending_execution_requests s ++ execution_requests b) < u64_max)%Z
}.
(** The epoch numbers and heights have room for another epoch. *)
Definition epoch_capacity {T} (s : ConsensusState T) : Prop :=
  is_u64 (epoch s + 1 + delay) ∧ horizon (epocher s) MAX_EPOCH_LENGTH.

Section data.
Implicit Type u : ConsensusState ().

Lemma clock_tests {T} first last (s : ConsensusState T) h :
  clock first last s → (0 ≤ epoch s)%Z → (first ≤ h ≤ last)%Z →
  is_last_block_of_epoch (epocher s) h = Some (h =? last)%Z ∧
  is_penultimate_block_of_epoch (epocher s) h = Some (h =? last - 1)%Z.
Proof. intros [H1 H2 H3 H4 H5] He Hh. by apply (block_of_epoch_tests _ _ _ _ _ H1 He H3 Hh). Qed.

Lemma capture_data u k : ∃ bs, capture_state_root u k = Some (u <| state_root := zero32 |> <| proof_tree := ssz_tree u |>
  <| proof_validator_keys := BTree.keys (validator_accounts u) |> <| proof_el_block_number := k |>
  <| captured_bytes := Some bs |>).
Proof. unfold capture_state_root. rewrite on_tree_data. cbn [mbind option_bind].
  change (tree_root (ssz_tree u)) with (Some zero32). eexists. reflexivity.
Qed.

Lemma live_data {T} `{!StateTree T} f n room (s : ConsensusState T) : live f n room (data_of s) ↔ live f n room s.
Proof. split; intros [H1 H2 H3 H4 H5 H6 H7 H8 []]; split; try done; by split. Qed.

(** The requests and payouts of one block. *)
Lemma process_requests_steps b u first last h :
  clock first last u → h = (latest_height u + 1)%Z → (h ≤ last)%Z → live (h <? last)%Z delay 0 u →
  expected_withdrawals u h = Some (payload_withdrawals (payload b)) →
  (1 ≤ warm_up)%Z → is_u64 (epoch u + warm_up) →
  (next_index (withdrawal_queue u) + index_need u (pending_execution_requests u) < u64_max)%Z →
  ∃ u', process_execution_requests b h u domain consts = Some u' ∧ outside u' = outside u ∧
    if (h =? last)%Z then closing delay u' else live (h + 1 <? last)%Z delay 0 u'.
Proof.
  intros Hck Hh Hle Hlv Hw Hwu1 Hwu2 Hroom.
  assert (0 ≤ epoch u)%Z as He by apply Hlv. pose proof (ck_height _ _ _ Hck) as [Hht _].
  destruct (clock_tests first last u h Hck He ltac:(lia)) as [Hlast Hpen].
  unfold process_execution_requests. rewrite Hpen. cbn [mbind option_bind].
  unfold expected_withdrawals in Hw. rewrite Hlast in Hw. cbn [mbind option_bind] in Hw. injection Hw as Hw.
  destruct (Z.eqb_spec h (last - 1)) as [E|Hn1].
  - rewrite (proj2 (Z.ltb_lt _ _)) in Hlv by lia.
    assert (Hlv' : live true delay (0 + index_need u (pending_execution_requests u)) u).
    { destruct Hlv as [H1 H2 [Q1 Q2 Q3 Q4] Hu H4 H5 H6 H7 H8]. split; done. }
    destruct (process_buffered_steps delay 0 u domain warm_up Hlv') as (u1 & -> & Hl1 & Ho1); [done..|].
    cbn [mbind option_bind].
    destruct (enforce_minimum_stake_steps delay 0 u1 Hl1) as (u2 & -> & Hl2 & Ho2). cbn [mbind option_bind].
    pose proof (f_equal epocher Ho1) as E1. pose proof (f_equal epocher Ho2) as E2. simpl in E1, E2.
    rewrite E2, E1, Hlast. cbn [mbind option_bind].
    rewrite (proj2 (Z.eqb_neq _ _)) by lia. exists u2. split_and!; [done|congruence|].
    by rewrite (proj2 (Z.ltb_ge _ _)) by lia.
  - cbn [mbind option_bind]. rewrite Hlast. cbn [mbind option_bind]. destruct (Z.eqb_spec h last) as [E|Hn2].
    + rewrite <-Hw. destruct (payouts_closing _ _ _ Hlv) as (q' & m' & -> & Hcl). by eexists.
    + exists u. split_and!; [done|done|]. rewrite (proj2 (Z.ltb_lt _ _)) in Hlv by lia.
      by rewrite (proj2 (Z.ltb_lt _ _)) by lia.
Qed.

(** What a block writes apart from its requests and payouts. *)
Record applied (b : Block) {T} (s s' : ConsensusState T) : Prop := {
  ap_epoch : epoch s' = epoch s;
  ap_epocher : epocher s' = epocher s;
  ap_height : latest_height s' = block_height b;
  ap_view : view s' = block_view b;
  ap_head : head_digest s' = block_digest b;
  ap_forkchoice : forkchoice s' = mkForkchoiceState (eth_block_hash b) (eth_block_hash b) (eth_block_hash b);
  ap_number : proof_el_block_number s' = block_number (payload b)
}.

Lemma clock_applied {T} b first last (s s' : ConsensusState T) :
  clock first last s → applied b s s' → block_height b = (latest_height s + 1)%Z → (latest_height s < last)%Z →
  clock first last s'.
Proof.
  intros [H1 H2 H3 H4 H5] [A1 A2 A3 _ _ _ _] Hh Hlt. split; rewrite ?A1, ?A2, ?A3; try done. lia.
Qed.

Lemma buffer_data u rs :
  buffer_execution_requests u rs
  = Some (u <| pending_execution_requests := pending_execution_requests u ++ rs |>).
Proof.
  unfold buffer_execution_requests. destruct rs; [|by rewrite on_tree_data].
  rewrite app_nil_r. by destruct u.
Qed.

(** The writes that follow the requests. *)
Lemma finish_block_steps b u3 p :
  is_penultimate_block_of_epoch (epocher u3) (block_height b) = Some p →
  head_block_hash (forkchoice u3) = eth_block_hash b →
  ∃ u' cp bs,
    (s ← set_latest_height u3 (block_height b);
     s ← set_view s (block_view b);
     s ← set_head_digest s (block_digest b);
     penultimate ← is_penultimate_block_of_epoch (epocher s) (block_height b);
     s ← (if penultimate : bool then set_pending_checkpoint s (Some (checkpoint_new s)) else Some s);
     s ← set_forkchoice_safe_and_finalized s (head_block_hash (forkchoice s));
     capture_state_root s (block_number (payload b))) = Some u' ∧
    u' = u3 <| latest_height := block_height b |> <| view := block_view b |> <| head_digest := block_digest b |>
      <| pending_checkpoint := cp |>
      <| forkchoice := mkForkchoiceState (eth_block_hash b) (eth_block_hash b) (eth_block_hash b) |>
      <| state_root := zero32 |> <| proof_tree := ssz_tree u3 |>
      <| proof_validator_keys := BTree.keys (validator_accounts u3) |>
      <| proof_el_block_number := block_number (payload b) |> <| captured_bytes := Some bs |> ∧
    cp = if p then Some (checkpoint_new (u3 <| latest_height := block_height b |> <| view := block_view b |>
                           <| head_digest := block_digest b |>)) else pending_checkpoint u3.
Proof.
  intros Hp Hhead. unfold set_latest_height, set_view, set_head_digest. rewrite on_tree_data.
  cbn [mbind option_bind]. rewrite on_tree_data. cbn [mbind option_bind]. rewrite on_tree_data.
  cbn [mbind option_bind]. match goal with |- context [is_penultimate_block_of_epoch (epocher ?v) _] => set (u4 := v) end.
  change (epocher u4) with (epocher u3). rewrite Hp. cbn [mbind option_bind].
  set (cp := if p then Some (checkpoint_new u4) else pending_checkpoint u3).
  assert ((if p then set_pending_checkpoint u4 (Some (checkpoint_new u4)) else Some u4)
    = Some (u4 <| pending_checkpoint := cp |>)) as ->.
  { unfold cp. destruct p; [unfold set_pending_checkpoint; by rewrite on_tree_data|done]. }
  cbn [mbind option_bind]. unfold set_forkchoice_safe_and_finalized. cbv zeta. rewrite on_tree_data.
  cbn [mbind option_bind]. rewrite on_tree_data. cbn [mbind option_bind].
  match goal with |- context [capture_state_root ?v ?k] => destruct (capture_data v k) as [bs ->] end.
  eexists _, cp, bs. split; [reflexivity|].
  change (head_block_hash (forkchoice (u4 <| pending_checkpoint := cp |>))) with (head_block_hash (forkchoice u3)).
  split; [|reflexivity]. clearbody cp. rewrite <-Hhead. destruct u3 as [???????????? []]. reflexivity.
Qed.

Lemma apply_block_steps b u first last :
  clock first last u → (latest_height u < last)%Z → live (latest_height u + 1 <? last)%Z delay 0 u →
  extends b u → capacity b u →
  ∃ u', apply_block b u consts domain = Some u' ∧ applied b u u' ∧
    if (block_height b =? last)%Z then at_end u' else steady u'.
Proof.
  intros Hck Hlt Hlv [Hh Hw] [[Hwu1 Hwu2] Hix].
  unfold apply_block. cbv zeta. unfold set_forkchoice_head. rewrite on_tree_data. cbn [mbind option_bind].
  rewrite buffer_data. cbn [mbind option_bind].
  match goal with |- context [process_execution_requests _ _ ?v _ _] => set (u2 := v) end.
  assert (Hck2 : clock first last u2) by keep Hck.
  assert (Hlv2 : live (block_height b <? last)%Z delay 0 u2) by (rewrite Hh; keep Hlv).
  destruct (process_requests_steps b u2 first last (block_height b) Hck2 Hh ltac:(lia) Hlv2 Hw Hwu1 Hwu2)
    as (u3 & -> & Ho & Hres).
  { unfold index_need. change (max_deposits_per_epoch u2) with (max_deposits_per_epoch u).
    change (pending_execution_requests u2) with (pending_execution_requests u ++ execution_requests b).
    change (withdrawal_queue u2) with (withdrawal_queue u). lia. }
  cbn [mbind option_bind].
  pose proof (f_equal epocher Ho) as E1. pose proof (f_equal forkchoice Ho) as E2. pose proof (f_equal epoch Ho) as E3.
  simpl in E1, E2, E3.
  destruct (finish_block_steps b u3 (block_height b =? last - 1)%Z) as (u' & cp & bs & -> & Eu' & _).
  { rewrite E1. destruct (clock_tests first last u (block_height b) Hck) as [_ ->]; [apply Hlv| |done].
    pose proof (ck_height _ _ _ Hck). lia. }
  { by rewrite E2. }
  assert (Hap : applied b u u') by (rewrite Eu'; by split).
  exists u'. split; [done|]. split; [done|].
  pose proof (clock_applied b first last u u' Hck Hap Hh Hlt) as Hck'. rewrite Eu' in Hck' |- *.
  destruct (Z.eqb_spec (block_height b) last) as [El|Hne].
  - exists first, last. split_and!; [done|done|]. keep Hres.
  - exists first, last. split_and!; [done|simpl; lia|]. cbn [latest_height]. keep Hres.
Qed.

(** The schedule after the boundary. *)
Lemma next_clock {T} first last (s : ConsensusState T) ep1 :
  clock first last s → (0 ≤ epoch s)%Z → horizon (epocher s) MAX_EPOCH_LENGTH → same_epochs (epocher s) ep1 →
  let ep := advance_epoch ep1 (epoch s + 1)%Z in
  sched_ok ep ∧ ∃ last', epoch_bounds ep (epoch s + 1)%Z = Some (last + 1, last')%Z ∧ (last < last' < u64_max)%Z.
Proof.
  intros [H1 H2 H3 H4 H5] He (Ht & Hl1 & _) (Hs1 & (Ht1 & Hl11 & _) & Hcur & Hst). rewrite Hcur, H2 in *. cbv zeta.
  assert (Hok : sched_ok (advance_epoch ep1 (epoch s + 1))).
  { apply (step_sched_ok ep1); [done|]. constructor. rewrite Hcur. lia. }
  split; [done|]. pose proof (proj1 Hs1) as Hr1. pose proof (proj1 H1) as Hr.
  apply epoch_bounds_Some in H3 as (_ & Hf & Hla & _); [|done..].
  pose proof (start_rev_succ _ (epoch s) Hr He) as Hsucc.
  pose proof (start_rev_succ _ (epoch s + 1) Hr1 ltac:(lia)) as Hsucc1.
  pose proof (len_rev_pos _ (epoch s + 1) Hr1 ltac:(lia)) as Hpos.
  pose proof (len_rev_pos _ (epoch s + 2) Hr1 ltac:(lia)) as Hpos2.
  rewrite (Hst (epoch s + 1)%Z) in Hsucc1 by lia. unfold len_at in *.
  replace (epoch s + 1 + 1)%Z with (epoch s + 2)%Z in Hsucc1 by lia.
  exists (last + len_rev (rev (segments ep1)) (epoch s + 1))%Z. split; [|lia].
  apply epoch_bounds_Some; [done|lia|]. cbn [current_epoch segments advance_epoch].
  change (segments (advance_epoch ep1 (epoch s + 1))) with (segments ep1).
  rewrite Hst by lia. split_and!; [simpl; lia|lia|unfold len_at; lia|lia].
Qed.

Lemma remove_epoch_data u e :
  ∃ o, remove_added_validators_for_epoch u e
  = Some (u <| added_validators := BTree.remove (added_validators u) e |>, o).
Proof.
  unfold remove_added_validators_for_epoch. destruct (BTree.get (added_validators u) e) as [vs|] eqn:E.
  - cbv zeta. rewrite on_tree_data. by eexists.
  - exists None. rewrite BTree.remove_None by done. by destruct u.
Qed.
Lemma clear_removed_data u :
  (if negb (length (removed_validators u) =? 0) then clear_removed_validators u else Some u)
  = Some (u <| removed_validators := [] |>).
Proof.
  unfold clear_removed_validators, set_removed_validators. destruct (removed_validators u) eqn:E; simpl.
  - rewrite <-E. by destruct u.
  - by rewrite on_tree_data.
Qed.

(** The state of the new epoch. *)
Definition advanced u (b : Block) (bs : bytes) : ConsensusState () :=
  mkConsensusState (epoch u + 1) 0 (latest_height u) (head_digest u) (deposit_queue u) (withdrawal_queue u)
    (validator_accounts u) (protocol_param_changes u) (pending_checkpoint u)
    (BTree.remove (added_validators u) (epoch u + 1)%Z) [] (pending_execution_requests u) (forkchoice u)
    (block_digest b) (validator_minimum_stake u) (allowed_timestamp_future_ms u) (treasury_address u)
    (max_deposits_per_epoch u) (max_withdrawals_per_epoch u) (observers_per_validator u)
    (max_validator_count u) (minimum_validator_count u) (pending_active_validator_exits u)
    (invalid_deposit_tax u) (max_pending_withdrawals_per_validator u)
    (advance_epoch (epocher u) (epoch u + 1)%Z) (ssz_tree u) (ssz_tree u)
    (BTree.keys (validator_accounts u)) zero32 (block_number (payload b)) (Some bs).
Lemma bind_eq {A B} (m : option A) (k : A → option B) a r : m = Some a → k a = r → (m ≫= k) = r.
Proof. by intros -> <-. Qed.
Lemma boundary_advance_data u b : is_u64 (epoch u + 1) → ∃ bs, boundary_advance u b = Some (advanced u b bs).
Proof.
  intros Hn. unfold boundary_advance. rewrite wrapping_add_small by done. cbv zeta.
  set (e := (epoch u + 1)%Z).
  destruct (remove_epoch_data (u <| epoch := e |> <| view := 0%Z |> <| epocher := advance_epoch (epocher u) e |>
    <| epoch_genesis_hash := block_digest b |>) e) as [o Ho].
  set (u5 := u <| epoch := e |> <| view := 0%Z |> <| epocher := advance_epoch (epocher u) e |>
    <| epoch_genesis_hash := block_digest b |> <| added_validators := BTree.remove (added_validators u) e |>
    <| removed_validators := [] |>).
  destruct (capture_data u5 (block_number (payload b))) as [bs Hbs]. exists bs.
  eapply bind_eq; [apply on_tree_data|]. eapply bind_eq; [apply on_tree_data|].
  eapply bind_eq; [apply on_tree_data|]. eapply bind_eq; [exact Ho|].
  eapply bind_eq; [apply clear_removed_data|]. exact Hbs.
Qed.

(** The parameters and the committee, then the checkpoint is taken. *)
Lemma boundary_committee_data u1 u2 key b1 r :
  apply_protocol_parameter_changes u1 = Some (u2, b1) → apply_committee_transition u2 key = Some r →
  boundary_committee u1 key = Some (r.1 <| pending_checkpoint := None |>, r.2, pending_checkpoint r.1).
Proof.
  intros E1 E2. unfold boundary_committee. rewrite E1. cbn [mbind option_bind fst]. rewrite E2.
  cbn [mbind option_bind]. destruct r as [u3 b3]. unfold take_pending_checkpoint. cbv zeta. by rewrite on_tree_data.
Qed.

(** The next committee in place, the checkpoint taken. *)
Definition seated u (m : BTreeMap bytes ValidatorAccount) : ConsensusState () :=
  u <| pending_active_validator_exits := 0%Z |> <| validator_accounts := m |> <| pending_checkpoint := None |>.

(** The invariant of the new epoch, from that of the closed one. *)
Lemma advanced_steady u m b bs last last' :
  closing delay u → is_u64 (epoch u + 1) → is_u64 (epoch u + 1 + delay) → accounts_ok m →
  (∀ k, BTree.get m k = turned_account (next_committee u) (removed_validators u) k <$>
     BTree.get (validator_accounts u) k) →
  latest_height u = last → (0 ≤ last)%Z →
  sched_ok (advance_epoch (epocher u) (epoch u + 1)) →
  epoch_bounds (advance_epoch (epocher u) (epoch u + 1)) (epoch u + 1)%Z = Some (last + 1, last')%Z →
  (last < last' < u64_max)%Z →
  steady (advanced (seated u m) b bs).
Proof.
  intros Hcl Hn Hep Hm Hget Hh H0 Hok Hb' Hlt. pose proof (cl_epoch _ _ Hcl) as [He0 _].
  exists (last + 1)%Z, last'. split_and!.
  - split; [exact Hok|reflexivity|exact Hb'| |lia].
    change (last + 1 - 1 ≤ latest_height u ≤ last' ∧ 0 ≤ latest_height u)%Z. lia.
  - change (latest_height u < last')%Z. lia.
  - apply live_weaken. pose proof (cl_queue _ _ Hcl) as Hq.
    pose proof (next_staged _ _ _ Hcl Hget Hn) as Hstg.
    split; [split; [simpl; lia|exact Hep]|exact Hm| |by eapply next_unique|exact Hstg|by eapply next_leaving
           |apply Hcl| |].
    + eapply queue_inv_weaken; [| |exact Hq]; simpl; lia.
    + change (Forall in_bounds (protocol_param_changes u)). apply Hcl.
    + pose proof (cl_limits _ _ Hcl) as []. by split.
Qed.

Lemma boundary_steps b key u :
  at_end u → epoch_capacity u →
  ∃ u', epoch_boundary u b key = Some u' ∧ steady u' ∧ epoch u' = (epoch u + 1)%Z ∧
    latest_height u' = latest_height u ∧ epoch_genesis_hash u' = block_digest b ∧
    (∀ k, BTree.get (validator_accounts u') k
      = turned_account (next_committee u) (removed_validators u) k <$> BTree.get (validator_accounts u) k) ∧
    added_validators u' = BTree.remove (added_validators u) (epoch u + 1)%Z ∧ removed_validators u' = [] ∧
    head_digest u' = head_digest u ∧ withdrawal_queue u' = withdrawal_queue u ∧ deposit_queue u' = deposit_queue u ∧
    pending_checkpoint u' = None.
Proof.
  intros (first & last & Hck & Hlast & Hcl) [Hep Hhor]. pose proof (cl_epoch _ _ Hcl) as [He0 Hen].
  assert (Hnext : is_u64 (epoch u + 1)).
  { pose proof (ck_current _ _ _ Hck) as Hcur. destruct Hhor as (Ht & _). rewrite Hcur in Ht. u64_solve. }
  destruct (params_closing delay u Hcl (ck_sched _ _ _ Hck) Hhor) as (u1 & b1 & E1 & Hcl1 & Hp1 & Es & Hsame).
  pose proof (f_equal epoch Es) as Ee. pose proof (f_equal latest_height Es) as Eh.
  pose proof (f_equal head_digest Es) as Ed. pose proof (f_equal added_validators Es) as Ea.
  pose proof (f_equal removed_validators Es) as Er. pose proof (f_equal validator_accounts Es) as Ev.
  simpl in Ee, Eh, Ed, Ea, Er, Ev.
  destruct (transition_steps delay u1 key Hcl1) as (m' & b2 & E2 & Hm' & Hget); [by rewrite Ee|].
  destruct (next_clock first last u (epocher u1) Hck He0 Hhor Hsame) as (Hok & last' & Hb' & Hlt').
  destruct (boundary_advance_data (seated u1 m') b) as [bs E3]; [change (is_u64 (epoch u1 + 1)); by rewrite Ee|].
  exists (advanced (seated u1 m') b bs). split_and!.
  - unfold epoch_boundary. rewrite (boundary_committee_data u u1 key b1 _ E1 E2). exact E3.
  - apply (advanced_steady u1 m' b bs last last'); rewrite ?Ee; try done.
    + congruence.
    + pose proof (ck_height _ _ _ Hck). lia.
  - change (epoch u1 + 1 = epoch u + 1)%Z. by rewrite Ee.
  - exact Eh.
  - reflexivity.
  - intros k. change (BTree.get m' k = turned_account (next_committee u) (removed_validators u) k <$>
      BTree.get (validator_accounts u) k). rewrite Hget. unfold next_committee. by rewrite Ea, Er, Ev, Ee.
  - change (BTree.remove (added_validators u1) (epoch u1 + 1)%Z = BTree.remove (added_validators u) (epoch u + 1)%Z).
    by rewrite Ea, Ee.
  - reflexivity.
  - exact Ed.
  - exact (f_equal withdrawal_queue Es).
  - exact (f_equal deposit_queue Es).
  - reflexivity.
Qed.
End data.

(** ** States with their trees *)
Section tree.
Context `{!SszLibOk}.
Implicit Type s : ConsensusState SszStateTree.

Lemma lift s op d :
  reachable s → run_state_op (data_of s) op = Some d →
  ∃ s', run_state_op s op = Some s' ∧ reachable s' ∧ d = data_of s'.
Proof.
  intros Hr Hd. destruct (run_op_data s op d (reachable_coherent s Hr) Hd) as (s' & Hs & _ & ->).
  exists s'. split_and!; [done|by eapply reach_op|done].
Qed.

Lemma lift_if (c : bool) s op d :
  reachable s → (if c then run_state_op (data_of s) op else Some (data_of s)) = Some d →
  ∃ s', (if c then run_state_op s op else Some s) = Some s' ∧ reachable s' ∧ d = data_of s'.
Proof. intros Hr Hd. destruct c; [by apply lift|]. injection Hd as <-. by exists s. Qed.

Lemma process_requests_lift b h s d :
  reachable s → process_execution_requests b h (data_of s) domain consts = Some d →
  ∃ s', process_execution_requests b h s domain consts = Some s' ∧ reachable s' ∧ d = data_of s'.
Proof.
  intros Hr. unfold process_execution_requests. intros (p & Hp & Hd)%bind_Some.
  change (epocher (data_of s)) with (epocher s) in Hp. rewrite Hp. cbn [mbind option_bind].
  apply bind_Some in Hd as (d1 & Hd1 & Hd).
  assert (∃ s1, (if p then s ← process_buffered_requests s domain warm_up delay; enforce_minimum_stake s else Some s)
    = Some s1 ∧ reachable s1 ∧ d1 = data_of s1) as (s1 & -> & Hr1 & ->).
  { destruct p; [|injection Hd1 as <-; by exists s]. apply bind_Some in Hd1 as (d2 & H2 & Hd1).
    destruct (lift s (op_process_buffered_requests domain warm_up delay) d2 Hr H2) as (s2 & E2 & Hr2 & ->).
    cbn [run_state_op] in E2. rewrite E2. cbn [mbind option_bind]. by apply (lift s2 op_enforce_minimum_stake). }
  cbn [mbind option_bind]. apply bind_Some in Hd as (la & Hla & Hd).
  change (epocher (data_of s1)) with (epocher s1) in Hla. rewrite Hla. cbn [mbind option_bind].
  by apply (lift_if la s1 (op_apply_withdrawal_payouts (epoch s1) (payload_withdrawals (payload b)))).
Qed.

(** The next call of a run, [op] on both sides. *)
Ltac lift_step op :=
  match goal with Hd : (_ ≫= _) = Some _ |- _ =>
    let d := fresh "d" in let H := fresh "H" in
    apply bind_Some in Hd as (d & H & Hd);
    match goal with Hr : reachable ?s |- _ =>
      let s' := fresh "s" in let E := fresh "E" in let Hr' := fresh "Hr" in
      destruct (lift s op d Hr H) as (s' & E & Hr' & ->); clear H Hr;
      cbn [run_state_op] in E; rewrite E; clear E; cbn [mbind option_bind]
    end
  end.

Lemma apply_block_lift b s d :
  reachable s → apply_block b (data_of s) consts domain = Some d →
  ∃ s', apply_block b s consts domain = Some s' ∧ reachable s' ∧ d = data_of s'.
Proof.
  intros Hr. unfold apply_block. cbv zeta. intros Hd.
  lift_step (op_set_forkchoice_head (eth_block_hash b)).
  lift_step (op_buffer_execution_requests (execution_requests b)).
  apply bind_Some in Hd as (d3 & H3 & Hd).
  match goal with Hr : reachable ?s |- _ =>
    destruct (process_requests_lift _ _ s d3 Hr H3) as (s3 & -> & Hr3 & ->); clear H3 Hr end.
  cbn [mbind option_bind].
  lift_step (op_set_latest_height (block_height b)). lift_step (op_set_view (block_view b)).
  lift_step (op_set_head_digest (block_digest b)).
  apply bind_Some in Hd as (p & Hp & Hd).
  match goal with Hr : reachable ?s |- _ => change (epocher (data_of s)) with (epocher s) in Hp end.
  rewrite Hp. cbn [mbind option_bind]. apply bind_Some in Hd as (d7 & H7 & Hd).
  match goal with Hr : reachable ?s |- _ =>
    destruct (lift_if p s (op_set_pending_checkpoint (Some (checkpoint_new s))) d7 Hr H7) as (s7 & E7 & Hr7 & ->);
    clear H7 Hr end.
  cbn [run_state_op] in E7. rewrite E7. cbn [mbind option_bind].
  lift_step (op_set_forkchoice_safe_and_finalized (head_block_hash (forkchoice s7))).
  by eapply (lift _ (op_capture_state_root _)).
Qed.

Lemma lift_pair {A} (op : state_op) (call : ∀ {T} `{!StateTree T}, ConsensusState T → option (ConsensusState T * A)) s d a :
  (∀ T `{!StateTree T} (s : ConsensusState T), run_state_op s op = fst <$> call s) →
  reachable s → call (data_of s) = Some (d, a) →
  ∃ s' a', call s = Some (s', a') ∧ reachable s' ∧ d = data_of s'.
Proof.
  intros Hop Hr Hd. destruct (lift s op d Hr) as (s' & E & Hr' & ->); [by rewrite Hop, Hd|].
  rewrite Hop in E. apply fmap_Some in E as ([s1 a1] & E & ->). by exists s1, a1.
Qed.

Lemma boundary_lift b key s d :
  reachable s → epoch_boundary (data_of s) b key = Some d →
  ∃ s', epoch_boundary s b key = Some s' ∧ reachable s' ∧ d = data_of s'.
Proof.
  intros Hr. unfold epoch_boundary, boundary_committee. intros (r & Hcm & Hd)%bind_Some.
  apply bind_Some in Hcm as ([d1 x1] & H1 & Hcm). apply bind_Some in Hcm as ([d2 x2] & H2 & Hcm).
  apply bind_Some in Hcm as ([d3 x3] & H3 & [= <-]). cbn [fst] in *.
  destruct (lift_pair op_apply_protocol_parameter_changes (λ T _ x, apply_protocol_parameter_changes x) s d1 x1)
    as (s1 & y1 & -> & Hr1 & ->); [done|done|exact H1|]. cbn [mbind option_bind fst] in *.
  destruct (lift_pair (op_apply_committee_transition key) (λ T _ x, apply_committee_transition x key) s1 d2 x2)
    as (s2 & y2 & -> & Hr2 & ->); [done|done|exact H2|]. cbn [mbind option_bind fst] in *.
  destruct (lift_pair op_take_pending_checkpoint (λ T _ x, take_pending_checkpoint x) s2 d3 x3)
    as (s3 & z3 & -> & Hr3 & ->); [done|done|exact H3|]. cbn [mbind option_bind fst] in *.
  clear Hr Hr1 Hr2 H1 H2 H3. revert Hd. unfold boundary_advance. cbv zeta. intros Hd.
  lift_step (op_set_epoch (wrapping_add (epoch s3) 1)). lift_step (op_set_view 0).
  match goal with Hr : reachable ?v |- _ => rename v into s4, Hr into Hr4 end.
  assert (Hr5 : reachable (clone_with_epocher s4 (advance_epoch (epocher s4) (wrapping_add (epoch s3) 1))))
    by exact (reach_op _ (op_clone_with_epocher _) _ Hr4 eq_refl).
  clear Hr4. change (s4 <| epocher := ?e |>) with (clone_with_epocher s4 e).
  lift_step (op_set_epoch_genesis_hash (block_digest b)).
  apply bind_Some in Hd as ([d6 x6] & H6 & Hd).
  match goal with Hr : reachable ?v |- _ =>
    destruct (lift_pair (op_remove_added_validators_for_epoch (wrapping_add (epoch s3) 1))
      (λ T _ x, remove_added_validators_for_epoch x (wrapping_add (epoch s3) 1)) v d6 x6)
      as (s6 & z6 & -> & Hr6 & ->); [done|done|exact H6|]; clear H6 Hr end.
  cbn [mbind option_bind fst] in *. apply bind_Some in Hd as (d7 & H7 & Hd).
  destruct (lift_if _ s6 op_clear_removed_validators d7 Hr6 H7) as (s7 & E7 & Hr7 & ->).
  cbn [run_state_op] in E7. change (removed_validators (data_of s6)) with (removed_validators s6) in E7.
  rewrite E7. cbn [mbind option_bind]. by apply (lift s7 (op_capture_state_root _)).
Qed.

Lemma clock_data first last s : clock first last (data_of s) ↔ clock first last s.
Proof. split; intros []; by split. Qed.
Lemma closing_data s : closing delay (data_of s) ↔ closing delay s.
Proof. split; intros [H1 H2 H3 H4 H5 H6 H7 H8 []]; split; try done; by split. Qed.
Lemma steady_data s : steady (data_of s) ↔ steady s.
Proof. unfold steady. by setoid_rewrite clock_data; setoid_rewrite live_data. Qed.
Lemma at_end_data s : at_end (data_of s) ↔ at_end s.
Proof. unfold at_end. by setoid_rewrite clock_data; setoid_rewrite closing_data. Qed.

Lemma expected_data s h : expected_withdrawals (data_of s) h = expected_withdrawals s h.
Proof.
  unfold expected_withdrawals. change (epocher (data_of s)) with (epocher s).
  by change (emit_withdrawal_payouts (data_of s) (epoch (data_of s))) with (emit_withdrawal_payouts s (epoch s)).
Qed.

(** The effects of a block on a state of the chain. *)
Lemma apply_block_total b s :
  reachable s → steady s → extends b s → capacity b s →
  ∃ s', apply_block b s consts domain = Some s' ∧ reachable s' ∧ applied b s s' ∧ (steady s' ∨ at_end s').
Proof.
  intros Hr (first & last & Hck & Hlt & Hlv) [Hh Hw] [Hwu Hix].
  destruct (apply_block_steps b (data_of s) first last) as (d & Hd & Hap & Hres).
  - by apply clock_data.
  - done.
  - by apply live_data.
  - split; [done|by rewrite expected_data].
  - by split.
  - destruct (apply_block_lift b s d Hr Hd) as (s' & E & Hr' & ->). exists s'.
    split_and!; [done|done|by destruct Hap; split|].
    destruct (_ =? _)%Z; [right; by apply at_end_data|left; by apply steady_data].
Qed.

(** Blocks of one epoch, each fitting the state before it. *)
Fixpoint blocks_fit (bs : list Block) {T} `{!StateTree T} (s : ConsensusState T) : Prop :=
  match bs with
  | [] => True
  | b :: bs =>
      extends b s ∧ capacity b s ∧
      (∃ first last, epoch_bounds (epocher s) (epoch s) = Some (first, last) ∧ (latest_height s < last)%Z) ∧
      ∃ s' : ConsensusState T, apply_block b s consts domain = Some s' ∧ blocks_fit bs s'
  end.

(** The same as a test. *)
Definition block_fitb {T} (b : Block) (s : ConsensusState T) : bool :=
  bool_decide (block_height b = latest_height s + 1)%Z
  && bool_decide (expected_withdrawals s (block_height b) = Some (payload_withdrawals (payload b)))
  && (1 <=? warm_up)%Z && (0 <=? epoch s + warm_up)%Z && (epoch s + warm_up <=? u64_max)%Z
  && (next_index (withdrawal_queue s) + 2 * max_deposits_per_epoch s
        + 2 * sum request_count (pending_execution_requests s ++ execution_requests b) <? u64_max)%Z
  && match epoch_bounds (epocher s) (epoch s) with
     | Some (_, last) => (latest_height s <? last)%Z | None => false end.
Fixpoint blocks_fitb (bs : list Block) {T} `{!StateTree T} (s : ConsensusState T) : bool :=
  match bs with
  | [] => true
  | b :: bs => block_fitb b s &&
      match apply_block b s consts domain with Some s' => blocks_fitb bs s' | None => false end
  end.
Lemma blocks_fit_test bs {T} `{!StateTree T} (s : ConsensusState T) : blocks_fitb bs s = true → blocks_fit bs s.
Proof.
  revert s. induction bs as [|b bs IH]; intros s; [done|]. cbn [blocks_fitb blocks_fit]. unfold block_fitb.
  rewrite !andb_true_iff, !bool_decide_eq_true. intros [[[[[[[? ?] ?] ?] ?] ?] Hb1] Hs].
  destruct (epoch_bounds _ _) as [[first last]|] eqn:Eb; [|done].
  destruct (apply_block _ _ _ _) as [s'|] eqn:Ea; [|done].
  split; [by split|]. split; [split; unfold is_u64; lia|]. split; [exists first, last; split; [done|lia]|].
  exists s'. by auto.
Qed.

Lemma run_blocks bs s d :
  reachable s → (steady s ∨ at_end s) → blocks_fit bs (data_of s) →
  for_each (λ u b, apply_block b u consts domain) (data_of s) bs = Some d →
  ∃ s', for_each (λ u b, apply_block b u consts domain) s bs = Some s' ∧ reachable s' ∧
    d = data_of s' ∧ (steady s' ∨ at_end s').
Proof.
  revert s. induction bs as [|b bs IH]; intros s Hr Hst Hfit; cbn [for_each].
  { intros [= <-]. by exists s. }
  destruct Hfit as ([Hh Hw] & [Hwu Hix] & (first & last & Hb1 & Hlt) & d1 & Hd1 & Hfit).
  rewrite Hd1. cbn [mbind option_bind]. intros Hd.
  assert (steady s) as Hs.
  { destruct Hst as [?|(f & l & Hck & E & _)]; [done|]. pose proof (ck_bounds _ _ _ Hck) as Hb2.
    change (epocher (data_of s)) with (epocher s) in Hb1. change (epoch (data_of s)) with (epoch s) in Hb1.
    rewrite Hb2 in Hb1. injection Hb1 as -> ->. change (latest_height (data_of s)) with (latest_height s) in Hlt. lia. }
  rewrite expected_data in Hw.
  destruct (apply_block_total b s Hr Hs) as (s1 & E1 & Hr1 & _ & Hst1); [by split|by split|].
  destruct (apply_block_lift b s d1 Hr Hd1) as (s1' & E1' & _ & ->). rewrite E1 in E1'. apply (inj Some) in E1' as <-.
  rewrite E1. cbn [mbind option_bind]. by apply IH.
Qed.

(** Blocks that reach the last height of the epoch. *)
Definition at_last {T} (s : ConsensusState T) : bool :=
  match epoch_bounds (epocher s) (epoch s) with
  | Some (_, last) => (latest_height s =? last)%Z | None => false end.
Lemma run_epoch bs (u : ConsensusState ()) :
  (∃ s, reachable s ∧ steady s ∧ data_of s = u) → blocks_fitb bs u = true →
  (at_last <$> for_each (λ u b, apply_block b u consts domain) u bs) = Some true →
  ∃ s, reachable s ∧ at_end s ∧ Some (data_of s) = for_each (λ u b, apply_block b u consts domain) u bs.
Proof.
  intros (s & Hr & Hst & <-) Hfit (d & E & Hla)%fmap_Some.
  destruct (run_blocks bs s d Hr (or_introl Hst)) as (s' & _ & Hr' & -> & Hend); [by apply blocks_fit_test|done|].
  exists s'. split_and!; [done| |done]. destruct Hend as [(f & l & Hck & Hlt & _)|?]; [|done]. exfalso.
  pose proof (ck_bounds _ _ _ Hck) as Hb1. unfold at_last in Hla.
  change (epocher (data_of s')) with (epocher s') in Hla. change (epoch (data_of s')) with (epoch s') in Hla.
  rewrite Hb1 in Hla. change (latest_height (data_of s')) with (latest_height s') in Hla. lia.
Qed.

Lemma read_keys_valid (l : list (bytes * ValidatorAccount)) acc :
  Forall (λ e, ed25519_valid e.1 = true) l →
  for_each (λ acc '(k, a), if ed25519_valid k then Some (acc ++ [(k, consensus_public_key a)]) else None) acc l
  = Some (acc ++ map (λ '(k, a), (k, consensus_public_key a)) l).
Proof.
  intros Hf. revert acc. induction Hf as [|[k a] l Hk _ IH]; intros acc; simpl; [by rewrite app_nil_r|].
  simpl in Hk. rewrite Hk. cbn [mbind option_bind]. rewrite IH, <-(assoc_L (++)). done.
Qed.

(** With valid keys the committee lists are read without a panic. *)
Lemma validators_where_valid {T} (p : ValidatorStatus → bool) (s : ConsensusState T) :
  accounts_ok (validator_accounts s) → is_Some (validators_where p s).
Proof.
  intros [_ Hf]. unfold validators_where, read_keys. rewrite read_keys_valid; [by eexists|].
  rewrite Forall_forall in *. intros e [He _]%elem_of_retain. by apply Hf.
Qed.

(** C13: The epoch boundary installs the staged committee.  After the last block of an
    epoch of a running chain, the boundary never panics (no [expect] on a missing
    account, an unparsable key or an epoch length fires) and opens the next epoch with the
    invariant of the chain.  Its committee is exactly the validators that were active and
    not leaving together with those scheduled to join in that epoch; nobody is left
    half-way out, and the staged changes it used are cleared. *)
Theorem epoch_boundary_turns_committee b key s :
  reachable s → at_end s → epoch_capacity s →
  ∃ s', epoch_boundary s b key = Some s' ∧ reachable s' ∧ steady s' ∧
    epoch s' = (epoch s + 1)%Z ∧ epoch_genesis_hash s' = block_digest b ∧
    (∀ k, status_of (validator_accounts s') k = Some Active ↔
       k ∈ next_committee (data_of s) ∨
       status_of (validator_accounts s) k = Some Active ∧ k ∉ removed_validators s) ∧
    (∀ k, status_of (validator_accounts s') k ≠ Some SubmittedExitRequest) ∧
    added_validators s' = BTree.remove (added_validators s) (epoch s + 1)%Z ∧ removed_validators s' = [] ∧
    is_Some (get_active_validators s') ∧ is_Some (get_active_or_joining_validators s').
Proof.
  intros Hr Hend Hcap. destruct (boundary_steps b key (data_of s)) as (d & Hd & Hst & He & _ & Hg & Hget & Ha & Hrm & _);
    [by apply at_end_data|done|].
  destruct (boundary_lift b key s d Hr Hd) as (s' & E & Hr' & ->). apply steady_data in Hst.
  destruct Hend as (first & last & _ & _ & Hcl%closing_data).
  assert (Hacc : accounts_ok (validator_accounts s')) by (destruct Hst as (? & ? & _ & _ & Hlv); apply Hlv).
  exists s'. split_and!; try done.
  - intros k. rewrite (next_status _ _ Hget).
    pose proof (next_joining _ _ Hcl k) as Hn. pose proof (λ st, dp_serving _ _ (cl_departing _ _ Hcl) k st) as Hdp.
    unfold turned. change (validator_accounts s) with (validator_accounts (data_of s)).
    destruct (bool_decide_reflect (k ∈ next_committee (data_of s))) as [Hin|Hin],
      (bool_decide_reflect (k ∈ removed_validators (data_of s))) as [Hrv|Hrv].
    + specialize (Hdp _ Hrv (Hn Hin)). done.
    + rewrite Hn by done. simpl. naive_solver.
    + destruct (status_of _ k) as [st|]; [|naive_solver]. simpl. split; [by destruct st|naive_solver].
    + destruct (status_of _ k) as [st|]; naive_solver.
  - intros k Hk. pose proof (next_leaving _ _ _ Hcl Hget) as [_ _ _ Hsub]. by apply Hsub, not_elem_of_nil in Hk.
  - by apply validators_where_valid.
  - by apply validators_where_valid.
Qed.

Context `{He : !EngineClient}.

(** C3: A block is executed completely or not at all.  Let a state of a running chain be
    given the next block, with any content, by any execution client.  [execute_block]
    returns (it never panics, whatever bytes the requests are).  If it answers [Applied],
    the client found the payload valid and adopted it as head, the block has the epoch and
    the withdrawals the state asks for, and the new state, which does not depend on the
    client nor on the safe/finalized hash sent to it, is again one of the chain.  With any
    other answer the state is unchanged. *)
Theorem execute_block_is_atomic engine b s fork_finalized :
  reachable s → steady s → block_height b = (latest_height s + 1)%Z → capacity b s →
  ∃ engine' r s', execute_block engine b s consts domain fork_finalized = Some (engine', r, s') ∧
    match r with
    | Ok Applied =>
        apply_block b s consts domain = Some s' ∧ reachable s' ∧ applied b s s' ∧ (steady s' ∨ at_end s') ∧
        block_epoch b = epoch s ∧
        expected_withdrawals s (block_height b) = Some (payload_withdrawals (payload b)) ∧
        (check_payload engine b).2 = Ok VALID ∧
        let fin := default (eth_block_hash b) fork_finalized in
        commit_hash (check_payload engine b).1 (mkForkchoiceState (eth_block_hash b) fin fin) = (engine', Ok VALID)
    | _ => s' = s
    end.
Proof.
  intros Hr Hst Hh Hcap. unfold execute_block.
  destruct (Z.eqb_spec (block_epoch b) (epoch s)) as [Hep|]; [|by eexists _, _, _]. simpl negb. cbv iota.
  destruct (check_payload engine b) as [e1 [st|err]]; [|by eexists _, _, _]. cbv zeta.
  destruct (is_syncing st) eqn:Hs1; [by eexists _, _, _|].
  destruct (is_valid st) eqn:Hv1; [|by eexists _, _, _]. simpl negb. cbv iota.
  assert (is_Some (expected_withdrawals s (block_height b))) as [ws Hws].
  { destruct Hst as (first & last & Hck & Hlt & Hlv). pose proof (ck_height _ _ _ Hck).
    unfold expected_withdrawals. destruct (clock_tests first last s (block_height b) Hck) as [-> _];
      [apply Hlv|lia|]. by eexists. }
  rewrite Hws. cbn [mbind option_bind]. case_bool_decide as Hw; [|by eexists _, _, _]. simpl negb. cbv iota.
  unfold commit_forkchoice. destruct (commit_hash e1 _) as [e2 [st2|err]] eqn:Hcm; [|by eexists _, _, _].
  destruct (is_syncing st2) eqn:Hs2; [by eexists _, _, _|].
  destruct (is_valid st2) eqn:Hv2; [|by eexists _, _, _]. simpl negb. cbv iota.
  destruct (apply_block_total b s Hr Hst) as (s' & E & Hr' & Hap & Hres); [by split; [|rewrite Hws, Hw]|done|].
  rewrite E. cbn [mbind option_bind]. eexists _, _, s'. split; [done|].
  destruct st, st2; try discriminate. split_and!; try done. by rewrite Hw.
Qed.
End tree.
End facts.
