(* ===== verification/Chain.v ===== *)
(** * Chain: the finalized chain as a sequence of states

    [finalize_block] is what finalizing a block does to the canonical state when the
    block is executed directly: its effects, the forkchoice of a final block and, on
    the last block of an epoch, the boundary.  [chain_from] is a chain of blocks that
    fit the states before them.  A chain from a state of a running node never panics
    and stays one. *)
From S2P Require Import Prelude Codec Crypto BTree Epocher Account ExecutionRequest ProtocolParams.
From S2P Require Import Withdrawal SszTree SszHash SszStateTree SszStateTreeFacts ConsensusState StateSync StateCodec.
From S2P Require Import StateRun StatePayouts StateInvariant StateProcess StateBoundary Block Execution ExecutionFacts.

Section coherent.
Context `{Hc : Crypto} `{Hl : SszLib} {T : Type} `{!StateTree T} `{!StateTreeOk T}.
Implicit Types (s : ConsensusState T).

Lemma rel_functional (f : Frozen T) s1 s2 u : rel true true f s1 u → rel true true f s2 u → s1 = s2.
Proof.
  intros ([a1 a2 a3 a4 a5 a6 a7 a8] & -> & <- & Hw1 & Hd1 & _) ([b1 b2 b3 b4 b5 b6 b7 b8] & -> & E & Hw2 & Hd2 & _).
  unfold frozen_of in E. simpl in *. injection E as -> -> -> -> -> ->.
  rewrite (Hw1 eq_refl), (Hd1 eq_refl), (Hw2 eq_refl), (Hd2 eq_refl). done.
Qed.

(** An operation that writes what is there already changes nothing, the tree included. *)
Lemma run_op_fix s op :
  coherent s → keeps_frozen op = true → run_state_op (data_of s) op = Some (data_of s) →
  run_state_op s op = Some s.
Proof.
  intros [Hs [c Ht]] Hk Hd.
  pose proof (run_state_op_sim (frozen_in c s) s (data_of s) op Hk (rel_data c s Hs Ht)) as Hsim.
  rewrite Hd in Hsim. inversion Hsim as [s1 ? Hr E1 E2|]; subst.
  f_equal. eapply rel_functional; [exact Hr|by apply rel_data].
Qed.
End coherent.

Section chain.
Context `{Hc : Crypto} `{!CryptoOk} `{Hl : SszLib} `{!SszLibOk} `{Hb : BlockLib}.
Context (consts : ProtocolConsts) (domain key : bytes).

Definition finalize_block {T} `{!StateTree T} (b : Block) (s : ConsensusState T) : option (ConsensusState T) :=
  s ← apply_block b s consts domain;
  s ← set_forkchoice_safe_and_finalized s (head_block_hash (forkchoice s));
  last ← is_last_block_of_epoch (epocher s) (block_height b);
  if last : bool then epoch_boundary s b key else Some s.

Implicit Type s : ConsensusState SszStateTree.

(** The block fits the state it is applied to. *)
Record fits (b : Block) s : Prop := {
  ft_parent : block_parent b = head_digest s;
  ft_epoch : block_epoch b = epoch s;
  ft_extends : extends b s;
  ft_capacity : capacity consts b s;
  ft_next : ∀ s', apply_block b s consts domain = Some s' → at_end consts s' → epoch_capacity consts s'
}.

Lemma forkchoice_settled b s s' :
  reachable s' → applied b s s' →
  set_forkchoice_safe_and_finalized s' (head_block_hash (forkchoice s')) = Some s'.
Proof.
  intros Hr Hap. change (run_state_op s' (op_set_forkchoice_safe_and_finalized (head_block_hash (forkchoice s'))) = Some s').
  apply run_op_fix; [by apply reachable_coherent|done|]. cbn [run_state_op].
  unfold set_forkchoice_safe_and_finalized. rewrite !on_tree_data. cbn [mbind option_bind]. rewrite on_tree_data.
  pose proof (ap_forkchoice _ _ _ Hap) as E. unfold data_of. simpl. by rewrite E.
Qed.

(** The boundary on a state with its tree. *)
Lemma boundary_total b s :
  reachable s → at_end consts s → epoch_capacity consts s →
  ∃ s', epoch_boundary s b key = Some s' ∧ reachable s' ∧ steady consts s' ∧ epoch s' = (epoch s + 1)%Z ∧
    latest_height s' = latest_height s ∧ head_digest s' = head_digest s.
Proof.
  intros Hr Hend Hcap.
  destruct (boundary_steps consts b key (data_of s)) as (d & Hd & Hst & He & Hh & _ & _ & _ & _ & Hdg & _);
    [by apply at_end_data|done|].
  destruct (boundary_lift b key s d Hr Hd) as (s' & E & Hr' & ->). exists s'.
  split; [exact E|]. split; [exact Hr'|]. split; [by apply steady_data|]. by split_and!.
Qed.

(** Finalizing a fitting block: it returns, it is the effects of the block and on the
    last block the next epoch. *)
Lemma finalize_block_total b s :
  reachable s → steady consts s → fits b s →
  ∃ s1 s', apply_block b s consts domain = Some s1 ∧ finalize_block b s = Some s' ∧
    set_forkchoice_safe_and_finalized s1 (head_block_hash (forkchoice s1)) = Some s1 ∧
    reachable s' ∧ steady consts s' ∧ latest_height s' = block_height b ∧ head_digest s' = block_digest b ∧
    ((s' = s1 ∧ is_last_block_of_epoch (epocher s1) (block_height b) = Some false) ∨
     (epoch s' = (epoch s1 + 1)%Z ∧ epoch_boundary s1 b key = Some s' ∧
      is_last_block_of_epoch (epocher s1) (block_height b) = Some true)).
Proof.
  intros Hr Hst [_ _ Hex Hcap Hnext].
  destruct (apply_block_total consts domain b s Hr Hst Hex Hcap) as (s1 & E1 & Hr1 & Hap & Hres).
  pose proof (forkchoice_settled b s s1 Hr1 Hap) as Efc. pose proof (ap_height _ _ _ Hap) as Hh.
  exists s1. unfold finalize_block. rewrite E1. cbn [mbind option_bind]. rewrite Efc. cbn [mbind option_bind].
  assert (Hlast : ∀ first last, clock first last s1 → (0 ≤ epoch s1)%Z →
    is_last_block_of_epoch (epocher s1) (block_height b) = Some (block_height b =? last)%Z).
  { intros first last Hck He. pose proof (ck_height _ _ _ Hck). destruct Hst as (f0 & l0 & Hck0 & Hlt0 & _).
    pose proof (ck_bounds _ _ _ Hck) as B1. pose proof (ck_bounds _ _ _ Hck0) as B0.
    rewrite (ap_epocher _ _ _ Hap), (ap_epoch _ _ _ Hap), B0 in B1. injection B1 as -> ->.
    pose proof (ck_height _ _ _ Hck0). pose proof (ex_height _ _ Hex).
    by apply (clock_tests first last s1 (block_height b) Hck He); lia. }
  destruct Hres as [Hs|He].
  - destruct Hs as (first & last & Hck & Hlt & Hlv). exists s1.
    rewrite (Hlast first last Hck (proj1 (ls_epoch _ _ _ _ Hlv))). cbn [mbind option_bind].
    rewrite (proj2 (Z.eqb_neq _ _)) by lia. split_and!; try done; [by exists first, last|apply Hap|by left].
  - pose proof He as (first & last & Hck & Heq & Hcl).
    destruct (boundary_total b s1 Hr1 He (Hnext s1 E1 He)) as (s' & E & Hr' & Hst' & Hep & Hh' & Hd').
    exists s'. rewrite (Hlast first last Hck (proj1 (cl_epoch _ _ Hcl))). cbn [mbind option_bind].
    rewrite (proj2 (Z.eqb_eq _ _)) by lia. rewrite Hh', Hd'.
    split_and!; try done; [apply Hap|right; by split_and!].
Qed.

(** A chain of blocks from a state, each fitting the state before it. *)
Inductive chain_from (s0 : ConsensusState SszStateTree) : list Block → ConsensusState SszStateTree → Prop :=
| chain_nil : chain_from s0 [] s0
| chain_snoc bs s b s' :
    chain_from s0 bs s → fits b s → finalize_block b s = Some s' → chain_from s0 (bs ++ [b]) s'.

Lemma chain_steady s0 bs s :
  reachable s0 → steady consts s0 → chain_from s0 bs s → reachable s ∧ steady consts s.
Proof.
  intros Hr0 Hs0. induction 1 as [|bs s b s' _ [Hr Hs] Hf E]; [done|].
  destruct (finalize_block_total b s Hr Hs Hf) as (s1 & s2 & _ & E2 & _ & Hr' & Hs' & _).
  rewrite E in E2. by apply (inj Some) in E2 as <-.
Qed.

Lemma chain_snoc_inv s0 bs b s' :
  chain_from s0 (bs ++ [b]) s' → ∃ s, chain_from s0 bs s ∧ fits b s ∧ finalize_block b s = Some s'.
Proof.
  remember (bs ++ [b]) as l eqn:E. destruct 1 as [|bs' s b' s' Hch Hf Hs].
  - by destruct bs.
  - apply app_inj_tail in E as [-> ->]. by exists s.
Qed.
Lemma chain_unique s0 bs s1 s2 : chain_from s0 bs s1 → chain_from s0 bs s2 → s1 = s2.
Proof.
  revert s1 s2. induction bs as [|b bs IH] using rev_ind; intros s1 s2 H1 H2.
  - inversion H1 as [E|? ? ? ? ? ? ? E]; [|by destruct bs]. inversion H2 as [E'|? ? ? ? ? ? ? E']; [|by destruct bs].
    congruence.
  - apply chain_snoc_inv in H1 as (t1 & H1 & _ & E1), H2 as (t2 & H2 & _ & E2).
    rewrite (IH t1 t2 H1 H2) in E1. rewrite E1 in E2. by apply (inj Some) in E2.
Qed.
Lemma chain_prefix s0 bs s n : chain_from s0 bs s → ∃ s', chain_from s0 (take n bs) s'.
Proof.
  induction 1 as [|bs s b s' Hch [t IH] Hf Hs]; [exists s0; rewrite take_nil; constructor|].
  destruct (decide (n ≤ length bs)); [exists t; by rewrite take_app_le|].
  exists s'. rewrite take_ge by (rewrite length_app; simpl; lia). by econstructor.
Qed.

(** Heights along a chain. *)
Lemma chain_heights s0 bs s :
  reachable s0 → steady consts s0 → chain_from s0 bs s →
  latest_height s = (latest_height s0 + Z.of_nat (length bs))%Z ∧
  ∀ i b, bs !! i = Some b → block_height b = (latest_height s0 + Z.of_nat i + 1)%Z.
Proof.
  intros Hr0 Hs0. induction 1 as [|bs s b s' Hch [IH1 IH2] Hf Hs].
  { split; [simpl; lia|done]. }
  destruct (chain_steady s0 bs s Hr0 Hs0 Hch) as [Hr Hst].
  destruct (finalize_block_total b s Hr Hst Hf) as (s1 & s2 & _ & E2 & _ & _ & _ & Hh & _).
  rewrite Hs in E2. apply (inj Some) in E2 as <-. pose proof (ex_height _ _ (ft_extends _ _ Hf)).
  rewrite length_app. simpl. split; [lia|]. intros i b' [Hi|[Hi Hb']]%lookup_app_Some; [by apply IH2|].
  destruct (i - length bs) eqn:Ei; [|done]. injection Hb' as <-. lia.
Qed.

(** The next block of a chain. *)
Lemma chain_next s0 agreed send n s b :
  reachable s0 → steady consts s0 → chain_from s0 agreed send → chain_from s0 (take n agreed) s → n ≤ length agreed →
  b ∈ agreed → block_height b = (latest_height s + 1)%Z →
  agreed !! n = Some b ∧ take (S n) agreed = take n agreed ++ [b] ∧
  ∃ s', fits b s ∧ finalize_block b s = Some s' ∧ chain_from s0 (take (S n) agreed) s'.
Proof.
  intros Hr0 Hs0 Hend Hch Hn [i Hi]%list_elem_of_lookup Hh.
  destruct (chain_heights s0 _ _ Hr0 Hs0 Hend) as [_ Hall].
  destruct (chain_heights s0 _ _ Hr0 Hs0 Hch) as [Hlat _]. rewrite length_take in Hlat.
  assert (i = n) as -> by (specialize (Hall i b Hi); lia).
  assert (take (S n) agreed = take n agreed ++ [b]) as E by by apply take_S_r.
  split_and!; [done|done|]. destruct (chain_prefix s0 agreed send (S n) Hend) as [s' Hs'].
  pose proof Hs' as Hs2. rewrite E in Hs2. apply chain_snoc_inv in Hs2 as (s2 & H2 & Hf & E2).
  rewrite (chain_unique _ _ _ _ H2 Hch) in *. by exists s'.
Qed.

(** ** A chain found by running its data

    The same on the state without its tree, where it can be evaluated. *)
Definition epoch_capacityb {T} (s : ConsensusState T) : bool :=
  let ep := epocher s in let t := (current_epoch ep + 2)%Z in
  (0 <=? epoch s + 1 + validator_withdrawal_num_epochs consts)%Z
  && (epoch s + 1 + validator_withdrawal_num_epochs consts <=? u64_max)%Z
  && (t + 1 <=? u64_max)%Z && (start_rev (rev (segments ep)) t + len_at (segments ep) t <=? u64_max)%Z
  && (start_rev (rev (segments ep)) t + MAX_EPOCH_LENGTH <=? u64_max)%Z.
Lemma epoch_capacity_test {T} (s : ConsensusState T) : epoch_capacityb s = true → epoch_capacity consts s.
Proof.
  unfold epoch_capacityb. rewrite !andb_true_iff, !Z.leb_le. intros [[[[? ?] ?] ?] ?].
  split; [by split|]. by split_and!.
Qed.
Definition next_data (u : ConsensusState ()) (b : Block) : option (ConsensusState ()) :=
  if bool_decide (block_parent b = head_digest u) && bool_decide (block_epoch b = epoch u) && block_fitb consts b u then
    u ← apply_block b u consts domain;
    if epoch_capacityb u then
      last ← is_last_block_of_epoch (epocher u) (block_height b);
      if last : bool then epoch_boundary u b key else Some u
    else None
  else None.

Lemma next_data_chain s b d :
  reachable s → steady consts s → next_data (data_of s) b = Some d →
  ∃ s', fits b s ∧ finalize_block b s = Some s' ∧ reachable s' ∧ steady consts s' ∧ data_of s' = d.
Proof.
  intros Hr Hst. unfold next_data. destruct (bool_decide (block_parent b = _)) eqn:E1; [|done].
  destruct (bool_decide (block_epoch b = _)) eqn:E2; [|done]. destruct (block_fitb consts b (data_of s)) eqn:E3; [|done].
  apply bool_decide_eq_true in E1, E2. cbn [andb]. intros (d1 & Ed1 & E)%bind_Some.
  destruct (apply_block_lift consts domain b s d1 Hr Ed1) as (s1 & Es1 & Hr1 & ->).
  destruct (epoch_capacityb _) eqn:Ecap; [|done]. apply epoch_capacity_test in Ecap.
  assert (extends b s ∧ capacity consts b s) as [Hex Hcap].
  { revert E3. unfold block_fitb. rewrite !andb_true_iff, !bool_decide_eq_true, expected_data.
    intros [[[[[[? ?] ?] ?] ?] ?] _]. split; [by split|split; [unfold is_u64; simpl in *; lia|simpl in *; lia]]. }
  assert (fits b s) as Hfit by (split; try done; intros s1' Es1' _; rewrite Es1 in Es1'; by apply (inj Some) in Es1' as <-).
  destruct (finalize_block_total b s Hr Hst Hfit) as (s1' & s' & F1 & F2 & _ & Hr' & Hst' & _ & _ & Hlast).
  rewrite Es1 in F1. apply (inj Some) in F1 as <-. exists s'. split_and!; try done.
  change (epocher (data_of s1)) with (epocher s1) in E.
  destruct Hlast as [[-> El]|(_ & Ebd & El)]; rewrite El in E; cbn [mbind option_bind] in E; [by apply (inj Some) in E|].
  destruct (boundary_lift b key s1 d Hr1 E) as (s2 & Es2 & _ & ->). rewrite Ebd in Es2. by apply (inj Some) in Es2 as <-.
Qed.

Lemma chain_of_data bs s d :
  reachable s → steady consts s → for_each next_data (data_of s) bs = Some d → ∃ s', chain_from s bs s' ∧ data_of s' = d.
Proof.
  intros Hr Hst. enough (∀ bs0 s1, chain_from s bs0 s1 → for_each next_data (data_of s1) bs = Some d →
    ∃ s', chain_from s (bs0 ++ bs) s' ∧ data_of s' = d) as Hgen by (apply (Hgen []); constructor).
  induction bs as [|b bs IH]; intros bs0 s1 Hch E; cbn [for_each] in E.
  { injection E as <-. exists s1. by rewrite app_nil_r. }
  apply bind_Some in E as (d1 & E1 & E). destruct (chain_steady _ _ _ Hr Hst Hch) as [Hr1 Hs1].
  destruct (next_data_chain s1 b d1 Hr1 Hs1 E1) as (s2 & Hf & Hfin & _ & _ & <-).
  destruct (IH (bs0 ++ [b]) s2) as (s' & Hch' & Ed); [by econstructor|done|]. exists s'.
  rewrite <-(assoc_L (++)) in Hch'. done.
Qed.
End chain.
