(* ===== verification/Committee.v ===== *)
(** * Committee: the signers of the epochs of a chain

    [apply_block] keeps the signers of an epoch, [epoch_boundary] replaces them by
    those that are not leaving and those staged to join; the checkpoint made at the
    penultimate block is of a state with the same accounts and staged changes as the
    one the last block is applied to. *)
From S2P Require Import Prelude Codec Crypto BTree Epocher Account ExecutionRequest ProtocolParams.
From S2P Require Import Withdrawal SszHash SszStateTree SszStateTreeFacts ConsensusState StateSync StateCodec StatePayouts.
From S2P Require Import StateRun StateInvariant StateProcess StateBoundary StateSigners Block Execution ExecutionFacts Chain.

Section committee.
Context `{Hc : Crypto} `{!CryptoOk} `{Hl : SszLib} `{Hb : BlockLib}.
Context (consts : ProtocolConsts) (domain key : bytes).
Notation warm_up := (validator_num_warm_up_epochs consts).
Notation delay := (validator_withdrawal_num_epochs consts).
Implicit Type u : ConsensusState ().

(** The requests of a block, before the last block of the epoch and on it. *)
Lemma requests_signers b u u' first last :
  clock first last u → (latest_height u < last)%Z → live (latest_height u + 1 <? last)%Z delay 0 u → funded u →
  block_height b = (latest_height u + 1)%Z → expected_withdrawals u (block_height b) = Some (payload_withdrawals (payload b)) →
  (1 ≤ warm_up)%Z → is_u64 (epoch u + warm_up) →
  (next_index (withdrawal_queue u) + index_need u (pending_execution_requests u) < u64_max)%Z →
  (0 < prospective_minimum_stake u)%Z →
  process_execution_requests b (block_height b) u domain consts = Some u' →
  funded u' ∧
  if (block_height b =? last)%Z then
    removed_validators u' = removed_validators u ∧ added_validators u' = added_validators u ∧
    ∀ k, k ∉ removed_validators u → signer_of (validator_accounts u') k = signer_of (validator_accounts u) k
  else ∀ k, signer_of (validator_accounts u') k = signer_of (validator_accounts u) k.
Proof.
  intros Hck Hlt Hlv Hf Hh Hw Hwu1 Hwu2 Hroom Hmin E. assert (0 ≤ epoch u)%Z as He by apply Hlv.
  pose proof (ck_height _ _ _ Hck) as [Hht _].
  destruct (clock_tests first last u (block_height b) Hck He ltac:(lia)) as [Hlast Hpen].
  unfold process_execution_requests in E. rewrite Hpen in E. cbn [mbind option_bind] in E.
  unfold expected_withdrawals in Hw. rewrite Hlast in Hw. cbn [mbind option_bind] in Hw. injection Hw as Hw.
  rewrite <-Hh in Hlv. destruct (Z.eqb_spec (block_height b) (last - 1)) as [El|Hn1].
  - rewrite (proj2 (Z.ltb_lt _ _)) in Hlv by lia. rewrite (proj2 (Z.eqb_neq _ _)) by lia.
    assert (Hlv' : live true delay (0 + index_need u (pending_execution_requests u)) u).
    { destruct Hlv as [H1 H2 [Q1 Q2 Q3 Q4] Hu H4 H5 H6 H7 H8]. split; done. }
    destruct (process_buffered_steps delay 0 u domain warm_up Hlv') as (u1 & E1 & Hl1 & Ho1); [done..|].
    rewrite E1 in E. cbn [mbind option_bind] in E.
    destruct (enforce_minimum_stake_steps delay 0 u1 Hl1) as (u2 & E2 & Hl2 & Ho2). rewrite E2 in E. cbn [mbind option_bind] in E.
    pose proof (f_equal epocher Ho1) as P1. pose proof (f_equal epocher Ho2) as P2. simpl in P1, P2.
    rewrite P2, P1, Hlast in E. cbn [mbind option_bind] in E. rewrite (proj2 (Z.eqb_neq _ _)) in E by lia. injection E as <-.
    destruct (process_buffered_follows u domain warm_up delay u1 E1) as [S1 F1].
    destruct (enforce_follows delay 0 u1 u2 Hl1 E2) as [S2 F2].
    split; [by apply F2, F1|]. intros k. by rewrite S2, S1.
  - cbn [mbind option_bind] in E. rewrite Hlast in E. cbn [mbind option_bind] in E.
    destruct (Z.eqb_spec (block_height b) last) as [El|Hn2]; [|by injection E as <-].
    rewrite <-Hw in E. destruct (payouts_signers _ _ _ Hlv Hf Hmin _ E) as (? & ? & ? & ?). by split_and!.
Qed.

(** The state a checkpoint is made of, against the state that carries it. *)
Record snapshot_of {T} (c s : ConsensusState T) : Prop := {
  sn_epoch : epoch c = epoch s;
  sn_height : latest_height c = latest_height s;
  sn_head : head_digest c = head_digest s;
  sn_epocher : epocher c = epocher s;
  sn_accounts : validator_accounts c = validator_accounts s;
  sn_added : added_validators c = added_validators s;
  sn_removed : removed_validators c = removed_validators s
}.

(** The writes after the requests: the accounts stay, and the penultimate block leaves
    its checkpoint. *)
Lemma finish_block_checkpoint b u3 u' p :
  is_penultimate_block_of_epoch (epocher u3) (block_height b) = Some p →
  head_block_hash (forkchoice u3) = eth_block_hash b →
  (s ← set_latest_height u3 (block_height b);
   s ← set_view s (block_view b);
   s ← set_head_digest s (block_digest b);
   penultimate ← is_penultimate_block_of_epoch (epocher s) (block_height b);
   s ← (if penultimate : bool then set_pending_checkpoint s (Some (checkpoint_new s)) else Some s);
   s ← set_forkchoice_safe_and_finalized s (head_block_hash (forkchoice s));
   capture_state_root s (block_number (payload b))) = Some u' →
  (funded u3 → funded u') ∧ validator_accounts u' = validator_accounts u3 ∧
  added_validators u' = added_validators u3 ∧ removed_validators u' = removed_validators u3 ∧
  if p then ∃ c, pending_checkpoint u' = Some (checkpoint_new c) ∧ snapshot_of c u' ∧ pending_checkpoint c = pending_checkpoint u3
  else pending_checkpoint u' = pending_checkpoint u3.
Proof.
  intros Hp Hhead E. destruct (finish_block_steps b u3 p Hp Hhead) as (u1 & cp & bs & E1 & -> & Ecp).
  rewrite E in E1. apply (inj Some) in E1 as ->. split_and!; [by intros [? ? ?]|done|done|done|].
  destruct p; [|exact Ecp]. eexists. split; [exact Ecp|]. by split.
Qed.

(** One block of an epoch. *)
Lemma apply_block_signers b u u' first last :
  clock first last u → (latest_height u < last)%Z → live (latest_height u + 1 <? last)%Z delay 0 u →
  extends b u → capacity consts b u → funded u → (0 < prospective_minimum_stake u)%Z →
  apply_block b u consts domain = Some u' →
  funded u' ∧
  if (block_height b =? last)%Z then
    removed_validators u' = removed_validators u ∧ added_validators u' = added_validators u ∧
    pending_checkpoint u' = pending_checkpoint u ∧
    ∀ k, k ∉ removed_validators u → signer_of (validator_accounts u') k = signer_of (validator_accounts u) k
  else
    (∀ k, signer_of (validator_accounts u') k = signer_of (validator_accounts u) k) ∧
    if (block_height b =? last - 1)%Z then
      ∃ c, pending_checkpoint u' = Some (checkpoint_new c) ∧ snapshot_of c u' ∧ pending_checkpoint c = pending_checkpoint u
    else pending_checkpoint u' = pending_checkpoint u.
Proof.
  intros Hck Hlt Hlv [Hh Hw] [[Hwu1 Hwu2] Hix] Hf Hmin E.
  unfold apply_block in E. cbv zeta in E. unfold set_forkchoice_head in E. rewrite on_tree_data in E. cbn [mbind option_bind] in E.
  rewrite buffer_data in E. cbn [mbind option_bind] in E.
  match type of E with context [process_execution_requests _ _ ?v _ _] => set (u2 := v) in E end.
  assert (Hck2 : clock first last u2) by (by destruct Hck; split).
  assert (Hlv2 : live (latest_height u2 + 1 <? last)%Z delay 0 u2).
  { destruct Hlv as [H1 H2 H3 H4 H5 H6 H7 H8 H9]. by split; [..|destruct H9; split]. }
  apply bind_Some in E as (u3 & E3 & E).
  destruct (process_requests_steps consts domain b u2 first last (block_height b) Hck2 Hh ltac:(lia)
    ltac:(by rewrite Hh) Hw Hwu1 Hwu2) as (u3' & E3' & Ho & _).
  { unfold index_need. change (max_deposits_per_epoch u2) with (max_deposits_per_epoch u).
    change (pending_execution_requests u2) with (pending_execution_requests u ++ execution_requests b).
    change (withdrawal_queue u2) with (withdrawal_queue u). lia. }
  rewrite E3 in E3'. injection E3' as <-.
  destruct (requests_signers b u2 u3 first last Hck2 Hlt Hlv2) as [Hf3 H3]; try done.
  { destruct Hf. by split. }
  { unfold index_need. change (max_deposits_per_epoch u2) with (max_deposits_per_epoch u).
    change (pending_execution_requests u2) with (pending_execution_requests u ++ execution_requests b).
    change (withdrawal_queue u2) with (withdrawal_queue u). lia. }
  pose proof (f_equal epocher Ho) as Eep. pose proof (f_equal pending_checkpoint Ho) as Ecp. simpl in Eep, Ecp.
  destruct (finish_block_checkpoint b u3 u' (block_height b =? last - 1)%Z) as (Hf' & Ea & Ead & Erm & Hcp);
    [|by rewrite (f_equal forkchoice Ho : forkchoice u3 = forkchoice u2)|exact E|].
  { rewrite Eep. destruct (clock_tests first last u (block_height b) Hck) as [_ ->]; [apply Hlv| |done].
    pose proof (ck_height _ _ _ Hck). lia. }
  split; [by apply Hf'|]. rewrite Ea, Ead, Erm. destruct (Z.eqb_spec (block_height b) last) as [El|Hne].
  - rewrite (proj2 (Z.eqb_neq _ _)) in Hcp by lia. rewrite Hcp, Ecp. destruct H3 as (-> & -> & H3). by split_and!.
  - split; [exact H3|]. destruct (_ =? _)%Z; [|by rewrite Hcp, Ecp]. by rewrite Ecp in Hcp.
Qed.

(** The seats the next epoch fills. *)
Definition seats {T} (s : ConsensusState T) : list (bytes * bytes) :=
  map (λ v, (node_key v, consensus_key v)) (default [] (BTree.get (added_validators s) (epoch s + 1)%Z)).
Lemma seats_keys u : map fst (seats u) = next_committee u.
Proof. unfold seats, next_committee. rewrite map_map. done. Qed.

(** A staged seat is the account of its validator. *)
Lemma seat_account n u k c :
  closing n u → (k, c) ∈ seats u ↔ k ∈ next_committee u ∧ ∃ a, BTree.get (validator_accounts u) k = Some a ∧
    status a = Joining ∧ consensus_public_key a = c.
Proof.
  intros Hcl. unfold seats, next_committee. destruct (BTree.get (added_validators u) _) as [vs|] eqn:Eg; simpl;
    [|split; [by intros ?%not_elem_of_nil|by intros [?%not_elem_of_nil _]]].
  apply (sg_entry _ _ _ _ (cl_staged _ _ Hcl)) in Eg as (_ & _ & _ & Hf). rewrite Forall_forall in Hf.
  assert (Hj : ∀ v, v ∈ vs → ∃ a, BTree.get (validator_accounts u) (node_key v) = Some a ∧ status a = Joining ∧
    consensus_public_key a = consensus_key v).
  { intros v [_ Hj]%Hf. unfold joining_of, join_view in Hj. destruct (BTree.get _ (node_key v)) as [a|]; [|done].
    simpl in Hj. case_bool_decide; [|done]. injection Hj as _ E. by exists a. }
  split.
  - intros (v & [= -> ->] & Hv)%list_elem_of_fmap. split; [by apply list_elem_of_fmap_2|by apply Hj].
  - intros [(v & -> & Hv)%list_elem_of_fmap (a & Ha & _ & <-)]. apply list_elem_of_fmap. exists v. split; [|done].
    destruct (Hj v Hv) as (a' & Ha' & _ & <-). congruence.
Qed.

(** The boundary: those that leave go, the staged ones sit down. *)
Lemma boundary_signers b u u' :
  at_end consts u → epoch_capacity consts u → funded u → (0 < validator_minimum_stake u')%Z →
  epoch_boundary u b key = Some u' →
  funded u' ∧ pending_checkpoint u' = None ∧
  ∀ k c, signer_of (validator_accounts u') k = Some c ↔
    (k, c) ∈ seats u ∨ signer_of (validator_accounts u) k = Some c ∧ k ∉ removed_validators u.
Proof.
  intros Hend Hcap Hf Hmin E.
  destruct (boundary_steps consts b key u Hend Hcap) as (u1 & E1 & _ & _ & _ & _ & Hget & _ & _ & _ & Hq & Hd & Hcp).
  rewrite E in E1. apply (inj Some) in E1 as <-. destruct Hend as (first & last & _ & _ & Hcl).
  pose proof (next_joining _ _ Hcl) as Hj. pose proof (cl_departing _ _ Hcl) as [_ _ Hsv Hsub].
  pose proof (fu_solvent _ Hf) as Hso. split_and!; [|done|].
  - split; [done|rewrite Hd; apply Hf|]. rewrite Hq. intros k a'. rewrite Hget. intros (a & Hg & ->)%fmap_Some. simpl.
    destruct (Hso k a Hg) as [Hb0 Hw]. unfold turned. specialize (Hj k). unfold status_of in Hj. rewrite Hg in Hj. simpl in Hj.
    destruct (bool_decide_reflect (k ∈ next_committee u)) as [Hin|Hin].
    + specialize (Hj Hin). injection Hj as Hj. split; [intros _; apply Hb0; by right|]. intros _ w Hw1 Hw2.
      assert (joining_of (validator_accounts u) k = Some (joining_epoch a, consensus_public_key a)) as Hjo.
      { unfold joining_of, join_view. rewrite Hg. simpl. by rewrite bool_decide_true. }
      destruct (sg_joining _ _ _ _ (cl_staged _ _ Hcl) _ _ _ Hjo) as [Hz _].
      by destruct (pending_count_zero _ _ _ (qi_ok _ _ _ (cl_queue _ _ Hcl)) Hz Hw1).
    + destruct (bool_decide _); [destruct (status a); split; naive_solver|by split].
  - intros k c. rewrite (seat_account _ u k c Hcl). unfold signer_of. rewrite Hget.
    specialize (Hj k). specialize (Hsv k). specialize (Hsub k). unfold status_of in Hj, Hsv, Hsub.
    destruct (BTree.get (validator_accounts u) k) as [a|]; [|naive_solver]. simpl in *.
    unfold signer, turned_account, turned. simpl.
    destruct (bool_decide_reflect (k ∈ next_committee u)) as [Hin|Hin], (bool_decide_reflect (k ∈ removed_validators u)) as [Hr|Hr].
    + specialize (Hj Hin). injection Hj as Hj. specialize (Hsv _ Hr eq_refl). by rewrite Hj in Hsv.
    + specialize (Hj Hin). injection Hj as Hj. simpl. rewrite Hj. simpl. naive_solver.
    + split; [by destruct (status a)|naive_solver].
    + destruct (status a); simpl; naive_solver.
Qed.

(** ** Finalizing a block *)
Context `{!SszLibOk}.
Implicit Type s : ConsensusState SszStateTree.

Definition floored {T} (s : ConsensusState T) : Prop :=
  (0 < validator_minimum_stake s)%Z ∧ (0 < prospective_minimum_stake s)%Z.

(** A block that does not end its epoch keeps the committee; the last but one leaves the
    checkpoint of the epoch. *)
Definition kept_committee (b : Block) (last : Z) s s' : Prop :=
  epoch s' = epoch s ∧ epocher s' = epocher s ∧
  (∀ k, signer_of (validator_accounts s') k = signer_of (validator_accounts s) k) ∧
  if (block_height b =? last - 1)%Z then
    ∃ c : ConsensusState (), pending_checkpoint s' = Some (checkpoint_new c) ∧ snapshot_of c (data_of s') ∧
      pending_checkpoint c = pending_checkpoint s
  else pending_checkpoint s' = pending_checkpoint s.
(** The last one seats the next committee. *)
Definition next_seated s s' : Prop :=
  epoch s' = (epoch s + 1)%Z ∧ pending_checkpoint s' = None ∧
  ∀ k c, signer_of (validator_accounts s') k = Some c ↔
    (k, c) ∈ seats s ∨ signer_of (validator_accounts s) k = Some c ∧ k ∉ removed_validators s.

Lemma finalize_signers b s s' :
  reachable s → steady consts s → fits consts domain b s → funded (data_of s) → floored s → floored s' →
  finalize_block consts domain key b s = Some s' →
  funded (data_of s') ∧ ∃ first last, clock first last s ∧
    is_last_block_of_epoch (epocher s) (block_height b) = Some (block_height b =? last)%Z ∧
    if (block_height b =? last)%Z then next_seated s s' else kept_committee b last s s'.
Proof.
  intros Hr Hst Hfit Hf [_ Hmin] [Hmin' _] E. pose proof Hfit as [_ _ Hex Hcap Hnext].
  destruct (finalize_block_total consts domain key b s Hr Hst Hfit) as (s1 & s2 & E1 & E2 & _ & _ & _ & _ & _ & Hlast).
  rewrite E in E2. apply (inj Some) in E2 as <-.
  destruct Hst as (first & last & Hck & Hlt & Hlv). pose proof (proj2 (clock_data first last s) Hck) as Hckd.
  assert (0 ≤ epoch s)%Z as He by apply Hlv. pose proof (ex_height _ _ Hex) as Hh. pose proof (ck_height _ _ _ Hck) as [Hht _].
  destruct (clock_tests first last s (block_height b) Hck He ltac:(lia)) as [Htest _].
  destruct (apply_block_steps consts domain b (data_of s) first last Hckd Hlt) as (d & Ed & Hap & Hres);
    [by apply live_data|by destruct Hex; split; [|rewrite expected_data]|by destruct Hcap; split|].
  destruct (apply_block_lift consts domain b s d Hr Ed) as (s1' & E1' & Hr1 & ->).
  rewrite E1 in E1'. apply (inj Some) in E1' as <-.
  destruct (apply_block_signers b (data_of s) (data_of s1) first last Hckd Hlt) as [Hf1 Hsg];
    [by apply live_data|by destruct Hex; split; [|rewrite expected_data]|by destruct Hcap; split|done|done|done|].
  assert (is_last_block_of_epoch (epocher s1) (block_height b) = Some (block_height b =? last)%Z) as Htest1
    by (rewrite (ap_epocher _ _ _ Hap : epocher s1 = epocher s); exact Htest).
  enough (funded (data_of s') ∧ if (block_height b =? last)%Z then next_seated s s' else kept_committee b last s s')
    as [? ?] by (split; [done|]; by exists first, last).
  destruct (Z.eqb_spec (block_height b) last) as [El|Hne].
  - destruct Hlast as [[_ Hno]|(Hep & Ebd & _)]; [congruence|].
    assert (Hend : at_end consts (data_of s1)) by exact Hres.
    destruct (boundary_steps consts b key (data_of s1) Hend) as (d & Ed2 & _);
      [by apply (Hnext s1 E1), at_end_data|].
    destruct (boundary_lift b key s1 d Hr1 Ed2) as (s2' & Es2 & _ & ->). rewrite Ebd in Es2. apply (inj Some) in Es2 as <-.
    destruct (boundary_signers b (data_of s1) (data_of s') Hend) as (Hf' & Hcp & Hs'); try done;
      [by apply (Hnext s1 E1), at_end_data|].
    pose proof (ap_epoch _ _ _ Hap) as Ee. simpl in Ee. destruct Hsg as (Hrm & Had & _ & Hsg). simpl in Hrm, Had.
    split; [exact Hf'|]. split_and!; [|exact Hcp|].
    + rewrite Hep. simpl. lia.
    + intros k c. specialize (Hs' k c). simpl in Hs'. rewrite Hs'. unfold seats. simpl. rewrite Had, Ee, Hrm.
      destruct (decide (k ∈ removed_validators s)) as [Hin|Hin]; [naive_solver|].
      pose proof (Hsg k Hin) as Hk. simpl in Hk. by rewrite Hk.
  - destruct Hlast as [[-> _]|(_ & _ & Hno)]; [|congruence]. destruct Hsg as [Hsg Hcp].
    split; [exact Hf1|]. split_and!; [exact (ap_epoch _ _ _ Hap)|exact (ap_epocher _ _ _ Hap)|exact Hsg|exact Hcp].
Qed.
End committee.
