(* ===== verification/Genesis.v ===== *)
(** * Genesis: the configuration a chain starts from (types/src/genesis.rs, types/src/lib.rs,
    [get_initial_state] of node/src/args.rs)

    A genesis file is validated, its validators are decoded, and the first consensus
    state is made from both; the digest of the configuration and the domains derived
    from it scope every signature to one deployment.  The parsers of hexadecimal
    text, addresses and socket addresses and the SSZ encoding derived for [Genesis]
    are third-party code ([GenesisLib]). *)
From S2P Require Import Prelude Codec Crypto BTree Epocher Account ExecutionRequest ProtocolParams.
From S2P Require Import Withdrawal SszTree SszHash SszStateTree SszStateTreeFacts ConsensusState StateSync StateCodec.
From S2P Require Import StateRun StatePayouts StateInvariant StateProcess StateBoundary Block Execution ExecutionFacts.

Record GenesisValidator := mkGenesisValidator {
  node_public_key : string;
  gv_consensus_public_key : string;
  gv_ip_address : string;
  gv_withdrawal_credentials : string
}.

Record Genesis := mkGenesis {
  validators : list GenesisValidator;
  eth_genesis_hash : string;
  leader_timeout_ms : Z;
  notarization_timeout_ms : Z;
  nullify_timeout_ms : Z;
  activity_timeout_views : Z;
  max_message_size_bytes : Z;
  namespace : string;
  g_validator_minimum_stake : Z;
  blocks_per_epoch : Z;
  g_allowed_timestamp_future_ms : Z;
  g_treasury_address : string;
  g_max_deposits_per_epoch : Z;
  g_max_withdrawals_per_epoch : Z;
  g_observers_per_validator : Z;
  g_max_validator_count : Z;
  g_minimum_validator_count : Z;
  g_invalid_deposit_tax : Z;
  g_max_pending_withdrawals_per_validator : Z
}.

Class GenesisLib := {
  from_hex : string → option bytes;
  (** [str::parse::<Address>], 20 bytes. *)
  parse_address : string → option bytes;
  SocketAddr : Type;
  parse_socket : string → option SocketAddr;
  (** [ssz::Encode] derived for [Genesis]. *)
  genesis_ssz : Genesis → bytes
}.

(** Its address is the socket type of the library. *)
Record Validator {Addr : Type} := mkValidator {
  v_node_public_key : bytes;
  v_consensus_public_key : bytes;
  v_ip_address : Addr;
  v_withdrawal_credentials : bytes
}.
Arguments Validator : clear implicits.
Arguments mkValidator {Addr}.

Inductive GenesisError :=
| ParamBounds (e : ParamBoundsError)
| BadMessageSize
| BadTreasury
| ZeroTimeout (field : string)
| LeaderTimeoutTooLong
| TooManyValidators
| MinimumCountTooLow
| MinimumCountAboveMaximum
| TaxTooHigh.

Section genesis.
Context `{Hc : Crypto} `{Hg : GenesisLib}.

Definition param_ok (p : ProtocolParam) : result GenesisError () :=
  match validate p with Ok _ => Ok () | Err e => Err (ParamBounds e) end.
Definition require (b : bool) (e : GenesisError) : result GenesisError () := if b then Ok () else Err e.

Definition genesis_validate (g : Genesis) : result GenesisError () :=
  _ ← param_ok (EpochLength (blocks_per_epoch g));
  _ ← require (negb ((max_message_size_bytes g <? MAX_MESSAGE_SIZE_BYTES_MIN)%Z
                || (MAX_MESSAGE_SIZE_BYTES_MAX <? max_message_size_bytes g)%Z)) BadMessageSize;
  _ ← param_ok (AllowedTimestampFuture (g_allowed_timestamp_future_ms g));
  _ ← require (bool_decide (is_Some (parse_address (g_treasury_address g)))) BadTreasury;
  _ ← require (negb (leader_timeout_ms g =? 0)%Z) (ZeroTimeout "leader_timeout_ms");
  _ ← require (negb (notarization_timeout_ms g =? 0)%Z) (ZeroTimeout "notarization_timeout_ms");
  _ ← require (negb (nullify_timeout_ms g =? 0)%Z) (ZeroTimeout "nullify_timeout_ms");
  _ ← require (negb (activity_timeout_views g =? 0)%Z) (ZeroTimeout "activity_timeout_views");
  _ ← require (negb (notarization_timeout_ms g <=? leader_timeout_ms g)%Z) LeaderTimeoutTooLong;
  _ ← param_ok (MaxDepositsPerEpoch (g_max_deposits_per_epoch g));
  _ ← param_ok (MaxWithdrawalsPerEpoch (g_max_withdrawals_per_epoch g));
  _ ← param_ok (ObserversPerValidator (g_observers_per_validator g));
  _ ← param_ok (MaxValidatorCount (g_max_validator_count g));
  _ ← require (negb (g_max_validator_count g <? Z.of_nat (length (validators g)))%Z) TooManyValidators;
  _ ← param_ok (MaxPendingWithdrawalsPerValidator (g_max_pending_withdrawals_per_validator g));
  _ ← require (negb (g_minimum_validator_count g <? MIN_MINIMUM_VALIDATOR_COUNT)%Z) MinimumCountTooLow;
  _ ← require (negb (g_max_validator_count g <? g_minimum_validator_count g)%Z) MinimumCountAboveMaximum;
  require (negb (MAX_INVALID_DEPOSIT_TAX <? g_invalid_deposit_tax g)%Z) TaxTooHigh.

(** [None]: the [expect]s on the hash. *)
Definition genesis_hash (g : Genesis) : option bytes :=
  bs ← from_hex (eth_genesis_hash g); if length bs =? 32 then Some bs else None.

(** [PublicKey::decode] takes exactly the bytes of a key. *)
Definition decode_node_key (bs : bytes) : option bytes :=
  if (length bs =? 32) && ed25519_valid bs then Some bs else None.
Definition decode_bls_key (bs : bytes) : option bytes :=
  if (length bs =? 48) && bls_valid bs then Some bs else None.

(** The [Result] of the conversions, without the error texts. *)
Definition validator_try_from (v : GenesisValidator) : option (Validator SocketAddr) :=
  node_key_bytes ← from_hex (node_public_key v);
  node_public_key ← decode_node_key node_key_bytes;
  consensus_key_bytes ← from_hex (gv_consensus_public_key v);
  consensus_public_key ← decode_bls_key consensus_key_bytes;
  ip_address ← parse_socket (gv_ip_address v);
  withdrawal_credentials ← parse_address (gv_withdrawal_credentials v);
  Some (mkValidator node_public_key consensus_public_key ip_address withdrawal_credentials).
Definition get_validators (g : Genesis) : option (list (Validator SocketAddr)) :=
  for_each (λ acc v, v ← validator_try_from v; Some (acc ++ [v])) [] (validators g).

Fixpoint ip_of (vs : list GenesisValidator) (target : bytes) : option SocketAddr :=
  match vs with
  | [] => None
  | v :: vs =>
      match k ← from_hex (node_public_key v); k ← decode_node_key k;
            if bool_decide (k = target) then parse_socket (gv_ip_address v) else None with
      | Some a => Some a
      | None => ip_of vs target
      end
  end.

(** ** Domains *)
Definition GENESIS_CONFIG_DOMAIN_TAG : bytes := ascii_bytes "summit-genesis-config-v1".
Definition PROTOCOL_VERSION : Z := 1.
Definition DEPOSIT_DOMAIN_TAG : bytes := ascii_bytes "summit-deposit-v1".
Definition CHAIN_DOMAIN_TAG : bytes := ascii_bytes "summit-chain-v1".
Definition PAUSE_DOMAIN_TAG : bytes := ascii_bytes "summit-pause-v1".

Definition config_digest (g : Genesis) : bytes := sha256 (GENESIS_CONFIG_DOMAIN_TAG ++ genesis_ssz g).
Definition chain_domain (config_digest : bytes) : bytes :=
  sha256 (CHAIN_DOMAIN_TAG ++ u32_to_le_bytes PROTOCOL_VERSION ++ config_digest).
Definition domain_data (tag genesis_hash namespace : bytes) : bytes :=
  tag ++ u32_to_le_bytes PROTOCOL_VERSION ++ genesis_hash
  ++ u32_to_le_bytes (Z.of_nat (length namespace) mod 2 ^ 32) ++ namespace.
Definition signature_domain (tag genesis_hash namespace : bytes) : bytes :=
  sha256 (domain_data tag genesis_hash namespace).
Definition deposit_signature_domain := signature_domain DEPOSIT_DOMAIN_TAG.
Definition pause_signature_domain := signature_domain PAUSE_DOMAIN_TAG.

(** ** The first state *)
Definition genesis_account (g : Genesis) (v : Validator SocketAddr) : ValidatorAccount :=
  mkValidatorAccount (v_consensus_public_key v) (v_withdrawal_credentials v)
    (g_validator_minimum_stake g) Active 0 0.
Definition get_initial_state {T} `{!StateTree T} (g : Genesis) (committee : list (Validator SocketAddr))
    (checkpoint : option (ConsensusState T)) : option (ConsensusState T) :=
  if (blocks_per_epoch g =? 0)%Z then None else
  hash ← genesis_hash g;
  treasury ← parse_address (g_treasury_address g);
  match checkpoint with
  | Some state => Some state
  | None =>
      state ← new_state (mkForkchoiceState hash hash hash) (g_validator_minimum_stake g)
                (blocks_per_epoch g) (g_allowed_timestamp_future_ms g) treasury
                (g_max_deposits_per_epoch g) (g_max_withdrawals_per_epoch g)
                (g_observers_per_validator g) (g_max_validator_count g)
                (g_minimum_validator_count g) (g_invalid_deposit_tax g)
                (g_max_pending_withdrawals_per_validator g);
      state ← for_each (λ state v, set_account state (v_node_public_key v) (genesis_account g v))
                state committee;
      rebuild_ssz_tree state
  end.
End genesis.

(** Parsed addresses have the length of an [Address]. *)
Class GenesisLibOk `{GenesisLib} : Prop := {
  parse_address_length : ∀ s a, parse_address s = Some a → length a = 20
}.

Section facts.
Context `{Hc : Crypto} `{!CryptoOk} `{Hl : SszLib} `{Hg : GenesisLib} `{!GenesisLibOk}.

(** The ranges of the integer fields. *)
Record genesis_typed (g : Genesis) : Prop := {
  gt_stake : is_u64 (g_validator_minimum_stake g);
  gt_deposits : (0 ≤ g_max_deposits_per_epoch g)%Z;
  gt_observers : (0 ≤ g_observers_per_validator g)%Z;
  gt_tax : (0 ≤ g_invalid_deposit_tax g)%Z
}.

Lemma param_ok_Ok p : param_ok p = Ok () → validate p = Ok ().
Proof. unfold param_ok. by destruct (validate p) as [[]|]. Qed.
Lemma require_Ok b e : require b e = Ok () → b = true.
Proof. by destruct b. Qed.

(** What a validated configuration guarantees. *)
Record genesis_ok (g : Genesis) : Prop := {
  go_length : (MIN_EPOCH_LENGTH ≤ blocks_per_epoch g ≤ MAX_EPOCH_LENGTH)%Z;
  go_timestamp : (MIN_ALLOWED_TIMESTAMP_FUTURE_MS ≤ g_allowed_timestamp_future_ms g
    ≤ MAX_ALLOWED_TIMESTAMP_FUTURE_MS)%Z;
  go_treasury : is_Some (parse_address (g_treasury_address g));
  go_deposits : (g_max_deposits_per_epoch g ≤ MAX_MAX_DEPOSITS_PER_EPOCH)%Z;
  go_withdrawals : (MAX_WITHDRAWALS_PER_EPOCH_MIN ≤ g_max_withdrawals_per_epoch g
    ≤ MAX_WITHDRAWALS_PER_EPOCH_MAX)%Z;
  go_observers : (g_observers_per_validator g ≤ MAX_OBSERVERS_PER_VALIDATOR)%Z;
  go_max_count : (MIN_MAX_VALIDATOR_COUNT ≤ g_max_validator_count g ≤ MAX_MAX_VALIDATOR_COUNT)%Z;
  go_validators : (Z.of_nat (length (validators g)) ≤ g_max_validator_count g)%Z;
  go_min_count : (0 < g_minimum_validator_count g ≤ g_max_validator_count g)%Z;
  go_tax : (g_invalid_deposit_tax g ≤ MAX_INVALID_DEPOSIT_TAX)%Z;
  go_pending : (MAX_PENDING_WITHDRAWALS_PER_VALIDATOR_MIN ≤ g_max_pending_withdrawals_per_validator g
    ≤ MAX_PENDING_WITHDRAWALS_PER_VALIDATOR_MAX)%Z
}.

Lemma genesis_validate_ok g : genesis_validate g = Ok () → genesis_ok g.
Proof.
  unfold genesis_validate. intros Hv.
  repeat (apply result_bind_Ok in Hv as ([] & ? & Hv)).
  repeat match goal with
    | E : param_ok _ = Ok _ |- _ => apply param_ok_Ok in E; unfold validate, contains in E
    | E : require _ _ = Ok _ |- _ => apply require_Ok in E
    | E : (if ?c then _ else _) = Ok _ |- _ => destruct c eqn:?; [discriminate E|clear E]
    end.
  unfold MIN_MINIMUM_VALIDATOR_COUNT in *. split; try lia.
  by match goal with E : bool_decide _ = true |- _ => apply bool_decide_eq_true in E end.
Qed.

(** ** The accounts of the first state *)
Definition genesis_accounts (g : Genesis) (vs : list (Validator SocketAddr)) m : BTreeMap bytes ValidatorAccount :=
  foldl (λ m v, BTree.insert m (v_node_public_key v) (genesis_account g v)) m vs.
Record validator_ok (v : Validator SocketAddr) : Prop := {
  vo_node : node_key_wf (v_node_public_key v);
  vo_consensus : length (v_consensus_public_key v) = 48 ∧ bls_valid (v_consensus_public_key v) = true;
  vo_credentials : length (v_withdrawal_credentials v) = 20
}.

Lemma validator_try_from_ok v v' : validator_try_from v = Some v' → validator_ok v'.
Proof.
  unfold validator_try_from, decode_node_key, decode_bls_key. intros E.
  repeat (apply bind_Some in E as (? & ? & E)). injection E as <-.
  repeat match goal with
    | E : (if ?c && ?d then _ else _) = Some _ |- _ =>
        destruct c eqn:?, d eqn:?; try discriminate E; injection E as <-
    end.
  rewrite Nat.eqb_eq in *. split; simpl; [done|done|by eapply parse_address_length].
Qed.
Lemma get_validators_ok g vs : get_validators g = Some vs → Forall validator_ok vs.
Proof.
  unfold get_validators. apply (for_each_inv _ (Forall validator_ok)); [done|].
  intros acc v acc' _ Hacc (v' & Hv%validator_try_from_ok & [= <-])%bind_Some. apply Forall_app. split; [done|by apply Forall_singleton].
Qed.

Lemma get_validators_length g vs : get_validators g = Some vs → length vs = length (validators g).
Proof.
  unfold get_validators. intros E.
  enough (length vs + 0 = length (validators g)) by lia. revert E.
  apply (for_each_partial _ (λ acc (rest : list GenesisValidator), length acc + length rest = length (validators g)));
    [done|].
  intros acc v rest acc' Hacc (v' & _ & [= <-])%bind_Some. simpl in Hacc. rewrite length_app. simpl. lia.
Qed.

Lemma genesis_accounts_snoc g vs v m :
  genesis_accounts g (vs ++ [v]) m = BTree.insert (genesis_accounts g vs m) (v_node_public_key v) (genesis_account g v).
Proof. unfold genesis_accounts. by rewrite foldl_app. Qed.

Lemma genesis_accounts_ok g vs :
  genesis_typed g → Forall validator_ok vs → accounts_ok (genesis_accounts g vs []).
Proof.
  intros Ht. induction vs as [|v vs IH] using rev_ind; intros Hf; [by repeat constructor|].
  rewrite genesis_accounts_snoc. apply Forall_app in Hf as [Hvs [[H1 [H2 H3] H4] _]%Forall_cons].
  apply accounts_insert; [by apply IH|done|]. destruct Ht. split_and!; simpl; try done; unfold is_u64, u64_max; lia.
Qed.

Lemma genesis_accounts_get g vs k a :
  NoDup (v_node_public_key <$> vs) →
  BTree.get (genesis_accounts g vs []) k = Some a ↔ ∃ v, v ∈ vs ∧ k = v_node_public_key v ∧ a = genesis_account g v.
Proof.
  induction vs as [|v vs IH] using rev_ind; intros Hnd.
  { simpl. split; [done|]. intros (v & Hv & _). by apply not_elem_of_nil in Hv. }
  rewrite genesis_accounts_snoc. rewrite fmap_app in Hnd. apply NoDup_app in Hnd as (Hnd & Hdis & _).
  setoid_rewrite elem_of_app. setoid_rewrite list_elem_of_singleton.
  destruct (decide (v_node_public_key v = k)) as [<-|Hne].
  - rewrite BTree.get_insert_eq. split; [intros [= <-]; by exists v; auto|].
    intros (v' & [Hv' | ->] & E & ->); [|done]. exfalso. apply (Hdis (v_node_public_key v)); [|by apply list_elem_of_singleton].
    rewrite E. by apply list_elem_of_fmap_2.
  - rewrite BTree.get_insert_ne by done. rewrite IH by done. naive_solver.
Qed.

(** No account of the first state is joining or leaving. *)
Lemma genesis_status g vs k st :
  NoDup (v_node_public_key <$> vs) → status_of (genesis_accounts g vs []) k = Some st → st = Active.
Proof.
  intros Hnd. unfold status_of. intros (a & Ha & ->)%fmap_Some. rewrite genesis_accounts_get in Ha by done.
  by destruct Ha as (v & _ & _ & ->).
Qed.
Lemma genesis_joining g vs k :
  NoDup (v_node_public_key <$> vs) → joining_of (genesis_accounts g vs []) k = None.
Proof.
  intros Hnd. unfold joining_of. destruct (BTree.get _ k) as [a|] eqn:Ha; [|done]. rewrite genesis_accounts_get in Ha by done.
  by destruct Ha as (v & _ & _ & ->).
Qed.
Lemma genesis_unique g vs :
  NoDup (v_node_public_key <$> vs) → NoDup (v_consensus_public_key <$> vs) →
  keys_unique (genesis_accounts g vs []).
Proof.
  intros Hn Hk k1 k2 a1 a2. rewrite !genesis_accounts_get by done.
  intros (v1 & H1 & -> & ->) (v2 & H2 & -> & ->) E. simpl in E.
  apply list_elem_of_lookup in H1 as [i Hi], H2 as [j Hj].
  rewrite (NoDup_lookup (v_consensus_public_key <$> vs) i j (v_consensus_public_key v1)) in Hi; [congruence|done|..].
  - by rewrite list_lookup_fmap, Hi.
  - by rewrite list_lookup_fmap, Hj, E.
Qed.

(** The first state without its tree. *)
Definition genesis_data (g : Genesis) (hash treasury : bytes) m ks : ConsensusState () :=
  mkConsensusState 0 0 0 hash [] queue_default m [] None [] [] []
    (mkForkchoiceState hash hash hash) hash (g_validator_minimum_stake g) (g_allowed_timestamp_future_ms g)
    treasury (g_max_deposits_per_epoch g) (g_max_withdrawals_per_epoch g) (g_observers_per_validator g)
    (g_max_validator_count g) (g_minimum_validator_count g) 0 (g_invalid_deposit_tax g)
    (g_max_pending_withdrawals_per_validator g) (Epocher.new (blocks_per_epoch g)) () () ks zero32 0 None.

Lemma genesis_live g vs hash treasury ks f n :
  genesis_typed g → genesis_ok g → parse_address (g_treasury_address g) = Some treasury →
  Forall validator_ok vs → NoDup (v_node_public_key <$> vs) → NoDup (v_consensus_public_key <$> vs) → is_u64 n →
  live f n 0 (genesis_data g hash treasury (genesis_accounts g vs []) ks).
Proof.
  intros Ht Hok Htr Hvs Hn Hk Hd. split; simpl; try done.
  - by apply genesis_accounts_ok.
  - split; try done; [apply queue_ok_default|intros []; constructor].
  - by apply genesis_unique.
  - split; [constructor|done|]. intros k e c. by rewrite genesis_joining.
  - split; try done; [constructor| |].
    + intros k Hin. by apply not_elem_of_nil in Hin.
    + intros k Hin. by apply genesis_status in Hin.
  - destruct Ht, Hok. split; simpl; try done; try lia. by eapply parse_address_length.
Qed.

Lemma genesis_clock g hash treasury m ks :
  genesis_ok g → clock 0 (blocks_per_epoch g - 1) (genesis_data g hash treasury m ks).
Proof.
  intros []. unfold MIN_EPOCH_LENGTH, MAX_EPOCH_LENGTH in *. assert (sched_ok (Epocher.new (blocks_per_epoch g))).
  { apply new_sched_ok. unfold u64_max. lia. }
  split; simpl; try done; unfold u64_max; try lia.
  apply epoch_bounds_Some; [done|lia|]. cbn. unfold len_at. simpl. unfold u64_max.
  lia.
Qed.

(** ** Building the state *)
Section tree.
Context `{!SszLibOk}.

Lemma committee_data g vs hash treasury m ks :
  BTree.sorted m →
  for_each (λ state v, set_account state (v_node_public_key v) (genesis_account g v))
    (genesis_data g hash treasury m ks) vs
  = Some (genesis_data g hash treasury (genesis_accounts g vs m) ks).
Proof.
  revert m. induction vs as [|v vs IH]; intros m Hm; [done|]. cbn [for_each].
  rewrite set_account_data by done. cbn [mbind option_bind]. apply IH. by apply BTree.sorted_insert.
Qed.

Lemma committee_lift g vs (s : ConsensusState SszStateTree) d :
  reachable s →
  for_each (λ state v, set_account state (v_node_public_key v) (genesis_account g v)) (data_of s) vs = Some d →
  ∃ s', for_each (λ state v, set_account state (v_node_public_key v) (genesis_account g v)) s vs = Some s' ∧
    reachable s' ∧ d = data_of s'.
Proof.
  revert s. induction vs as [|v vs IH]; intros s Hr; cbn [for_each]; [intros [= <-]; by exists s|].
  intros (d1 & Hd1 & Hd)%bind_Some.
  destruct (lift s (op_set_account (v_node_public_key v) (genesis_account g v)) d1 Hr Hd1) as (s1 & E & Hr1 & ->).
  cbn [run_state_op] in E. rewrite E. cbn [mbind option_bind]. by apply IH.
Qed.

Lemma new_state_data fc stake len future treasury deposits withdrawals observers maxv minv tax pending :
  ∃ s, new_state (T:=SszStateTree) fc stake len future treasury deposits withdrawals observers maxv minv tax pending
       = Some s ∧
    Some (data_of s)
    = new_state fc stake len future treasury deposits withdrawals observers maxv minv tax pending.
Proof.
  unfold new_state at 1. destruct (tree_default_ok (T:=SszStateTree)) as [t ->]. cbn [mbind option_bind].
  rewrite rebuild_ssz_tree_ok. by eexists.
Qed.

Lemma new_state_unit g hash treasury :
  new_state (mkForkchoiceState hash hash hash) (g_validator_minimum_stake g)
    (blocks_per_epoch g) (g_allowed_timestamp_future_ms g) treasury
    (g_max_deposits_per_epoch g) (g_max_withdrawals_per_epoch g)
    (g_observers_per_validator g) (g_max_validator_count g)
    (g_minimum_validator_count g) (g_invalid_deposit_tax g)
    (g_max_pending_withdrawals_per_validator g)
  = Some (genesis_data g hash treasury [] []).
Proof.
  unfold new_state. destruct (tree_default_ok (T:=())) as [[] ->]. cbn [mbind option_bind].
  rewrite rebuild_ssz_tree_ok. reflexivity.
Qed.

Lemma genesis_rebuilt g hash treasury m ks :
  rebuilt (genesis_data g hash treasury m ks) = genesis_data g hash treasury m (BTree.keys m).
Proof. reflexivity. Qed.

Lemma rebuilt_reachable (s : ConsensusState SszStateTree) : reachable s → reachable (rebuilt s).
Proof.
  intros Hr. apply (reach_op s op_rebuild_ssz_tree); [done|]. cbn [run_state_op]. apply rebuild_ssz_tree_ok.
Qed.

Lemma initial_state_eval {T} `{!StateTree T} g vs hash treasury (s0 s1 : ConsensusState T) :
  (blocks_per_epoch g ≠ 0)%Z → genesis_hash g = Some hash → parse_address (g_treasury_address g) = Some treasury →
  new_state (mkForkchoiceState hash hash hash) (g_validator_minimum_stake g)
    (blocks_per_epoch g) (g_allowed_timestamp_future_ms g) treasury
    (g_max_deposits_per_epoch g) (g_max_withdrawals_per_epoch g)
    (g_observers_per_validator g) (g_max_validator_count g)
    (g_minimum_validator_count g) (g_invalid_deposit_tax g)
    (g_max_pending_withdrawals_per_validator g) = Some s0 →
  for_each (λ state v, set_account state (v_node_public_key v) (genesis_account g v)) s0 vs = Some s1 →
  get_initial_state g vs None = rebuild_ssz_tree s1.
Proof.
  intros Hl0 Hh Ht E0 E1. unfold get_initial_state. rewrite (proj2 (Z.eqb_neq _ _)) by done. rewrite Hh, Ht.
  cbn [mbind option_bind]. rewrite E0. cbn [mbind option_bind]. rewrite E1. done.
Qed.

Lemma initial_state_data g vs hash treasury :
  (blocks_per_epoch g ≠ 0)%Z → genesis_hash g = Some hash → parse_address (g_treasury_address g) = Some treasury →
  ∃ s : ConsensusState SszStateTree, get_initial_state g vs None = Some s ∧ reachable s ∧
    data_of s = genesis_data g hash treasury (genesis_accounts g vs []) (BTree.keys (genesis_accounts g vs [])).
Proof.
  intros Hl0 Hh Ht.
  destruct (new_state_data (mkForkchoiceState hash hash hash) (g_validator_minimum_stake g)
    (blocks_per_epoch g) (g_allowed_timestamp_future_ms g) treasury
    (g_max_deposits_per_epoch g) (g_max_withdrawals_per_epoch g)
    (g_observers_per_validator g) (g_max_validator_count g)
    (g_minimum_validator_count g) (g_invalid_deposit_tax g)
    (g_max_pending_withdrawals_per_validator g)) as (s0 & E0 & Hd0).
  assert (Hr0 : reachable s0) by exact (reach_new _ _ _ _ _ _ _ _ _ _ _ _ _ E0).
  rewrite new_state_unit in Hd0. apply (inj Some) in Hd0.
  destruct (committee_lift g vs s0 (genesis_data g hash treasury (genesis_accounts g vs []) []) Hr0)
    as (s1 & E1 & Hr1 & Hd1); [rewrite Hd0; apply committee_data; constructor|].
  exists (rebuilt s1). split; [|split].
  - rewrite (initial_state_eval g vs hash treasury s0 s1 Hl0 Hh Ht E0 E1). apply rebuild_ssz_tree_ok.
  - exact (rebuilt_reachable s1 Hr1).
  - rewrite data_of_rebuilt, <-Hd1. apply genesis_rebuilt.
Qed.

Lemma initial_state_steady consts g vs :
  genesis_typed g → genesis_ok g → is_Some (genesis_hash g) → Forall validator_ok vs →
  NoDup (v_node_public_key <$> vs) → NoDup (v_consensus_public_key <$> vs) →
  is_u64 (validator_withdrawal_num_epochs consts) →
  ∃ (s : ConsensusState SszStateTree) hash treasury, get_initial_state g vs None = Some s ∧ reachable s ∧
    data_of s = genesis_data g hash treasury (genesis_accounts g vs []) (BTree.keys (genesis_accounts g vs [])) ∧
    genesis_hash g = Some hash ∧ parse_address (g_treasury_address g) = Some treasury ∧ steady consts s.
Proof.
  intros Ht Hok [hash Hh] Hvs Hn Hk Hdel. destruct (go_treasury g Hok) as [treasury Htr].
  pose proof (go_length g Hok) as Hlen. unfold MIN_EPOCH_LENGTH in Hlen.
  destruct (initial_state_data g vs hash treasury ltac:(lia) Hh Htr) as (s & E & Hr & Hd).
  exists s, hash, treasury. split_and!; try assumption.
  apply steady_data. rewrite Hd. exists 0%Z, (blocks_per_epoch g - 1)%Z.
  split_and!; [by apply genesis_clock|simpl; lia|]. by apply genesis_live.
Qed.

(** C14: The first state of a chain is a state of a running chain.  If a genesis
    configuration passes [validate], its validators and hash can be parsed and no two
    validators share a node key or a consensus key, then [get_initial_state] does not
    panic, its state satisfies the invariant every later block and boundary keeps, its
    accounts are exactly the genesis validators, each active with the minimum stake, the
    committee is no larger than the configured maximum, and there is room for the first
    epoch. *)
Theorem genesis_state_is_steady consts g vs :
  genesis_typed g → genesis_validate g = Ok () → is_Some (genesis_hash g) → get_validators g = Some vs →
  NoDup (v_node_public_key <$> vs) → NoDup (v_consensus_public_key <$> vs) →
  is_u64 (1 + validator_withdrawal_num_epochs consts) ∧ (0 ≤ validator_withdrawal_num_epochs consts)%Z →
  ∃ s : ConsensusState SszStateTree,
    get_initial_state g vs None = Some s ∧ reachable s ∧ steady consts s ∧ epoch_capacity consts s ∧
    (∀ k a, BTree.get (validator_accounts s) k = Some a ↔
       ∃ v, v ∈ vs ∧ k = v_node_public_key v ∧ a = genesis_account g v) ∧
    (Z.of_nat (length vs) ≤ max_validator_count s)%Z.
Proof.
  intros Ht Hok%genesis_validate_ok Hh Hvs Hn Hk [[Hd1 Hd2] Hd3].
  destruct (initial_state_steady consts g vs Ht Hok Hh (get_validators_ok g vs Hvs) Hn Hk) as (s & hash & treasury & E & Hr & Hd & _ & _ & Hst).
  { split; [done|lia]. }
  pose proof (go_length g Hok) as Hlen. unfold MIN_EPOCH_LENGTH, MAX_EPOCH_LENGTH in Hlen.
  exists s. split_and!; try assumption.
  - change (epoch_capacity consts (data_of s)). rewrite Hd. split; [split; simpl; lia|].
    unfold horizon. cbn. unfold len_at, MAX_EPOCH_LENGTH, u64_max. simpl. lia.
  - intros k a. change (validator_accounts s) with (validator_accounts (data_of s)). rewrite Hd.
    by apply genesis_accounts_get.
  - change (max_validator_count s) with (max_validator_count (data_of s)). rewrite Hd. simpl.
    rewrite (get_validators_length g vs Hvs). apply (go_validators g Hok).
Qed.
End tree.
End facts.

(** ** The domains *)
Section domains.
Context `{Hc : Crypto}.

(** The tags differ from their eighth byte on. *)
Lemma tags_differ t1 t2 (x y : bytes) :
  t1 ∈ [DEPOSIT_DOMAIN_TAG; PAUSE_DOMAIN_TAG; CHAIN_DOMAIN_TAG] →
  t2 ∈ [DEPOSIT_DOMAIN_TAG; PAUSE_DOMAIN_TAG; CHAIN_DOMAIN_TAG] → t1 ++ x = t2 ++ y → t1 = t2.
Proof.
  rewrite !elem_of_cons, !elem_of_nil. intros Ht1 Ht2 E. apply (f_equal (lookup 7)) in E.
  destruct Ht1 as [->|[->|[->|[]]]], Ht2 as [->|[->|[->|[]]]]; try reflexivity; vm_compute in E; discriminate E.
Qed.

(** C39: Signing domains are separated by purpose and by deployment.  Two deposit or
    pause domains are equal only for the same purpose, the same execution-layer genesis
    hash and the same namespace, and neither is ever a chain domain: anything else
    exhibits a SHA-256 collision of the domain inputs at hand. *)
Theorem signature_domains_are_separated t1 t2 (g1 g2 n1 n2 config : bytes) :
  t1 ∈ [DEPOSIT_DOMAIN_TAG; PAUSE_DOMAIN_TAG] → t2 ∈ [DEPOSIT_DOMAIN_TAG; PAUSE_DOMAIN_TAG] →
  length g1 = 32 → length g2 = 32 →
  (signature_domain t1 g1 n1 = signature_domain t2 g2 n2 →
     t1 = t2 ∧ g1 = g2 ∧ n1 = n2 ∨ clash (domain_data t1 g1 n1) (domain_data t2 g2 n2)) ∧
  (chain_domain config = signature_domain t1 g1 n1 →
     clash (CHAIN_DOMAIN_TAG ++ u32_to_le_bytes PROTOCOL_VERSION ++ config) (domain_data t1 g1 n1)).
Proof.
  intros Ht1 Ht2 Hg1 Hg2. split; (intros [E|?]%clash_or_eq; [|auto; done]).
  - left. unfold domain_data in E. assert (t1 = t2) as -> by (eapply tags_differ, E; set_solver).
    apply app_inv_head, app_inv_head in E. apply app_inj_1 in E as [-> E]; [|congruence].
    by apply app_inj_1 in E as [_ ->]; [|by rewrite !length_u32_to_le_bytes].
  - exfalso. apply tags_differ in E as <-; [|set_solver..].
    rewrite !elem_of_cons, elem_of_nil in Ht1. destruct Ht1 as [E|[E|[]]]; vm_compute in E; discriminate E.
Qed.
End domains.

(** ** A small deployment *)
Module Demo.
#[local] Existing Instance ToyCrypto.toy.
#[local] Existing Instance ToyCrypto.toy_ok.
#[local] Existing Instance StateRun.Demo.toy_ssz.
#[local] Existing Instance StateRun.Demo.toy_ssz_ok.
#[local] Existing Instance Block.ToyBlocks.toy_blocks.

(** Text stands for its own bytes. *)
#[local] Instance toy_genesis : GenesisLib := {|
  from_hex s := Some (ascii_bytes s);
  parse_address s := let bs := ascii_bytes s in if length bs =? 20 then Some bs else None;
  SocketAddr := ();
  parse_socket _ := Some ();
  genesis_ssz g := ascii_bytes (namespace g)
|}.
#[local] Instance toy_genesis_ok : GenesisLibOk.
Proof. split. intros s a. simpl. destruct (Nat.eqb_spec (length (ascii_bytes s)) 20); [|done]. by intros [= <-]. Qed.

Definition k1 : string := "node-key-of-the-first-validator-".
Definition k2 : string := "node-key-of-the-second-validator".
Definition c1 : string := "consensus-key-of-the-first-validator----------01".
Definition c2 : string := "consensus-key-of-the-second-validator---------02".
Definition addr : string := "withdrawal-address-1".
Definition demo_genesis : Genesis := mkGenesis
  [mkGenesisValidator k1 c1 "first" addr; mkGenesisValidator k2 c2 "second" addr]
  "the-hash-of-the-genesis-block---" 2000 4000 4000 256 (2 ^ 20) "demo"
  32000000000 10 10000 addr 3 16 16 128 1 5 3.
Definition demo_validators : list (Validator SocketAddr) := default [] (get_validators demo_genesis).
Definition demo_consts : ProtocolConsts := mkProtocolConsts 2 2.

Lemma demo_typed : genesis_typed demo_genesis.
Proof. split; simpl; unfold is_u64, u64_max; lia. Qed.

Lemma genesis_state_is_steady_witness :
  ∃ s : ConsensusState SszStateTree,
    get_initial_state demo_genesis demo_validators None = Some s ∧ reachable s ∧
    steady demo_consts s ∧ epoch_capacity demo_consts s ∧
    (∀ k a, BTree.get (validator_accounts s) k = Some a ↔
       ∃ v, v ∈ demo_validators ∧ k = v_node_public_key v ∧ a = genesis_account demo_genesis v) ∧
    (Z.of_nat (length demo_validators) ≤ max_validator_count s)%Z.
Proof.
  apply (genesis_state_is_steady demo_consts demo_genesis demo_validators).
  - exact demo_typed.
  - vm_compute. reflexivity.
  - vm_compute. eexists. reflexivity.
  - vm_compute. reflexivity.
  - apply (bool_decide_unpack _). vm_compute. exact I.
  - apply (bool_decide_unpack _). vm_compute. exact I.
  - simpl. unfold is_u64, u64_max. lia.
Defined.

(** Blocks of the first epoch; the first asks for the exit of the second validator. *)
Definition exit_request : bytes :=
  put_u8 0x01 ++ write_withdrawal (mkWithdrawalRequest (ascii_bytes addr) (ascii_bytes k2) 0).
Definition demo_digest (h : Z) : bytes :=
  if (h =? 0)%Z then ascii_bytes "the-hash-of-the-genesis-block---" else u64_to_le_bytes h ++ zero_bytes 24.
Definition demo_block (h : Z) : Block :=
  mkBlock (mkHeader (demo_digest (h - 1)) h (1000 * h) 0 h (zero_bytes 32) (zero_bytes 32) (zero_bytes 32)
      (zero_bytes 32) [] [] (zero_bytes 32) (Some (demo_digest h)))
    (u64_to_le_bytes h) (if (h =? 1)%Z then [exit_request] else []).
Definition demo_epoch : list Block := demo_block <$> [1; 2; 3; 4; 5; 6; 7; 8; 9]%Z.
Definition demo_domain : bytes := deposit_signature_domain (zero_bytes 32) (ascii_bytes "demo").
Definition demo_data : ConsensusState () :=
  genesis_data demo_genesis (default [] (genesis_hash demo_genesis)) (ascii_bytes addr)
    (genesis_accounts demo_genesis demo_validators [])
    (BTree.keys (genesis_accounts demo_genesis demo_validators [])).
#[local] Notation demo_end :=
  (for_each (λ u b, apply_block b u demo_consts demo_domain) demo_data demo_epoch).

Lemma demo_validators_ok :
  genesis_ok demo_genesis ∧ Forall validator_ok demo_validators ∧
  NoDup (v_node_public_key <$> demo_validators) ∧ NoDup (v_consensus_public_key <$> demo_validators).
Proof.
  split_and!.
  - apply genesis_validate_ok. vm_compute. reflexivity.
  - apply (get_validators_ok demo_genesis). vm_compute. reflexivity.
  - apply (bool_decide_unpack _). vm_compute. exact I.
  - apply (bool_decide_unpack _). vm_compute. exact I.
Qed.

(** The state at genesis and the state after the epoch's blocks. *)
Lemma demo_start : ∃ s : ConsensusState SszStateTree, reachable s ∧ steady demo_consts s ∧ data_of s = demo_data.
Proof.
  destruct demo_validators_ok as (Hok & Hvs & Hn & Hk).
  destruct (initial_state_steady demo_consts demo_genesis demo_validators demo_typed Hok) as
    (s & hash & treasury & _ & Hr & Hd & Hh & Ht & Hst); [by eexists|done..| |].
  { simpl. unfold is_u64, u64_max. lia. }
  exists s. split_and!; [done|done|]. rewrite Hd. unfold demo_data. rewrite Hh. by apply (inj Some) in Ht as <-.
Qed.

Lemma demo_blocks_fit : blocks_fitb demo_consts demo_domain demo_epoch demo_data = true.
Proof. vm_compute. reflexivity. Qed.
Lemma demo_end_last : (at_last <$> demo_end) = Some true.
Proof. vm_compute. reflexivity. Qed.

Lemma demo_finish : ∃ s : ConsensusState SszStateTree,
  reachable s ∧ at_end demo_consts s ∧ Some (data_of s) = demo_end.
Proof. exact (run_epoch demo_consts demo_domain demo_epoch demo_data demo_start demo_blocks_fit demo_end_last). Qed.

Definition capacityb (u : ConsensusState ()) : bool :=
  (0 <=? epoch u + 1 + 2)%Z && (epoch u + 1 + 2 <=? u64_max)%Z
  && (let ep := epocher u in let t := (current_epoch ep + 2)%Z in
      (t + 1 <=? u64_max)%Z && (start_rev (rev (segments ep)) t + len_at (segments ep) t <=? u64_max)%Z
      && (start_rev (rev (segments ep)) t + MAX_EPOCH_LENGTH <=? u64_max)%Z).
Lemma demo_end_capacity : (capacityb <$> demo_end) = Some true.
Proof. vm_compute. reflexivity. Qed.
Lemma demo_capacity (s : ConsensusState SszStateTree) : Some (data_of s) = demo_end → epoch_capacity demo_consts s.
Proof.
  intros E. pose proof demo_end_capacity as Hcap. rewrite <-E in Hcap. apply (inj Some) in Hcap.
  unfold capacityb in Hcap. rewrite !andb_true_iff, !Z.leb_le in Hcap.
  destruct Hcap as [[? ?] [[? ?] ?]]. split; [by split|]. by split_and!.
Qed.

Lemma epoch_boundary_turns_committee_witness :
  ∃ s s' : ConsensusState SszStateTree,
    epoch_boundary s (demo_block 9) (ascii_bytes k1) = Some s' ∧ reachable s' ∧ steady demo_consts s' ∧
    epoch s' = (epoch s + 1)%Z ∧ epoch_genesis_hash s' = block_digest (demo_block 9) ∧
    (∀ k, status_of (validator_accounts s') k = Some Active ↔
       k ∈ next_committee (data_of s) ∨
       status_of (validator_accounts s) k = Some Active ∧ k ∉ removed_validators s) ∧
    (∀ k, status_of (validator_accounts s') k ≠ Some SubmittedExitRequest) ∧
    added_validators s' = BTree.remove (added_validators s) (epoch s + 1)%Z ∧ removed_validators s' = [] ∧
    is_Some (get_active_validators s') ∧ is_Some (get_active_or_joining_validators s').
Proof.
  destruct demo_finish as (s & Hr & Hend & Hd). exists s.
  apply (epoch_boundary_turns_committee demo_consts (demo_block 9) (ascii_bytes k1) s Hr Hend).
  apply (demo_capacity s Hd).
Defined.

(** A client that finds everything valid. *)
#[local] Instance toy_engine : EngineClient := {|
  Engine := ();
  EngineClientError := ();
  check_payload e _ := (e, Ok VALID);
  commit_hash e _ := (e, Ok VALID)
|}.
Definition demo_engine : @Engine _ toy_engine := tt.
Lemma execute_block_is_atomic_witness :
  ∃ (s : ConsensusState SszStateTree) engine' r (s' : ConsensusState SszStateTree),
    execute_block (T:=SszStateTree) demo_engine (demo_block 1) s demo_consts demo_domain None = Some (engine', r, s') ∧
    match r with
    | Ok Applied =>
        apply_block (T:=SszStateTree) (demo_block 1) s demo_consts demo_domain = Some s' ∧ reachable s' ∧ applied (demo_block 1) s s' ∧
        (steady demo_consts s' ∨ at_end demo_consts s') ∧ block_epoch (demo_block 1) = epoch s ∧
        expected_withdrawals s (block_height (demo_block 1)) = Some (payload_withdrawals (payload (demo_block 1))) ∧
        (check_payload demo_engine (demo_block 1)).2 = Ok VALID ∧
        let fin := default (eth_block_hash (demo_block 1)) None in
        commit_hash (check_payload demo_engine (demo_block 1)).1
          (mkForkchoiceState (eth_block_hash (demo_block 1)) fin fin) = (engine', Ok VALID)
    | _ => s' = s
    end.
Proof.
  destruct demo_start as (s & Hr & Hst & Hd). exists s.
  apply (execute_block_is_atomic demo_consts demo_domain demo_engine (demo_block 1) s None Hr Hst).
  - change (latest_height s) with (latest_height (data_of s)). rewrite Hd. reflexivity.
  - enough (capacity demo_consts (demo_block 1) (data_of s)) by (by destruct H; split).
    rewrite Hd. split; [simpl; unfold is_u64, u64_max; lia|vm_compute; reflexivity].
Defined.

Lemma signature_domains_are_separated_witness :
  (signature_domain DEPOSIT_DOMAIN_TAG (zero_bytes 32) (ascii_bytes "demo")
     = signature_domain PAUSE_DOMAIN_TAG (zero_bytes 32) (ascii_bytes "demo") →
   DEPOSIT_DOMAIN_TAG = PAUSE_DOMAIN_TAG ∧ zero_bytes 32 = zero_bytes 32 ∧ ascii_bytes "demo" = ascii_bytes "demo" ∨
   clash (domain_data DEPOSIT_DOMAIN_TAG (zero_bytes 32) (ascii_bytes "demo"))
     (domain_data PAUSE_DOMAIN_TAG (zero_bytes 32) (ascii_bytes "demo"))) ∧
  (chain_domain (config_digest demo_genesis) = signature_domain DEPOSIT_DOMAIN_TAG (zero_bytes 32) (ascii_bytes "demo") →
   clash (CHAIN_DOMAIN_TAG ++ u32_to_le_bytes PROTOCOL_VERSION ++ config_digest demo_genesis)
     (domain_data DEPOSIT_DOMAIN_TAG (zero_bytes 32) (ascii_bytes "demo"))).
Proof.
  apply signature_domains_are_separated; [by left|by right; left|reflexivity|reflexivity].
Defined.
End Demo.
