(* ===== verification/CheckpointChain.v ===== *)
(** * CheckpointChain: trusting a checkpoint (types/src/checkpoint.rs, [verify_checkpoint_chain])

    A node that starts from a checkpoint replays the committees of the chain from the
    finalized headers of its epochs: the genesis validators sign the first one, each
    header announces who joins and leaves, and the last one commits to the checkpoint.
    The certificate scheme is library code ([MultisigLib]). *)
From S2P Require Import Prelude Codec Crypto BTree Epocher Account ExecutionRequest ProtocolParams.
From S2P Require Import Withdrawal SszTree SszHash SszStateTree ConsensusState StateCodec Block Genesis.

(** [MultisigScheme::verifier] of a namespace and the participants collected into a
    [BiMap], whose collection fails on a repeated key or value; [Finalization::verify]. *)
Class MultisigLib `{BlockLib} := {
  MultisigScheme : Type;
  scheme_verifier : bytes → list (bytes * bytes) → option MultisigScheme;
  verify_finalization : MultisigScheme → Finalization → bool
}.

Definition WEAK_SUBJECTIVITY_MAX_AGE_EPOCHS : Z := 5.

(** The errors, with their keys and numbers but without the texts. *)
Inductive CheckpointVerificationError :=
| NoHeaders
| NonContiguousEpochs (expected found : Z)
| SignatureVerificationFailed (epoch : Z)
| CheckpointHashMismatch
| PrevEpochHeaderHashMismatch (epoch : Z)
| InvalidGenesisHash (hash : string)
| WeakSubjectivityEpochUnavailable (epoch highest : Z)
| WeakSubjectivityHeaderDigestMismatch (epoch : Z) (expected found : bytes)
| WeakSubjectivityCheckpointTooOld (checkpoint_epoch weak_subjectivity_epoch max_age_epochs : Z)
| ValidatorSetMismatch (key : bytes)
| ValidatorSetError
| PayloadDigestMismatch (epoch : Z)
| CheckpointStatePositionMismatch
| CheckpointTransitionQueueMismatch
| CheckpointConsensusKeyMismatch (key : bytes).

Record WeakSubjectivityHeaderDigest := mkWeakSubjectivity {
  ws_epoch : Z;
  header_digest : bytes
}.

Definition added_le (a b : AddedValidator) : Prop := cmp (node_key a) (node_key b) ≠ Gt.
#[global] Instance added_le_dec : RelDecision added_le.
Proof. intros a b. unfold added_le. solve_decision. Defined.
Definition bytes_le (a b : bytes) : Prop := cmp a b ≠ Gt.
#[global] Instance bytes_le_dec : RelDecision bytes_le.
Proof. intros a b. unfold bytes_le. solve_decision. Defined.

Section checkpoint_chain.
Context `{Hc : Crypto} `{Hl : SszLib} `{Hb : BlockLib} `{Hms : !MultisigLib} `{Hg : GenesisLib}.
Notation Verified := (result CheckpointVerificationError).
Notation participants := (list (bytes * bytes)).

(** [if b { return Err(e) }] *)
Definition reject (b : bool) (e : CheckpointVerificationError) : Verified () := if b then Err e else Ok ().
Fixpoint check_all {A} (f : A → Verified ()) (l : list A) : Verified () :=
  match l with [] => Ok () | a :: l => _ ← f a; check_all f l end.

(** ** The headers *)
Definition genesis_participants (vs : list (Validator SocketAddr)) : participants :=
  merge_sort key_le (map (λ v, (v_node_public_key v, v_consensus_public_key v)) vs).
(** The committee of the next epoch. *)
Definition next_participants (ps : participants) (h : Header) : participants :=
  let ps := ps ++ map (λ v, (node_key v, consensus_key v)) (h_added_validators h) in
  let ps := foldl (λ ps removed, retain (λ '(pk, _), negb (bool_decide (pk = removed))) ps) ps (h_removed_validators h) in
  merge_sort key_le ps.

Definition verify_header (namespace : bytes) (expected_epoch : Z) (expected_prev : bytes) (ps : participants)
    (fh : FinalizedHeader) : Verified () :=
  let h := fh_header fh in
  _ ← reject (negb (bool_decide (computed_digest h = signed_payload (fh_finalization fh)))) (PayloadDigestMismatch expected_epoch);
  _ ← reject (negb (h_epoch h =? expected_epoch)%Z) (NonContiguousEpochs expected_epoch (h_epoch h));
  _ ← reject (negb (bool_decide (prev_epoch_header_hash h = expected_prev))) (PrevEpochHeaderHashMismatch expected_epoch);
  match scheme_verifier namespace ps with
  | None => Err ValidatorSetError
  | Some scheme => reject (negb (verify_finalization scheme (fh_finalization fh))) (SignatureVerificationFailed expected_epoch)
  end.
(** The loop over the headers: the participants that signed the last one. *)
Fixpoint verify_headers (namespace : bytes) (i : Z) (expected_prev : bytes) (ps signing_set : participants)
    (headers : list FinalizedHeader) : Verified participants :=
  match headers with
  | [] => Ok signing_set
  | fh :: headers =>
      _ ← verify_header namespace i expected_prev ps fh;
      verify_headers namespace (i + 1) (get_digest (fh_header fh)) (next_participants ps (fh_header fh)) ps headers
  end.

(** A [usize] holds any [u64] on the supported platforms. *)
Definition check_weak_subjectivity (headers : list FinalizedHeader) (ws : option WeakSubjectivityHeaderDigest) : Verified () :=
  match ws with
  | None => Ok ()
  | Some ws =>
      let highest := (Z.of_nat (length headers) - 1)%Z in
      match headers !! Z.to_nat (ws_epoch ws) with
      | None => Err (WeakSubjectivityEpochUnavailable (ws_epoch ws) highest)
      | Some anchor_header =>
          let found := get_digest (fh_header anchor_header) in
          _ ← reject (negb (bool_decide (found = header_digest ws)))
                (WeakSubjectivityHeaderDigestMismatch (ws_epoch ws) (header_digest ws) found);
          reject (WEAK_SUBJECTIVITY_MAX_AGE_EPOCHS <? highest - ws_epoch ws)%Z
            (WeakSubjectivityCheckpointTooOld highest (ws_epoch ws) WEAK_SUBJECTIVITY_MAX_AGE_EPOCHS)
      end
  end.

(** ** The decoded state *)
Section state.
Context {T : Type} `{!StateTree T}.
Implicit Type s : ConsensusState T.

Definition check_signer s (e : bytes * bytes) : Verified () :=
  let '(k, accumulated_bls) := e in
  match BTree.get (validator_accounts s) k with
  | None => Err (ValidatorSetMismatch k)
  | Some account =>
      _ ← reject (negb (is_current_epoch_signer (status account))) (ValidatorSetMismatch k);
      reject (negb (bool_decide (consensus_public_key account = accumulated_bls))) (CheckpointConsensusKeyMismatch k)
  end.
Definition check_active (accumulated : BTreeMap bytes bytes) (e : bytes * ValidatorAccount) : Verified () :=
  reject (bool_decide (status e.2 = Active) && negb (BTree.contains_key accumulated e.1)) (ValidatorSetMismatch e.1).
Definition accumulate (signing_set : participants) : BTreeMap bytes bytes :=
  foldl (λ m e, BTree.insert m e.1 e.2) [] signing_set.
Definition check_accounts s (signing_set : participants) : Verified () :=
  let accumulated := accumulate signing_set in
  _ ← check_all (check_signer s) accumulated;
  check_all (check_active accumulated) (validator_accounts s).

Definition check_position s (terminal : Header) : Verified () :=
  _ ← reject (negb (height terminal =? saturating_add (latest_height s) 1)%Z) CheckpointStatePositionMismatch;
  _ ← reject (negb (epoch s =? h_epoch terminal)%Z) CheckpointStatePositionMismatch;
  _ ← reject (negb (bool_decide (head_digest s = parent terminal))) CheckpointStatePositionMismatch;
  match epoch_bounds (epocher s) (epoch s) with
  | None => Err CheckpointStatePositionMismatch
  | Some (start, last) =>
      reject ((latest_height s <? start)%Z || (last <? latest_height s)%Z) CheckpointStatePositionMismatch
  end.

Definition check_joining s (added : AddedValidator) : Verified () :=
  match BTree.get (validator_accounts s) (node_key added) with
  | None => Err (ValidatorSetMismatch (node_key added))
  | Some account =>
      reject (negb (bool_decide (consensus_public_key account = consensus_key added)))
        (CheckpointConsensusKeyMismatch (node_key added))
  end.
Definition check_transition s (terminal : Header) : Verified () :=
  let next_epoch := wrapping_add (epoch s) 1 in
  let checkpoint_added := merge_sort added_le (default [] (BTree.get (added_validators s) next_epoch)) in
  let header_added := merge_sort added_le (h_added_validators terminal) in
  _ ← reject (negb (bool_decide (checkpoint_added = header_added))) CheckpointTransitionQueueMismatch;
  _ ← check_all (check_joining s) header_added;
  let checkpoint_removed := merge_sort bytes_le (removed_validators s) in
  let header_removed := merge_sort bytes_le (h_removed_validators terminal) in
  reject (negb (bool_decide (checkpoint_removed = header_removed))) CheckpointTransitionQueueMismatch.
End state.

(** [None] is a panic of the decoder. *)
Definition verify_checkpoint_chain_with_weak_subjectivity {T} `{!StateTree T} (g : Genesis)
    (headers : list FinalizedHeader) (checkpoint : Checkpoint) (ws : option WeakSubjectivityHeaderDigest)
  : option (Verified ()) :=
  match list.last headers with
  | None => Some (Err NoHeaders)
  | Some last_header =>
      match genesis_hash g with
      | None => Some (Err (InvalidGenesisHash (eth_genesis_hash g)))
      | Some hash =>
          match get_validators g with
          | None => Some (Err ValidatorSetError)
          | Some vs =>
              let ps := genesis_participants vs in
              let terminal := fh_header last_header in
              match signing_set ← verify_headers (chain_domain (config_digest g)) 0 hash ps ps headers;
                    _ ← check_weak_subjectivity headers ws;
                    _ ← reject (negb (bool_decide (checkpoint_hash terminal = sha256 (cp_data checkpoint)))) CheckpointHashMismatch;
                    mret signing_set with
              | Err e => Some (Err e)
              | Ok signing_set =>
                  match state_try_from (T:=T) checkpoint with
                  | Err _ => Some (Err ValidatorSetError)
                  | Ok None => None
                  | Ok (Some s) =>
                      Some (_ ← check_accounts s signing_set;
                            _ ← check_position s terminal;
                            check_transition s terminal)
                  end
              end
          end
      end
  end.
Definition verify_checkpoint_chain {T} `{!StateTree T} g headers checkpoint :=
  verify_checkpoint_chain_with_weak_subjectivity (T:=T) g headers checkpoint None.
End checkpoint_chain.
