(* ===== verification/CheckpointFacts.v ===== *)
(** * CheckpointFacts: what a verified checkpoint is

    [history] is a chain from the genesis state whose blocks carry what the finalizer
    asks of them, with the finalized headers of its complete epochs.  The committees
    that [verify_checkpoint_chain] rebuilds from the headers are those of the chain;
    so the headers it accepts are the chain's headers and the checkpoint is the one
    the chain took, and the headers and the checkpoint of the chain are accepted. *)
From S2P Require Import Prelude Codec Crypto BTree Epocher Account ExecutionRequest ProtocolParams.
From S2P Require Import Withdrawal SszTree SszHash SszStateTree SszStateTreeFacts ConsensusState StateSync StateCodec.
From S2P Require Import StateRun StatePayouts StateInvariant StateProcess StateBoundary StateSigners.
From S2P Require Import Block Execution ExecutionFacts Chain Committee Genesis CheckpointChain.

(** ** Sorting by a key *)
Section by_key.
Context {A : Type} (f : A → bytes) (R : relation A) `{!RelDecision R}.
Hypothesis R_key : ∀ a b, R a b ↔ cmp (f a) (f b) ≠ Gt.

Lemma by_key_total : Total R.
Proof.
  intros a b. rewrite !R_key. rewrite (cmp_antisym (f a) (f b)). by destruct (cmp (f a) (f b)); [left|left|right].
Qed.
Lemma by_key_trans : Transitive R.
Proof.
  intros a b c. rewrite !R_key. destruct (cmp (f a) (f b)) eqn:E1; [|..|done].
  - apply cmp_eq in E1 as ->. done.
  - intros _ H2 H3%BTree.cmp_gt_lt. destruct (cmp (f b) (f c)) eqn:E2; [|..|done].
    + apply cmp_eq in E2. rewrite E2 in E1. apply (BTree.cmp_lt_irrefl (f c)). by eapply cmp_lt_trans.
    + apply (BTree.cmp_lt_irrefl (f c)). eapply cmp_lt_trans; [exact H3|]. by eapply cmp_lt_trans.
Qed.
Lemma by_key_sorted l : StronglySorted R (merge_sort R l).
Proof. apply StronglySorted_merge_sort; [apply by_key_trans|apply by_key_total]. Qed.

(** Without repeated keys the sorted list is determined by its elements. *)
Lemma by_key_unique l1 l2 :
  NoDup (f <$> l1) → NoDup (f <$> l2) → (∀ a, a ∈ l1 ↔ a ∈ l2) → StronglySorted R l1 → StronglySorted R l2 → l1 = l2.
Proof.
  intros N1 N2 He S1 S2. apply (StronglySorted_unique_strong R); try done.
  - intros a b Ha Hb2. rewrite !R_key. intros Hab Hba.
    assert (f a = f b) as Ef.
    { apply cmp_eq. rewrite (cmp_antisym (f a) (f b)) in Hba. by destruct (cmp (f a) (f b)). }
    apply He in Hb2. apply list_elem_of_lookup in Ha as [i Hi], Hb2 as [j Hj].
    rewrite (NoDup_lookup (f <$> l1) i j (f a)) in Hi; [congruence|done|..]; rewrite list_lookup_fmap.
    + by rewrite Hi.
    + by rewrite Hj, Ef.
  - apply NoDup_Permutation; [by eapply NoDup_fmap_1|by eapply NoDup_fmap_1|done].
Qed.
End by_key.

(** ** Committees *)
(** The signers of a state, sorted by node key. *)
Record seated (m : BTreeMap bytes ValidatorAccount) (l : list (bytes * bytes)) : Prop := {
  se_sorted : StronglySorted key_le l;
  se_nodup : NoDup (fst <$> l);
  se_elem : ∀ k c, (k, c) ∈ l ↔ signer_of m k = Some c
}.
Lemma key_le_key a b : key_le a b ↔ cmp a.1 b.1 ≠ Gt.
Proof. done. Qed.
Lemma seated_unique m l1 l2 : seated m l1 → seated m l2 → l1 = l2.
Proof.
  intros [S1 N1 E1] [S2 N2 E2]. apply (by_key_unique fst key_le key_le_key); try done.
  intros [k c]. by rewrite E1, E2.
Qed.
Lemma seated_sort m l : NoDup (fst <$> l) → (∀ k c, (k, c) ∈ l ↔ signer_of m k = Some c) → seated m (merge_sort key_le l).
Proof.
  intros Hn He. split; [apply (by_key_sorted fst), key_le_key|by rewrite merge_sort_Permutation|].
  intros k c. by rewrite merge_sort_Permutation.
Qed.
Lemma seated_ext m m' l : (∀ k, signer_of m' k = signer_of m k) → seated m l → seated m' l.
Proof. intros He [? ? H3]. split; [done|done|]. intros k c. by rewrite H3, He. Qed.

Section committee.
Context `{Hc : Crypto} {T : Type}.

Lemma current_signers (s : ConsensusState T) :
  accounts_ok (validator_accounts s) → ∃ l, get_current_epoch_validators s = Some l ∧ seated (validator_accounts s) l.
Proof.
  intros [Hs Hf]. set (m := validator_accounts s) in *.
  set (l := retain (λ '(_, a), is_current_epoch_signer (status a)) m).
  unfold get_current_epoch_validators, validators_where, read_keys. fold m l. rewrite read_keys_valid.
  2: { rewrite Forall_forall in *. intros e [He _]%elem_of_retain. by apply Hf. }
  cbn [mbind option_bind app]. eexists. split; [done|]. apply seated_sort.
  - replace (fst <$> map (λ '(k, a), (k, consensus_public_key a)) l) with (BTree.keys l).
    + apply BTree.sorted_keys_NoDup. by apply BTree.sorted_retain.
    + change (fst <$> map (λ '(k, a), (k, consensus_public_key a)) l) with (map fst (map (λ '(k, a), (k, consensus_public_key a)) l)).
      rewrite map_map. apply map_ext. by intros [].
  - intros k c. unfold signer_of, signer. split.
    + intros ([k' a] & [= -> ->] & [Ha Hp]%elem_of_retain)%list_elem_of_fmap. apply BTree.elem_of_get in Ha; [|done].
      rewrite Ha. simpl. by rewrite Hp.
    + intros (a & Ha & E)%bind_Some. destruct (is_current_epoch_signer (status a)) eqn:Hp; [|done]. injection E as <-.
      apply list_elem_of_fmap. exists (k, a). split; [done|]. apply elem_of_retain. split; [|done]. by apply BTree.elem_of_get.
Qed.

(** Removing the leavers one after the other. *)
Lemma elem_of_leave (removed : list bytes) (ps : list (bytes * bytes)) e :
  e ∈ foldl (λ ps removed, retain (λ '(pk, _), negb (bool_decide (pk = removed))) ps) ps removed ↔ e ∈ ps ∧ e.1 ∉ removed.
Proof.
  revert ps. induction removed as [|r removed IH]; intros ps; simpl; [set_solver|].
  rewrite IH, elem_of_retain. destruct e as [k c]. simpl. rewrite negb_true_iff, bool_decide_eq_false. set_solver.
Qed.
Lemma leave_sublist (removed : list bytes) (ps : list (bytes * bytes)) :
  sublist (foldl (λ ps removed, retain (λ '(pk, _), negb (bool_decide (pk = removed))) ps) ps removed) ps.
Proof.
  revert ps. induction removed as [|r removed IH]; intros ps; simpl; [done|].
  etrans; [apply IH|]. unfold retain. clear. induction ps as [|e ps IH]; simpl; [constructor|].
  destruct e as [k c]. by destruct (negb _); constructor.
Qed.

(** Staged validators neither sign yet nor leave. *)
Lemma seats_fresh f n room (s : ConsensusState T) :
  live f n room s →
  NoDup (fst <$> seats s) ∧
  ∀ k c, (k, c) ∈ seats s → (∃ a, BTree.get (validator_accounts s) k = Some a ∧ consensus_public_key a = c) ∧
    signer_of (validator_accounts s) k = None ∧ k ∉ removed_validators s.
Proof.
  intros Hlv. unfold seats. destruct (BTree.get (added_validators s) _) as [vs|] eqn:Eg; simpl;
    [|split; [constructor|by intros ? ? ?%not_elem_of_nil]].
  apply (sg_entry _ _ _ _ (ls_staged _ _ _ _ Hlv)) in Eg as (_ & _ & Hn & Hf).
  split; [change (NoDup (map fst (map (λ v, (node_key v, consensus_key v)) vs))); by rewrite map_map|].
  intros k c (v & [= -> ->] & Hv)%list_elem_of_fmap. rewrite Forall_forall in Hf. destruct (Hf v Hv) as [_ Hj].
  unfold joining_of, join_view in Hj. destruct (BTree.get _ (node_key v)) as [a|] eqn:Ea; [|done]. simpl in Hj.
  case_bool_decide as Hst; [|done]. injection Hj as _ Ek. split_and!.
  - by exists a.
  - unfold signer_of, signer. rewrite Ea. simpl. by rewrite Hst.
  - intros [_ (st & Hs & Hl1)]%(lv_serving _ _ _ _ (ls_leaving _ _ _ _ Hlv)). unfold status_of in Hs. rewrite Ea in Hs.
    injection Hs as <-. by rewrite Hst in Hl1.
Qed.

(** The header of the last block turns the committee into the next one. *)
Lemma next_participants_seated f n room (s : ConsensusState T) m' ps h :
  live f n room s → seated (validator_accounts s) ps →
  h_added_validators h = default [] (BTree.get (added_validators s) (epoch s + 1)%Z) →
  h_removed_validators h = removed_validators s →
  (∀ k c, signer_of m' k = Some c ↔
    (k, c) ∈ seats s ∨ signer_of (validator_accounts s) k = Some c ∧ k ∉ removed_validators s) →
  seated m' (next_participants ps h).
Proof.
  intros Hlv [_ Hn He] Ha Hr Hm. destruct (seats_fresh f n room s Hlv) as [Hsn Hsf].
  unfold next_participants. rewrite Ha, Hr. change (map _ (default [] _)) with (seats s). apply seated_sort.
  - eapply sublist_NoDup; [|apply fmap_sublist, leave_sublist]. rewrite fmap_app. apply NoDup_app. split_and!; [done| |done].
    intros k ([k1 c1] & -> & H1)%list_elem_of_fmap ([k2 c2] & E2 & H2)%list_elem_of_fmap. simpl in E2. subst k2.
    apply He in H1. destruct (Hsf _ _ H2) as (_ & Hno & _). simpl in H1. congruence.
  - intros k c. rewrite elem_of_leave, elem_of_app, He, Hm. simpl. split; [naive_solver|].
    intros [Hin|?]; [|naive_solver]. destruct (Hsf _ _ Hin) as (_ & _ & ?). naive_solver.
Qed.
End committee.

(** ** The chain of a network *)
Section history.
Context `{Hc : Crypto} `{!CryptoOk} `{Hl : SszLib} `{!SszLibOk} `{Hb : BlockLib} `{!BlockLibOk}.
Context `{Hms : !MultisigLib} `{Hg : GenesisLib} `{!GenesisLibOk}.
Context (consts : ProtocolConsts) (domain key : bytes).
Implicit Type s : ConsensusState SszStateTree.

(** A genesis configuration, what it parses to, and the first state. *)
Record launched (g : Genesis) (hash : bytes) (vs : list (Validator SocketAddr)) s : Prop := {
  la_typed : genesis_typed g;
  la_valid : genesis_validate g = Ok ();
  la_stake : (0 < g_validator_minimum_stake g)%Z;
  la_hash : genesis_hash g = Some hash;
  la_validators : get_validators g = Some vs;
  la_nodes : NoDup (v_node_public_key <$> vs);
  la_keys : NoDup (v_consensus_public_key <$> vs);
  la_delay : is_u64 (validator_withdrawal_num_epochs consts);
  la_state : get_initial_state g vs None = Some s
}.

Lemma genesis_participants_seated g vs :
  NoDup (v_node_public_key <$> vs) → seated (genesis_accounts g vs []) (genesis_participants vs).
Proof.
  intros Hn. apply seated_sort.
  - change (NoDup (map fst (map (λ v, (v_node_public_key v, v_consensus_public_key v)) vs))). by rewrite map_map.
  - intros k c. unfold signer_of. split.
    + intros (v & [= -> ->] & Hv)%list_elem_of_fmap.
      rewrite (proj2 (genesis_accounts_get g vs _ (genesis_account g v) Hn)); [done|by exists v].
    + intros (a & (v & Hv & -> & ->)%genesis_accounts_get & E)%bind_Some; [|done]. injection E as <-.
      apply list_elem_of_fmap. by exists v.
Qed.

Lemma launched_start g hash vs s :
  launched g hash vs s →
  reachable s ∧ steady consts s ∧ funded (data_of s) ∧ floored s ∧ epoch s = 0%Z ∧ pending_checkpoint s = None ∧
  seated (validator_accounts s) (genesis_participants vs).
Proof.
  intros [Ht Hok%genesis_validate_ok Hst Hh Hvs Hn Hk Hd E].
  destruct (initial_state_steady consts g vs Ht Hok ltac:(by eexists) (get_validators_ok g vs Hvs) Hn Hk Hd)
    as (s' & hash' & treasury & E' & Hr & Hdt & _ & _ & Hsd). rewrite E in E'. apply (inj Some) in E' as <-.
  assert (Hm : validator_accounts (data_of s) = genesis_accounts g vs []) by by rewrite Hdt.
  assert (Hms0 : validator_minimum_stake (data_of s) = g_validator_minimum_stake g) by by rewrite Hdt.
  assert (Hp : prospective_minimum_stake (data_of s) = g_validator_minimum_stake g) by by rewrite Hdt.
  split_and!; [done|done| | |exact (f_equal epoch Hdt)|exact (f_equal pending_checkpoint Hdt)|].
  - split; [by rewrite Hms0|by rewrite Hdt; constructor|]. rewrite Hm. intros k a Ha.
    apply genesis_accounts_get in Ha as (v & _ & _ & ->); [|done]. split; [done|]. intros _ w. rewrite Hdt.
    by intros ?%not_elem_of_nil.
  - split; [by change (0 < validator_minimum_stake (data_of s))%Z; rewrite Hms0|].
    by change (0 < prospective_minimum_stake (data_of s))%Z; rewrite Hp.
  - change (seated (validator_accounts (data_of s)) (genesis_participants vs)). rewrite Hm.
    by apply genesis_participants_seated.
Qed.

Context (g : Genesis) (hash : bytes) (vs : list (Validator SocketAddr)) (s0 : ConsensusState SszStateTree).
Notation namespace := (chain_domain (config_digest g)).

(** A header as it is decoded. *)
Definition decoded (h : Header) : Prop := header_wf h ∧ digest h = None.
(** What the next epoch's last header links to. *)
Definition tip (hs : list FinalizedHeader) : bytes :=
  match list.last hs with Some fh => get_digest (fh_header fh) | None => hash end.
(** The fields of the last header of an epoch, as [handle_aux_data] computes them. *)
Record announces (hs : list FinalizedHeader) s (cp : Checkpoint) (h : Header) : Prop := {
  an_prev : prev_epoch_header_hash h = tip hs;
  an_checkpoint : checkpoint_hash h = cp_digest cp;
  an_added : h_added_validators h = default [] (BTree.get (added_validators s) (wrapping_add (epoch s) 1));
  an_removed : h_removed_validators h = removed_validators s
}.
(** The block is finalized by the committee of the epoch. *)
Record certified s (b : Block) (fh : FinalizedHeader) : Prop := {
  cf_header : fh_header fh = header b;
  cf_payload : signed_payload (fh_finalization fh) = block_digest b;
  cf_verified : ∃ committee scheme, get_current_epoch_validators s = Some committee ∧
    scheme_verifier namespace committee = Some scheme ∧ verify_finalization scheme (fh_finalization fh) = true
}.

Inductive history : list FinalizedHeader → list Block → ConsensusState SszStateTree → Prop :=
| history_start : history [] [] s0
| history_inner hs bs s b s' :
    history hs bs s → fits consts domain b s → finalize_block consts domain key b s = Some s' → floored s' →
    decoded (header b) → is_last_block_of_epoch (epocher s) (block_height b) = Some false →
    prev_epoch_header_hash (header b) = zero_bytes 32 → history hs (bs ++ [b]) s'
| history_last hs bs s b s' cp fh :
    history hs bs s → fits consts domain b s → finalize_block consts domain key b s = Some s' → floored s' →
    decoded (header b) → is_last_block_of_epoch (epocher s) (block_height b) = Some true →
    pending_checkpoint s = Some cp → announces hs s cp (header b) → certified s b fh →
    history (hs ++ [fh]) (bs ++ [b]) s'.

(** The participants after the headers. *)
Definition participants_after (hs : list FinalizedHeader) : list (bytes * bytes) :=
  foldl (λ ps fh, next_participants ps (fh_header fh)) (genesis_participants vs) hs.
(** A checkpoint is pending exactly between the last two blocks of an epoch. *)
Definition pending_ok s : Prop := ∀ cp, pending_checkpoint s = Some cp →
  (∃ c : ConsensusState (), cp = checkpoint_new c ∧ snapshot_of c (data_of s)) ∧
  ∀ first last, epoch_bounds (epocher s) (epoch s) = Some (first, last) → (first ≤ latest_height s ∧ latest_height s = last - 1)%Z.
Record on_course (hs : list FinalizedHeader) s : Prop := {
  oc_reachable : reachable s;
  oc_steady : steady consts s;
  oc_funded : funded (data_of s);
  oc_floored : floored s;
  oc_epoch : epoch s = Z.of_nat (length hs);
  oc_seated : seated (validator_accounts s) (participants_after hs);
  oc_pending : pending_ok s
}.

Lemma inner_on_course hs s b s' :
  on_course hs s → fits consts domain b s → finalize_block consts domain key b s = Some s' → floored s' →
  is_last_block_of_epoch (epocher s) (block_height b) = Some false → on_course hs s'.
Proof.
  intros [Hr Hst Hf Hfl He Hse Hpe] Hfit E Hfl' Hno.
  destruct (finalize_block_total consts domain key b s Hr Hst Hfit) as (s1 & s2 & _ & E2 & _ & Hr' & Hst' & Hh' & _ & _).
  rewrite E in E2. apply (inj Some) in E2 as <-.
  destruct (finalize_signers consts domain key b s s' Hr Hst Hfit Hf Hfl Hfl' E) as (Hf' & first & last & Hck & Hl1 & Hkept).
  rewrite Hno in Hl1. apply (inj Some) in Hl1. rewrite <-Hl1 in Hkept. symmetry in Hl1. apply Z.eqb_neq in Hl1.
  destruct Hkept as (He' & Hep' & Hsg & Hcp). pose proof (ck_bounds _ _ _ Hck) as Hbd.
  pose proof (ex_height _ _ (ft_extends _ _ _ _ Hfit)) as Hh.
  split; try done; [congruence|by eapply seated_ext|]. intros cp Ecp. rewrite He', Hep', Hh'.
  destruct (Z.eqb_spec (block_height b) (last - 1)) as [Ep|Hne].
  - destruct Hcp as (c & Ec & Hsn & _). rewrite Ecp in Ec. apply (inj Some) in Ec as ->. split; [by exists c|].
    intros first' last' E'. rewrite Hbd in E'. injection E' as <- <-. pose proof (ck_height _ _ _ Hck). lia.
  - rewrite Hcp in Ecp. destruct (Hpe cp Ecp) as [_ Hlast]. destruct (Hlast _ _ Hbd). lia.
Qed.

Lemma last_on_course hs s b s' cp fh :
  on_course hs s → fits consts domain b s → finalize_block consts domain key b s = Some s' → floored s' →
  is_last_block_of_epoch (epocher s) (block_height b) = Some true → announces hs s cp (header b) →
  certified s b fh → (0 ≤ validator_withdrawal_num_epochs consts)%Z → on_course (hs ++ [fh]) s'.
Proof.
  intros [Hr Hst Hf Hfl He Hse Hpe] Hfit E Hfl' Hyes Han Hcf Hdel.
  destruct (finalize_block_total consts domain key b s Hr Hst Hfit) as (s1 & s2 & _ & E2 & _ & Hr' & Hst' & _).
  rewrite E in E2. apply (inj Some) in E2 as <-.
  destruct (finalize_signers consts domain key b s s' Hr Hst Hfit Hf Hfl Hfl' E) as (Hf' & first & last & Hck & Hl1 & Hnext).
  rewrite Hyes in Hl1. apply (inj Some) in Hl1. rewrite <-Hl1 in Hnext. destruct Hnext as (He' & Hcp & Hsg).
  destruct Hst as (f & l & _ & _ & Hlv). split; try done.
  - rewrite length_app, He'. simpl. lia.
  - unfold participants_after. rewrite foldl_app. simpl. rewrite (cf_header _ _ _ Hcf). destruct Han as [_ _ Ha Hrm].
    destruct Hst' as (f' & l' & _ & _ & Hlv'). pose proof (ls_epoch _ _ _ _ Hlv) as [? _].
    pose proof (ls_epoch _ _ _ _ Hlv') as [? Hu]. rewrite He' in Hu.
    rewrite wrapping_add_small in Ha by (u64_unfold; lia). by apply (next_participants_seated _ _ _ s _ _ _ Hlv).
  - intros cp' Ecp. rewrite Hcp in Ecp. done.
Qed.

Lemma history_on_course hs bs s : launched g hash vs s0 → history hs bs s → on_course hs s.
Proof.
  intros Hla. induction 1 as [|hs bs s b s' _ IH Hfit E Hfl _ Hno _|hs bs s b s' cp fh _ IH Hfit E Hfl _ Hyes Hcp Han Hcf].
  - destruct (launched_start _ _ _ _ Hla) as (Hr & Hst & Hf & Hfl & He & Hp & Hse). split; try done.
    intros cp Ecp. by rewrite Hp in Ecp.
  - by eapply inner_on_course.
  - eapply last_on_course; try done. apply (la_delay _ _ _ _ Hla).
Qed.

(** The state in which the [i]-th header was announced. *)
Lemma history_at hs bs s i fh :
  history hs bs s → hs !! i = Some fh → ∃ bs1 s1 b cp, history (take i hs) bs1 s1 ∧ (bs1 ++ [b]) `prefix_of` bs ∧
    fits consts domain b s1 ∧ decoded (header b) ∧ pending_checkpoint s1 = Some cp ∧
    is_last_block_of_epoch (epocher s1) (block_height b) = Some true ∧
    announces (take i hs) s1 cp (header b) ∧ certified s1 b fh.
Proof.
  induction 1 as [|hs bs s b s' _ IH Hfit E Hfl _ Hno _|hs bs s b s' cp fh' Hhi IH Hfit E Hfl Hd Hyes Hcp Han Hcf]; [done| |].
  - intros (bs1 & s1 & b1 & cp & Hh1 & Hpx & Hrest)%IH. exists bs1, s1, b1, cp. split_and!; try done; [|naive_solver..].
    by apply prefix_app_r.
  - intros [Hi|[Hi Hx]]%lookup_app_Some.
    + destruct (IH Hi) as (bs1 & s1 & b1 & cp1 & Hh1 & Hpx & Hrest). exists bs1, s1, b1, cp1.
      rewrite take_app_le by (apply lookup_lt_Some in Hi; lia). split_and!; try done; [|naive_solver..].
      by apply prefix_app_r.
    + apply list_lookup_singleton_Some in Hx as [Hx <-]. replace i with (length hs) by lia.
      rewrite take_app_length. by exists bs, s, b, cp.
Qed.
Lemma history_upto hs bs s i :
  history hs bs s → i ≤ length hs → ∃ bs1 s1, history (take i hs) bs1 s1 ∧ bs1 `prefix_of` bs.
Proof.
  intros Hhi Hi. destruct (hs !! i) as [fh|] eqn:Ei.
  - destruct (history_at hs bs s i fh Hhi Ei) as (bs1 & s1 & b & cp & Hh1 & Hpx & _). exists bs1, s1. split; [done|].
    etrans; [by apply prefix_app_r|done].
  - apply lookup_ge_None in Ei. exists bs, s. rewrite take_ge by lia. by split.
Qed.

(** A block of the chain is either inside an epoch or its epoch's last one. *)
Lemma history_blocks hs bs s b :
  launched g hash vs s0 → history hs bs s → b ∈ bs →
  decoded (header b) ∧ (prev_epoch_header_hash (header b) = zero_bytes 32 ∨
    ∃ i fh, hs !! i = Some fh ∧ block_epoch b = Z.of_nat i ∧ fh_header fh = header b).
Proof.
  intros Hla. induction 1 as [|hs bs s b' s' Hhi IH Hfit E Hfl Hd Hno Hz|hs bs s b' s' cp fh' Hhi IH Hfit E Hfl Hd Hyes Hcp Han Hcf].
  - by intros ?%not_elem_of_nil.
  - intros [Hb1|Hb1%list_elem_of_singleton]%elem_of_app; [by apply IH|]. subst b. split; [done|by left].
  - intros [Hb1|Hb1%list_elem_of_singleton]%elem_of_app.
    + destruct (IH Hb1) as [? [?|(i & fh & Hi & ?)]]; (split; [done|]); [by left|right]. exists i, fh.
      by rewrite lookup_app_l by (apply lookup_lt_Some in Hi; lia).
    + subst b. split; [done|right]. exists (length hs), fh'. split_and!; [by apply list_lookup_middle| |by destruct Hcf].
      rewrite (ft_epoch _ _ _ _ Hfit). apply (history_on_course _ _ _ Hla Hhi).
Qed.

(** ** Accepted headers *)
(** No committee of the chain finalizes a block outside of it. *)
Definition agreement (bs : list Block) : Prop := ∀ hs1 bs1 s1 committee scheme f,
  history hs1 bs1 s1 → bs1 `prefix_of` bs → get_current_epoch_validators s1 = Some committee →
  scheme_verifier namespace committee = Some scheme → verify_finalization scheme f = true →
  ∃ b, b ∈ bs ∧ signed_payload f = block_digest b.

Lemma reject_Ok b e : reject b e = Ok () → b = false.
Proof. by destruct b. Qed.
Lemma decoded_eq h1 h2 : decoded h1 → decoded h2 → write_header h1 = write_header h2 → h1 = h2.
Proof.
  intros [W1 D1] [W2 D2] E%write_header_inj; [|done..]. unfold header_eq, cold in E. destruct h1, h2. simpl in *. by subst.
Qed.
Lemma decoded_digest h : decoded h → get_digest h = computed_digest h.
Proof. intros [_ D]. unfold get_digest. by rewrite D. Qed.

(** What the checks of a header say. *)
Lemma verify_header_Ok ns i prev ps fh :
  verify_header ns i prev ps fh = Ok () →
  computed_digest (fh_header fh) = signed_payload (fh_finalization fh) ∧ h_epoch (fh_header fh) = i ∧
  prev_epoch_header_hash (fh_header fh) = prev ∧
  ∃ scheme, scheme_verifier ns ps = Some scheme ∧ verify_finalization scheme (fh_finalization fh) = true.
Proof.
  unfold verify_header. intros ([] & E1%reject_Ok & ([] & E2%reject_Ok & ([] & E3%reject_Ok & E)%result_bind_Ok)%result_bind_Ok)%result_bind_Ok.
  apply negb_false_iff, bool_decide_eq_true in E1, E3. apply negb_false_iff, Z.eqb_eq in E2.
  destruct (scheme_verifier ns ps) as [scheme|]; [|done]. apply reject_Ok, negb_false_iff in E. by eauto 10.
Qed.

Context (Hla : launched g hash vs s0).
Lemma next_header_canonical hs bs s i fh :
  history hs bs s → agreement bs → i ≤ length hs → tip (take i hs) ≠ zero_bytes 32 → decoded (fh_header fh) →
  verify_header namespace (Z.of_nat i) (tip (take i hs)) (participants_after (take i hs)) fh = Ok () →
  (∃ fh0, hs !! i = Some fh0 ∧ fh_header fh0 = fh_header fh) ∨
  ∃ b, b ∈ bs ∧ clash (write_header (header b)) (write_header (fh_header fh)).
Proof.
  intros Hhi Hag Hi Hz Hd (Hdg & He & Hp & scheme & Hs & Hv)%verify_header_Ok.
  destruct (history_upto hs bs s i Hhi Hi) as (bs1 & s1 & Hh1 & Hpx).
  pose proof (history_on_course _ _ _ Hla Hh1) as Hoc. destruct (oc_steady _ _ Hoc) as (f & l & _ & _ & Hlv).
  destruct (current_signers s1 (ls_accounts _ _ _ _ Hlv)) as (ps & Eps & Hse).
  rewrite <-(seated_unique _ _ _ Hse (oc_seated _ _ Hoc)) in Hs.
  destruct (Hag _ _ _ _ _ _ Hh1 Hpx Eps Hs Hv) as (b & Hin & Hsg).
  destruct (history_blocks _ _ _ _ Hla Hhi Hin) as [Hdb Hcase]. rewrite Hsg in Hdg.
  unfold block_digest in Hdg. rewrite (decoded_digest _ Hdb) in Hdg. symmetry in Hdg.
  apply clash_or_eq in Hdg as [Heq|Hcl]; [left|right; by exists b]. apply (decoded_eq _ _ Hdb Hd) in Heq.
  destruct Hcase as [H0z|(j & fh0 & Hj & Ej & Hfh)]; [congruence|].
  exists fh0. split; [|congruence]. unfold block_epoch in Ej. rewrite Heq, He in Ej. apply (inj Z.of_nat) in Ej. by subst j.
Qed.

Lemma tip_snoc hs fh : tip (hs ++ [fh]) = get_digest (fh_header fh).
Proof. unfold tip. by rewrite last_snoc. Qed.

Lemma headers_canonical hs bs s headers i sig r :
  history hs bs s → agreement bs → zero_bytes 32 ∉ hash :: map (λ fh, get_digest (fh_header fh)) hs →
  i ≤ length hs → Forall (λ fh, decoded (fh_header fh)) headers →
  verify_headers namespace (Z.of_nat i) (tip (take i hs)) (participants_after (take i hs)) sig headers = Ok r →
  (fh_header <$> headers) `prefix_of` (fh_header <$> drop i hs) ∨
  ∃ fh b, fh ∈ headers ∧ b ∈ bs ∧ clash (write_header (header b)) (write_header (fh_header fh)).
Proof.
  intros Hhi Hag Hz. revert i sig. induction headers as [|fh headers IH]; intros i sig Hi Hd.
  { intros _. left. apply prefix_nil. }
  apply Forall_cons in Hd as [Hd Hds]. intros ([] & Hv & Hrest)%result_bind_Ok.
  destruct (next_header_canonical hs bs s i fh Hhi Hag Hi) as [(fh0 & Hfh & Eh)|(b & Hin & Hcl)]; [|done|done|..].
  { intros E. apply Hz. unfold tip in E. destruct (list.last (take i hs)) as [fh1|] eqn:El; [|set_solver].
    apply last_Some_elem_of in El. apply elem_of_take in El as (j & Hj & _). rewrite <-E. apply list_elem_of_further.
    apply list_elem_of_fmap. exists fh1. split; [done|]. by eapply list_elem_of_lookup_2. }
  2: { right. exists fh, b. split; [constructor|done]. }
  pose proof (take_S_r hs i fh0 Hfh) as Etk. pose proof (lookup_lt_Some _ _ _ Hfh) as Hlt.
  destruct (IH (S i) (participants_after (take i hs)) Hlt Hds) as [Hpx|(fh' & b & Hin & ?)].
  - rewrite Etk, tip_snoc. unfold participants_after. rewrite foldl_app. simpl. rewrite Eh.
    replace (Z.of_nat (S i)) with (Z.of_nat i + 1)%Z by lia. exact Hrest.
  - left. rewrite (drop_S hs fh0 i Hfh). rewrite !fmap_cons, Eh. by apply prefix_cons.
  - right. exists fh', b. split; [by constructor|done].
Qed.

(** What an accepted checkpoint went through. *)
Lemma verify_chain_Ok headers cp ws :
  verify_checkpoint_chain_with_weak_subjectivity (T:=SszStateTree) g headers cp ws = Some (Ok ()) →
  ∃ fh r, list.last headers = Some fh ∧ checkpoint_hash (fh_header fh) = sha256 (cp_data cp) ∧
    cp_digest cp = sha256 (cp_data cp) ∧
    verify_headers namespace 0 hash (genesis_participants vs) (genesis_participants vs) headers = Ok r.
Proof.
  unfold verify_checkpoint_chain_with_weak_subjectivity. rewrite (la_hash _ _ _ _ Hla), (la_validators _ _ _ _ Hla).
  destruct (list.last headers) as [fh|]; [|done]. cbv zeta. intros E. exists fh.
  destruct (verify_headers _ _ _ _ _ headers) as [ps|] eqn:Ev; [|done]. cbn [mbind result_bind] in E.
  destruct (check_weak_subjectivity headers ws) as [[]|]; [|done]. cbn [mbind result_bind] in E. exists ps.
  destruct (bool_decide_reflect (checkpoint_hash (fh_header fh) = sha256 (cp_data cp))) as [Hh|]; [|done].
  split_and!; try done. simpl negb in E. cbn [reject mbind result_bind mret result_ret] in E.
  unfold state_try_from in E. by destruct (bool_decide_reflect (sha256 (cp_data cp) = cp_digest cp)).
Qed.

(** C6: A verified checkpoint is the checkpoint of the chain.  Take the finalized chain of
    a network that started from its genesis file, and suppose that no committee of the
    chain finalizes a block outside of it.  Whatever decoded headers and whatever
    checkpoint a peer supplies, if [verify_checkpoint_chain_with_weak_subjectivity]
    accepts them then the headers are the last headers of the first epochs of the chain,
    and the checkpoint is the encoding of the state that the chain had reached before the
    last of them: its epoch, height, head, accounts and pending committee changes are
    those of the canonical state.  Otherwise one of the supplied headers, or the
    supplied checkpoint, is half of a SHA-256 collision with the chain's. *)
Theorem verified_checkpoint_is_canonical hs bs s headers cp ws :
  history hs bs s → agreement bs → zero_bytes 32 ∉ hash :: map (λ fh, get_digest (fh_header fh)) hs →
  Forall (λ fh, decoded (fh_header fh)) headers →
  verify_checkpoint_chain_with_weak_subjectivity (T:=SszStateTree) g headers cp ws = Some (Ok ()) →
  (0 < length headers ≤ length hs ∧ (fh_header <$> headers) `prefix_of` (fh_header <$> hs) ∧
   ∃ bs1 s1 (c : ConsensusState ()), history (take (length headers - 1) hs) bs1 s1 ∧ bs1 `prefix_of` bs ∧
     snapshot_of c (data_of s1) ∧ (cp = checkpoint_new c ∨ clash (cp_data cp) (write_state c))) ∨
  ∃ fh b, fh ∈ headers ∧ b ∈ bs ∧ clash (write_header (header b)) (write_header (fh_header fh)).
Proof.
  intros Hhi Hag Hz Hd (fh & r & Hlast & Hcp & Hdg & Hv)%verify_chain_Ok.
  destruct (headers_canonical hs bs s headers 0 _ r Hhi Hag Hz ltac:(lia) Hd Hv) as [Hpx|?]; [left|by right].
  rewrite drop_0 in Hpx. pose proof (prefix_length _ _ Hpx) as Hlen. rewrite !length_fmap in Hlen.
  assert (headers !! (length headers - 1) = Some fh) as Hat by (by rewrite Nat.sub_1_r, <-last_lookup).
  pose proof (lookup_lt_Some _ _ _ Hat) as Hlt. split_and!; [lia|done|done|].
  assert ((fh_header <$> hs) !! (length headers - 1) = Some (fh_header fh)) as Hh.
  { eapply prefix_lookup_Some; [|done]. by rewrite list_lookup_fmap, Hat. }
  rewrite list_lookup_fmap in Hh. apply fmap_Some in Hh as (fh0 & Hfh0 & Eh).
  destruct (history_at hs bs s _ fh0 Hhi Hfh0) as (bs1 & s1 & b & cp1 & Hh1 & Hp1 & _ & _ & Hpc & _ & Han & Hcf).
  destruct (oc_pending _ _ (history_on_course _ _ _ Hla Hh1) cp1 Hpc) as [(c & -> & Hsn) _].
  exists bs1, s1, c. split_and!; [done|etrans; [by apply prefix_app_r|done]|done|].
  rewrite Eh, (cf_header _ _ _ Hcf), (an_checkpoint _ _ _ _ Han) in Hcp. symmetry in Hcp.
  apply clash_or_eq in Hcp as [E|?]; [left|by right]. destruct cp as [data dg]. simpl in *. subst data dg. done.
Qed.

(** ** The chain's own headers *)
Lemma verify_headers_snoc ns i prev ps sig hs fh :
  verify_headers ns i prev ps sig (hs ++ [fh]) =
  (_ ← verify_headers ns i prev ps sig hs;
   _ ← verify_header ns (i + Z.of_nat (length hs))
         (match list.last hs with Some fh => get_digest (fh_header fh) | None => prev end)
         (foldl (λ ps fh, next_participants ps (fh_header fh)) ps hs) fh;
   Ok (foldl (λ ps fh, next_participants ps (fh_header fh)) ps hs)).
Proof.
  revert i prev ps sig. induction hs as [|fh1 hs IH]; intros i prev ps sig; cbn [app verify_headers foldl].
  - cbn [mbind result_bind]. simpl. by rewrite Z.add_0_r.
  - rewrite IH. destruct (verify_header ns i prev ps fh1) as [[]|]; [|done]. cbn [mbind result_bind].
    destruct (verify_headers ns _ _ _ _ hs); [|done]. cbn [mbind result_bind].
    replace (i + 1 + Z.of_nat (length hs))%Z with (i + Z.of_nat (length (fh1 :: hs)))%Z by (simpl; lia).
    by rewrite last_cons; destruct (list.last hs).
Qed.

Lemma own_header hs s b fh cp :
  on_course hs s → fits consts domain b s → decoded (header b) → announces hs s cp (header b) → certified s b fh →
  verify_header namespace (Z.of_nat (length hs)) (tip hs) (participants_after hs) fh = Ok ().
Proof.
  intros Hoc Hfit Hd Han [Hh Hp (ps & scheme & Eps & Hs & Hv)]. destruct (oc_steady _ _ Hoc) as (f & l & _ & _ & Hlv).
  destruct (current_signers s (ls_accounts _ _ _ _ Hlv)) as (ps' & Eps' & Hse). rewrite Eps in Eps'.
  apply (inj Some) in Eps' as <-. rewrite (seated_unique _ _ _ Hse (oc_seated _ _ Hoc)) in Hs.
  unfold verify_header. rewrite Hh, Hp, Hs, Hv, (an_prev _ _ _ _ Han). unfold block_digest.
  rewrite (decoded_digest _ Hd), !bool_decide_true by done.
  pose proof (ft_epoch _ _ _ _ Hfit) as He. unfold block_epoch in He.
  by rewrite (proj2 (Z.eqb_eq _ _)) by (by rewrite He, (oc_epoch _ _ Hoc)).
Qed.
Lemma own_headers hs bs s :
  history hs bs s → ∃ r, verify_headers namespace 0 hash (genesis_participants vs) (genesis_participants vs) hs = Ok r.
Proof.
  induction 1 as [| |hs bs s b s' cp fh Hhi IH Hfit E Hfl Hd Hyes Hcp Han Hcf]; [by eexists|done|].
  destruct IH as [r IH]. rewrite verify_headers_snoc, IH. cbn [mbind result_bind].
  pose proof (own_header hs s b fh cp (history_on_course _ _ _ Hla Hhi) Hfit Hd Han Hcf) as Hv.
  unfold tip, participants_after in Hv. rewrite Z.add_0_l, Hv. by eexists.
Qed.

Lemma check_all_Ok {A} (f : A → result _ ()) l : (∀ a, a ∈ l → f a = Ok ()) → check_all f l = Ok ().
Proof.
  induction l as [|a l IH]; intros Hf; [done|]. simpl. rewrite Hf by constructor. cbn [mbind result_bind].
  apply IH. intros a' ?. apply Hf. by constructor.
Qed.
Lemma accumulate_get l : NoDup (fst <$> l) →
  BTree.sorted (accumulate l) ∧ ∀ k c, BTree.get (accumulate l) k = Some c ↔ (k, c) ∈ l.
Proof.
  unfold accumulate. induction l as [|[k1 c1] l IH] using rev_ind; intros Hn.
  { split; [constructor|]. intros k c. simpl. split; [done|by intros ?%not_elem_of_nil]. }
  rewrite fmap_app in Hn. apply NoDup_app in Hn as (Hn & Hdis & _). destruct (IH Hn) as [Hs Hg']. rewrite foldl_app. simpl.
  split; [by apply BTree.sorted_insert|]. intros k c. rewrite elem_of_app, list_elem_of_singleton.
  destruct (decide (k1 = k)) as [->|Hne].
  - rewrite BTree.get_insert_eq. split; [intros [= ->]; by right|]. intros [Hin|[= ->]]; [|done]. exfalso.
    apply (Hdis k); [by apply (list_elem_of_fmap_2 fst _ _ Hin)|by apply list_elem_of_singleton].
  - rewrite BTree.get_insert_ne by done. rewrite Hg'. naive_solver.
Qed.

(** The committee of a state passes the checks of its accounts. *)
Lemma own_accounts {T} (s3 : ConsensusState T) m ps :
  validator_accounts s3 = m → seated m ps → BTree.sorted m → check_accounts s3 ps = Ok ().
Proof.
  intros Hm [_ Hn He] Hso. unfold check_accounts. destruct (accumulate_get ps Hn) as [Hs Hget]. rewrite (check_all_Ok (check_signer s3)).
  - cbn [mbind result_bind]. apply check_all_Ok. intros [k a] Ha. unfold check_active. simpl.
    rewrite Hm in Ha. apply BTree.elem_of_get in Ha; [|done]. destruct (bool_decide_reflect (status a = Active)) as [Hst|]; [|done].
    assert (BTree.get (accumulate ps) k = Some (consensus_public_key a)) as Hk.
    { apply Hget, He. unfold signer_of, signer. rewrite Ha. simpl. by rewrite Hst. }
    unfold BTree.contains_key. by rewrite Hk.
  - intros [k c] Hin. apply BTree.elem_of_get in Hin; [|done]. apply Hget, He in Hin. unfold signer_of, signer in Hin.
    unfold check_signer. rewrite Hm. destruct (BTree.get m k) as [a|]; [|done]. simpl in Hin.
    destruct (is_current_epoch_signer (status a)); [|done]. injection Hin as ->. simpl. by rewrite bool_decide_true.
Qed.

(** The decoded state is at its place before the terminal header. *)
Lemma own_position {T} (s3 : ConsensusState T) hs s b cp :
  on_course hs s → fits consts domain b s → pending_checkpoint s = Some cp →
  latest_height s3 = latest_height s → epoch s3 = epoch s → head_digest s3 = head_digest s → epocher s3 = epocher s →
  check_position s3 (header b) = Ok ().
Proof.
  intros Hoc Hfit Hcp Eh Ee Ed Ep. destruct (oc_steady _ _ Hoc) as (first & last & Hck & Hlt & _).
  pose proof (ck_bounds _ _ _ Hck) as Hbd. destruct (oc_pending _ _ Hoc cp Hcp) as [_ Hat]. specialize (Hat _ _ Hbd).
  pose proof (ck_height _ _ _ Hck) as [_ Hpos]. pose proof (ck_last _ _ _ Hck) as Hmax.
  pose proof (ft_epoch _ _ _ _ Hfit) as Hep. pose proof (ft_parent _ _ _ _ Hfit) as Hpa.
  pose proof (ex_height _ _ (ft_extends _ _ _ _ Hfit)) as Hh. unfold block_epoch, block_parent, block_height in *.
  unfold check_position, saturating_add. rewrite Eh, Ee, Ed, Ep, Hbd.
  rewrite (proj2 (Z.eqb_eq (height (header b)) _)) by lia. rewrite (proj2 (Z.eqb_eq _ _) (eq_sym Hep)).
  rewrite bool_decide_true by done. cbn [negb reject mbind result_bind].
  rewrite (proj2 (Z.ltb_ge (latest_height s) first)), (proj2 (Z.ltb_ge last _)) by lia. done.
Qed.

(** Its staged committee changes are the announced ones. *)
Lemma own_transition {T} (s3 : ConsensusState T) hs s h cp :
  on_course hs s → is_u64 (epoch s + 1) → announces hs s cp h → validator_accounts s3 = validator_accounts s →
  epoch s3 = epoch s → added_validators s3 = added_validators s → removed_validators s3 = removed_validators s →
  check_transition s3 h = Ok ().
Proof.
  intros Hoc Hu [_ _ Ha Hr] Em Ee Ea Er. destruct (oc_steady _ _ Hoc) as (f & l & _ & _ & Hlv).
  destruct (seats_fresh _ _ _ s Hlv) as [_ Hfr]. pose proof (proj1 (ls_epoch _ _ _ _ Hlv)) as H0e.
  unfold check_transition. rewrite Ea, Ee, Er, Ha, Hr, wrapping_add_small by (u64_unfold; lia).
  rewrite !bool_decide_true by done. cbn [negb reject mbind result_bind]. rewrite check_all_Ok; [done|].
  intros v Hv. rewrite merge_sort_Permutation in Hv. unfold check_joining. rewrite Em.
  destruct (Hfr (node_key v) (consensus_key v)) as ((a & Hget & Hk) & _).
  { unfold seats. apply list_elem_of_fmap. by exists v. }
  rewrite Hget. by rewrite bool_decide_true.
Qed.

(** The checkpoint decodes to the state it was taken from. *)
Definition restores (cp : Checkpoint) s : Prop :=
  ∃ s3, state_try_from (T:=SszStateTree) cp = Ok (Some s3) ∧ snapshot_of (data_of s3) (data_of s).
(** The trusted digest is one of the headers', of the last epochs. *)
Definition anchored (headers : list FinalizedHeader) (ws : option WeakSubjectivityHeaderDigest) : Prop :=
  ∀ w, ws = Some w → ∃ fh, headers !! Z.to_nat (ws_epoch w) = Some fh ∧ get_digest (fh_header fh) = header_digest w ∧
    (Z.of_nat (length headers) - 1 - ws_epoch w ≤ WEAK_SUBJECTIVITY_MAX_AGE_EPOCHS)%Z.
Lemma anchored_Ok headers ws : anchored headers ws → check_weak_subjectivity headers ws = Ok ().
Proof.
  intros Han. destruct ws as [w|]; [|done]. destruct (Han w eq_refl) as (fh & Hat & Hdg & Hage).
  unfold check_weak_subjectivity. rewrite Hat, Hdg, bool_decide_true by done. cbn [negb reject mbind result_bind].
  by rewrite (proj2 (Z.ltb_ge _ _)) by lia.
Qed.

(** The blocks determine the state. *)
Lemma history_state hs bs s :
  history hs bs s → for_each (λ s b, finalize_block consts domain key b s) s0 bs = Some s.
Proof.
  induction 1 as [|hs bs s b s' _ IH Hfit E|hs bs s b s' cp fh _ IH Hfit E]; [done|..];
    rewrite for_each_app, IH; cbn [mbind option_bind for_each]; by rewrite E.
Qed.
(** The step over the last block of an epoch. *)
Lemma history_last_inv hs bs s fh b s' :
  history hs bs s → history (hs ++ [fh]) (bs ++ [b]) s' → fits consts domain b s ∧ decoded (header b) ∧ certified s b fh ∧
    ∃ cp, pending_checkpoint s = Some cp ∧ announces hs s cp (header b).
Proof.
  intros Hhi Hhi'. remember (hs ++ [fh]) as hs' eqn:Eh. remember (bs ++ [b]) as bs' eqn:Eb.
  destruct Hhi' as [|hs1 bs1 s1 b1 s' Hh1 Hfit E|hs1 bs1 s1 b1 s' cp fh1 Hh1 Hfit E Hfl Hd Hyes Hcp Han Hcf]; [by destruct hs|..].
  all: apply app_inj_2 in Eb as [-> [= ->]]; [|done].
  all: pose proof (history_state _ _ _ Hhi) as Es; rewrite (history_state _ _ _ Hh1) in Es; apply (inj Some) in Es as ->.
  - subst hs1. pose proof (oc_epoch _ _ (history_on_course _ _ _ Hla Hhi)) as E1.
    rewrite (oc_epoch _ _ (history_on_course _ _ _ Hla Hh1)), length_app in E1. simpl in E1. lia.
  - apply app_inj_2 in Eh as [-> [= ->]]; [|done]. by eauto 10.
Qed.

(** C7: The chain's own checkpoint is always accepted.  Take the finalized chain of a
    network after any number of complete epochs, whatever validators joined, left or were
    forced out, the checkpoint pending before the last block of the latest of them, and a
    trusted digest, if one is given, of one of the recent headers.  If the checkpoint
    decodes to the state it was taken from, it passes
    [verify_checkpoint_chain_with_weak_subjectivity] with the chain's headers: the
    committees rebuilt from the headers verify the certificates of all of them, and the
    accounts, the position and the staged committee changes of the checkpoint are the
    ones the headers commit to. *)
Theorem canonical_checkpoint_verifies hs bs s fh b s' cp ws :
  history hs bs s → history (hs ++ [fh]) (bs ++ [b]) s' → pending_checkpoint s = Some cp → restores cp s →
  anchored (hs ++ [fh]) ws →
  verify_checkpoint_chain_with_weak_subjectivity (T:=SszStateTree) g (hs ++ [fh]) cp ws = Some (Ok ()).
Proof.
  intros Hhi Hhi' Hpc (s3 & E3 & Hsn) Hws.
  destruct (history_last_inv _ _ _ _ _ _ Hhi Hhi') as (Hfit & Hd & Hcf & cp' & Hpc' & Han).
  rewrite Hpc in Hpc'. apply (inj Some) in Hpc' as <-.
  pose proof (history_on_course _ _ _ Hla Hhi) as Hoc. pose proof (history_on_course _ _ _ Hla Hhi') as Hoc'.
  unfold verify_checkpoint_chain_with_weak_subjectivity. rewrite last_snoc, (la_hash _ _ _ _ Hla), (la_validators _ _ _ _ Hla).
  cbv zeta. rewrite verify_headers_snoc. destruct (own_headers hs bs s Hhi) as [r ->]. cbn [mbind result_bind].
  pose proof (own_header hs s b fh cp Hoc Hfit Hd Han Hcf) as Hv. unfold tip, participants_after in Hv.
  rewrite Z.add_0_l, Hv. cbn [mbind result_bind]. rewrite (anchored_Ok _ _ Hws). cbn [mbind result_bind].
  destruct (oc_pending _ _ Hoc cp Hpc) as [(c & Ecp & _) _].
  rewrite (cf_header _ _ _ Hcf), (an_checkpoint _ _ _ _ Han), bool_decide_true by by rewrite Ecp.
  cbn [negb reject mbind result_bind mret result_ret]. rewrite E3. destruct Hsn as [S1 S2 S3 S4 S5 S6 S7]. simpl in S1, S2, S3, S4, S5, S6, S7.
  destruct (oc_steady _ _ Hoc) as (f & l & _ & _ & Hlv). destruct (oc_steady _ _ Hoc') as (f' & l' & _ & _ & Hlv').
  f_equal. fold (participants_after hs). rewrite (own_accounts s3 _ _ S5 (oc_seated _ _ Hoc)) by apply Hlv. cbn [mbind result_bind].
  rewrite (own_position s3 hs s b cp) by done. cbn [mbind result_bind]. apply (own_transition s3 hs s _ cp); try done.
  pose proof (oc_epoch _ _ Hoc) as E1. pose proof (oc_epoch _ _ Hoc') as E2. rewrite length_app in E2. simpl in E2.
  pose proof (ls_epoch _ _ _ _ Hlv'). pose proof (la_delay _ _ _ _ Hla). u64_unfold. lia.
Qed.
End history.
