(* ===== verification/CheckpointDemo.v ===== *)
(** * CheckpointDemo: a checkpoint of a concrete chain

    Two epochs of the two validators of the small deployment; the second validator asks
    to leave in the first block, so the committees differ.  The certificates of the
    deployment are the digests they sign, and the scheme knows the ones that exist. *)
From S2P Require Import Prelude Codec Crypto BTree Epocher Account ExecutionRequest SszHash SszStateTree SszStateTreeFacts.
From S2P Require Import ConsensusState StateSync StateCodec StateRun StateSigners Block Execution ExecutionFacts Chain.
From S2P Require Import Committee Genesis CheckpointChain CheckpointFacts.

(** ** Histories by evaluation *)
Section evaluate.
Context `{Hc : Crypto} `{!CryptoOk} `{Hl : SszLib} `{!SszLibOk} `{Hb : BlockLib} `{!BlockLibOk}.
Context `{Hms : !MultisigLib} `{Hg : GenesisLib} `{!GenesisLibOk}.
Context (consts : ProtocolConsts) (domain key : bytes) (g : Genesis) (hash : bytes) (s0 : ConsensusState SszStateTree).
Notation history := (history consts domain key g hash s0).

Definition decodedb (h : Header) : bool := bool_decide (header_wf h) && bool_decide (digest h = None).
Definition flooredb (u : ConsensusState ()) : bool :=
  (0 <? validator_minimum_stake u)%Z && (0 <? prospective_minimum_stake u)%Z.
Definition announcesb (hs : list FinalizedHeader) (u : ConsensusState ()) (cp : Checkpoint) (h : Header) : bool :=
  bool_decide (prev_epoch_header_hash h = tip hash hs) && bool_decide (checkpoint_hash h = cp_digest cp)
  && bool_decide (h_added_validators h = default [] (BTree.get (added_validators u) (wrapping_add (epoch u) 1)))
  && bool_decide (h_removed_validators h = removed_validators u).
Definition certifiedb (u : ConsensusState ()) (b : Block) (f : Finalization) : bool :=
  bool_decide (signed_payload f = block_digest b) &&
  match committee ← get_current_epoch_validators u; scheme_verifier (chain_domain (config_digest g)) committee with
  | Some scheme => verify_finalization scheme f
  | None => false
  end.
(** One more block, with its certificate. *)
Definition history_step (x : list FinalizedHeader * list Block * ConsensusState ()) (e : Block * Finalization)
  : option (list FinalizedHeader * list Block * ConsensusState ()) :=
  let '(hs, bs, u) := x in
  let '(b, f) := e in
  last ← is_last_block_of_epoch (epocher u) (block_height b);
  u' ← next_data consts domain key u b;
  if flooredb u' && decodedb (header b) then
    if last : bool then
      cp ← pending_checkpoint u;
      if announcesb hs u cp (header b) && certifiedb u b f
      then Some (hs ++ [mkFinalizedHeader (header b) f 2], bs ++ [b], u') else None
    else if bool_decide (prev_epoch_header_hash (header b) = zero_bytes 32) then Some (hs, bs ++ [b], u') else None
  else None.

Lemma certified_test s b f n :
  certifiedb (data_of s) b f = true → certified g s b (mkFinalizedHeader (header b) f n).
Proof.
  unfold certifiedb. rewrite andb_true_iff, bool_decide_eq_true. intros [Hs Hv]. split; [done|exact Hs|].
  change (get_current_epoch_validators (data_of s)) with (get_current_epoch_validators s) in Hv.
  destruct (get_current_epoch_validators s) as [ps|]; [|done]. cbn [mbind option_bind] in Hv.
  destruct (scheme_verifier _ ps) as [scheme|] eqn:E; [|done]. by exists ps, scheme.
Qed.

Lemma history_step_ok vs hs bs s e hs' bs' u' :
  launched consts g hash vs s0 → history hs bs s → history_step (hs, bs, data_of s) e = Some (hs', bs', u') →
  ∃ s', history hs' bs' s' ∧ data_of s' = u'.
Proof.
  intros Hla Hhi. destruct e as [b f]. pose proof (history_on_course _ _ _ _ _ _ _ _ _ _ Hla Hhi) as Hoc.
  unfold history_step. intros (last & El & E)%bind_Some. apply bind_Some in E as (d & Ed & E).
  destruct (next_data_chain consts domain key s b d (oc_reachable _ _ _ _ Hoc) (oc_steady _ _ _ _ Hoc) Ed)
    as (s' & Hfit & Hfin & _ & _ & <-).
  destruct (flooredb (data_of s')) eqn:Hfl; [|done]. destruct (decodedb (header b)) eqn:Hd; [|done]. cbn [andb] in E.
  assert (floored s') as Hfl' by (apply andb_true_iff in Hfl as [?%Z.ltb_lt ?%Z.ltb_lt]; by split).
  assert (decoded (header b)) as Hd' by (by apply andb_true_iff in Hd as [?%bool_decide_eq_true ?%bool_decide_eq_true]).
  destruct last.
  - apply bind_Some in E as (cp & Ecp & E). destruct (announcesb hs (data_of s) cp (header b)) eqn:Ha; [|done].
    destruct (certifiedb (data_of s) b f) eqn:Hcf; [|done]. injection E as <- <- <-. exists s'. split; [|done].
    apply (history_last _ _ _ _ _ _ hs bs s b s' cp); try done; [|by apply certified_test].
    unfold announcesb in Ha. rewrite !andb_true_iff, !bool_decide_eq_true in Ha. destruct Ha as [[[? ?] ?] ?]. by split.
  - case_bool_decide; [|done]. injection E as <- <- <-. exists s'. split; [|done].
    by apply (history_inner _ _ _ _ _ _ hs bs s b s').
Qed.

Lemma history_of_data vs es hs bs s hs' bs' u' :
  launched consts g hash vs s0 → history hs bs s → for_each history_step (hs, bs, data_of s) es = Some (hs', bs', u') →
  ∃ s', history hs' bs' s' ∧ data_of s' = u'.
Proof.
  intros Hla. revert hs bs s. induction es as [|e es IH]; intros hs bs s Hhi E; cbn [for_each] in E.
  { injection E as <- <- <-. by exists s. }
  apply bind_Some in E as ([[hs1 bs1] u1] & E1 & E).
  destruct (history_step_ok vs hs bs s e hs1 bs1 u1 Hla Hhi E1) as (s1 & Hh1 & <-). by eapply IH.
Qed.
End evaluate.

#[local] Existing Instance ToyCrypto.toy.
#[local] Existing Instance ToyCrypto.toy_ok.
#[local] Existing Instance StateRun.Demo.toy_ssz.
#[local] Existing Instance StateRun.Demo.toy_ssz_ok.
#[local] Existing Instance Block.ToyBlocks.toy_blocks.
#[local] Existing Instance Block.ToyBlocks.toy_blocks_ok.
#[local] Existing Instance Genesis.Demo.toy_genesis.
#[local] Existing Instance Genesis.Demo.toy_genesis_ok.

Notation demo_genesis := Genesis.Demo.demo_genesis.
Notation demo_consts := Genesis.Demo.demo_consts.
Notation demo_domain := Genesis.Demo.demo_domain.
Definition node_key_1 : bytes := ascii_bytes Genesis.Demo.k1.
Definition genesis_digest : bytes := default [] (genesis_hash demo_genesis).

(** The next block, as an honest leader builds it. *)
Definition honest_block (u : ConsensusState ()) (prev : bytes) : option Block :=
  let h := (latest_height u + 1)%Z in
  last ← is_last_block_of_epoch (epocher u) h;
  let '(cp, prev, added, removed) :=
    if last : bool then (default (zero_bytes 32) (cp_digest <$> pending_checkpoint u), prev,
      default [] (BTree.get (added_validators u) (wrapping_add (epoch u) 1)), removed_validators u)
    else (zero_bytes 32, zero_bytes 32, [], []) in
  Some (mkBlock (mkHeader (head_digest u) h (1000 * h) (epoch u) h (zero_bytes 32) (zero_bytes 32) cp prev added removed
      (zero_bytes 32) None) (u64_to_le_bytes h) (if (h =? 1)%Z then [Genesis.Demo.exit_request] else [])).
Fixpoint honest_chain (n : nat) (u : ConsensusState ()) (prev : bytes) : option (list Block) :=
  match n with
  | O => Some []
  | S n =>
      b ← honest_block u prev;
      last ← is_last_block_of_epoch (epocher u) (block_height b);
      u ← next_data demo_consts demo_domain node_key_1 u b;
      bs ← honest_chain n u (if last : bool then block_digest b else prev);
      Some (b :: bs)
  end.
Definition demo_blocks : list Block := Eval vm_compute in default [] (honest_chain 20 Genesis.Demo.demo_data genesis_digest).

(** Certificates exist for the blocks of the chain only. *)
Definition demo_digests : list bytes := Eval vm_compute in map block_digest demo_blocks.
#[local] Instance toy_multisig : MultisigLib := {|
  MultisigScheme := list (bytes * bytes);
  scheme_verifier _ ps := if bool_decide (NoDup (fst <$> ps)) then Some ps else None;
  verify_finalization _ f := bool_decide (f ∈ demo_digests)
|}.
Notation demo_step := (history_step demo_consts demo_domain node_key_1 demo_genesis genesis_digest).
Definition signed_blocks (n : nat) : list (Block * bytes) := map (λ b, (b, block_digest b)) (take n demo_blocks).
(** Before and after the last block of the second epoch, and at the end. *)
Definition reach (n : nat) := default ([], [], Genesis.Demo.demo_data) (for_each demo_step ([], [], Genesis.Demo.demo_data) (signed_blocks n)).
Definition before := Eval vm_compute in reach 18.
Definition after := Eval vm_compute in reach 19.
Definition final := Eval vm_compute in reach 20.
Definition demo_headers : list FinalizedHeader := Eval vm_compute in final.1.1.
Definition first_header : FinalizedHeader := Eval vm_compute in hd (mkFinalizedHeader (header (genesis [])) [] 0) demo_headers.
Definition second_header : FinalizedHeader := Eval vm_compute in hd first_header (tl demo_headers).
Definition last_block : Block := Eval vm_compute in nth 18 demo_blocks (genesis []).
Definition demo_checkpoint : Checkpoint := Eval vm_compute in default (mkCheckpoint [] []) (pending_checkpoint before.2).

Ltac evaluate := match goal with |- _ = ?r => vm_cast_no_check (eq_refl r) end.
Lemma digests_of_blocks : map block_digest demo_blocks = demo_digests.
Proof. evaluate. Qed.
Lemma reach_before : for_each demo_step ([], [], Genesis.Demo.demo_data) (signed_blocks 18)
  = Some ([first_header], take 18 demo_blocks, before.2).
Proof. evaluate. Qed.
Lemma reach_after : for_each demo_step ([], [], Genesis.Demo.demo_data) (signed_blocks 19)
  = Some ([first_header] ++ [second_header], take 18 demo_blocks ++ [last_block], after.2).
Proof. evaluate. Qed.
Lemma reach_final : for_each demo_step ([], [], Genesis.Demo.demo_data) (signed_blocks 20)
  = Some (demo_headers, demo_blocks, final.2).
Proof. evaluate. Qed.
Lemma checkpoint_pending : pending_checkpoint before.2 = Some demo_checkpoint.
Proof. evaluate. Qed.

(** The checkpoint is decoded to the state it was taken from. *)
Definition snapshotb {T} (s : ConsensusState T) (u : ConsensusState ()) : bool :=
  (epoch s =? epoch u)%Z && (latest_height s =? latest_height u)%Z && bool_decide (head_digest s = head_digest u)
  && bool_decide (epocher s = epocher u) && bool_decide (validator_accounts s = validator_accounts u)
  && bool_decide (added_validators s = added_validators u) && bool_decide (removed_validators s = removed_validators u).
Lemma checkpoint_decodes :
  match state_try_from (T:=SszStateTree) demo_checkpoint with Ok (Some s) => snapshotb s before.2 | _ => false end = true.
Proof. evaluate. Qed.
Lemma checkpoint_restores (s : ConsensusState SszStateTree) : data_of s = before.2 → restores demo_checkpoint s.
Proof.
  intros Hd. pose proof checkpoint_decodes as Ht. destruct (state_try_from demo_checkpoint) as [[s3|]|] eqn:E; [|done..].
  exists s3. split; [exact E|]. rewrite Hd. unfold snapshotb in Ht. rewrite !andb_true_iff, !bool_decide_eq_true, !Z.eqb_eq in Ht.
  destruct Ht as [[[[[[? ?] ?] ?] ?] ?] ?]. by split.
Qed.

(** The supplied chain is accepted, also with the digest of its first header as anchor. *)
Definition demo_anchor : WeakSubjectivityHeaderDigest := mkWeakSubjectivity 0 (get_digest (fh_header first_header)).
Lemma demo_accepted : verify_checkpoint_chain_with_weak_subjectivity (T:=SszStateTree) demo_genesis demo_headers
  demo_checkpoint (Some demo_anchor) = Some (Ok ()).
Proof. evaluate. Qed.
Lemma demo_headers_decoded : forallb (λ fh, decodedb (fh_header fh)) demo_headers = true.
Proof. evaluate. Qed.
Lemma demo_no_zero :
  bool_decide (zero_bytes 32 ∉ genesis_digest :: map (λ fh, get_digest (fh_header fh)) demo_headers) = true.
Proof. evaluate. Qed.

Lemma demo_launched : ∃ s0 : ConsensusState SszStateTree,
  launched demo_consts demo_genesis genesis_digest Genesis.Demo.demo_validators s0 ∧ data_of s0 = Genesis.Demo.demo_data.
Proof.
  destruct Genesis.Demo.demo_validators_ok as (Hok & Hvs & Hn & Hk).
  destruct (initial_state_steady demo_consts demo_genesis Genesis.Demo.demo_validators Genesis.Demo.demo_typed Hok) as
    (s & hash & treasury & E & Hr & Hd & Hh & Ht & Hst); [by eexists|done..| |].
  { simpl. unfold is_u64, u64_max. lia. }
  exists s. split; [|rewrite Hd; unfold Genesis.Demo.demo_data; rewrite Hh; by apply (inj Some) in Ht as <-].
  split; [exact Genesis.Demo.demo_typed|evaluate|done|evaluate|evaluate|exact Hn|exact Hk| |exact E].
  simpl. unfold is_u64, u64_max. lia.
Qed.

Section witnesses.
Context (s0 : ConsensusState SszStateTree).
Context (Hla : launched demo_consts demo_genesis genesis_digest Genesis.Demo.demo_validators s0).
Context (Hd0 : data_of s0 = Genesis.Demo.demo_data).
Notation demo_history := (history demo_consts demo_domain node_key_1 demo_genesis genesis_digest s0).
Lemma demo_history_of es hs bs u :
  for_each demo_step ([], [], Genesis.Demo.demo_data) es = Some (hs, bs, u) → ∃ s, demo_history hs bs s ∧ data_of s = u.
Proof. rewrite <-Hd0. apply (history_of_data _ _ _ _ _ _ _ _ _ _ _ _ _ _ Hla). constructor. Qed.
Lemma demo_agreement : agreement demo_consts demo_domain node_key_1 demo_genesis genesis_digest s0 demo_blocks.
Proof.
  intros hs1 bs1 s1 committee scheme f _ _ _ _ Hv. cbn [verify_finalization toy_multisig] in Hv.
  apply bool_decide_eq_true in Hv. rewrite <-digests_of_blocks in Hv.
  apply list_elem_of_fmap in Hv as (b & -> & Hin). by exists b.
Qed.
End witnesses.

Lemma verified_checkpoint_is_canonical_witness : ∃ s0 s : ConsensusState SszStateTree,
  history demo_consts demo_domain node_key_1 demo_genesis genesis_digest s0 demo_headers demo_blocks s ∧
  ((0 < length demo_headers ≤ length demo_headers ∧ (fh_header <$> demo_headers) `prefix_of` (fh_header <$> demo_headers) ∧
    ∃ bs1 s1 (c : ConsensusState ()),
      history demo_consts demo_domain node_key_1 demo_genesis genesis_digest s0 (take (length demo_headers - 1) demo_headers) bs1 s1 ∧
      bs1 `prefix_of` demo_blocks ∧ snapshot_of c (data_of s1) ∧
      (demo_checkpoint = checkpoint_new c ∨ clash (cp_data demo_checkpoint) (write_state c))) ∨
   ∃ fh b, fh ∈ demo_headers ∧ b ∈ demo_blocks ∧ clash (write_header (header b)) (write_header (fh_header fh))).
Proof.
  destruct demo_launched as (s0 & Hla & Hd0). exists s0.
  destruct (demo_history_of s0 Hla Hd0 _ _ _ _ reach_final) as (s & Hhi & _). exists s. split; [exact Hhi|].
  apply (verified_checkpoint_is_canonical demo_consts demo_domain node_key_1 demo_genesis genesis_digest
    Genesis.Demo.demo_validators s0 Hla demo_headers demo_blocks s demo_headers demo_checkpoint (Some demo_anchor) Hhi
    (demo_agreement s0)).
  - exact (proj1 (bool_decide_eq_true _) demo_no_zero).
  - apply Forall_forall. intros fh Hin. pose proof demo_headers_decoded as Hall. rewrite forallb_forall in Hall.
    specialize (Hall fh (proj1 (list_elem_of_In _ _) Hin)). apply andb_true_iff in Hall as [Hw%bool_decide_eq_true Hdg%bool_decide_eq_true].
    split; [exact Hw|exact Hdg].
  - exact demo_accepted.
Defined.

Lemma canonical_checkpoint_verifies_witness :
  verify_checkpoint_chain_with_weak_subjectivity (T:=SszStateTree) demo_genesis ([first_header] ++ [second_header])
    demo_checkpoint (Some demo_anchor) = Some (Ok ()).
Proof.
  destruct demo_launched as (s0 & Hla & Hd0).
  destruct (demo_history_of s0 Hla Hd0 _ _ _ _ reach_before) as (s & Hhi & Hds).
  destruct (demo_history_of s0 Hla Hd0 _ _ _ _ reach_after) as (s' & Hhi' & _).
  apply (canonical_checkpoint_verifies demo_consts demo_domain node_key_1 demo_genesis genesis_digest
    Genesis.Demo.demo_validators s0 Hla [first_header] (take 18 demo_blocks) s second_header last_block s' demo_checkpoint
    (Some demo_anchor) Hhi Hhi').
  - change (pending_checkpoint (data_of s) = Some demo_checkpoint). rewrite Hds. exact checkpoint_pending.
  - exact (checkpoint_restores s Hds).
  - intros w [= <-]. exists first_header. split; [reflexivity|]. split; [reflexivity|]. simpl.
    unfold WEAK_SUBJECTIVITY_MAX_AGE_EPOCHS. lia.
Defined.
