(* ===== verification/ObserverKeys.v ===== *)
(** * ObserverKeys: child keys of the validators (types/src/ext_private_key.rs)

    Every validator key authorises a number of observer keys derived from it by adding
    a tweak: the holder of the private key derives the child signer, everybody else
    derives the child's public key from the validator's public key.  The curve and
    SHA-512 are third-party code ([Curve]); [CurveOk] states the group laws of
    [curve25519_dalek] and the public key of RFC 8032. *)
From S2P Require Import Prelude Crypto.
From stdpp Require Import pretty.

Class Curve := {
  Scalar : Type;
  Point : Type;
  scalar_add : Scalar → Scalar → Scalar;
  scalar_mul : Scalar → Scalar → Scalar;
  point_add : Point → Point → Point;
  point_mul : Scalar → Point → Point;
  BASEPOINT : Point;
  compress : Point → bytes;
  decompress : bytes → option Point;
  scalar_bytes : Scalar → bytes;
  (** [from_bytes_mod_order], [from_bytes_mod_order_wide]. *)
  scalar_of_bytes : bytes → Scalar;
  scalar_of_wide : bytes → Scalar;
  sha512 : bytes → bytes;
  (** [PrivateKey::public_key] on the encoded seed; [commonware_utils::union_unique]. *)
  master_public_key : bytes → bytes;
  union_unique : bytes → bytes → bytes
}.

Section keys.
Context `{Hc : Crypto} `{Hv : Curve}.

Definition DERIVE_TAG : bytes := ascii_bytes "ed25519-additive-derive/tweak/v1".
Definition PREFIX_TAG : bytes := ascii_bytes "ed25519-additive-derive/prefix/v1".

(** [format!("m/seismic/observer/{}", index)]. *)
Definition observer_path (index : N) : bytes :=
  ascii_bytes ("m/seismic/observer/" +:+ pretty index).

(** The clamping of RFC 8032. *)
Definition map_byte (f : Z → Z) (b : byte) : byte := u8_to_byte (f (byte_to_u8 b)).
Definition clamp (a_bytes : bytes) : bytes :=
  let a_bytes := alter (map_byte (λ x, Z.land x 248)) 0 a_bytes in
  let a_bytes := alter (map_byte (λ x, Z.land x 127)) 31 a_bytes in
  alter (map_byte (λ x, Z.lor x 64)) 31 a_bytes.
Definition expand_seed (seed : bytes) : Scalar * bytes :=
  let h := sha512 seed in
  (scalar_of_bytes (clamp (take 32 h)), drop 32 h).

Definition tweak_input (master_pub namespace path : bytes) : bytes :=
  DERIVE_TAG ++ master_pub ++ u64_to_le_bytes (Z.of_nat (length namespace)) ++ namespace ++ path.
Definition compute_tweak (master_pub namespace path : bytes) : Scalar :=
  scalar_of_wide (sha512 (tweak_input master_pub namespace path)).

Record ExtPrivateKey := mkExtPrivateKey {
  scalar : Scalar;
  prefix : bytes;
  index : N
}.

Definition derive_child_signer (master_seed namespace : bytes) (index : N) : ExtPrivateKey :=
  let path := observer_path index in
  let master_pub := master_public_key master_seed in
  let '(scalar, master_prefix) := expand_seed master_seed in
  let t := compute_tweak master_pub namespace path in
  let scalar_child := scalar_add scalar t in
  let out := sha512 (PREFIX_TAG ++ master_prefix ++ scalar_bytes t) in
  mkExtPrivateKey scalar_child (take 32 out) index.

(** [PublicKey::decode(..).expect(..)]: [None] is the panic. *)
Definition decode_public (bs : bytes) : option bytes :=
  if (length bs =? 32) && ed25519_valid bs then Some bs else None.
Definition public_key (k : ExtPrivateKey) : option bytes :=
  decode_public (compress (point_mul (scalar k) BASEPOINT)).

Definition sign (k : ExtPrivateKey) (namespace msg : bytes) : option bytes :=
  let payload := union_unique namespace msg in
  pubkey ← public_key k;
  let r := scalar_of_wide (sha512 (prefix k ++ payload)) in
  let r_point := compress (point_mul r BASEPOINT) in
  let k' := scalar_of_wide (sha512 (r_point ++ pubkey ++ payload)) in
  let s := scalar_add r (scalar_mul k' (scalar k)) in
  let sig := r_point ++ scalar_bytes s in
  if ed25519_sig_valid sig then Some sig else None.

Definition derive_child_public (master_pk namespace : bytes) (index : N) : option bytes :=
  let path := observer_path index in
  a_point ← decompress master_pk;
  let t := compute_tweak master_pk namespace path in
  let t_point := point_mul t BASEPOINT in
  decode_public (compress (point_add a_point t_point)).

Definition derive_observer_keys (validator_pks : list bytes) (namespace : bytes) (n : Z) : option (list bytes) :=
  for_each (λ acc pk,
    for_each (λ acc i, k ← derive_child_public pk namespace (N.of_nat i); Some (acc ++ [k]))
      acc (range 0 (Z.to_nat n))) [] validator_pks.
End keys.

(** The group of the curve, its encoding, and the keys and signatures of RFC 8032:
    a public key is the clamped scalar times the base point, every encoded point that
    is a multiple of the base point is a key, and a pair of an encoded point and a
    scalar is a signature. *)
Class CurveOk `{Hc : Crypto} `{Hv : Curve} : Prop := {
  point_mul_add a b p : point_mul (scalar_add a b) p = point_add (point_mul a p) (point_mul b p);
  point_mul_mul a b p : point_mul (scalar_mul a b) p = point_mul a (point_mul b p);
  decompress_compress p : decompress (compress p) = Some p;
  length_compress p : length (compress p) = 32;
  compress_valid a : ed25519_valid (compress (point_mul a BASEPOINT)) = true;
  length_scalar_bytes a : length (scalar_bytes a) = 32;
  signature_valid r s : ed25519_sig_valid (compress (point_mul r BASEPOINT) ++ scalar_bytes s) = true;
  master_public_key_spec seed :
    master_public_key seed = compress (point_mul (expand_seed seed).1 BASEPOINT)
}.

Section facts.
Context `{Hc : Crypto} `{Hv : Curve} `{!CurveOk}.

Lemma child_point seed namespace i :
  compress (point_mul (scalar (derive_child_signer seed namespace i)) BASEPOINT)
  = compress (point_add (point_mul (expand_seed seed).1 BASEPOINT)
      (point_mul (compute_tweak (master_public_key seed) namespace (observer_path i)) BASEPOINT)).
Proof. unfold derive_child_signer. destruct (expand_seed seed). simpl. by rewrite point_mul_add. Qed.

Lemma decode_public_multiple a :
  decode_public (compress (point_mul a BASEPOINT)) = Some (compress (point_mul a BASEPOINT)).
Proof. unfold decode_public. by rewrite length_compress, compress_valid. Qed.

(** The check of RFC 8032 on a signature [R ++ s] of a public key. *)
Definition verifies (pk payload sig : bytes) : Prop := ∃ a r s,
  decompress pk = Some a ∧ decompress (take 32 sig) = Some r ∧ drop 32 sig = scalar_bytes s ∧
  point_mul s BASEPOINT = point_add r (point_mul (scalar_of_wide (sha512 (take 32 sig ++ pk ++ payload))) a).

(** The parts of the tweak's input cannot be moved into each other. *)
Lemma tweak_input_inj pk1 pk2 ns1 ns2 p1 p2 :
  length pk1 = 32 → length pk2 = 32 → is_u64 (Z.of_nat (length ns1)) → is_u64 (Z.of_nat (length ns2)) →
  tweak_input pk1 ns1 p1 = tweak_input pk2 ns2 p2 → pk1 = pk2 ∧ ns1 = ns2 ∧ p1 = p2.
Proof.
  intros Hp1 Hp2 Hn1 Hn2 E. unfold tweak_input in E. apply app_inv_head in E.
  apply app_inj_1 in E as [-> E]; [|congruence].
  apply app_inj_1 in E as [E1 E]; [|by rewrite !length_u64_to_le_bytes].
  apply u64_to_le_bytes_inj in E1; [|done..]. apply app_inj_1 in E as [-> ->]; [done|lia].
Qed.

Lemma ascii_bytes_inj s1 s2 : ascii_bytes s1 = ascii_bytes s2 → s1 = s2.
Proof.
  unfold ascii_bytes. intros E.
  rewrite <-(String.string_of_list_ascii_of_string s1), <-(String.string_of_list_ascii_of_string s2). f_equal.
  revert E. generalize (String.list_ascii_of_string s1) as l1, (String.list_ascii_of_string s2) as l2.
  induction l1 as [|a l1 IH]; intros [|b l2]; simpl; try done. intros E.
  injection E as E1 E2. f_equal; [|by apply IH].
  apply (f_equal byte_to_u8) in E1. pose proof (Ascii.N_ascii_bounded a). pose proof (Ascii.N_ascii_bounded b).
  rewrite !byte_to_u8_of_Z in E1 by lia. rewrite <-(Ascii.ascii_N_embedding a), <-(Ascii.ascii_N_embedding b).
  f_equal. lia.
Qed.

Lemma observer_path_inj i j : observer_path i = observer_path j → i = j.
Proof. unfold observer_path. intros E%ascii_bytes_inj. by apply (inj (String.app _)), (inj pretty) in E. Qed.


(** One child per validator and index, in order. *)
Lemma derive_observer_keys_length pks namespace n ks :
  derive_observer_keys pks namespace n = Some ks → length ks = length pks * Z.to_nat n.
Proof.
  unfold derive_observer_keys. intros E.
  enough (length ks + length (@nil bytes) * Z.to_nat n = length pks * Z.to_nat n) by (simpl in *; lia). revert E.
  apply (for_each_partial _ (λ (acc rest : list bytes), length acc + length rest * Z.to_nat n = length pks * Z.to_nat n));
    [done|].
  intros acc pk rest acc' Hacc E. simpl in Hacc.
  enough (length acc' + length (@nil nat) = length acc + Z.to_nat n) by (simpl in *; lia). revert E.
  apply (for_each_partial _ (λ (a : list bytes) (r : list nat), length a + length r = length acc + Z.to_nat n)).
  - unfold range. rewrite length_seq. lia.
  - intros a x l a' Ha (k & _ & [= <-])%bind_Some. simpl in Ha. rewrite length_app. simpl. lia.
Qed.
End facts.

(** ** The integers modulo two stand for scalars and points alike *)
Module Toy.
#[local] Existing Instance ToyCrypto.toy.
Definition bit (b : bool) : bytes := (if b then Init.Byte.x01 else Init.Byte.x00) :: zero_bytes 31.
Definition toy_sha512 (bs : bytes) : bytes := ToyCrypto.digest bs ++ ToyCrypto.digest bs.
#[local] Instance toy_curve : Curve := {|
  Scalar := bool; Point := bool;
  scalar_add := xorb; scalar_mul := andb; point_add := xorb; point_mul := andb; BASEPOINT := true;
  compress := bit; decompress bs := Some (bool_decide (head bs = Some Init.Byte.x01));
  scalar_bytes := bit; scalar_of_bytes bs := Z.odd (from_le_bytes bs); scalar_of_wide bs := Z.odd (from_le_bytes bs);
  sha512 := toy_sha512;
  master_public_key seed := bit (Z.odd (from_le_bytes (clamp (take 32 (toy_sha512 seed)))) && true);
  union_unique := app
|}.
#[local] Instance toy_curve_ok : CurveOk.
Proof. split; try done; repeat intros []; done. Qed.

End Toy.
