(* ===== verification/Db.v ===== *)
(** * Db: the finalizer's database (finalizer/src/db.rs)

    Consensus states, checkpoints and finalized headers by epoch, trackers of the
    latest ones, and the records of a checkpoint import, in one key-value store.  The
    store itself ([commonware_storage]'s QMDB) is third-party code: [KvStore] is its
    interface on encoded values; DbFacts states what is documented of it.  Operations run in
    [DB], a state monad over [FinalizerState] in which [None] is a panic. *)
From S2P Require Import Prelude Codec Crypto BTree Epocher Account SszHash SszStateTree.
From S2P Require Import ConsensusState StateCodec Block.

Class KvStore := {
  Store : Type;
  StoreError : Type;
  raw_get : Store → bytes → result StoreError (option bytes);
  raw_apply_batch : Store → list (bytes * option bytes) → result StoreError Store;
  raw_commit : Store → result StoreError Store;
  (** The codec of [Option<Block>]. *)
  write_opt_block : ∀ `{BlockLib}, option Block → bytes;
  read_opt_block : ∀ `{BlockLib}, reader (option Block)
}.

(** ** Keys *)
Definition STATE_PREFIX : Z := 0x01.
Definition CONSENSUS_STATE_PREFIX : Z := 0x05.
Definition CHECKPOINT_PREFIX : Z := 0x06.
Definition FINALIZED_HEADER_PREFIX : Z := 0x07.
Definition state_variable (n : Z) : bytes := [u8_to_byte STATE_PREFIX; u8_to_byte n].
Definition LATEST_CONSENSUS_STATE_EPOCH_KEY : bytes := state_variable 0.
Definition LATEST_FINALIZED_HEADER_EPOCH_KEY : bytes := state_variable 1.
Definition LATEST_CHECKPOINT_EPOCH_KEY : bytes := state_variable 2.
Definition CHECKPOINT_IMPORT_KEY : bytes := state_variable 3.
Definition PENDING_IMPORT_STATE_KEY : bytes := state_variable 4.
Definition PENDING_IMPORT_RECORD_KEY : bytes := state_variable 5.

Definition pad_key (key : bytes) : bytes :=
  let len := Nat.min (length key) 64 in take len key ++ zero_bytes (64 - len).
Definition epoch_key (prefix epoch : Z) : bytes :=
  u8_to_byte prefix :: u64_to_le_bytes epoch ++ zero_bytes 55.
Definition make_consensus_state_key := epoch_key CONSENSUS_STATE_PREFIX.
Definition make_finalized_header_key := epoch_key FINALIZED_HEADER_PREFIX.
Definition make_checkpoint_key := epoch_key CHECKPOINT_PREFIX.

Section db.
Context `{Hc : Crypto} `{Hl : SszLib} `{Hb : BlockLib} `{Hk : KvStore}.
Context {T : Type} `{HT : StateTree T}.

(** ** Values *)
Record CheckpointImport := mkCheckpointImport {
  processed_height : Z;
  ci_config_digest : bytes;
  finalized_header : FinalizedHeader;
  last_block : option Block
}.
Inductive Value :=
| VU64 (n : Z)
| VCheckpointImport (r : CheckpointImport)
| VConsensusState (s : ConsensusState T)
| VCheckpoint (cp : Checkpoint) (b : Block)
| VFinalizedHeader (h : FinalizedHeader).

Definition write_value (v : Value) : bytes :=
  match v with
  | VU64 n => put_u8 0x01 ++ u64_to_be_bytes n
  | VCheckpointImport r =>
      put_u8 0x08 ++ u64_to_be_bytes (processed_height r) ++ ci_config_digest r
      ++ write_finalized (finalized_header r) ++ write_opt_block (last_block r)
  | VConsensusState s => put_u8 0x05 ++ write_state s
  | VCheckpoint cp b => put_u8 0x06 ++ write_checkpoint cp ++ write_block b
  | VFinalizedHeader h => put_u8 0x07 ++ write_finalized h
  end.
(** The inner [option] is a panic of the state decoder. *)
Definition read_value : reader (option Value) :=
  value_type ← try_get_u8;
  match value_type with
  | 0x01 => n ← try_get_u64; mret (Some (VU64 n))
  | 0x08 =>
      processed_height ← try_get_u64;
      config_digest ← take_bytes 32;
      finalized_header ← read_finalized;
      last_block ← read_opt_block;
      mret (Some (VCheckpointImport
        (mkCheckpointImport processed_height config_digest finalized_header last_block)))
  | 0x05 => s ← read_state; mret (VConsensusState <$> s)
  | 0x06 => cp ← read_checkpoint; b ← read_block; mret (Some (VCheckpoint cp b))
  | 0x07 => h ← read_finalized; mret (Some (VFinalizedHeader h))
  | byte => fail (InvalidVarint (Z.to_nat byte))
  end%Z.

(** ** The state of the database *)
Record FinalizerState := mkFinalizerState {
  store : option Store;
  cancelled : bool
}.
(** [handle_db_error] cancels the node's token; the error is returned. *)
Inductive DbError := StoreFailed (e : StoreError) | DecodeFailed (e : Error)
| StoreUnavailable | WrongType | Incomplete | HeightMismatch | Unhealthy.

Definition DB (A : Type) : Type := FinalizerState → option (FinalizerState * A).
#[global] Instance DB_ret : MRet DB := λ A a db, Some (db, a).
#[global] Instance DB_bind : MBind DB := λ A B f c db,
  match c db with Some (db, a) => f a db | None => None end.
(** The [?] operator. *)
Definition DB_try {A B} (c : DB (result DbError A)) (f : A → DB (result DbError B)) : DB (result DbError B) :=
  r ← c; match r with Ok a => f a | Err e => mret (Err e) end.
Notation "x ←? c ; k" := (DB_try c (λ x, k))
  (at level 20, c at level 100, k at level 200, only parsing).
Definition db_fail {A} (e : DbError) : DB (result DbError A) := λ db,
  Some (mkFinalizerState (store db) true, Err e).

Definition ensure_healthy : DB (result DbError ()) := λ db,
  Some (db, if cancelled db then Err Unhealthy else Ok ()).

(** [store().get]: a missing store is a panic. *)
Definition store_get (key : bytes) : DB (result DbError (option Value)) := λ db,
  st ← store db;
  match raw_get st key with
  | Err e => Some (db, Err (StoreFailed e))
  | Ok None => Some (db, Ok None)
  | Ok (Some bs) =>
      match decode_all read_value bs with
      | Err e => Some (db, Err (DecodeFailed e))
      | Ok None => None
      | Ok (Some v) => Some (db, Ok (Some v))
      end
  end.
Definition apply_updates (updates : list (bytes * option Value)) : DB (result DbError ()) := λ db,
  match store db with
  | None => db_fail StoreUnavailable db
  | Some st =>
      match raw_apply_batch st (map (λ '(k, v), (k, write_value <$> v)) updates) with
      | Ok st => Some (mkFinalizerState (Some st) (cancelled db), Ok ())
      | Err e => db_fail (StoreFailed e) (mkFinalizerState None (cancelled db))
      end
  end.
Definition update (key : bytes) (value : option Value) : DB (result DbError ()) := apply_updates [(key, value)].
Definition commit : DB (result DbError ()) := λ db,
  match store db with
  | None => db_fail StoreUnavailable db
  | Some st =>
      match raw_commit st with
      | Ok st => Some (mkFinalizerState (Some st) (cancelled db), Ok ())
      | Err e => db_fail (StoreFailed e) (mkFinalizerState None (cancelled db))
      end
  end.

(** A read whose failure cancels the node and answers [d]. *)
Definition read_or {A} (d : A) (f : option Value → A) (key : bytes) : DB A :=
  r ← store_get key;
  match r with
  | Ok v => mret (f v)
  | Err e => λ db, Some (mkFinalizerState (store db) true, d)
  end.
Definition get_epoch_tracker (key : bytes) : DB Z :=
  read_or 0%Z (λ v, match v with Some (VU64 e) => e | _ => 0%Z end) (pad_key key).
Definition get_latest_consensus_state_epoch := get_epoch_tracker LATEST_CONSENSUS_STATE_EPOCH_KEY.
Definition get_latest_finalized_header_epoch := get_epoch_tracker LATEST_FINALIZED_HEADER_EPOCH_KEY.
Definition get_latest_checkpoint_epoch := get_epoch_tracker LATEST_CHECKPOINT_EPOCH_KEY.
Definition set_epoch_tracker (key : bytes) (epoch : Z) : DB (result DbError ()) :=
  update (pad_key key) (Some (VU64 epoch)).

(** A value of an epoch and, when it is not older, the tracker. *)
Definition store_tracked (key tracker : bytes) (epoch : Z) (v : Value) : DB (result DbError ()) :=
  _ ←? update key (Some v);
  current_latest ← get_epoch_tracker tracker;
  if (current_latest <=? epoch)%Z then set_epoch_tracker tracker epoch else mret (Ok ()).
Definition store_consensus_state (epoch : Z) (s : ConsensusState T) : DB (result DbError ()) :=
  store_tracked (make_consensus_state_key epoch) LATEST_CONSENSUS_STATE_EPOCH_KEY epoch (VConsensusState s).
Definition store_finalized_checkpoint (epoch : Z) (cp : Checkpoint) (b : Block) : DB (result DbError ()) :=
  store_tracked (make_checkpoint_key epoch) LATEST_CHECKPOINT_EPOCH_KEY epoch (VCheckpoint cp b).
Definition store_finalized_header (epoch : Z) (h : FinalizedHeader) : DB (result DbError ()) :=
  store_tracked (make_finalized_header_key epoch) LATEST_FINALIZED_HEADER_EPOCH_KEY epoch (VFinalizedHeader h).

Definition get_consensus_state (epoch : Z) : DB (option (ConsensusState T)) :=
  read_or None (λ v, match v with Some (VConsensusState s) => Some s | _ => None end)
    (make_consensus_state_key epoch).
Definition get_latest_consensus_state : DB (option (ConsensusState T)) :=
  latest ← read_or None (λ v, match v with Some (VU64 e) => Some e | _ => None end)
             (pad_key LATEST_CONSENSUS_STATE_EPOCH_KEY);
  match latest with Some latest_epoch => get_consensus_state latest_epoch | None => mret None end.
Definition delete_consensus_state (epoch : Z) : DB () :=
  _ ← update (make_consensus_state_key epoch) None; mret ().
Definition get_finalized_checkpoint (epoch : Z) : DB (option (Checkpoint * Block)) :=
  read_or None (λ v, match v with Some (VCheckpoint cp b) => Some (cp, b) | _ => None end)
    (make_checkpoint_key epoch).
Definition get_latest_finalized_checkpoint : DB (option (Checkpoint * Block) * Z) :=
  latest_epoch ← get_latest_checkpoint_epoch;
  checkpoint ← get_finalized_checkpoint latest_epoch;
  mret (checkpoint, latest_epoch).
Definition get_finalized_header (epoch : Z) : DB (option FinalizedHeader) :=
  read_or None (λ v, match v with Some (VFinalizedHeader h) => Some h | _ => None end)
    (make_finalized_header_key epoch).
Definition get_most_recent_finalized_header : DB (option FinalizedHeader) :=
  latest_epoch ← get_latest_finalized_header_epoch;
  get_finalized_header latest_epoch.

(** ** Checkpoint imports *)
Definition get_checkpoint_import : DB (result DbError (option CheckpointImport)) :=
  r ← store_get (pad_key CHECKPOINT_IMPORT_KEY);
  match r with
  | Ok (Some (VCheckpointImport record)) => mret (Ok (Some record))
  | Ok None => mret (Ok None)
  | Ok _ => db_fail WrongType
  | Err e => db_fail e
  end.
Definition get_or_fail (key : bytes) : DB (result DbError (option Value)) :=
  r ← store_get key;
  match r with Ok v => mret (Ok v) | Err e => db_fail e end.
Definition get_pending_import : DB (result DbError (option (ConsensusState T * CheckpointImport))) :=
  state ←? get_or_fail (pad_key PENDING_IMPORT_STATE_KEY);
  record ←? get_or_fail (pad_key PENDING_IMPORT_RECORD_KEY);
  match state, record with
  | None, None => mret (Ok None)
  | Some (VConsensusState state), Some (VCheckpointImport record) => mret (Ok (Some (state, record)))
  | _, _ => db_fail Incomplete
  end.
Definition commit_updates (updates : list (bytes * option Value)) : DB (result DbError ()) :=
  _ ←? apply_updates updates; commit.
Definition stage_checkpoint_import (state : ConsensusState T) (record : CheckpointImport) : DB (result DbError ()) :=
  commit_updates [(pad_key PENDING_IMPORT_STATE_KEY, Some (VConsensusState state));
                  (pad_key PENDING_IMPORT_RECORD_KEY, Some (VCheckpointImport record))].
Definition discard_pending_import : DB (result DbError ()) :=
  commit_updates [(pad_key PENDING_IMPORT_STATE_KEY, None); (pad_key PENDING_IMPORT_RECORD_KEY, None)].
Definition import_checkpoint (state : ConsensusState T) (record : CheckpointImport) : DB (result DbError ()) :=
  if negb (latest_height state =? processed_height record)%Z then mret (Err HeightMismatch) else
  commit_updates
    [(make_consensus_state_key (epoch state), Some (VConsensusState state));
     (pad_key LATEST_CONSENSUS_STATE_EPOCH_KEY, Some (VU64 (epoch state)));
     (pad_key CHECKPOINT_IMPORT_KEY, Some (VCheckpointImport record));
     (pad_key PENDING_IMPORT_STATE_KEY, None);
     (pad_key PENDING_IMPORT_RECORD_KEY, None)].
End db.
