(* ===== verification/DbFacts.v ===== *)
(** * DbFacts: what survives a crash

    The store shows the batches applied to it at once and makes them durable on commit;
    after a crash it shows what was durable.  The finalizer writes the header, the
    checkpoint and the state of an epoch and commits once: a crash before the commit
    leaves the last epoch, a crash after it finds all three. *)
From S2P Require Import Prelude Codec Crypto BTree Epocher Account SszHash SszStateTree SszStateTreeFacts.
From S2P Require Import ConsensusState StateSync StateCodec StateRun Block Db.

(** What is documented of the store: its contents, the durable ones, and reopening. *)
Class KvStoreSpec `{KvStore} := {
  view : Store → bytes → option bytes;
  durable : Store → bytes → option bytes;
  reopen : Store → Store
}.
Definition put (c : bytes → option bytes) (u : bytes * option bytes) (k : bytes) : option bytes :=
  if bool_decide (k = u.1) then u.2 else c k.
Class KvStoreOk `{KvStoreSpec} : Prop := {
  raw_get_view st k v : raw_get st k = Ok v → v = view st k;
  apply_batch_view st us st' k : raw_apply_batch st us = Ok st' → view st' k = foldl put (view st) us k;
  apply_batch_durable st us st' k : raw_apply_batch st us = Ok st' → durable st' k = durable st k;
  commit_view st st' k : raw_commit st = Ok st' → view st' k = view st k ∧ durable st' k = view st k;
  reopen_view st k : view (reopen st) k = durable st k
}.

Section keys.
Lemma cons_parts {A} (x y : A) l k : x :: l = y :: k → x = y ∧ l = k.
Proof. by intros [= -> ->]. Qed.
Lemma pad_state n : pad_key (state_variable n) = u8_to_byte STATE_PREFIX :: u8_to_byte n :: zero_bytes 62.
Proof. reflexivity. Qed.
Lemma epoch_key_inj p e e' : is_u64 e → is_u64 e' → epoch_key p e = epoch_key p e' → e = e'.
Proof.
  unfold epoch_key. intros He He' [_ E]%cons_parts. apply app_inj_1 in E as [E _]; [|by rewrite !length_u64_to_le_bytes].
  pose proof (get_u64_le_app e [] He) as H1. pose proof (get_u64_le_app e' [] He') as H2. rewrite E in H1. congruence.
Qed.
Lemma state_key_epoch n p e : u8_to_byte STATE_PREFIX ≠ u8_to_byte p → pad_key (state_variable n) ≠ epoch_key p e.
Proof. rewrite pad_state. unfold epoch_key. by intros Hp [E _]%cons_parts. Qed.
Lemma state_key_ne n m : u8_to_byte n ≠ u8_to_byte m → pad_key (state_variable n) ≠ pad_key (state_variable m).
Proof. rewrite !pad_state. by intros Hp [_ [E _]%cons_parts]%cons_parts. Qed.
Lemma epoch_key_ne p p' e e' : u8_to_byte p ≠ u8_to_byte p' → epoch_key p e ≠ epoch_key p' e'.
Proof. unfold epoch_key. by intros Hp [E _]%cons_parts. Qed.
End keys.

Section facts.
Context `{Hc : Crypto} `{!CryptoOk} `{Hl : SszLib} `{!SszLibOk} `{Hb : BlockLib} `{!BlockLibOk}.
Context `{Hk : KvStore} `{Hv : !KvStoreSpec} `{!KvStoreOk}.
Notation state := (ConsensusState SszStateTree).
Notation Value := (Value (T:=SszStateTree)).
Implicit Type db : FinalizerState.

(** The store of the database, with these contents and these durable contents. *)
Definition holds_store db (c d : bytes → option bytes) : Prop :=
  ∃ st, store db = Some st ∧ (∀ k, view st k = c k) ∧ (∀ k, durable st k = d k).

Lemma update_spec key (v : option Value) db db' c d :
  holds_store db c d → update key v db = Some (db', Ok ()) →
  holds_store db' (put c (key, write_value <$> v)) d.
Proof.
  intros (st & E & Hc1 & Hd). unfold update, apply_updates. rewrite E. simpl.
  destruct (raw_apply_batch _ _) as [st'|] eqn:Eb; [|done]. intros [= <-]. exists st'. split; [done|]. split.
  - intros k. rewrite (apply_batch_view _ _ _ _ Eb). simpl. unfold put. by rewrite Hc1.
  - intros k. by rewrite (apply_batch_durable _ _ _ _ Eb).
Qed.

(** A read that succeeds shows the contents. *)
Lemma store_get_spec key db c d v :
  holds_store db c d → store_get (T:=SszStateTree) key db = Some (db, Ok v) →
  match v with
  | None => c key = None
  | Some v => ∃ bs, c key = Some bs ∧ decode_all read_value bs = Ok (Some v)
  end.
Proof.
  intros (st & E & Hc1 & _). unfold store_get. rewrite E. cbn [mbind option_bind].
  destruct (raw_get st key) as [[bs|]|] eqn:Eg; [| |done]; apply raw_get_view in Eg; rewrite Hc1 in Eg.
  - destruct (decode_all read_value bs) as [[w|]|] eqn:Ed; [|done..]. intros [= <-]. by exists bs.
  - by intros [= <-].
Qed.
Ltac read_tag :=
  unfold read_value, write_value; rewrite <-?(assoc_L (++));
  erewrite reader_bind_step by (apply try_get_u8_app; lia); cbv iota beta.
Lemma read_u64_value e : is_u64 e → decode_all (read_value (T:=SszStateTree)) (write_value (T:=SszStateTree) (VU64 e)) = Ok (Some (VU64 e)).
Proof. intros He. apply decode_all_app. read_tag. codec. done. Qed.

(** A read leaves the store alone. *)
Lemma store_get_db key db r : store_get (T:=SszStateTree) key db = Some r → r.1 = db.
Proof.
  unfold store_get. intros (st & _ & E)%bind_Some. destruct (raw_get st key) as [[bs|]|]; [|by injection E as <-..].
  destruct (decode_all _ _) as [[]|]; [by injection E as <-|done|by injection E as <-].
Qed.

(** The epoch a tracker shows. *)
Definition tracked (c : bytes → option bytes) (tracker : bytes) (e : Z) : Prop :=
  ∀ bs e0, c (pad_key tracker) = Some bs → decode_all (read_value (T:=SszStateTree)) bs = Ok (Some (VU64 e0)) → (e0 ≤ e)%Z.
Lemma get_tracker_spec tracker db c d e r :
  (0 ≤ e)%Z → holds_store db c d → tracked c tracker e →
  get_epoch_tracker (T:=SszStateTree) tracker db = Some r → (r.2 ≤ e)%Z ∧ store r.1 = store db.
Proof.
  intros He Hs Ht. unfold get_epoch_tracker, read_or, mbind, DB_bind, mret, DB_ret.
  destruct (store_get _ db) as [[db1 v]|] eqn:E; [|done]. pose proof (store_get_db _ _ _ E). simpl in *. subst db1.
  destruct v as [v|err]; intros [= <-]; simpl; [|done]. split; [|done].
  pose proof (store_get_spec _ _ _ _ _ Hs E) as Hg. destruct v as [[]|]; try lia.
  destruct Hg as (bs & Hcs & Hdec). by eapply Ht.
Qed.
Lemma holds_same db db' c d : store db' = store db → holds_store db c d → holds_store db' c d.
Proof. unfold holds_store. by intros ->. Qed.

(** Storing a value of an epoch that is not older than the tracked one. *)
Lemma store_tracked_spec key tracker e (v : Value) db db' c d :
  (0 ≤ e)%Z → holds_store db c d → tracked c tracker e → pad_key tracker ≠ key →
  store_tracked key tracker e v db = Some (db', Ok ()) →
  holds_store db' (put (put c (key, Some (write_value v))) (pad_key tracker, Some (write_value (T:=SszStateTree) (VU64 e)))) d.
Proof.
  intros He Hs Ht Hne. unfold store_tracked, DB_try, mbind, DB_bind, mret, DB_ret.
  destruct (update key (Some v) db) as [[db1 [[]|err]]|] eqn:Eu; [|done..].
  pose proof (update_spec _ _ _ _ _ _ Hs Eu) as Hs1. simpl in Hs1.
  destruct (get_epoch_tracker tracker db1) as [[db2 latest]|] eqn:Eg; [|done].
  assert (tracked (put c (key, Some (write_value v))) tracker e) as Ht1.
  { intros bs e0. unfold put. simpl. rewrite bool_decide_false by done. apply Ht. }
  destruct (get_tracker_spec _ _ _ _ _ _ He Hs1 Ht1 Eg) as [Hle Hst]. simpl in *.
  rewrite (proj2 (Z.leb_le _ _) Hle). unfold set_epoch_tracker. intros Eu2.
  exact (update_spec _ _ _ _ _ _ (holds_same _ _ _ _ Hst Hs1) Eu2).
Qed.

Lemma commit_spec db db' c d : holds_store db c d → commit db = Some (db', Ok ()) → holds_store db' c c.
Proof.
  intros (st & E & Hc1 & _). unfold commit. rewrite E. destruct (raw_commit st) as [st'|] eqn:Ec; [|done].
  intros [= <-]. exists st'. split; [done|]. split; intros k; destruct (commit_view _ _ k Ec) as [E1 E2]; by rewrite ?E1, ?E2.
Qed.

(** The database of the next start after a crash. *)
Definition restart_db db : FinalizerState := mkFinalizerState (reopen <$> store db) false.
Lemma restart_spec db c d : holds_store db c d → ∃ st, store (restart_db db) = Some st ∧ ∀ k, view st k = d k.
Proof.
  intros (st & E & _ & Hd). exists (reopen st). unfold restart_db. rewrite E. split; [done|].
  intros k. by rewrite reopen_view.
Qed.

(** A getter of a store whose reads succeed. *)
Definition reads_up db : Prop := ∃ st, store db = Some st ∧ ∀ k, ∃ v, raw_get st k = Ok v.
Lemma read_or_spec {A} (a : A) g key db c d bs w :
  reads_up db → holds_store db c d → c key = Some bs → decode_all read_value bs = Ok (Some w) →
  read_or (T:=SszStateTree) a g key db = Some (db, g (Some w)).
Proof.
  intros (st & E & Hup) (st' & E' & Hc1 & _) Hcs Hdec. rewrite E in E'. injection E' as <-.
  unfold read_or, store_get, mbind, DB_bind, mret, DB_ret. rewrite E. cbn [mbind option_bind].
  destruct (Hup key) as [v Hget]. rewrite Hget. apply raw_get_view in Hget as ->. rewrite Hc1, Hcs. by rewrite Hdec.
Qed.

(** The values of an epoch decode to what was stored. *)
Lemma header_value fh :
  header_wf (fh_header fh) → (Z.of_nat (participant_count fh) ≤ MAX_FINALIZED_HEADER_PARTICIPANTS)%Z →
  certificate_fits (participant_count fh) (fh_finalization fh) →
  signed_payload (fh_finalization fh) = computed_digest (fh_header fh) →
  len_ok (length (finalized_ssz (header_ssz (fh_header fh)) (as_u32 (participant_count fh))
                    (write_finalization (fh_finalization fh)))) →
  decode_all (read_value (T:=SszStateTree)) (write_value (T:=SszStateTree) (VFinalizedHeader fh))
  = Ok (Some (VFinalizedHeader (mkFinalizedHeader (cold (fh_header fh)) (fh_finalization fh) (participant_count fh)))).
Proof.
  intros Hw Hn Hf Hs Hlen. apply decode_all_app. read_tag.
  unfold MAX_FINALIZED_HEADER_PARTICIPANTS in Hn.
  unfold mbind at 1, reader_bind. rewrite read_finalized_app by (done || lia).
  rewrite (proj2 (Z.ltb_ge _ _)) by (unfold MAX_FINALIZED_HEADER_PARTICIPANTS; lia).
  unfold finalized_new. rewrite computed_digest_cold, Hs, bool_decide_true by done. done.
Qed.
Lemma checkpoint_value cp b :
  checkpoint_wf cp → header_wf (header b) → body_bound b →
  len_ok (length (block_ssz (header b) (payload b) (execution_requests b))) →
  decode_all (read_value (T:=SszStateTree)) (write_value (T:=SszStateTree) (VCheckpoint cp b))
  = Ok (Some (VCheckpoint cp (mkBlock (cold (header b)) (payload b) (execution_requests b)))).
Proof.
  intros Hcp Hw Hb1 Hlen. apply decode_all_app. read_tag.
  unfold mbind at 1, reader_bind. rewrite read_checkpoint_app by done.
  unfold mbind at 1, reader_bind. rewrite read_block_app by done. rewrite block_ssz_decode by done. cbn [mbind option_bind].
  assert (new_with_verify (cold (header b)) (payload b) (execution_requests b)
    = Ok (mkBlock (cold (header b)) (payload b) (execution_requests b))) as -> by (by apply new_with_verify_Ok). done.
Qed.
Lemma state_value (s0 s : state) n :
  state_wf (captured s0 n) → state_wf s → frozen_part s = frozen_part (captured s0 n) →
  decode_all (read_value (T:=SszStateTree)) (write_value (VConsensusState s)) = Ok (Some (VConsensusState (restarted s))).
Proof.
  intros Hw0 Hw Hf. apply decode_all_app. read_tag.
  unfold mbind at 1, reader_bind. by rewrite (read_restarted s0 n s).
Qed.

(** ** A store that does not fail *)
Record store_up : Prop := {
  up_get st k : ∃ v, raw_get st k = Ok v;
  up_apply st us : ∃ st', raw_apply_batch st us = Ok st';
  up_commit st : ∃ st', raw_commit st = Ok st'
}.
(** Decoding a value does not panic. *)
Lemma read_value_returns bs : decode_all (read_value (T:=SszStateTree)) bs ≠ Ok None.
Proof.
  unfold decode_all. intros E. destruct (read_value bs) as [[v rest]|e] eqn:Er; [|done].
  destruct rest; [|done]. injection E as ->. unfold read_value in Er. apply reader_bind_Ok in Er as (t & buf & _ & Er).
  repeat case_match; try done; repeat (apply reader_bind_Ok in Er as (? & ? & ? & Er); try done).
  pose proof (read_state_fuel_returns (T:=SszStateTree) (length buf) buf (le_n _)) as Hret.
  match goal with Hr : read_state buf = Ok (?x, _) |- _ => unfold read_state in Hr; rewrite Hr in Hret; by destruct x end.
Qed.
Definition running db : Prop := is_Some (store db).
Section up.
Hypothesis Hup : store_up.

Lemma update_up key (v : option Value) db : running db → ∃ db', update key v db = Some (db', Ok ()) ∧ running db'.
Proof.
  intros [st E]. unfold update, apply_updates. rewrite E. destruct (up_apply Hup st (map (λ '(k, v), (k, write_value <$> v)) [(key, v)]))
    as [st' ->]. eexists. split; [done|]. by eexists.
Qed.
Lemma commit_up db : running db → ∃ db', commit db = Some (db', Ok ()) ∧ running db'.
Proof.
  intros [st E]. unfold commit. rewrite E. destruct (up_commit Hup st) as [st' ->]. eexists. split; [done|]. by eexists.
Qed.
Lemma tracker_up tracker db : running db → ∃ r, get_epoch_tracker (T:=SszStateTree) tracker db = Some r ∧ running r.1.
Proof.
  intros Hr. pose proof Hr as [st E]. unfold get_epoch_tracker, read_or, store_get, mbind, DB_bind, mret, DB_ret. rewrite E.
  cbn [mbind option_bind]. destruct (up_get Hup st (pad_key tracker)) as [[bs|] ->]; [|by eexists].
  pose proof (read_value_returns bs). destruct (decode_all _ _) as [[v|]|]; [by eexists|done|].
  eexists. split; [done|]. by exists st.
Qed.
Lemma store_tracked_up key tracker e (v : Value) db :
  running db → ∃ db', store_tracked key tracker e v db = Some (db', Ok ()) ∧ running db'.
Proof.
  intros Hr. unfold store_tracked, DB_try, mbind, DB_bind, mret, DB_ret.
  destruct (update_up key (Some v) db Hr) as (db1 & -> & Hr1).
  destruct (tracker_up tracker db1 Hr1) as ([db2 latest] & -> & Hr2). simpl in *.
  destruct (_ <=? _)%Z; [by apply update_up|by eexists].
Qed.
End up.

(** The writes of the last block of an epoch, before the commit. *)
Definition store_epoch (e : Z) (fh : FinalizedHeader) (cp : Checkpoint) (b : Block) (s : state) : DB (result DbError ()) :=
  DB_try (store_finalized_header (T:=SszStateTree) e fh) (λ _,
  DB_try (store_finalized_checkpoint (T:=SszStateTree) e cp b) (λ _, store_consensus_state (e + 1) s)).

(** The contents after them. *)
Definition epoch_contents (c : bytes → option bytes) (e : Z) (fh : FinalizedHeader) (cp : Checkpoint) (b : Block) (s : state)
  : bytes → option bytes :=
  foldl put c
    [(make_finalized_header_key e, Some (write_value (T:=SszStateTree) (VFinalizedHeader fh)));
     (pad_key LATEST_FINALIZED_HEADER_EPOCH_KEY, Some (write_value (T:=SszStateTree) (VU64 e)));
     (make_checkpoint_key e, Some (write_value (T:=SszStateTree) (VCheckpoint cp b)));
     (pad_key LATEST_CHECKPOINT_EPOCH_KEY, Some (write_value (T:=SszStateTree) (VU64 e)));
     (make_consensus_state_key (e + 1), Some (write_value (VConsensusState s)));
     (pad_key LATEST_CONSENSUS_STATE_EPOCH_KEY, Some (write_value (T:=SszStateTree) (VU64 (e + 1))))].

Lemma put_ne c u k : k ≠ u.1 → put c u k = c k.
Proof. intros Hne. unfold put. by rewrite bool_decide_false. Qed.
Lemma put_eq c k v : put c (k, v) k = v.
Proof. unfold put. by rewrite bool_decide_true. Qed.
Lemma tracked_put c u tracker e : pad_key tracker ≠ u.1 → tracked c tracker e → tracked (put c u) tracker e.
Proof. intros Hne Ht bs e0. rewrite put_ne by done. apply Ht. Qed.
Ltac keys_differ := first [ by apply state_key_epoch | by apply state_key_ne | by apply epoch_key_ne
  | apply not_eq_sym; first [by apply state_key_epoch | by apply epoch_key_ne] ].

Lemma store_epoch_spec e fh cp b s db db' c d :
  (0 ≤ e)%Z → holds_store db c d →
  tracked c LATEST_FINALIZED_HEADER_EPOCH_KEY e → tracked c LATEST_CHECKPOINT_EPOCH_KEY e →
  tracked c LATEST_CONSENSUS_STATE_EPOCH_KEY (e + 1) →
  store_epoch e fh cp b s db = Some (db', Ok ()) → holds_store db' (epoch_contents c e fh cp b s) d.
Proof.
  intros He Hs Ht1 Ht2 Ht3. unfold store_epoch, DB_try, mbind, DB_bind, mret, DB_ret.
  destruct (store_finalized_header e fh db) as [[db1 [[]|]]|] eqn:E1; [|done..].
  apply (store_tracked_spec _ _ _ _ _ _ _ _ He Hs Ht1) in E1; [|keys_differ].
  destruct (store_finalized_checkpoint e cp b db1) as [[db2 [[]|]]|] eqn:E2; [|done..].
  apply (store_tracked_spec _ _ _ _ _ _ _ _ He E1) in E2; [|do 2 (apply tracked_put; [keys_differ|]); done|keys_differ].
  intros E3. assert (0 ≤ e + 1)%Z as He1 by lia. apply (store_tracked_spec _ _ _ _ _ _ _ _ He1 E2) in E3;
    [exact E3|do 4 (apply tracked_put; [keys_differ|]); done|keys_differ].
Qed.

(** What is stored fits its encodings; the state is as its root was captured. *)
Record storable (e : Z) (fh : FinalizedHeader) (cp : Checkpoint) (b : Block) (s0 s : state) (n : Z) : Prop := {
  so_epoch : is_u64 e ∧ is_u64 (e + 1);
  so_header : header_wf (fh_header fh) ∧ (Z.of_nat (participant_count fh) ≤ MAX_FINALIZED_HEADER_PARTICIPANTS)%Z ∧
    certificate_fits (participant_count fh) (fh_finalization fh) ∧
    signed_payload (fh_finalization fh) = computed_digest (fh_header fh) ∧
    len_ok (length (finalized_ssz (header_ssz (fh_header fh)) (as_u32 (participant_count fh))
                      (write_finalization (fh_finalization fh))));
  so_checkpoint : checkpoint_wf cp;
  so_block : header_wf (header b) ∧ body_bound b ∧ len_ok (length (block_ssz (header b) (payload b) (execution_requests b)));
  so_state : state_wf (captured s0 n) ∧ state_wf s ∧ frozen_part s = frozen_part (captured s0 n)
}.

(** C10: An epoch is stored atomically.  The last block of epoch [e] writes its header, its
    checkpoint and the state of epoch [e + 1]: a crash before the commit leaves what was
    durable before; a crash after it finds the state of the new epoch -- the same data,
    root and proof tree -- as the latest one, and the header and the checkpoint of the
    epoch, as they were stored. *)
Theorem epoch_commit_is_atomic e fh cp b s0 s n db db1 c d :
  storable e fh cp b s0 s n → holds_store db c d →
  tracked c LATEST_FINALIZED_HEADER_EPOCH_KEY e → tracked c LATEST_CHECKPOINT_EPOCH_KEY e →
  tracked c LATEST_CONSENSUS_STATE_EPOCH_KEY (e + 1) →
  store_epoch e fh cp b s db = Some (db1, Ok ()) →
  (∃ st, store (restart_db db1) = Some st ∧ ∀ k, view st k = d k) ∧
  ∀ db2, commit db1 = Some (db2, Ok ()) → reads_up (restart_db db2) →
    let db3 := restart_db db2 in
    get_latest_consensus_state db3 = Some (db3, Some (restarted s)) ∧
    get_most_recent_finalized_header (T:=SszStateTree) db3 = Some (db3, Some
      (mkFinalizedHeader (cold (fh_header fh)) (fh_finalization fh) (participant_count fh))) ∧
    get_latest_finalized_checkpoint (T:=SszStateTree) db3 = Some (db3,
      (Some (cp, mkBlock (cold (header b)) (payload b) (execution_requests b)), e)).
Proof.
  intros [[He He1] (Hh1 & Hh2 & Hh3 & Hh4 & Hh5) Hcp (Hb1 & Hb2 & Hb3) (Hs1 & Hs2 & Hs3)] Hs Ht1 Ht2 Ht3 E.
  apply (store_epoch_spec _ _ _ _ _ _ _ _ _ (proj1 He) Hs Ht1 Ht2 Ht3) in E. split; [by eapply restart_spec|].
  intros db2 E2 Hup. cbv zeta. apply (commit_spec _ _ _ _ E) in E2. apply restart_spec in E2 as (st & Est & Hview).
  assert (holds_store (restart_db db2) (epoch_contents c e fh cp b s) (durable st)) as Hst by (by exists st).
  assert (∀ k bs w A (a : A) g, epoch_contents c e fh cp b s k = Some bs → decode_all read_value bs = Ok (Some w) →
    read_or (T:=SszStateTree) a g k (restart_db db2) = Some (restart_db db2, g (Some w))) as Hread
    by (intros; by eapply read_or_spec).
  split_and!.
  - unfold get_latest_consensus_state, mbind, DB_bind.
    erewrite Hread; [|unfold epoch_contents; simpl; apply put_eq|by apply read_u64_value].
    unfold get_consensus_state. erewrite Hread; cycle 1; [|by eapply state_value|reflexivity].
    unfold epoch_contents. simpl. rewrite put_ne by keys_differ. apply put_eq.
  - unfold get_most_recent_finalized_header, get_latest_finalized_header_epoch, get_epoch_tracker, mbind, DB_bind.
    erewrite Hread; [|unfold epoch_contents; simpl; do 4 rewrite put_ne by keys_differ; apply put_eq|by apply read_u64_value].
    unfold get_finalized_header. erewrite Hread; cycle 1; [|by apply header_value|reflexivity].
    unfold epoch_contents. simpl. do 5 rewrite put_ne by keys_differ. apply put_eq.
  - unfold get_latest_finalized_checkpoint, get_latest_checkpoint_epoch, get_epoch_tracker, mbind, DB_bind.
    erewrite Hread; [|unfold epoch_contents; simpl; do 2 rewrite put_ne by keys_differ; apply put_eq|by apply read_u64_value].
    unfold get_finalized_checkpoint. erewrite Hread; cycle 1; [|by apply checkpoint_value|reflexivity].
    unfold epoch_contents. simpl. do 3 rewrite put_ne by keys_differ. apply put_eq.
Qed.
End facts.
