(* ===== verification/Finalizer.v ===== *)
(** * Finalizer: the actor that applies blocks (finalizer/src/actor.rs)

    The actor holds the canonical state of the finalized chain, a state for every
    executed block that is notarized and not yet finalized, the blocks that wait for a
    parent or for the execution client, and the proposers that wait for a block to be
    executed.  Its handlers run in [F], a state monad over the actor in which [None] is
    a panic and [Err] shuts the node down.  What it sends (acknowledgements, answers to
    waiters, peer sets, epoch changes) is the list [events]; channels are numbers. *)
From S2P Require Import Prelude BTree Codec Crypto Epocher Account SszHash SszStateTree.
From S2P Require Import ConsensusState StateCodec Block Execution ObserverKeys Db.

Definition Ack : Type := N.
Definition Sender : Type := N.

(** The number of signers of a certificate. *)
Class CertificateLib `{BlockLib} := certificate_signers : Finalization → nat.

(** The Rust [Err] values, without their texts. *)
Inductive FinalizerError {E D : Type} :=
| ConflictingFinalization (height : Z)
| CertificateMismatch (height : Z)
| NonCanonical (height : Z)
| ForkchoiceInvalid (height : Z)
| WrongParent (height : Z)
| FinalizedInvalid (height : Z)
| EngineFailed (height : Z) (e : E)
| PendingCap (height : Z)
| DbFailed (e : D).
Arguments FinalizerError : clear implicits.

Inductive HandleOutcome {E : Type} := Handled | Buffered (e : E).
Arguments HandleOutcome : clear implicits.

Section finalizer.
Context `{Hc : Crypto} `{Hl : SszLib} `{Hb : BlockLib} `{He : !EngineClient}.
Context `{Hk : KvStore} `{Hv : Curve} `{Hs : !CertificateLib}.
Context {T : Type} `{HT : StateTree T}.

Inductive Event :=
| Acknowledge (a : Ack)
| Send (to : Sender) (executed : bool)
| Track (epoch : Z) (primary secondary : list bytes)
| Enter (epoch : Z) (validator_keys : list (bytes * bytes))
| Exit (epoch : Z).

Record ForkState := mkForkState {
  fs_block_digest : bytes;
  fs_parent_digest : bytes;
  consensus_state : ConsensusState T
}.
(** The times of the first attempts, which only logs read, are left out. *)
Record PendingFinalized := mkPendingFinalized {
  pf_block : Block;
  pf_finalization : option Finalization;
  pf_ack : Ack
}.

Record FinalizerConfig := mkFinalizerConfig {
  buffered_blocks_warn_threshold : nat;
  pending_notarized_max : nat;
  cfg_genesis_hash : bytes;
  protocol_consts : ProtocolConsts;
  cfg_deposit_domain : bytes;
  cfg_node_public_key : bytes;
  observer_domain : bytes
}.

Record Finalizer := mkFinalizer {
  pending_height_notifys : BTreeMap (Z * bytes) (list Sender);
  engine_client : Engine;
  f_db : FinalizerState;
  canonical_state : ConsensusState T;
  fork_states : BTreeMap Z (BTreeMap bytes ForkState);
  dead_fork_digests : gset (Z * bytes);
  orphaned_blocks : BTreeMap Z (gmap bytes (list Block));
  pending_finalized : list PendingFinalized;
  pending_notarized : list Block;
  pending_notarized_keys : gset bytes;
  pending_warn_active : bool;
  validator_exit : bool;
  events : list Event
}.
#[global] Instance Finalizer_eta : Eta Finalizer := λ f,
  mkFinalizer (pending_height_notifys f) (engine_client f) (f_db f) (canonical_state f) (fork_states f)
    (dead_fork_digests f) (orphaned_blocks f) (pending_finalized f) (pending_notarized f)
    (pending_notarized_keys f) (pending_warn_active f) (validator_exit f) (events f).

(** [Finalizer::new] on the loaded or the initial state. *)
Definition finalizer_new (engine : Engine) (db : FinalizerState) (state : ConsensusState T) : Finalizer :=
  mkFinalizer [] engine db state [] ∅ [] [] [] ∅ false false [].

Notation Error := (FinalizerError EngineClientError DbError).
Definition F (A : Type) : Type := Finalizer → option (Finalizer * result Error A).
#[global] Instance F_ret : MRet F := λ A a f, Some (f, Ok a).
#[global] Instance F_bind : MBind F := λ A B k c f,
  match c f with
  | None => None
  | Some (f, Ok a) => k a f
  | Some (f, Err e) => Some (f, Err e)
  end.
Definition f_fail {A} (e : Error) : F A := λ f, Some (f, Err e).
Definition get : F Finalizer := λ f, Some (f, Ok f).
Definition modify (g : Finalizer → Finalizer) : F () := λ f, Some (g f, Ok ()).
(** [expect], [assert] and what may panic. *)
Definition expect {A} (o : option A) : F A := λ f, match o with Some a => Some (f, Ok a) | None => None end.
Definition emit (e : Event) : F () := modify (λ f, f <| events := events f ++ [e] |>).
Definition lift_db {A} (c : DB (result DbError A)) : F A := λ f,
  match c (f_db f) with
  | None => None
  | Some (db, Ok a) => Some (f <| f_db := db |>, Ok a)
  | Some (db, Err e) => Some (f <| f_db := db |>, Err (DbFailed e))
  end.
Definition set_canonical (s : ConsensusState T) : F () := modify (λ f, f <| canonical_state := s |>).

Context (cfg : FinalizerConfig).

(** ** Waiters *)
Definition send_all (senders : list Sender) (b : bool) : F () :=
  modify (λ f, f <| events := events f ++ map (λ s, Send s b) senders |>).
Definition height_notify_executed (height : Z) (block_digest : bytes) : F () :=
  f ← get;
  match BTree.get (pending_height_notifys f) (height, block_digest) with
  | None => mret ()
  | Some senders =>
      _ ← modify (λ f, f <| pending_height_notifys :=
                        BTree.remove (pending_height_notifys f) (height, block_digest) |>);
      send_all senders true
  end.
(** One waiting key: kept above the height, answered otherwise. *)
Definition notify_one (height : Z) (block_digest : bytes) (f : Finalizer)
    (e : (Z * bytes) * list Sender) : Finalizer :=
  let '((waiter_height, waiter_digest), senders) := e in
  if (height <? waiter_height)%Z
  then f <| pending_height_notifys := BTree.insert (pending_height_notifys f) (waiter_height, waiter_digest) senders |>
  else
    let block_executed := (waiter_height =? height)%Z && bool_decide (waiter_digest = block_digest) in
    f <| events := events f ++ map (λ s, Send s block_executed) senders |>.
Definition height_notify_finalized_up_to (height : Z) (block_digest : bytes) : F () :=
  modify (λ f, foldl (notify_one height block_digest) (f <| pending_height_notifys := [] |>)
                 (pending_height_notifys f)).
(** [FinalizerMessage::NotifyAtHeight]. *)
Definition notify_at_height (height : Z) (block_digest : bytes) (response : Sender) : F () :=
  f ← get;
  let latest := latest_height (canonical_state f) in
  if (height <? latest)%Z then emit (Send response false)
  else if (height =? latest)%Z then
    emit (Send response (bool_decide (block_digest = head_digest (canonical_state f))))
  else if bool_decide ((height, block_digest) ∈ dead_fork_digests f) then emit (Send response false)
  else if (match BTree.get (fork_states f) height with
           | Some forks => BTree.contains_key forks block_digest | None => false end)
  then emit (Send response true)
  else modify (λ f, f <| pending_height_notifys :=
         let waiting := pending_height_notifys f in
         BTree.insert waiting (height, block_digest)
           (default [] (BTree.get waiting (height, block_digest)) ++ [response]) |>).

(** ** Forks *)

(** The forks of one height that build on live parents; the others are dead. *)
Definition prune_height (fork_height : Z) (forks : BTreeMap bytes ForkState) (live_parents : gset bytes)
  : BTreeMap bytes ForkState * list (Z * bytes) :=
  let descends (e : bytes * ForkState) := bool_decide (fs_parent_digest e.2 ∈ live_parents) in
  (retain descends forks, map (λ e, (fork_height, e.1)) (retain (λ e, negb (descends e)) forks)).
(** The heights above the finalized one, in order, with the live parents of the
    height below. *)
Fixpoint prune_heights (forks : BTreeMap Z (BTreeMap bytes ForkState)) (live_parents : gset bytes)
  : BTreeMap Z (BTreeMap bytes ForkState) * list (Z * bytes) :=
  match forks with
  | [] => ([], [])
  | (fork_height, at_height) :: forks =>
      let '(kept, dead) := prune_height fork_height at_height live_parents in
      let '(forks, dead') := prune_heights forks (list_to_set (BTree.keys kept)) in
      (match kept with [] => forks | _ => (fork_height, kept) :: forks end, dead ++ dead')
  end.
Definition bury_fork (f : Finalizer) (key : Z * bytes) : Finalizer :=
  let f := f <| dead_fork_digests := {[ key ]} ∪ dead_fork_digests f |> in
  match BTree.get (pending_height_notifys f) key with
  | None => f
  | Some senders =>
      f <| pending_height_notifys := BTree.remove (pending_height_notifys f) key |>
        <| events := events f ++ map (λ s, Send s false) senders |>
  end.
Definition prune_fork_states_not_descending_from (height : Z) (block_digest : bytes) : F () :=
  modify (λ f,
    let below := retain (λ e, negb (height <? e.1)%Z) (fork_states f) in
    let above := retain (λ e, (height <? e.1)%Z) (fork_states f) in
    let '(kept, dead) := prune_heights above {[ block_digest ]} in
    foldl bury_fork (f <| fork_states := below ++ kept |>) dead).

(** ** Notarized blocks *)
Definition update_pending_warn : F () := modify (λ f,
  let over_threshold := (buffered_blocks_warn_threshold cfg <=? length (pending_finalized f))
    || (buffered_blocks_warn_threshold cfg <=? length (pending_notarized f)) in
  if over_threshold && negb (pending_warn_active f) then f <| pending_warn_active := true |>
  else if negb over_threshold && pending_warn_active f then f <| pending_warn_active := false |>
  else f).

(** The state to execute a block on, if its parent is known. *)
Inductive ParentState := DeadFork | NoParent | Parent (s : ConsensusState T).
Definition parent_state (f : Finalizer) (height : Z) (parent_digest : bytes) : ParentState :=
  let canonical := canonical_state f in
  if (height =? wrapping_add (latest_height canonical) 1)%Z then
    if (0 <? latest_height canonical)%Z && negb (bool_decide (parent_digest = head_digest canonical))
    then DeadFork else Parent (clone_state canonical)
  else
    match forks_at_parent ← BTree.get (fork_states f) (wrapping_sub height 1);
          BTree.get forks_at_parent parent_digest with
    | Some parent_fork => Parent (clone_state (consensus_state parent_fork))
    | None => NoParent
    end.

Definition buffer_orphan (f : Finalizer) (b : Block) : Finalizer :=
  let at_height := default ∅ (BTree.get (orphaned_blocks f) (block_height b)) in
  let siblings := default [] (at_height !! block_parent b) in
  f <| orphaned_blocks := BTree.insert (orphaned_blocks f) (block_height b)
         (<[ block_parent b := siblings ++ [b] ]> at_height) |>.

(** A notarized block the client is not ready for. *)
Definition defer_notarized (b : Block) : F () :=
  f ← get;
  if bool_decide (block_digest b ∈ pending_notarized_keys f) then mret ()
  else if pending_notarized_max cfg <=? length (pending_notarized f) then f_fail (PendingCap (block_height b))
  else
    _ ← modify (λ f, f <| pending_notarized_keys := {[ block_digest b ]} ∪ pending_notarized_keys f |>
                       <| pending_notarized := pending_notarized f ++ [b] |>);
    update_pending_warn.

(** Executing a block on a state, with the client of the actor. *)
Definition execute (b : Block) (s : ConsensusState T) (fork_finalized : option bytes)
  : F (ExecuteOutcome * ConsensusState T) := λ f,
  match execute_block (engine_client f) b s (protocol_consts cfg) (cfg_deposit_domain cfg) fork_finalized with
  | None => None
  | Some (engine, Ok outcome, s) => Some (f <| engine_client := engine |>, Ok (outcome, s))
  | Some (engine, Err e, _) => Some (f <| engine_client := engine |>, Err (EngineFailed (block_height b) e))
  end.

Definition store_fork (b : Block) (s : ConsensusState T) : F () := modify (λ f,
  let at_height := default [] (BTree.get (fork_states f) (block_height b)) in
  f <| fork_states := BTree.insert (fork_states f) (block_height b)
         (BTree.insert at_height (block_digest b) (mkForkState (block_digest b) (block_parent b) (clone_state s))) |>).

Definition orphaned_children (f : Finalizer) (height : Z) (digest : bytes) : list Block :=
  default [] (at_height ← BTree.get (orphaned_blocks f) (wrapping_add height 1); at_height !! digest).

(** One block of the work list: the blocks it adds to it, and whether it was deferred. *)
Definition process_notarized (block : Block) : F (list Block * bool) :=
  f ← get;
  let height := block_height block in
  let parent_digest := block_parent block in
  let digest := block_digest block in
  if (height <=? latest_height (canonical_state f))%Z then mret ([], false) else
  if bool_decide ((height, digest) ∈ dead_fork_digests f) then mret ([], false) else
  if (match BTree.get (fork_states f) height with
      | Some forks => BTree.contains_key forks digest | None => false end) then mret ([], false) else
  match parent_state f height parent_digest with
  | DeadFork => mret ([], false)
  | NoParent => _ ← modify (λ f, buffer_orphan f block); mret ([], false)
  | Parent fork_state =>
      r ← execute block fork_state (Some (finalized_block_hash (forkchoice (canonical_state f))));
      match r with
      | (Syncing, _) => _ ← defer_notarized block; mret ([], true)
      | (InvalidPayload, _) => mret ([], false)
      | (Applied, fork_state) =>
          _ ← store_fork block fork_state;
          _ ← height_notify_executed height digest;
          f ← get;
          mret (orphaned_children f height digest, false)
      end
  end.
(** The work list is a stack, its top first. *)
Fixpoint notarized_loop (fuel : nat) (to_process : list Block) (outcome : HandleOutcome ())
  : F (HandleOutcome ()) :=
  match to_process with
  | [] => mret outcome
  | block :: to_process =>
      match fuel with
      | 0 => expect None
      | S fuel =>
          r ← process_notarized block;
          let '(children, deferred) := r in
          notarized_loop fuel (rev children ++ to_process) (if deferred : bool then Buffered () else outcome)
      end
  end.
(** The orphans of a block are queued when it is executed, and a block is executed at
    most once: the loop runs once for the block and once for every orphan. *)
Definition orphan_count (f : Finalizer) : nat :=
  length (concat (map (λ e, concat (map snd (map_to_list e.2))) (orphaned_blocks f))).
Definition notarized_fuel (f : Finalizer) : nat := S (orphan_count f).
Definition handle_notarized_block (block : Block) : F (HandleOutcome ()) :=
  f ← get;
  notarized_loop (notarized_fuel f) [block] Handled.

(** ** Finalized blocks *)

(** Promotes the fork state of the block, or executes it: [false] when the client is
    not ready. *)
Definition adopt_finalized (block : Block) : F bool :=
  f ← get;
  let height := block_height block in
  let digest := block_digest block in
  match forks_at_height ← BTree.get (fork_states f) height; BTree.get forks_at_height digest with
  | Some fork_state =>
      _ ← expect (if bool_decide (fs_block_digest fork_state = digest) then Some () else None);
      let eth_hash := eth_block_hash block in
      match commit_forkchoice (engine_client f) (mkForkchoiceState eth_hash eth_hash eth_hash) with
      | (engine, Ok outcome) =>
          _ ← modify (λ f, f <| engine_client := engine |>);
          match outcome with
          | Applied =>
              _ ← set_canonical (clone_with_epocher (consensus_state fork_state)
                                   (epocher (consensus_state fork_state)));
              mret true
          | Syncing => mret false
          | InvalidPayload => f_fail (ForkchoiceInvalid height)
          end
      | (engine, Err e) =>
          _ ← modify (λ f, f <| engine_client := engine |>); f_fail (EngineFailed height e)
      end
  | None =>
      if negb (bool_decide (block_parent block = head_digest (canonical_state f)))
      then f_fail (WrongParent height) else
      r ← execute block (canonical_state f) None;
      match r with
      | (Applied, s) => _ ← set_canonical s; mret true
      | (Syncing, _) => mret false
      | (InvalidPayload, _) => f_fail (FinalizedInvalid height)
      end
  end.

(** What is dropped once a height is finalized. *)
Definition prune_finalized (height : Z) (digest : bytes) : F () :=
  _ ← modify (λ f, f <| fork_states := retain (λ e, (height <? e.1)%Z) (fork_states f) |>);
  _ ← prune_fork_states_not_descending_from height digest;
  _ ← modify (λ f, f <| dead_fork_digests := filter (λ e, (height < e.1)%Z) (dead_fork_digests f) |>);
  modify (λ f, f <| orphaned_blocks := retain (λ e, (height <? e.1)%Z) (orphaned_blocks f) |>).

(** The next epoch's peers: active validators, and the joining ones with all
    observers as secondary peers. *)
Definition track_peers : F () :=
  f ← get;
  let s := canonical_state f in
  active ← expect (get_active_validators s);
  active_or_joining ← expect (get_active_or_joining_validators s);
  let active_node_keys := map fst active in
  let active_or_joining_node_keys := map fst active_or_joining in
  let joining_node_keys :=
    retain (λ key, negb (bool_decide (key ∈ active_node_keys))) active_or_joining_node_keys in
  observer_keys ← expect (derive_observer_keys active_or_joining_node_keys (observer_domain cfg)
                            (observers_per_validator s));
  emit (Track (epoch s) active_node_keys (joining_node_keys ++ observer_keys)).

(** The last block of an epoch: the header, the parameters, the committee, the
    checkpoint and the state of the next epoch, stored in one commit. *)
Definition finalize_epoch (block : Block) (finalization : option Finalization) (ack : Ack) : F () :=
  finalization ← expect finalization;
  let finalized_header := mkFinalizedHeader (header block) finalization (certificate_signers finalization) in
  f ← get;
  _ ← lift_db (store_finalized_header (epoch (canonical_state f)) finalized_header);
  r ← expect (boundary_committee (canonical_state f) (cfg_node_public_key cfg));
  let '(s, exits, checkpoint) := r in
  _ ← modify (λ f, f <| canonical_state := s |> <| validator_exit := exits |>);
  _ ← match checkpoint with
      | Some checkpoint => lift_db (store_finalized_checkpoint (epoch s) checkpoint block)
      | None => mret ()
      end;
  s ← expect (boundary_advance s block);
  _ ← set_canonical s;
  _ ← expect (get_active_validators s);
  _ ← lift_db (store_consensus_state (epoch s) s);
  _ ← lift_db commit;
  _ ← emit (Acknowledge ack);
  _ ← track_peers;
  active_validators ← expect (get_active_validators s);
  emit (Enter (epoch s) active_validators).

(** The orphans of the block, taken out of the buffer. *)
Definition take_orphans (height : Z) (digest : bytes) : F (list Block) :=
  f ← get;
  let next := wrapping_add height 1 in
  match BTree.get (orphaned_blocks f) next with
  | None => mret []
  | Some children_map =>
      let rest := delete digest children_map in
      _ ← modify (λ f, f <| orphaned_blocks :=
             if bool_decide (rest = ∅) then BTree.remove (orphaned_blocks f) next
             else BTree.insert (orphaned_blocks f) next rest |>);
      mret (default [] (children_map !! digest))
  end.
Fixpoint readopt (children : list Block) : F () :=
  match children with
  | [] => mret ()
  | child :: children => _ ← handle_notarized_block child; readopt children
  end.

(** After the block is the canonical head. *)
Definition finish_finalized (entry : PendingFinalized) : F () :=
  let '(mkPendingFinalized block finalization ack) := entry in
  let height := block_height block in
  let digest := block_digest block in
  f ← get;
  s ← expect (set_forkchoice_safe_and_finalized (canonical_state f)
                (head_block_hash (forkchoice (canonical_state f))));
  _ ← set_canonical s;
  _ ← prune_finalized height digest;
  _ ← height_notify_finalized_up_to height digest;
  last ← expect (is_last_block_of_epoch (epocher s) height);
  _ ← (if last : bool then
         _ ← finalize_epoch block finalization ack;
         f ← get;
         emit (Exit (wrapping_sub (epoch (canonical_state f)) 1))
       else emit (Acknowledge ack));
  children ← take_orphans height digest;
  readopt children.

Definition handle_finalized_block (entry : PendingFinalized) : F (HandleOutcome PendingFinalized) :=
  let block := pf_block entry in
  let height := block_height block in
  let digest := block_digest block in
  f ← get;
  let canonical := canonical_state f in
  if (height <=? latest_height canonical)%Z then
    if (height =? latest_height canonical)%Z && negb (bool_decide (digest = head_digest canonical))
    then f_fail (ConflictingFinalization height)
    else _ ← emit (Acknowledge (pf_ack entry)); mret Handled
  else if (match pf_finalization entry with
           | Some finalization => negb (bool_decide (digest = signed_payload finalization))
           | None => false end)
  then f_fail (CertificateMismatch height)
  else if negb (height =? wrapping_add (latest_height canonical) 1)%Z
          || negb (bool_decide (block_parent block = head_digest canonical))
  then f_fail (NonCanonical height)
  else
    adopted ← adopt_finalized block;
    if adopted : bool then _ ← finish_finalized entry; mret Handled
    else mret (Buffered entry).

(** ** Retrying deferred blocks *)
Fixpoint drain_finalized (fuel : nat) : F bool :=
  f ← get;
  match pending_finalized f with
  | [] => mret true
  | entry :: rest =>
      match fuel with
      | 0 => expect None
      | S fuel =>
          _ ← modify (λ f, f <| pending_finalized := rest |>);
          r ← handle_finalized_block entry;
          match r with
          | Handled => drain_finalized fuel
          | Buffered entry =>
              _ ← modify (λ f, f <| pending_finalized := entry :: pending_finalized f |>);
              _ ← update_pending_warn;
              mret false
          end
      end
  end.
Fixpoint drain_notarized (fuel : nat) : F () :=
  f ← get;
  match pending_notarized f with
  | [] => update_pending_warn
  | block :: rest =>
      match fuel with
      | 0 => expect None
      | S fuel =>
          _ ← modify (λ f, f <| pending_notarized := rest |>
                 <| pending_notarized_keys := pending_notarized_keys f ∖ {[ block_digest block ]} |>);
          r ← handle_notarized_block block;
          match r with
          | Handled => drain_notarized fuel
          | Buffered _ => update_pending_warn
          end
      end
  end.
Definition drain_pending : F () :=
  f ← get;
  drained ← drain_finalized (length (pending_finalized f));
  if drained : bool then f ← get; drain_notarized (length (pending_notarized f)) else mret ().

(** ** Updates from the syncer *)
Inductive Update :=
| Tip
| FinalizedBlock (block : Block) (finalization : option Finalization) (ack : Ack)
| NotarizedBlock (block : Block)
| Fault.
Definition handle_update (u : Update) : F () :=
  match u with
  | Tip | Fault => mret ()
  | FinalizedBlock block finalization ack =>
      let entry := mkPendingFinalized block finalization ack in
      f ← get;
      match pending_finalized f with
      | _ :: _ =>
          _ ← modify (λ f, f <| pending_finalized := pending_finalized f ++ [entry] |>);
          update_pending_warn
      | [] =>
          r ← handle_finalized_block entry;
          match r with
          | Handled => mret ()
          | Buffered entry =>
              _ ← modify (λ f, f <| pending_finalized := pending_finalized f ++ [entry] |>);
              update_pending_warn
          end
      end
  | NotarizedBlock block => _ ← handle_notarized_block block; mret ()
  end.
End finalizer.
