(* ===== verification/FinalizerRun.v ===== *)
(** * FinalizerRun: requests to the finalizer and its main loop (finalizer/src/actor.rs)

    What the actor answers to the application (auxiliary data of a block to build, the
    genesis of an epoch), to the RPC server (queries of the canonical state, Merkle
    proofs against the last captured root), and the loop that serves its channels.
    An answer is the result of the handler: the oneshot sender is not modelled. *)
From S2P Require Import Prelude BTree Codec Crypto Epocher Account ExecutionRequest Withdrawal SszHash SszStateTree.
From S2P Require Import StateProof ConsensusState StateCodec Block Execution ObserverKeys Db Finalizer.

(** ** Keys of state proofs (types/src/ssz_tree_key.rs) *)
Inductive SszStateKey :=
| Scalar (leaf_index : nat)
| KValidator (pubkey : bytes)
| KValidatorField (pubkey : bytes) (field_index : nat)
| KDeposit (index : nat)
| KDepositField (index field_index : nat)
| KWithdrawal (pubkey : bytes)
| KWithdrawalField (pubkey : bytes) (field_index : nat)
| KProtocolParam (index : nat)
| KProtocolParamField (index field_index : nat)
| KAddedValidator (index : nat)
| KAddedValidatorField (index field_index : nat)
| KRemovedValidator (index : nat).

Record StateProofEntry := mkStateProofEntry {
  pe_field : SszProof;
  pe_key : option SszProof
}.

Section proofs.
Context (proof_tree : SszStateTree) (validator_keys : list bytes).

Definition unkeyed (p : SszProof) : StateProofEntry := mkStateProofEntry p None.
Definition keyed (p : KeyedFieldProof) : StateProofEntry := mkStateProofEntry (field p) (Some (StateProof.key p)).
Definition map_inner {A B} (g : A → B) (r : option (option A)) : option (option B) :=
  match r with Some r => Some (option_map g r) | None => None end.
(** The closure of the [map]; the outer [None] is a panic. *)
Definition generate_state_proof (k : SszStateKey) : option (option StateProofEntry) :=
  match k with
  | Scalar leaf_index => p ← generate_scalar_proof proof_tree leaf_index; Some (Some (unkeyed p))
  | KValidator pubkey => map_inner unkeyed (generate_validator_proof proof_tree pubkey validator_keys)
  | KValidatorField pubkey field_index =>
      map_inner keyed (generate_validator_keyed_field_proof proof_tree pubkey field_index validator_keys)
  | KDeposit index => map_inner unkeyed (generate_deposit_proof proof_tree index)
  | KDepositField index field_index => map_inner unkeyed (generate_deposit_field_proof proof_tree index field_index)
  | KWithdrawal pubkey => map_inner unkeyed (generate_withdrawal_proof_by_key proof_tree pubkey)
  | KWithdrawalField pubkey field_index =>
      map_inner keyed (generate_withdrawal_keyed_field_proof_by_key proof_tree pubkey field_index)
  | KProtocolParam index => map_inner unkeyed (generate_protocol_param_proof proof_tree index)
  | KProtocolParamField index field_index =>
      map_inner unkeyed (generate_protocol_param_field_proof proof_tree index field_index)
  | KAddedValidator index => map_inner unkeyed (generate_added_validator_proof proof_tree index)
  | KAddedValidatorField index field_index =>
      map_inner unkeyed (generate_added_validator_field_proof proof_tree index field_index)
  | KRemovedValidator index => map_inner unkeyed (generate_removed_validator_proof proof_tree index)
  end.
Definition generate_state_proofs (keys : list SszStateKey) : option (list (option StateProofEntry)) :=
  mapM generate_state_proof keys.
End proofs.

(** ** Auxiliary data of a block (types/src/lib.rs) *)
Record BlockAuxData := mkBlockAuxData {
  aux_epoch : Z;
  aux_withdrawals : list Withdrawal;
  aux_checkpoint_hash : option bytes;
  aux_header_hash : bytes;
  aux_added_validators : list AddedValidator;
  aux_removed_validators : list bytes;
  aux_forkchoice : ForkchoiceState;
  suggested_fee_recipient : bytes;
  aux_treasury_address : bytes;
  aux_state_root : bytes;
  aux_allowed_timestamp_future_ms : Z
}.

(** ** Queries of the canonical state (types/src/consensus_state_query.rs) *)
Inductive ConsensusStateRequest :=
| GetLatestCheckpoint
| GetCheckpoint (epoch : Z)
| GetLatestHeight
| GetLatestEpoch
| GetValidatorBalance (public_key : bytes)
| GetValidatorAccount (public_key : bytes)
| GetFinalizedHeader (epoch : Z)
| GetMinimumStake
| GetEpochLength
| GetAllowedTimestampFuture
| GetTreasuryAddress
| GetMaxDepositsPerEpoch
| GetMaxWithdrawalsPerEpoch
| GetObserversPerValidator
| GetMaxValidatorCount
| GetMinimumValidatorCount
| GetInvalidDepositTax
| GetEpochBounds (epoch : Z)
| GetDeposit (index : nat)
| GetDepositCount
| GetWithdrawal (pubkey : bytes)
| GetStateRoot
| GenerateStateProof (keys : list SszStateKey).

Section run.
Context `{Hc : Crypto} `{Hl : SszLib} `{Hb : BlockLib} `{He : !EngineClient}.
Context `{Hk : KvStore} `{Hv : Curve} `{Hs : !CertificateLib}.

Inductive ConsensusStateResponse :=
| RLatestCheckpoint (checkpoint : option (Checkpoint * Block)) (epoch : Z)
| RCheckpoint (checkpoint : option (Checkpoint * Block))
| RLatestHeight (height : Z)
| RLatestEpoch (epoch : Z)
| RValidatorBalance (balance : option Z)
| RValidatorAccount (account : option ValidatorAccount)
| RFinalizedHeader (header : option FinalizedHeader)
| RMinimumStake (stake : Z)
| REpochLength (length : Z)
| RAllowedTimestampFuture (ms : Z)
| RTreasuryAddress (address : bytes)
| RMaxDepositsPerEpoch (value : Z)
| RMaxWithdrawalsPerEpoch (value : Z)
| RObserversPerValidator (value : Z)
| RMaxValidatorCount (value : Z)
| RMinimumValidatorCount (value : Z)
| RInvalidDepositTax (value : Z)
| REpochBounds (bounds : option (Z * Z))
| RDeposit (deposit : option DepositRequest)
| RDepositCount (count : nat)
| RWithdrawal (withdrawal : option PendingWithdrawal)
| RStateRoot (root : bytes) (el_block_number : Z)
| RStateProof (root : bytes) (el_block_number : Z) (proofs : list (option StateProofEntry)).

Notation F := (F (T:=SszStateTree)).
Notation Finalizer := (Finalizer (T:=SszStateTree)).
Context (cfg : FinalizerConfig).

(** A read of the database, which fails by cancelling the node. *)
Definition lift_read {A} (c : DB A) : F A := λ f,
  match c (f_db f) with Some (db, a) => Some (f <| f_db := db |>, Ok a) | None => None end.

(** The state a block on this parent is built on. *)
Definition aux_state (f : Finalizer) (parent_height : Z) (parent_digest : bytes) : option (ConsensusState SszStateTree) :=
  match forks ← BTree.get (fork_states f) parent_height; BTree.get forks parent_digest with
  | Some fork_state => Some (consensus_state fork_state)
  | None =>
      if (parent_height =? latest_height (canonical_state f))%Z
         && bool_decide (parent_digest = head_digest (canonical_state f))
      then Some (canonical_state f) else None
  end.
Definition handle_aux_data (height : Z) (parent_digest : bytes) : F (option BlockAuxData) :=
  f ← get;
  match aux_state f (wrapping_sub height 1) parent_digest with
  | None => mret None
  | Some state =>
      let treasury_address := treasury_address state in
      let suggested_fee_recipient :=
        if bool_decide (treasury_address = zero_bytes 20)
        then match get_account state (cfg_node_public_key cfg) with
             | Some account => withdrawal_credentials account
             | None => zero_bytes 20
             end
        else treasury_address in
      is_last ← expect (is_last_block_of_epoch (epocher (canonical_state f)) height);
      let finalized := finalized_block_hash (forkchoice (canonical_state f)) in
      let fc := mkForkchoiceState (head_block_hash (forkchoice state)) finalized finalized in
      if is_last : bool then
        match pending_checkpoint state with
        | None => mret None
        | Some checkpoint =>
            header ← lift_read (get_most_recent_finalized_header (T:=SszStateTree));
            let prev_header_hash :=
              match header with
              | Some finalized_header => get_digest (fh_header finalized_header)
              | None => cfg_genesis_hash cfg
              end in
            mret (Some (mkBlockAuxData (epoch state) (emit_withdrawal_payouts state (epoch state))
              (Some (cp_digest checkpoint)) prev_header_hash
              (default [] (BTree.get (added_validators state) (wrapping_add (epoch state) 1)))
              (removed_validators state) fc suggested_fee_recipient treasury_address (state_root state)
              (allowed_timestamp_future_ms state)))
        end
      else
        mret (Some (mkBlockAuxData (epoch state) [] None (zero_bytes 32) [] [] fc suggested_fee_recipient
          treasury_address (state_root state) (allowed_timestamp_future_ms state)))
  end.

(** [FinalizerMessage::GetEpochGenesisHash]; [None] is a dropped sender. *)
Definition handle_epoch_genesis (requested : Z) : F (option bytes) :=
  f ← get;
  let current := epoch (canonical_state f) in
  if (requested =? current)%Z then mret (Some (epoch_genesis_hash (canonical_state f)))
  else if (requested =? 0)%Z then mret (Some (cfg_genesis_hash cfg))
  else if (requested <? current)%Z then
    header ← lift_read (get_finalized_header (T:=SszStateTree) (requested - 1));
    mret ((λ h, get_digest (fh_header h)) <$> header)
  else mret None.

Definition handle_consensus_state_query (request : ConsensusStateRequest) : F ConsensusStateResponse :=
  f ← get;
  let s := canonical_state f in
  match request with
  | GetLatestCheckpoint =>
      r ← lift_read (get_latest_finalized_checkpoint (T:=SszStateTree)); mret (RLatestCheckpoint r.1 r.2)
  | GetCheckpoint epoch =>
      r ← lift_read (get_finalized_checkpoint (T:=SszStateTree) epoch); mret (RCheckpoint r)
  | GetLatestHeight => mret (RLatestHeight (latest_height s))
  | GetLatestEpoch => mret (RLatestEpoch (epoch s))
  | GetValidatorBalance public_key => mret (RValidatorBalance (balance <$> get_account s public_key))
  | GetValidatorAccount public_key => mret (RValidatorAccount (get_account s public_key))
  | GetFinalizedHeader epoch =>
      r ← lift_read (get_finalized_header (T:=SszStateTree) epoch); mret (RFinalizedHeader r)
  | GetMinimumStake => mret (RMinimumStake (validator_minimum_stake s))
  | GetEpochLength => length ← expect (current_length (epocher s)); mret (REpochLength length)
  | GetAllowedTimestampFuture => mret (RAllowedTimestampFuture (allowed_timestamp_future_ms s))
  | GetTreasuryAddress => mret (RTreasuryAddress (treasury_address s))
  | GetMaxDepositsPerEpoch => mret (RMaxDepositsPerEpoch (max_deposits_per_epoch s))
  | GetMaxWithdrawalsPerEpoch => mret (RMaxWithdrawalsPerEpoch (max_withdrawals_per_epoch s))
  | GetObserversPerValidator => mret (RObserversPerValidator (observers_per_validator s))
  | GetMaxValidatorCount => mret (RMaxValidatorCount (max_validator_count s))
  | GetMinimumValidatorCount => mret (RMinimumValidatorCount (minimum_validator_count s))
  | GetInvalidDepositTax => mret (RInvalidDepositTax (invalid_deposit_tax s))
  | GetEpochBounds epoch => mret (REpochBounds (epoch_bounds (epocher s) epoch))
  | GetDeposit index => mret (RDeposit (deposit_queue s !! index))
  | GetDepositCount => mret (RDepositCount (length (deposit_queue s)))
  | GetWithdrawal pubkey => mret (RWithdrawal (get_withdrawal (withdrawal_queue s) pubkey))
  | GetStateRoot => mret (RStateRoot (state_root s) (proof_el_block_number s))
  | GenerateStateProof keys =>
      proofs ← expect (generate_state_proofs (proof_tree s) (proof_validator_keys s) keys);
      mret (RStateProof (state_root s) (proof_el_block_number s) proofs)
  end.

(** ** The main loop *)
Definition cancel : F () := modify (λ f, f <| f_db := mkFinalizerState (store (f_db f)) true |>).

(** Before the loop: the peers and the committee of the epoch, and the forkchoice the
    client starts from; [false] shuts the node down. *)
Definition run_start : F bool :=
  f ← get;
  let s := canonical_state f in
  current_epoch_validators ← expect (get_current_epoch_validators s);
  let network_keys := map fst current_epoch_validators in
  observer_keys ← expect (derive_observer_keys network_keys (observer_domain cfg) (observers_per_validator s));
  _ ← emit (Track (epoch s) network_keys observer_keys);
  _ ← emit (Enter (epoch s) current_epoch_validators);
  if bool_decide (head_block_hash (forkchoice s) = zero_bytes 32) then mret true else
  let '(engine, answer) := commit_hash (engine_client f) (forkchoice s) in
  _ ← modify (λ f, f <| engine_client := engine |>);
  match answer with
  | Ok status => if is_valid status || is_syncing status then mret true else _ ← cancel; mret false
  | Err _ => _ ← cancel; mret false
  end.

Inductive Input :=
| Receive (u : Update)
| NotifyAtHeight (height : Z) (block_digest : bytes) (response : Sender)
| GetAuxData (height : Z) (parent_digest : bytes)
| GetEpochGenesisHash (requested : Z)
| QueryState (request : ConsensusStateRequest)
| DrainTick
| Stopped.
Definition run_input (i : Input) : F () :=
  match i with
  | Receive u => handle_update cfg u
  | NotifyAtHeight height block_digest response => notify_at_height height block_digest response
  | GetAuxData height parent_digest => _ ← handle_aux_data height parent_digest; mret ()
  | GetEpochGenesisHash requested => _ ← handle_epoch_genesis requested; mret ()
  | QueryState request => _ ← handle_consensus_state_query request; mret ()
  | DrainTick => drain_pending cfg
  | Stopped => mret ()
  end.
(** An [Err] of a handler leaves the loop. *)
Fixpoint run_loop (inputs : list Input) : F () :=
  f ← get;
  stop ← (if validator_exit f
          then expect (is_first_block_of_epoch (epocher (canonical_state f)) (latest_height (canonical_state f)))
          else mret false);
  if stop : bool then cancel else
  match inputs with
  | [] | Stopped :: _ => mret ()
  | i :: inputs => _ ← run_input i; run_loop inputs
  end.
Definition run (inputs : list Input) : F () :=
  started ← run_start;
  if started : bool then run_loop inputs else mret ().
End run.
