(* ===== verification/FinalizerFacts.v ===== *)
(** * FinalizerFacts: the finalizer follows the finalized chain

    Whatever is notarized, in whatever order, and whatever the execution client
    answers, the canonical state of the actor is the state that executing the finalized
    chain directly gives: promoting the state of an executed fork is an optimisation. *)
From S2P Require Import Prelude Codec Crypto BTree Epocher Account SszHash SszStateTree SszStateTreeFacts.
From S2P Require Import ConsensusState StateSync StateCodec StateRun Block Execution ExecutionFacts Chain.
From S2P Require Import ObserverKeys Db Finalizer FinalizerRun.

(** ** Handlers that return normally *)
Section post.
Context `{Hc : Crypto} `{Hl : SszLib} `{Hb : BlockLib} `{He : !EngineClient} `{Hk : KvStore}.
Context {T : Type}.
Notation F := (F (T:=T)).
Notation Finalizer := (Finalizer (T:=T)).
Implicit Type f : Finalizer.

(** If the handler returns [Ok], the result satisfies [Q]. *)
Definition post {A} (c : F A) f (Q : A → Finalizer → Prop) : Prop :=
  match c f with Some (f', Ok a) => Q a f' | _ => True end.

Lemma post_ret {A} (a : A) f Q : Q a f → post (mret a) f Q.
Proof. done. Qed.
Lemma post_bind {A B} (c : F A) (k : A → F B) f Q :
  post c f (λ a f', post (k a) f' Q) → post (c ≫= k) f Q.
Proof. unfold post, mbind, F_bind. destruct (c f) as [[f' [a|e]]|]; done. Qed.
Lemma post_mono {A} (c : F A) f (Q Q' : A → Finalizer → Prop) :
  post c f Q → (∀ a f', Q a f' → Q' a f') → post c f Q'.
Proof. unfold post. destruct (c f) as [[f' [a|e]]|]; auto. Qed.
Lemma post_seq {A B} (c : F A) (k : A → F B) f R Q :
  post c f R → (∀ a f', R a f' → post (k a) f' Q) → post (c ≫= k) f Q.
Proof. intros H1 H2. apply post_bind. by eapply post_mono. Qed.
Lemma post_get f Q : Q f f → post get f Q.
Proof. done. Qed.
Lemma post_modify g f (Q : () → Finalizer → Prop) : Q () (g f) → post (modify g) f Q.
Proof. done. Qed.
Lemma post_expect {A} (o : option A) f Q : (∀ a, o = Some a → Q a f) → post (expect o) f Q.
Proof. intros HQ. unfold post, expect. destruct o; auto. Qed.
Lemma post_fail {A} e f (Q : A → Finalizer → Prop) : post (f_fail e) f Q.
Proof. done. Qed.
Lemma post_Some {A} (c : F A) f f' a Q : post c f Q → c f = Some (f', Ok a) → Q a f'.
Proof. unfold post. intros Hp E. by rewrite E in Hp. Qed.
End post.

(** Steps through the structure of a handler. *)
Ltac post_step :=
  first [ apply post_ret | apply post_get | apply post_modify | apply post_fail
        | apply post_expect; intros ? ? | apply post_bind; apply post_get
        | apply post_bind; apply post_modify
        | apply post_bind; apply post_expect; intros ? ? | apply post_bind ].

(** ** The states of the forks *)
Section forks.
Context `{Hb : BlockLib} {T : Type}.
Notation ForkState := (ForkState (T:=T)).
Notation Forks := (BTreeMap Z (BTreeMap bytes ForkState)).
Implicit Type m : Forks.

Definition fork_in m (h : Z) (d : bytes) : option ForkState :=
  at_height ← BTree.get m h; BTree.get at_height d.
Record forks_sorted m : Prop := {
  fk_sorted : BTree.sorted m;
  fk_inner : ∀ h at_height, BTree.get m h = Some at_height → BTree.sorted at_height
}.

Lemma fork_in_insert m h d fs h' d' :
  fork_in (BTree.insert m h (BTree.insert (default [] (BTree.get m h)) d fs)) h' d'
  = if bool_decide (h = h' ∧ d = d') then Some fs else fork_in m h' d'.
Proof.
  unfold fork_in. destruct (decide (h = h')) as [<-|Hh].
  - rewrite BTree.get_insert_eq. cbn [mbind option_bind]. destruct (decide (d = d')) as [<-|Hd].
    + rewrite BTree.get_insert_eq. by rewrite bool_decide_true.
    + rewrite BTree.get_insert_ne by done. rewrite bool_decide_false by naive_solver.
      by destruct (BTree.get m h).
  - rewrite BTree.get_insert_ne by done. by rewrite bool_decide_false by naive_solver.
Qed.
Lemma forks_sorted_insert m h d fs :
  forks_sorted m → forks_sorted (BTree.insert m h (BTree.insert (default [] (BTree.get m h)) d fs)).
Proof.
  intros [Hs Hi]. split; [by apply BTree.sorted_insert|]. intros h' at_height.
  destruct (decide (h = h')) as [<-|Hne].
  - rewrite BTree.get_insert_eq. intros [= <-]. apply BTree.sorted_insert.
    destruct (BTree.get m h) eqn:E; [by eapply Hi|constructor].
  - rewrite BTree.get_insert_ne by done. apply Hi.
Qed.

Lemma forks_sorted_cons h at_height m :
  forks_sorted ((h, at_height) :: m) → forks_sorted m ∧ BTree.sorted at_height ∧ Forall (λ e, (h < e.1)%Z) m.
Proof.
  intros [[Hs Hf]%BTree.sorted_cons Hi].
  assert (Forall (λ e, (h < e.1)%Z) m) as Hlt.
  { eapply Forall_impl; [exact Hf|]. intros e E. by apply Z.compare_lt_iff. }
  split_and!; [|by apply (Hi h); simpl; rewrite BTree.cmp_refl|done].
  split; [done|]. intros h' a Hg. apply (Hi h'). simpl.
  pose proof (BTree.get_elem_of _ _ _ Hg) as Hin. rewrite Forall_forall in Hlt. specialize (Hlt _ Hin).
  simpl in Hlt. unfold cmp, Z_ord. destruct (Z.compare_spec h' h); [lia..|done].
Qed.

Lemma fork_in_cons h at_height m h' d :
  Forall (λ e, (h < e.1)%Z) m →
  fork_in ((h, at_height) :: m) h' d = if (h' =? h)%Z then BTree.get at_height d else fork_in m h' d.
Proof.
  intros Hlt. unfold fork_in. simpl. unfold cmp at 1, Z_ord. destruct (Z.compare_spec h' h) as [->|Hh|Hh].
  - by rewrite Z.eqb_refl.
  - rewrite (proj2 (Z.eqb_neq _ _)) by lia.
    destruct (BTree.get m h') as [a|] eqn:E; [|done]. apply BTree.get_elem_of in E.
    rewrite Forall_forall in Hlt. specialize (Hlt _ E). simpl in Hlt. lia.
  - by rewrite (proj2 (Z.eqb_neq _ _)) by lia.
Qed.

(** What pruning keeps: forks of the map whose parent is live at the lowest height,
    and above it a kept fork whenever the parent was in the map. *)
Definition pruned_to m (live : gset bytes) (kept : Forks) : Prop :=
  forks_sorted kept ∧ (∀ e, e ∈ kept → ∃ e', e' ∈ m ∧ e'.1 = e.1) ∧
  ∀ h d fs, fork_in kept h d = Some fs →
    fork_in m h d = Some fs ∧
    (head (BTree.keys m) = Some h → fs_parent_digest fs ∈ live) ∧
    (is_Some (fork_in m (h - 1) (fs_parent_digest fs)) →
     fork_in kept (h - 1) (fs_parent_digest fs) = fork_in m (h - 1) (fs_parent_digest fs)).

Lemma forks_sorted_add h at_height m :
  forks_sorted m → BTree.sorted at_height → Forall (λ e, (h < e.1)%Z) m → forks_sorted ((h, at_height) :: m).
Proof.
  intros [Hs Hi] Ha Hlt. split.
  - apply BTree.sorted_cons. split; [done|]. eapply Forall_impl; [exact Hlt|]. intros e E. by apply Z.compare_lt_iff.
  - intros h' a. simpl. unfold cmp, Z_ord. destruct (Z.compare_spec h' h); [|apply Hi|apply Hi]. by intros [= <-].
Qed.

Lemma fork_in_above h m d : Forall (λ e, (h < e.1)%Z) m → fork_in m h d = None.
Proof.
  intros Hlt. unfold fork_in. destruct (BTree.get m h) as [a|] eqn:E; [|done]. apply BTree.get_elem_of in E.
  rewrite Forall_forall in Hlt. specialize (Hlt _ E). simpl in Hlt. lia.
Qed.
(** A height in front, dropped when nothing of it is kept. *)
Definition put_height (h : Z) (at_height : BTreeMap bytes ForkState) m : Forks :=
  match at_height with [] => m | _ => (h, at_height) :: m end.
Lemma fork_in_put h at_height m h' d :
  Forall (λ e, (h < e.1)%Z) m →
  fork_in (put_height h at_height m) h' d = if (h' =? h)%Z then BTree.get at_height d else fork_in m h' d.
Proof.
  intros Hlt. destruct at_height as [|e at_height]; [|by apply fork_in_cons]. simpl.
  destruct (Z.eqb_spec h' h) as [->|]; [by apply fork_in_above|done].
Qed.

Lemma forks_sorted_put h at_height m :
  forks_sorted m → BTree.sorted at_height → Forall (λ e, (h < e.1)%Z) m → forks_sorted (put_height h at_height m).
Proof. destruct at_height; [done|]. apply forks_sorted_add. Qed.

Lemma prune_heights_spec m live : forks_sorted m → pruned_to m live (prune_heights m live).1.
Proof.
  revert live. induction m as [|[h0 m0] m IH]; intros live Hs.
  { split; [done|]. split; [|done]. intros e He. by apply not_elem_of_nil in He. }
  apply forks_sorted_cons in Hs as (Hs & Hs0 & Hlt). cbn [prune_heights prune_height].
  set (kept0 := retain _ m0).
  assert (Hk0 : ∀ d fs, BTree.get kept0 d = Some fs → BTree.get m0 d = Some fs ∧ fs_parent_digest fs ∈ live).
  { intros d fs. unfold kept0. rewrite BTree.get_retain by done. intros (fs' & E & Hd)%bind_Some.
    simpl in Hd. case_bool_decide; [|done]. injection Hd as <-. done. }
  specialize (IH (list_to_set (BTree.keys kept0)) Hs). destruct (prune_heights m _) as [kept dead].
  simpl in IH |- *. destruct IH as (IHs & IHin & IH).
  assert (Hlt' : Forall (λ e, (h0 < e.1)%Z) kept).
  { rewrite Forall_forall in *. intros e He. destruct (IHin e He) as (e' & Hin & <-). by apply Hlt. }
  change (pruned_to ((h0, m0) :: m) live (put_height h0 kept0 kept)). split_and!.
  - apply forks_sorted_put; [done|by apply BTree.sorted_retain|done].
  - intros e He. assert (e ∈ kept ∨ e = (h0, kept0)) as [Hin| ->].
    { destruct kept0; [by left|]. apply elem_of_cons in He as [->|He]; auto. }
    + destruct (IHin e Hin) as (e' & ? & ?). exists e'. split; [by right|done].
    + exists (h0, m0). split; [by left|done].
  - intros h d fs. rewrite !fork_in_put, !fork_in_cons by done. destruct (Z.eqb_spec h h0) as [->|Hne].
    + intros [Hm Hp]%Hk0. split_and!; [done|done|]. rewrite (proj2 (Z.eqb_neq _ _)) by lia.
      intros [x Hx]. rewrite fork_in_above in Hx; [done|]. eapply Forall_impl; [exact Hlt|]. simpl. lia.
    + intros Hin. destruct (IH h d fs Hin) as (Hm & Hhd & Hpar). split_and!; [done| |].
      * simpl. intros [= ->]. done.
      * destruct (Z.eqb_spec (h - 1) h0) as [E|]; [|done]. intros [x Hx]. rewrite Hx.
        assert (fs_parent_digest fs ∈ BTree.keys kept0) as Hkey.
        { apply (elem_of_list_to_set (C:=gset bytes)), Hhd. destruct m as [|[h1 m1] m]; [done|]. simpl. f_equal.
          apply forks_sorted_cons in Hs as (_ & _ & Hlt1). rewrite fork_in_cons in Hm by done.
          destruct (Z.eqb_spec h h1); [done|]. exfalso. apply Forall_cons in Hlt as [Hlt0 _]. simpl in Hlt0.
          rewrite fork_in_above in Hm; [done|]. eapply Forall_impl; [exact Hlt1|]. simpl. lia. }
        apply list_elem_of_fmap in Hkey as ([k v] & E2 & Hin2). simpl in E2. subst k.
        apply (BTree.elem_of_get kept0) in Hin2; [|by apply BTree.sorted_retain].
        rewrite Hin2. apply Hk0 in Hin2 as [Hin2 _]. congruence.
Qed.

Lemma fork_in_retain m h0 h d :
  forks_sorted m → fork_in (retain (λ e, (h0 <? e.1)%Z) m) h d = if (h0 <? h)%Z then fork_in m h d else None.
Proof.
  intros [Hs _]. unfold fork_in. rewrite BTree.get_retain by done. simpl.
  destruct (BTree.get m h), (h0 <? h)%Z; done.
Qed.
Lemma forks_sorted_retain m p : forks_sorted m → forks_sorted (retain p m).
Proof.
  intros [Hs Hi]. split; [by apply BTree.sorted_retain|]. intros h a. rewrite BTree.get_retain by done.
  intros (a' & Ea & E)%bind_Some. destruct (p _); [injection E as <-; by eapply Hi|done].
Qed.
(** The lowest height above [h0] comes first. *)
Lemma head_fork m h0 d fs :
  forks_sorted m → Forall (λ e, (h0 < e.1)%Z) m → fork_in m (h0 + 1) d = Some fs → head (BTree.keys m) = Some (h0 + 1)%Z.
Proof.
  intros Hs Hf Hin. destruct m as [|[h a] m]; [done|]. apply forks_sorted_cons in Hs as (_ & _ & Hlt).
  rewrite fork_in_cons in Hin by done. destruct (Z.eqb_spec (h0 + 1) h) as [<-|Hne]; [done|].
  apply Forall_cons in Hf as [H1 _]. simpl in H1.
  rewrite fork_in_above in Hin; [done|]. eapply Forall_impl; [exact Hlt|]. simpl. lia.
Qed.
End forks.

(** ** The invariant of the actor *)
Section canonical.
Context `{Hc : Crypto} `{!CryptoOk} `{Hl : SszLib} `{!SszLibOk} `{Hb : BlockLib} `{He : !EngineClient}.
Context `{Hk : KvStore} `{Hv : Curve} `{Hg : !CertificateLib}.
Notation state := (ConsensusState SszStateTree).
Notation F := (F (T:=SszStateTree)).
Notation Finalizer := (Finalizer (T:=SszStateTree)).
Notation Forks := (BTreeMap Z (BTreeMap bytes (ForkState (T:=SszStateTree)))).
Context (cfg : FinalizerConfig).
Notation consts := (protocol_consts cfg).
Notation domain := (cfg_deposit_domain cfg).
Notation key := (cfg_node_public_key cfg).
Implicit Types (f : Finalizer) (s canon : state) (m : Forks).

Lemma clone_with_same s : clone_with_epocher s (epocher s) = s.
Proof. by destruct s. Qed.
Lemma clone_same s : clone_state s = s.
Proof. by destruct s. Qed.

(** The finalized chain the network agreed on, from the state the actor started
    with, and the blocks that were delivered; a digest names one of them. *)
Context (s0 : state) (agreed : list Block) (send : state) (known : Block → Prop).
Hypothesis start_reachable : reachable s0.
Hypothesis start_steady : steady consts s0.
Hypothesis agreed_chain : chain_from consts domain key s0 agreed send.
Hypothesis agreed_known : ∀ b, b ∈ agreed → known b.
Hypothesis known_u64 : ∀ b, known b → is_u64 (block_height b).
Hypothesis known_inj : ∀ b1 b2, known b1 → known b2 → block_digest b1 = block_digest b2 → b1 = b2.

(** The state a fork was executed on: the canonical state, or what it was before the
    boundary, or the state of the parent fork. *)
Definition executed_on canon m (h : Z) (p : bytes) (ps : state) : Prop :=
  if (h =? latest_height canon + 1)%Z then ps = canon ∨ epoch ps ≠ epoch canon
  else ∃ fs, fork_in m (h - 1) p = Some fs ∧ ps = consensus_state fs.
Record fork_ok canon m (h : Z) (d : bytes) (fs : ForkState) : Prop := {
  fo_above : (latest_height canon < h)%Z;
  fo_digest : fs_block_digest fs = d;
  fo_run : ∃ b ps, known b ∧ block_digest b = d ∧ block_height b = h ∧ block_parent b = fs_parent_digest fs ∧
    block_epoch b = epoch ps ∧ apply_block b ps consts domain = Some (consensus_state fs) ∧
    executed_on canon m h (fs_parent_digest fs) ps
}.

Definition orphan_known (o : BTreeMap Z (gmap bytes (list Block))) : Prop :=
  ∀ h at_height p l, BTree.get o h = Some at_height → at_height !! p = Some l →
    Forall (λ b, known b ∧ block_height b = h ∧ block_parent b = p) l.

Record inv (n : nat) f : Prop := {
  iv_count : n ≤ length agreed;
  iv_chain : chain_from consts domain key s0 (take n agreed) (canonical_state f);
  iv_sorted : forks_sorted (fork_states f);
  iv_forks : ∀ h d fs, fork_in (fork_states f) h d = Some fs → fork_ok (canonical_state f) (fork_states f) h d fs;
  iv_orphans : BTree.sorted (orphaned_blocks f) ∧ orphan_known (orphaned_blocks f);
  iv_notarized : Forall known (pending_notarized f);
  iv_finalized : Forall (λ e, pf_block e ∈ agreed) (pending_finalized f)
}.

(** What the invariant does not read may change. *)
Record same_core f f' : Prop := {
  sc_canonical : canonical_state f' = canonical_state f;
  sc_forks : fork_states f' = fork_states f;
  sc_orphans : orphaned_blocks f' = orphaned_blocks f;
  sc_notarized : pending_notarized f' = pending_notarized f;
  sc_finalized : pending_finalized f' = pending_finalized f
}.
Lemma inv_core n f f' : same_core f f' → inv n f → inv n f'.
Proof. intros [E1 E2 E3 E4 E5] []. split; rewrite ?E1, ?E2, ?E3, ?E4, ?E5; done. Qed.

Lemma canonical_ok n f : inv n f → reachable (canonical_state f) ∧ steady consts (canonical_state f) ∧
  (0 ≤ latest_height (canonical_state f) < u64_max)%Z.
Proof.
  intros Hi. destruct (chain_steady _ _ _ s0 _ _ start_reachable start_steady (iv_chain _ _ Hi)) as [Hr Hs].
  split_and!; [done|done|..]; destruct Hs as (first & last & Hck & Hlt & _);
    pose proof (ck_height _ _ _ Hck); pose proof (ck_last _ _ _ Hck); lia.
Qed.

Lemma inv_latest n f : inv n f → latest_height (canonical_state f) = (latest_height s0 + Z.of_nat n)%Z.
Proof.
  intros Hi. destruct (chain_heights _ _ _ _ _ _ start_reachable start_steady (iv_chain _ _ Hi)) as [Hlat _].
  rewrite length_take in Hlat. pose proof (iv_count _ _ Hi). lia.
Qed.

(** ** Notarized blocks *)

(** Handlers that only touch what the invariant does not read. *)
Definition quiet {A} (c : F A) : Prop := ∀ f, post c f (λ _ f', same_core f f').
Lemma quiet_modify g : (∀ f, same_core f (g f)) → quiet (modify g).
Proof. intros Hq f. apply post_modify, Hq. Qed.
Lemma same_core_refl f : same_core f f.
Proof. by split. Qed.
Lemma same_core_trans f1 f2 f3 : same_core f1 f2 → same_core f2 f3 → same_core f1 f3.
Proof. intros [] []. split; congruence. Qed.
Lemma quiet_bind {A B} (c : F A) (k : A → F B) : quiet c → (∀ a, quiet (k a)) → quiet (c ≫= k).
Proof.
  intros H1 H2 f. eapply post_seq; [apply H1|]. intros a f' Hs. eapply post_mono; [apply H2|].
  intros b f2 Hs2. exact (same_core_trans _ _ _ Hs Hs2).
Qed.
Lemma quiet_ret {A} (a : A) : quiet (mret a).
Proof. intros f. apply post_ret, same_core_refl. Qed.
Lemma quiet_get {A} (k : Finalizer → F A) : (∀ f, quiet (k f)) → quiet (get ≫= k).
Proof. intros Hq f. apply post_bind, post_get. apply Hq. Qed.
Lemma quiet_expect {A} (o : option A) : quiet (expect o).
Proof. intros f. apply post_expect. intros. apply same_core_refl. Qed.
Lemma quiet_fail {A} e : quiet (f_fail (A:=A) e).
Proof. intros f. apply post_fail. Qed.
Lemma quiet_db {A} (c : DB (result DbError A)) : quiet (lift_db c).
Proof. intros f. unfold post, lift_db. destruct (c (f_db f)) as [[db [a|e]]|]; [by split|done..]. Qed.
Lemma quiet_emit e : quiet (emit e).
Proof. apply quiet_modify. intros f. by split. Qed.
Lemma quiet_notify h d : quiet (height_notify_executed h d).
Proof.
  apply quiet_get. intros f. destruct (BTree.get _ _); [|apply quiet_ret].
  apply quiet_bind; [|intros _]; apply quiet_modify; intros g; by split.
Qed.
Lemma quiet_warn : quiet (update_pending_warn cfg).
Proof. apply quiet_modify. intros f. cbv zeta. repeat case_match; by split. Qed.

Lemma fork_ok_insert canon m h d fs b ps :
  forks_sorted m → (∀ h d fs, fork_in m h d = Some fs → fork_ok canon m h d fs) → fork_in m h d = None →
  (latest_height canon < h)%Z → known b → block_digest b = d → block_height b = h →
  block_epoch b = epoch ps → apply_block b ps consts domain = Some (consensus_state fs) →
  fs_block_digest fs = d → fs_parent_digest fs = block_parent b →
  executed_on canon m h (block_parent b) ps →
  let m' := BTree.insert m h (BTree.insert (default [] (BTree.get m h)) d fs) in
  ∀ h' d' fs', fork_in m' h' d' = Some fs' → fork_ok canon m' h' d' fs'.
Proof.
  intros Hs Hall Hnone Hab Hkn Hd Hh Hep Hap Hfd Hfp Hon m' h' d' fs' Hin.
  assert (Hkeep : ∀ h p ps, executed_on canon m h p ps → executed_on canon m' h p ps).
  { intros h1 p1 ps1. unfold executed_on. destruct (_ =? _)%Z; [done|]. intros (x & Hx & ->). exists x. split; [|done].
    unfold m'. rewrite fork_in_insert. rewrite bool_decide_false; [done|]. intros [E1 E2]. rewrite <-E1, <-E2 in Hx. congruence. }
  unfold m' in Hin. rewrite fork_in_insert in Hin. case_bool_decide as Heq.
  - destruct Heq as [<- <-]. injection Hin as <-. split; [done|done|]. exists b, ps. rewrite Hfp.
    split_and!; try done. by apply Hkeep.
  - destruct (Hall _ _ _ Hin) as [H1 H2 (b1 & ps1 & H3 & H4 & H5 & H6 & H7 & H8 & H9)].
    split; [done|done|]. exists b1, ps1. split_and!; try done. by apply Hkeep.
Qed.

(** An applied block was executed on the state, in its epoch. *)
Lemma execute_block_applied engine b s fin engine' s' :
  execute_block engine b s consts domain fin = Some (engine', Ok Applied, s') →
  block_epoch b = epoch s ∧ apply_block b s consts domain = Some s'.
Proof.
  unfold execute_block. destruct (Z.eqb_spec (block_epoch b) (epoch s)) as [E|]; [|done]. simpl negb. cbv iota.
  destruct (check_payload engine b) as [e1 [st|]]; [|done]. cbv zeta.
  destruct (is_syncing st); [done|]. destruct (is_valid st); [|done]. simpl negb. cbv iota.
  intros (ws & _ & Hx)%bind_Some. case_bool_decide; [|done]. simpl negb in Hx. cbv iota in Hx.
  destruct (commit_forkchoice e1 _) as [e2 [[]|]]; try done.
  apply bind_Some in Hx as (s1 & E1 & Hx). injection Hx as <- <-. done.
Qed.

Lemma post_execute b s fin f Q :
  (∀ engine' o s', execute_block (engine_client f) b s consts domain fin = Some (engine', Ok o, s') →
     Q (o, s') (f <| engine_client := engine' |>)) →
  post (execute cfg b s fin) f Q.
Proof.
  intros HQ. unfold post, execute. destruct (execute_block _ _ _ _ _ _) as [[[e [o|err]] s']|] eqn:E; auto.
Qed.

Lemma parent_state_ok n f h p ps :
  inv n f → (latest_height (canonical_state f) < h)%Z → (h ≤ u64_max)%Z →
  parent_state f h p = Parent ps → executed_on (canonical_state f) (fork_states f) h p ps.
Proof.
  intros Hi Hlt Hu. destruct (canonical_ok n f Hi) as (_ & _ & Hb1 & Hb2). unfold parent_state, executed_on.
  rewrite wrapping_add_small by u64_solve. destruct (_ =? _)%Z eqn:E.
  - destruct (_ && _); [done|]. intros [= <-]. left. apply clone_same.
  - rewrite wrapping_sub_small by u64_solve. unfold fork_in.
    destruct (_ ≫= _) as [fs|] eqn:Ef; [|done]. intros [= <-]. exists fs. split; [done|apply clone_same].
Qed.

Lemma orphan_known_buffer o b :
  orphan_known o → known b →
  orphan_known (BTree.insert o (block_height b)
    (<[ block_parent b := default [] (default ∅ (BTree.get o (block_height b)) !! block_parent b) ++ [b] ]>
       (default ∅ (BTree.get o (block_height b))))).
Proof.
  intros Ho Hkn h at_height p l. destruct (decide (block_height b = h)) as [<-|].
  - rewrite BTree.get_insert_eq. intros [= <-]. destruct (decide (block_parent b = p)) as [<-|].
    + rewrite lookup_insert_eq. intros [= <-]. apply Forall_app. split; [|by apply Forall_singleton].
      destruct (BTree.get o _) as [a|] eqn:E; simpl; [|by rewrite lookup_empty].
      destruct (a !! _) as [l|] eqn:El; [|constructor]. by eapply Ho.
    + rewrite lookup_insert_ne by done. destruct (BTree.get o _) as [a|] eqn:E; simpl; [|by rewrite lookup_empty].
      intros Hp. by eapply Ho.
  - rewrite BTree.get_insert_ne by done. intros Hh Hp. by eapply Ho.
Qed.

Lemma inv_buffer n f b : inv n f → known b → inv n (buffer_orphan f b).
Proof.
  intros [] Hkn. split; try done. destruct iv_orphans0 as [Ho1 Ho2].
  split; [by apply BTree.sorted_insert|by apply orphan_known_buffer].
Qed.

Lemma orphaned_children_known n f h d : inv n f → Forall known (orphaned_children f h d).
Proof.
  intros Hi. destruct (iv_orphans _ _ Hi) as [_ Ho]. unfold orphaned_children.
  destruct (_ ≫= _) as [l|] eqn:E; [|constructor]. apply bind_Some in E as (a & Ea & El).
  eapply Forall_impl; [by eapply Ho|]. by intros b [].
Qed.

Lemma post_defer n f b :
  inv n f → known b → post (defer_notarized cfg b) f (λ _ f', inv n f').
Proof.
  intros Hi Hkn. unfold defer_notarized. apply post_bind, post_get.
  case_bool_decide; [by apply post_ret|]. destruct (_ <=? _); [apply post_fail|].
  apply post_bind, post_modify. eapply post_mono; [apply quiet_warn|]. intros [] f' Hs.
  eapply inv_core; [exact Hs|]. clear Hs. destruct Hi. split; try done. apply Forall_app. by split; [|apply Forall_singleton].
Qed.

Lemma contains_fork f h d :
  (match BTree.get (fork_states f) h with Some forks => BTree.contains_key forks d | None => false end) = false →
  fork_in (fork_states f) h d = None.
Proof.
  unfold fork_in. destruct (BTree.get (fork_states f) h) as [a|]; [|done]. cbn [mbind option_bind].
  unfold BTree.contains_key. by destruct (BTree.get a d).
Qed.

(** Storing the state of an executed block. *)
Lemma inv_store n f b ps s' :
  inv n f → known b → fork_in (fork_states f) (block_height b) (block_digest b) = None →
  (latest_height (canonical_state f) < block_height b)%Z → block_epoch b = epoch ps →
  apply_block b ps consts domain = Some s' →
  executed_on (canonical_state f) (fork_states f) (block_height b) (block_parent b) ps →
  post (store_fork b s') f (λ _ f', inv n f').
Proof.
  intros Hi Hkn Hnone Hlt Hep Hap Hon. apply post_modify. destruct Hi. split; try done.
  - by apply forks_sorted_insert.
  - eapply fork_ok_insert; try done. simpl. by rewrite clone_same.
Qed.

Lemma post_process n f b :
  inv n f → known b → post (process_notarized cfg b) f (λ r f', inv n f' ∧ Forall known r.1).
Proof.
  intros Hi Hkn. pose proof (proj2 (known_u64 b Hkn)) as Hu. unfold process_notarized. apply post_bind, post_get.
  destruct (Z.leb_spec (block_height b) (latest_height (canonical_state f))) as [|Hlt]; [by apply post_ret|].
  case_bool_decide; [by apply post_ret|].
  destruct (match BTree.get _ _ with Some _ => _ | None => _ end) eqn:Hcf; [by apply post_ret|].
  apply contains_fork in Hcf. destruct (parent_state f _ _) as [| |ps] eqn:Hps; [by apply post_ret|..].
  - apply post_bind, post_modify, post_ret. split; [by apply inv_buffer|constructor].
  - apply (parent_state_ok n) in Hps; [|done..]. apply post_bind, post_execute. intros engine' o s' Hex.
    assert (inv n (f <| engine_client := engine' |>)) as Hi' by (eapply inv_core; [|exact Hi]; by split).
    destruct o.
    + apply execute_block_applied in Hex as [Hep Hap].
      eapply post_seq; [by eapply (inv_store n _ b ps s')|]. intros [] f1 Hi1.
      eapply post_seq; [apply quiet_notify|]. intros [] f2 Hs2. apply post_bind, post_get, post_ret.
      pose proof (inv_core _ _ _ Hs2 Hi1). split; [done|by eapply orphaned_children_known].
    + by apply post_ret.
    + eapply post_seq; [by apply (post_defer n)|]. intros [] f1 Hi1. by apply post_ret.
Qed.

Lemma post_loop n fuel : ∀ work o f,
  inv n f → Forall known work → post (notarized_loop cfg fuel work o) f (λ _ f', inv n f').
Proof.
  induction fuel as [|fuel IH]; intros [|b work] o f Hi Hw; cbn [notarized_loop]; try by apply post_ret.
  - by apply post_expect.
  - apply Forall_cons in Hw as [Hb1 Hw]. eapply post_seq; [by apply (post_process n)|].
    intros [children deferred] f' [Hi' Hch]. simpl in Hch. apply IH; [done|]. apply Forall_app. split; [|done]. by apply List.Forall_rev.
Qed.
Lemma post_handle_notarized n f b :
  inv n f → known b → post (handle_notarized_block cfg b) f (λ _ f', inv n f').
Proof.
  intros Hi Hkn. unfold handle_notarized_block. apply post_bind, post_get. apply post_loop; [done|].
  by apply Forall_singleton.
Qed.
Lemma post_readopt n children : ∀ f,
  inv n f → Forall known children → post (readopt cfg children) f (λ _ f', inv n f').
Proof.
  induction children as [|b children IH]; intros f Hi Hf; cbn [readopt]; [by apply post_ret|].
  apply Forall_cons in Hf as [Hb1 Hf]. eapply post_seq; [by apply (post_handle_notarized n)|]. intros [] f' Hi'; by apply IH.
Qed.

(** ** Finalized blocks *)

(** Taking the orphans of a block leaves known orphans, and they are known. *)
Lemma post_take_orphans n f h d :
  inv n f → post (take_orphans h d) f (λ l f', inv n f' ∧ Forall known l).
Proof.
  intros Hi. pose proof (iv_orphans _ _ Hi) as [Hos Ho]. unfold take_orphans. apply post_bind, post_get.
  destruct (BTree.get (orphaned_blocks f) _) as [a|] eqn:Ea; [|by apply post_ret].
  apply post_bind, post_modify, post_ret. split.
  - destruct Hi. split; try done. simpl. case_bool_decide.
    + split; [by apply BTree.sorted_remove|]. intros h' a' p l. destruct (decide (wrapping_add h 1 = h')) as [<-|].
      * by rewrite BTree.get_remove_eq.
      * rewrite BTree.get_remove_ne by done. intros G1 G2. by eapply Ho.
    + split; [by apply BTree.sorted_insert|]. intros h' a' p l. destruct (decide (wrapping_add h 1 = h')) as [<-|].
      * rewrite BTree.get_insert_eq. intros [= <-] [_ G2]%lookup_delete_Some. by eapply Ho.
      * rewrite BTree.get_insert_ne by done. intros G1 G2. by eapply Ho.
  - destruct (a !! d) as [l|] eqn:El; [|constructor]. eapply Forall_impl; [by eapply Ho|]. by intros b [].
Qed.

(** The next finalized block becomes the head: what the fork states give is what
    executing the block gives. *)
Lemma fork_of_next canon m h d fs b :
  fork_ok canon m h d fs → known b → block_digest b = d → h = (latest_height canon + 1)%Z →
  block_epoch b = epoch canon → apply_block b canon consts domain = Some (consensus_state fs).
Proof.
  intros [_ _ (b0 & ps & Hkn0 & Hd0 & _ & _ & Hep & Hap & Hon)] Hkn Hd -> Hepb.
  assert (b0 = b) as -> by (apply known_inj; congruence). unfold executed_on in Hon. rewrite Z.eqb_refl in Hon.
  destruct Hon as [->|Hne]; [done|]. congruence.
Qed.

Lemma post_adopt n f b s1 :
  inv n f → known b → block_height b = (latest_height (canonical_state f) + 1)%Z →
  block_epoch b = epoch (canonical_state f) → apply_block b (canonical_state f) consts domain = Some s1 →
  post (adopt_finalized cfg b) f (λ ok f', if ok : bool then same_core (f <| canonical_state := s1 |>) f' else same_core f f').
Proof.
  intros Hi Hkn Hh Hep Hap. unfold adopt_finalized. apply post_bind, post_get.
  destruct (_ ≫= _) as [fs|] eqn:Hfs.
  - assert (consensus_state fs = s1) as Hcs.
    { pose proof (fork_of_next _ _ _ _ fs b (iv_forks _ _ Hi _ _ _ Hfs) Hkn eq_refl Hh Hep) as E. congruence. }
    apply post_bind, post_expect. intros _ _.
    destruct (commit_forkchoice _ _) as [engine [[]|err]]; apply post_bind, post_modify.
    + apply post_bind, post_modify, post_ret. rewrite clone_with_same, Hcs. by split.
    + apply post_fail.
    + apply post_ret. by split.
    + apply post_fail.
  - case_bool_decide; [|apply post_fail]. simpl negb. cbv iota. apply post_bind, post_execute. intros engine o s Hex.
    destruct o; [|apply post_fail|apply post_ret; by split].
    apply execute_block_applied in Hex as [_ Hap']. apply post_bind, post_modify, post_ret.
    rewrite Hap in Hap'. apply (inj Some) in Hap' as <-. by split.
Qed.

Lemma quiet_track : quiet (track_peers cfg).
Proof.
  apply quiet_get. intros f. apply quiet_bind; [apply quiet_expect|intros active].
  apply quiet_bind; [apply quiet_expect|intros joining]. cbv zeta.
  apply quiet_bind; [apply quiet_expect|intros keys; apply quiet_emit].
Qed.
Lemma quiet_epoch_tail s ack :
  quiet (_ ← expect (get_active_validators s); _ ← lift_db (store_consensus_state (epoch s) s); _ ← lift_db commit;
         _ ← emit (Acknowledge ack); _ ← track_peers cfg; active_validators ← expect (get_active_validators s);
         emit (Enter (epoch s) active_validators)).
Proof.
  apply quiet_bind; [apply quiet_expect|intros _]. apply quiet_bind; [apply quiet_db|intros _].
  apply quiet_bind; [apply quiet_db|intros _]. apply quiet_bind; [apply quiet_emit|intros _].
  apply quiet_bind; [apply quiet_track|intros _]. apply quiet_bind; [apply quiet_expect|intros a; apply quiet_emit].
Qed.

(** The last block of an epoch runs the boundary. *)
Lemma post_finalize_epoch f b fin ack :
  post (finalize_epoch cfg b fin ack) f (λ _ f', ∃ s',
    epoch_boundary (canonical_state f) b key = Some s' ∧ same_core (f <| canonical_state := s' |>) f').
Proof.
  unfold finalize_epoch. apply post_bind, post_expect. intros fz _. cbv zeta. apply post_bind, post_get.
  eapply post_seq; [apply quiet_db|]. intros [] f1 Hs1. apply post_bind, post_expect.
  intros [[s2 exits] cp] Hcm. apply post_bind, post_modify.
  eapply post_seq.
  { instantiate (1 := λ _ f', same_core (f <| canonical_state := s2 |>) f').
    assert (same_core (f <| canonical_state := s2 |>) (f1 <| canonical_state := s2 |> <| validator_exit := exits |>)).
    { destruct Hs1. by split. }
    destruct cp; [|by apply post_ret]. eapply post_mono; [apply quiet_db|].
    intros [] f2 Hs2. by eapply same_core_trans. }
  intros [] f2 Hs2. apply post_bind, post_expect. intros s' Hadv. apply post_bind, post_modify.
  assert (epoch_boundary (canonical_state f) b key = Some s') as Hbd.
  { unfold epoch_boundary. rewrite Hcm. exact Hadv. }
  assert (same_core (f <| canonical_state := s' |>) (f2 <| canonical_state := s' |>)) as Hcore by (destruct Hs2; by split).
  eapply post_mono; [apply quiet_epoch_tail|]. intros [] f3 Hs3.
  exists s'. split; [done|]. by eapply same_core_trans.
Qed.

(** Forks that descend from the finalized block keep their place. *)
Lemma forks_pruned canon s1 s' m b :
  forks_sorted m → (∀ h d fs, fork_in m h d = Some fs → fork_ok canon m h d fs) →
  known b → block_height b = (latest_height canon + 1)%Z → block_epoch b = epoch canon →
  apply_block b canon consts domain = Some s1 → latest_height s' = block_height b →
  s' = s1 ∨ epoch s' ≠ epoch s1 →
  let m' := (prune_heights (retain (λ e, (block_height b <? e.1)%Z) m) {[ block_digest b ]}).1 in
  forks_sorted m' ∧ ∀ h d fs, fork_in m' h d = Some fs → fork_ok s' m' h d fs.
Proof.
  intros Hs Hall Hkn Hh Hep Hap Hlat Hs' m'.
  destruct (prune_heights_spec (retain (λ e, (block_height b <? e.1)%Z) m) {[ block_digest b ]}) as (Hs1 & _ & Hpr);
    [by apply forks_sorted_retain|]. fold m' in Hs1, Hpr. split; [done|]. intros h d fs Hin.
  destruct (Hpr h d fs Hin) as (Hm & Hhd & Hpar). rewrite !fork_in_retain in Hm, Hpar by done.
  destruct (Z.ltb_spec (block_height b) h) as [Hlt|]; [|done].
  destruct (Hall h d fs Hm) as [_ Hd (b0 & ps & G1 & G2 & G3 & G4 & G5 & G6 & Hon)].
  split; [lia|done|]. exists b0, ps. split_and!; try done. unfold executed_on in *. rewrite Hlat.
  rewrite (proj2 (Z.eqb_neq h (latest_height canon + 1))) in Hon by lia. destruct Hon as (fp & Hfp & ->).
  destruct (Z.eqb_spec h (block_height b + 1)) as [->|Hne].
  - assert (fs_parent_digest fs ∈ ({[ block_digest b ]} : gset bytes)) as Hp%elem_of_singleton.
    { apply Hhd. eapply (head_fork _ _ d fs); [by apply forks_sorted_retain|..].
      - apply Forall_forall. intros e [_ E]%elem_of_retain. by apply Z.ltb_lt.
      - rewrite fork_in_retain by done. rewrite (proj2 (Z.ltb_lt _ _)) by lia. done. }
    replace (block_height b + 1 - 1)%Z with (block_height b) in Hfp by lia. rewrite Hp in Hfp.
    pose proof (fork_of_next _ _ _ _ fp b (Hall _ _ _ Hfp) Hkn eq_refl Hh Hep) as E. rewrite Hap in E.
    apply (inj Some) in E as <-. naive_solver.
  - exists fp. split; [|done]. rewrite (proj2 (Z.ltb_lt (block_height b) (h - 1))), Hfp in Hpar by lia. by apply Hpar.
Qed.

Lemma prune_below m h : retain (λ e, negb (h <? e.1)%Z) (retain (λ e, (h <? e.1)%Z) m) = [].
Proof.
  unfold retain. induction m as [|e m IH]; [done|]. simpl. destruct (h <? e.1)%Z eqn:E; simpl; [|done].
  by rewrite E.
Qed.
Lemma prune_twice m h : retain (λ e, (h <? e.1)%Z) (retain (λ e, (h <? e.1)%Z) m) = retain (λ e, (h <? e.1)%Z) m.
Proof.
  unfold retain. induction m as [|e m IH]; [done|]. simpl. destruct (h <? e.1)%Z eqn:E; simpl; [|done].
  by rewrite E, IH.
Qed.
Lemma bury_core dead : ∀ f, same_core f (foldl bury_fork f dead).
Proof.
  induction dead as [|k dead IH]; intros f; [apply same_core_refl|]. simpl. eapply same_core_trans; [|apply IH].
  unfold bury_fork. cbv zeta. destruct (BTree.get _ _); by split.
Qed.
Lemma quiet_notify_up_to h d : quiet (height_notify_finalized_up_to h d).
Proof.
  apply quiet_modify. intros f. generalize (pending_height_notifys f) as l. intros l.
  assert (∀ g, same_core g (foldl (notify_one h d) g l)) as Hf.
  { induction l as [|[[wh wd] ss] l IH]; intros g; [apply same_core_refl|]. simpl. eapply same_core_trans; [|apply IH].
    unfold notify_one. destruct (h <? wh)%Z; by split. }
  eapply same_core_trans; [|apply Hf]. by split.
Qed.

Lemma orphan_known_retain o p : BTree.sorted o → orphan_known o → orphan_known (retain p o).
Proof.
  intros Hs Ho h a q l. rewrite BTree.get_retain by done. intros (a' & Ea & E)%bind_Some.
  destruct (p _); [injection E as <-|done]. by eapply Ho.
Qed.

Lemma post_prune_finalized f h d :
  post (prune_finalized h d) f (λ _ f',
    same_core (f <| fork_states := (prune_heights (retain (λ e, (h <? e.1)%Z) (fork_states f)) {[ d ]}).1 |>
                 <| orphaned_blocks := retain (λ e, (h <? e.1)%Z) (orphaned_blocks f) |>) f').
Proof.
  unfold prune_finalized. apply post_bind, post_modify. apply post_bind.
  unfold prune_fork_states_not_descending_from. apply post_modify. simpl. rewrite prune_below, prune_twice.
  destruct (prune_heights _ _) as [kept dead]. simpl.
  destruct (bury_core dead (f <| fork_states := retain (λ e, (h <? e.1)%Z) (fork_states f) |> <| fork_states := kept |>))
    as [E1 E2 E3 E4 E5].
  apply post_bind, post_modify, post_modify. split; simpl in *; congruence.
Qed.

(** What finalizing the next agreed block does to the canonical state. *)
Record next_step n f (b : Block) (s1 s' : state) : Prop := {
  ns_known : known b;
  ns_height : block_height b = (latest_height (canonical_state f) + 1)%Z;
  ns_epoch : block_epoch b = epoch (canonical_state f);
  ns_apply : apply_block b (canonical_state f) consts domain = Some s1;
  ns_settled : set_forkchoice_safe_and_finalized s1 (head_block_hash (forkchoice s1)) = Some s1;
  ns_latest : latest_height s' = block_height b;
  ns_last : (s' = s1 ∧ is_last_block_of_epoch (epocher s1) (block_height b) = Some false) ∨
    (epoch s' = (epoch s1 + 1)%Z ∧ epoch_boundary s1 b key = Some s' ∧
     is_last_block_of_epoch (epocher s1) (block_height b) = Some true);
  ns_count : S n ≤ length agreed;
  ns_chain : chain_from consts domain key s0 (take (S n) agreed) s'
}.
Lemma next_step_exists n f b :
  inv n f → b ∈ agreed → block_height b = (latest_height (canonical_state f) + 1)%Z → ∃ s1 s', next_step n f b s1 s'.
Proof.
  intros Hi Hin Hh. destruct (canonical_ok n f Hi) as (Hr & Hst & _).
  destruct (chain_next _ _ _ _ _ _ n _ _ start_reachable start_steady agreed_chain (iv_chain _ _ Hi) (iv_count _ _ Hi) Hin Hh)
    as (Hn & _ & s' & Hfit & Efin & Hch).
  destruct (finalize_block_total _ _ key b _ Hr Hst Hfit) as (s1 & s2 & E1 & E2 & E3 & _ & _ & E4 & _ & E5).
  rewrite Efin in E2. apply (inj Some) in E2 as <-. exists s1, s'.
  apply lookup_lt_Some in Hn. destruct Hfit. split; try done. by apply agreed_known.
Qed.

Lemma inv_next n f f' b s1 s' :
  inv n f → next_step n f b s1 s' →
  same_core (f <| canonical_state := s' |>
               <| fork_states := (prune_heights (retain (λ e, (block_height b <? e.1)%Z) (fork_states f)) {[ block_digest b ]}).1 |>
               <| orphaned_blocks := retain (λ e, (block_height b <? e.1)%Z) (orphaned_blocks f) |>) f' →
  inv (S n) f'.
Proof.
  intros [] [] Hs. eapply inv_core; [exact Hs|].
  destruct (forks_pruned (canonical_state f) s1 s' (fork_states f) b) as [G1 G2]; try done.
  { destruct ns_last0 as [[-> _]|[E _]]; [by left|right; lia]. }
  destruct iv_orphans0 as [Ho1 Ho2].
  split; try done. split; [by apply BTree.sorted_retain|by apply orphan_known_retain].
Qed.

Lemma post_finish n f0 f entry s1 s' :
  inv n f0 → next_step n f0 (pf_block entry) s1 s' → same_core (f0 <| canonical_state := s1 |>) f →
  post (finish_finalized cfg entry) f (λ _ f', inv (S n) f').
Proof.
  destruct entry as [b fin ack]. intros Hi Hn Hs. cbn [pf_block] in Hn. unfold finish_finalized. cbv zeta.
  apply post_bind, post_get. apply post_bind, post_expect. intros s Es.
  rewrite (sc_canonical _ _ Hs) in Es. cbn [canonical_state] in Es. simpl in Es. rewrite (ns_settled _ _ _ _ _ Hn) in Es.
  apply (inj Some) in Es as <-. apply post_bind, post_modify. eapply post_seq; [apply post_prune_finalized|].
  intros [] f1 Hs1. eapply post_seq; [apply quiet_notify_up_to|]. intros [] f2 Hs2.
  pose proof (same_core_trans _ _ _ Hs1 Hs2) as Hs12. clear f1 Hs1 Hs2. apply post_bind, post_expect. intros last El.
  eapply post_seq with (R := λ _ f', inv (S n) f').
  - destruct Hs as [E1 E2 E3 E4 E5], Hs12 as [C1 C2 C3 C4 C5]. simpl in *.
    destruct (ns_last _ _ _ _ _ Hn) as [[-> El']|(_ & Ebd & El')]; rewrite El' in El; injection El as <-.
    + eapply post_mono; [apply quiet_emit|]. intros [] f3 [D1 D2 D3 D4 D5]. eapply inv_next; [done..|]. split; simpl; congruence.
    + eapply post_seq; [apply post_finalize_epoch|]. intros [] f3 (s2 & Eb & [D1 D2 D3 D4 D5]). rewrite C1, Ebd in Eb.
      apply (inj Some) in Eb as <-. apply post_bind, post_get.
      eapply post_mono; [apply quiet_emit|]. intros [] f4 [F1 F2 F3 F4 F5]. simpl in *.
      eapply inv_next; [done..|]. split; simpl; congruence.
  - intros [] f3 Hi3. eapply post_seq; [by apply post_take_orphans|]. intros l f4 [Hi4 Hl4]. by apply post_readopt.
Qed.

Lemma post_handle_finalized n f entry :
  inv n f → pf_block entry ∈ agreed →
  post (handle_finalized_block cfg entry) f (λ r f', match r with
    | Handled => ∃ n', n ≤ n' ∧ inv n' f' ∧ latest_height (canonical_state f') =
        Z.max (latest_height (canonical_state f)) (block_height (pf_block entry))
    | Buffered e => e = entry ∧ inv n f' end).
Proof.
  intros Hi Hin. destruct (canonical_ok n f Hi) as (_ & _ & Hb1). unfold handle_finalized_block.
  pose proof (known_u64 _ (agreed_known _ Hin)) as Hu. cbv zeta. apply post_bind, post_get.
  destruct (Z.leb_spec (block_height (pf_block entry)) (latest_height (canonical_state f))) as [Hle|_].
  { destruct (_ && _); [apply post_fail|]. apply post_bind, post_modify, post_ret. exists n.
    split_and!; [done| |simpl; lia]. eapply inv_core; [|exact Hi]. by split. }
  destruct (match pf_finalization _ with Some _ => _ | None => _ end); [apply post_fail|].
  destruct (Z.eqb_spec (block_height (pf_block entry)) (wrapping_add (latest_height (canonical_state f)) 1)) as [Hh|];
    [|apply post_fail]. rewrite wrapping_add_small in Hh by u64_solve.
  simpl orb. case_bool_decide; [|apply post_fail]. simpl negb. cbv iota.
  destruct (next_step_exists n f _ Hi Hin Hh) as (s1 & s' & Hn).
  eapply post_seq; [apply (post_adopt n f _ s1); [done|by apply agreed_known|done|apply Hn..]|].
  intros [] f1 Hs1.
  - eapply post_seq; [by eapply post_finish|]. intros [] f2 Hi2. apply post_ret. exists (S n).
    pose proof (inv_latest _ _ Hi). pose proof (inv_latest _ _ Hi2). split_and!; [lia|done|lia].
  - apply post_ret. split; [done|by eapply inv_core].
Qed.

(** ** Runs of the actor *)
Definition grown n f' : Prop := ∃ n', n ≤ n' ∧ inv n' f'.
Lemma grown_of n n' f : n ≤ n' → inv n' f → grown n f.
Proof. by exists n'. Qed.
Lemma grown_core n f f' : same_core f f' → grown n f → grown n f'.
Proof. intros Hs (n' & Hn & Hi). exists n'. split; [done|by eapply inv_core]. Qed.

Lemma inv_pending n f l : inv n f → Forall (λ e, pf_block e ∈ agreed) l → inv n (f <| pending_finalized := l |>).
Proof. intros [] Hag. by split. Qed.
Lemma inv_buffered n f entry :
  inv n f → pf_block entry ∈ agreed →
  post (_ ← modify (λ f, f <| pending_finalized := pending_finalized f ++ [entry] |>); update_pending_warn cfg) f
    (λ _ f', inv n f').
Proof.
  intros Hi Hin. apply post_bind, post_modify. eapply post_mono; [apply quiet_warn|]. intros [] f' Hs.
  eapply inv_core; [exact Hs|]. apply inv_pending; [done|]. apply Forall_app.
  split; [apply (iv_finalized _ _ Hi)|by apply Forall_singleton].
Qed.

Lemma post_drain_finalized fuel : ∀ n f, inv n f → post (drain_finalized cfg fuel) f (λ _ f', grown n f').
Proof.
  induction fuel as [|fuel IH]; intros n f Hi; cbn [drain_finalized]; apply post_bind, post_get;
    pose proof (iv_finalized _ _ Hi) as Hp; destruct (pending_finalized f) as [|entry rest] eqn:Ep;
    try (apply post_ret; by eapply grown_of); [by apply post_expect|].
  apply Forall_cons in Hp as [Hin Hp]. apply post_bind, post_modify.
  eapply post_seq; [apply (post_handle_finalized n); [by apply inv_pending|done]|].
  intros [|e] f1 Hr.
  - destruct Hr as (n' & Hn & Hi' & _). eapply post_mono; [by apply (IH n')|].
    intros b f2 (n2 & Hn2 & Hi2). exists n2. split; [lia|done].
  - destruct Hr as [-> Hi1]. apply post_bind, post_modify. eapply post_seq; [apply quiet_warn|].
    intros [] f2 Hs. apply post_ret. eapply grown_of; [done|]. eapply inv_core; [exact Hs|].
    apply inv_pending; [done|]. apply Forall_cons. split; [done|apply (iv_finalized _ _ Hi1)].
Qed.

Lemma post_drain_notarized n fuel : ∀ f, inv n f → post (drain_notarized cfg fuel) f (λ _ f', inv n f').
Proof.
  assert (∀ f, inv n f → post (update_pending_warn cfg) f (λ _ f', inv n f')) as Hw.
  { intros f Hi. eapply post_mono; [apply quiet_warn|]. intros [] f' Hs. by eapply inv_core. }
  induction fuel as [|fuel IH]; intros f Hi; cbn [drain_notarized]; apply post_bind, post_get;
    pose proof (iv_notarized _ _ Hi) as Hp; destruct (pending_notarized f) as [|b rest] eqn:Ep;
    try by apply Hw. { by apply post_expect. }
  apply Forall_cons in Hp as [Hin Hp]. apply post_bind, post_modify.
  eapply post_seq; [apply (post_handle_notarized n); [|done]|].
  { destruct Hi. by split. }
  intros [|e] f1 Hi1; [by apply IH|by apply Hw].
Qed.

Lemma post_drain n f : inv n f → post (drain_pending cfg) f (λ _ f', grown n f').
Proof.
  intros Hi. unfold drain_pending. apply post_bind, post_get. eapply post_seq; [by apply post_drain_finalized|].
  intros [] f1 (n1 & Hn & Hi1); [|by apply post_ret, (grown_of _ n1)]. apply post_bind, post_get.
  eapply post_mono; [by apply (post_drain_notarized n1)|]. intros [] f2 Hi2. by eapply grown_of.
Qed.

(** Finalized blocks are those the network agreed on. *)
Definition good_update (u : Update) : Prop :=
  match u with
  | FinalizedBlock b _ _ => b ∈ agreed
  | NotarizedBlock b => known b
  | Tip | Fault => True
  end.
Lemma post_update n f u : inv n f → good_update u → post (handle_update cfg u) f (λ _ f', grown n f').
Proof.
  intros Hi Hu. destruct u as [|b fin ack|b|]; simpl in Hu |- *; try (apply post_ret; by eapply grown_of).
  - apply post_bind, post_get. destruct (pending_finalized f) as [|e rest].
    + eapply post_seq; [by apply (post_handle_finalized n)|]. intros [|e] f1 Hr.
      * apply post_ret. destruct Hr as (n' & Hn & Hi' & _). by eapply grown_of.
      * destruct Hr as [-> Hi1]. eapply post_mono; [by apply (inv_buffered n)|]. intros [] f2 Hi2. by eapply grown_of.
    + eapply post_mono; [by apply (inv_buffered n)|]. intros [] f2 Hi2. by eapply grown_of.
  - eapply post_seq; [by apply (post_handle_notarized n)|]. intros r f1 Hi1. apply post_ret. by eapply grown_of.
Qed.

Lemma quiet_notify_at h d r : quiet (notify_at_height h d r).
Proof.
  apply quiet_get. intros f. cbv zeta. repeat case_match; first [apply quiet_emit|apply quiet_modify; intros; by split].
Qed.
Lemma quiet_read {A} (c : DB A) : quiet (lift_read c).
Proof. intros f. unfold post, lift_read. destruct (c (f_db f)) as [[db a]|]; [by split|done]. Qed.
Lemma quiet_aux h d : quiet (handle_aux_data cfg h d).
Proof.
  apply quiet_get. intros f. destruct (aux_state _ _ _); [|apply quiet_ret].
  apply quiet_bind; [apply quiet_expect|]. intros []; [|apply quiet_ret].
  destruct (pending_checkpoint _); [|apply quiet_ret].
  apply quiet_bind; [apply quiet_read|intros o; apply quiet_ret].
Qed.
Lemma quiet_epoch_genesis e : quiet (handle_epoch_genesis cfg e).
Proof.
  apply quiet_get. intros f. cbv zeta. repeat case_match; try apply quiet_ret.
  apply quiet_bind; [apply quiet_read|intros o; apply quiet_ret].
Qed.
Lemma quiet_query q : quiet (handle_consensus_state_query q).
Proof.
  apply quiet_get. intros f. destruct q; try apply quiet_ret;
    (apply quiet_bind; [first [apply quiet_read|apply quiet_expect]|intros o; apply quiet_ret]).
Qed.
Lemma quiet_cancel : quiet cancel.
Proof. apply quiet_modify. intros f. by split. Qed.
Lemma quiet_start : quiet (run_start cfg).
Proof.
  apply quiet_get. intros f. cbv zeta. apply quiet_bind; [apply quiet_expect|intros vs].
  apply quiet_bind; [apply quiet_expect|intros ks]. apply quiet_bind; [apply quiet_emit|intros _].
  apply quiet_bind; [apply quiet_emit|intros _]. case_bool_decide; [apply quiet_ret|].
  destruct (commit_hash _ _) as [e [st|err]].
  all: apply quiet_bind; [apply quiet_modify; intros g; by split|intros _].
  - destruct (_ || _); [apply quiet_ret|]. apply quiet_bind; [apply quiet_cancel|intros _; apply quiet_ret].
  - apply quiet_bind; [apply quiet_cancel|intros _; apply quiet_ret].
Qed.

Definition good_input (i : Input) : Prop := match i with Receive u => good_update u | _ => True end.
Lemma post_input n f i : inv n f → good_input i → post (run_input cfg i) f (λ _ f', grown n f').
Proof.
  intros Hi Hin. pose proof (grown_of n n f (le_n _) Hi) as Hgr.
  assert (∀ A (c : F A), quiet c → post (_ ← c; mret ()) f (λ _ f', grown n f')) as Hq.
  { intros A c Hq. eapply post_seq; [apply Hq|]. intros a f' Hs. apply post_ret. exact (grown_core _ _ _ Hs Hgr). }
  destruct i as [u|h d r|h d|e|q| |]; cbn [run_input].
  - by apply post_update.
  - eapply post_mono; [apply quiet_notify_at|]. intros [] f' Hs. by eapply grown_core.
  - apply Hq, quiet_aux.
  - apply Hq, quiet_epoch_genesis.
  - apply Hq, quiet_query.
  - by apply post_drain.
  - by apply post_ret.
Qed.
Lemma post_run_loop inputs : ∀ n f,
  inv n f → Forall good_input inputs → post (run_loop cfg inputs) f (λ _ f', grown n f').
Proof.
  induction inputs as [|i inputs IH]; intros n f Hi Hin; cbn [run_loop]; apply post_bind, post_get.
  all: pose proof (grown_of n n f (le_n _) Hi) as Hgr.
  all: eapply post_seq with (R := λ _ f', f' = f); [destruct (validator_exit f); [by apply post_expect|by apply post_ret]|].
  all: intros stop f' ->; destruct stop;
    [eapply post_mono; [apply quiet_cancel|]; intros [] f' Hs; by eapply grown_core|].
  - by apply post_ret.
  - apply Forall_cons in Hin as [Hi1 Hin].
    assert (post (_ ← run_input cfg i; run_loop cfg inputs) f (λ _ f', grown n f')) as Hp.
    { eapply post_seq; [by apply (post_input n)|]. intros [] f1 (n1 & Hn1 & Hv1).
      eapply post_mono; [by apply IH|]. intros [] f2 (n2 & Hn2 & Hv2). exists n2. split; [lia|done]. }
    by destruct i; try apply Hp; apply post_ret.
Qed.
Lemma inv_new engine db : inv 0 (finalizer_new engine db s0).
Proof.
  split; simpl; try done; [lia|rewrite take_0; constructor|split; [constructor|done]|split; [constructor|done]|constructor..].
Qed.

(** C1: The finalizer is a replay of the finalized chain.  However notarized blocks,
    finalized blocks, requests and retries interleave, and whatever the execution client
    answers, a finalizer that is still running holds exactly the state that executing a
    prefix of the agreed chain block by block gives -- promoting the state of a fork,
    buffering orphans and deferring blocks change nothing. *)
Theorem finalizer_follows_chain engine db inputs f' :
  Forall good_input inputs → run cfg inputs (finalizer_new engine db s0) = Some (f', Ok ()) →
  ∃ n, n ≤ length agreed ∧ chain_from consts domain key s0 (take n agreed) (canonical_state f').
Proof.
  intros Hin E.
  assert (post (run cfg inputs) (finalizer_new engine db s0) (λ _ f', grown 0 f')) as Hp.
  { unfold run. eapply post_seq; [apply quiet_start|]. intros started f1 Hs.
    assert (inv 0 f1) as Hi by (eapply inv_core; [exact Hs|apply inv_new]).
    destruct started; [by apply post_run_loop|by eapply post_ret, grown_of]. }
  apply (post_Some _ _ _ _ _ Hp) in E as (n & _ & []). by exists n.
Qed.
End canonical.
