(* ===== verification/FinalizerLoop.v ===== *)
(** * FinalizerLoop: the work list of notarized blocks terminates

    The loop over a notarized block and its buffered descendants stops within the fuel
    that [handle_notarized_block] gives it: a buffered block is queued at most once. *)
From S2P Require Import Prelude Codec Crypto BTree Epocher SszHash SszStateTree ConsensusState StateCodec Block Execution.
From S2P Require Import ObserverKeys Db Finalizer FinalizerFacts.

(** Sums that drop in one place. *)
Definition total {A} (g : A → nat) (l : list A) : nat := foldr (λ a n, g a + n) 0 l.
Lemma total_le {A} (g g' : A → nat) l : (∀ x, x ∈ l → g' x ≤ g x) → total g' l ≤ total g l.
Proof.
  induction l as [|x l IH]; intros Hl; [done|]. simpl.
  pose proof (Hl x (list_elem_of_here _ _)). enough (total g' l ≤ total g l) by lia.
  apply IH. intros y Hy. apply Hl. by right.
Qed.
Lemma total_drop {A} (g g' : A → nat) l x k :
  x ∈ l → (∀ y, y ∈ l → g' y ≤ g y) → g' x + k ≤ g x → total g' l + k ≤ total g l.
Proof.
  intros Hx Hl Hk. induction l as [|y l IH]; [by apply not_elem_of_nil in Hx|]. simpl.
  pose proof (Hl y (list_elem_of_here _ _)). apply elem_of_cons in Hx as [->|Hx].
  - enough (total g' l ≤ total g l) by lia. apply total_le. intros z Hz. apply Hl. by right.
  - enough (total g' l + k ≤ total g l) by lia. apply (IH Hx). intros z Hz. apply Hl. by right.
Qed.
Lemma length_concat_total {A} (l : list (list A)) : length (concat l) = total length l.
Proof. induction l; [done|]. simpl. rewrite length_app. lia. Qed.
Lemma total_map {A B} (h : B → A) (g : A → nat) l : total g (map h l) = total (λ x, g (h x)) l.
Proof. induction l; [done|]. simpl. lia. Qed.

Section loop.
Context `{Hc : Crypto} `{Hl : SszLib} `{Hb : BlockLib} `{He : !EngineClient} `{Hk : KvStore}.
Notation F := (F (T:=SszStateTree)).
Notation Finalizer := (Finalizer (T:=SszStateTree)).
Context (cfg : FinalizerConfig).
Implicit Type f : Finalizer.

(** The buffer is indexed by height and parent. *)
Definition orphans_indexed (o : BTreeMap Z (gmap bytes (list Block))) : Prop :=
  ∀ h at_height p l b, BTree.get o h = Some at_height → at_height !! p = Some l → b ∈ l →
    block_height b = h ∧ block_parent b = p.

(** The orphans whose parent is not executed. *)
Definition waiting_at (m : BTreeMap Z (BTreeMap bytes (ForkState (T:=SszStateTree)))) (h : Z) (e : bytes * list Block) : nat :=
  match fork_in m (wrapping_sub h 1) e.1 with Some _ => 0 | None => length e.2 end.
Definition waiting f : nat :=
  total (λ e : Z * gmap bytes (list Block), total (waiting_at (fork_states f) e.1) (map_to_list e.2)) (orphaned_blocks f).
Lemma waiting_le f : waiting f ≤ orphan_count f.
Proof.
  unfold waiting, orphan_count. rewrite length_concat_total, total_map. apply total_le. intros e _.
  rewrite length_concat_total, total_map. apply total_le. intros [p l] _. unfold waiting_at. simpl.
  destruct (fork_in _ _ _); lia.
Qed.

(** A block of the work list is not buffered. *)
Definition rooted f (b : Block) : Prop :=
  (block_height b ≤ latest_height (canonical_state f))%Z ∨
  block_height b = wrapping_add (latest_height (canonical_state f)) 1 ∨
  is_Some (fork_in (fork_states f) (wrapping_sub (block_height b) 1) (block_parent b)).

(** What a step of the loop does to the forks and the buffer. *)
Inductive step f (b : Block) : Finalizer → list Block → Prop :=
| step_skip f' :
    canonical_state f' = canonical_state f → fork_states f' = fork_states f → orphaned_blocks f' = orphaned_blocks f →
    step f b f' []
| step_run f' fs :
    canonical_state f' = canonical_state f → orphaned_blocks f' = orphaned_blocks f →
    fork_in (fork_states f) (block_height b) (block_digest b) = None →
    (∀ h d, fork_in (fork_states f') h d =
       if bool_decide (block_height b = h ∧ block_digest b = d) then Some fs else fork_in (fork_states f) h d) →
    step f b f' (orphaned_children f (block_height b) (block_digest b)).

Definition same_forks f f' : Prop :=
  canonical_state f' = canonical_state f ∧ fork_states f' = fork_states f ∧ orphaned_blocks f' = orphaned_blocks f.
Lemma post_defer_step f b : post (defer_notarized cfg b) f (λ _ f', same_forks f f').
Proof.
  unfold defer_notarized. apply post_bind, post_get. case_bool_decide; [by apply post_ret|].
  destruct (_ <=? _); [apply post_fail|]. apply post_bind, post_modify, post_modify. cbv zeta. by repeat case_match.
Qed.

Lemma post_process_step f b :
  rooted f b → post (process_notarized cfg b) f (λ r f', step f b f' r.1).
Proof.
  intros Hr. unfold process_notarized. apply post_bind, post_get.
  destruct (Z.leb_spec (block_height b) (latest_height (canonical_state f))) as [|Hlt]; [by apply post_ret, step_skip|].
  case_bool_decide; [by apply post_ret, step_skip|].
  destruct (match BTree.get _ _ with Some _ => _ | None => _ end) eqn:Hcf; [by apply post_ret, step_skip|].
  apply contains_fork in Hcf. destruct (parent_state f _ _) as [| |ps] eqn:Hps; [by apply post_ret, step_skip|..].
  - exfalso. unfold parent_state in Hps. destruct Hr as [Hr|[Hr|[fs Hr]]]; [lia|..].
    + rewrite Hr, Z.eqb_refl in Hps. by destruct (_ && _).
    + destruct (_ =? _)%Z; [by destruct (_ && _)|]. unfold fork_in in Hr. by rewrite Hr in Hps.
  - apply post_bind, post_execute. intros engine' o s' Hex. destruct o.
    + apply post_bind. unfold store_fork. apply post_modify. cbv zeta.
      unfold height_notify_executed. apply post_bind, post_bind, post_get.
      match goal with |- context [BTree.get ?a ?k] => destruct (BTree.get a k) end.
      * apply post_bind, post_modify. unfold send_all. apply post_modify, post_bind, post_get, post_ret.
        eapply step_run; [done..|]. intros h d. apply fork_in_insert.
      * apply post_ret, post_bind, post_get, post_ret. eapply step_run; [done..|]. intros h d. apply fork_in_insert.
    + by apply post_ret, step_skip.
    + eapply post_seq; [apply post_defer_step|]. intros [] f' (E1 & E2 & E3). by apply post_ret, step_skip.
Qed.

Lemma wrapping_back h : is_u64 h → wrapping_sub (wrapping_add h 1) 1 = h.
Proof.
  intros Hu. destruct (decide (h = u64_max)) as [->|]; [done|].
  rewrite wrapping_add_small, wrapping_sub_small by u64_solve. lia.
Qed.

Lemma step_waiting f b f' children :
  is_u64 (block_height b) → step f b f' children → waiting f' + length children ≤ waiting f.
Proof.
  intros Hu [f1 E1 E2 E3|f1 fs E1 E3 Hnone Hin]; unfold waiting.
  { rewrite E2, E3. simpl. lia. }
  rewrite E3. assert (∀ h e, waiting_at (fork_states f1) h e ≤ waiting_at (fork_states f) h e) as Hle.
  { intros h e. unfold waiting_at. rewrite Hin. case_bool_decide; repeat case_match; simplify_eq; lia. }
  unfold orphaned_children. destruct (BTree.get (orphaned_blocks f) _) as [a|] eqn:Ea; simpl.
  2: { rewrite Nat.add_0_r. apply total_le. intros e _. by apply total_le. }
  destruct (a !! block_digest b) as [l|] eqn:El; simpl.
  2: { rewrite Nat.add_0_r. apply total_le. intros e _. by apply total_le. }
  apply BTree.get_elem_of in Ea. eapply total_drop; [exact Ea|intros e _; by apply total_le|].
  apply elem_of_map_to_list in El. simpl. eapply total_drop; [exact El|intros e _; apply Hle|].
  unfold waiting_at. simpl. rewrite wrapping_back by done. rewrite Hnone, Hin. by rewrite bool_decide_true.
Qed.
Lemma step_rooted f b f' children c : step f b f' children → rooted f c → rooted f' c.
Proof.
  unfold rooted. intros [f1 E1 E2 E3|f1 fs E1 E3 Hnone Hin]; rewrite E1; [by rewrite E2|].
  intros [?|[?|[x Hx]]]; auto. right; right. rewrite Hin. case_bool_decide; by eexists.
Qed.
Lemma step_children f b f' children c :
  is_u64 (block_height b) → orphans_indexed (orphaned_blocks f) → step f b f' children → c ∈ children → rooted f' c.
Proof.
  intros Hu Ho [f1 E1 E2 E3|f1 fs E1 E3 Hnone Hin] Hc1; [by apply not_elem_of_nil in Hc1|].
  unfold orphaned_children in Hc1. destruct (BTree.get (orphaned_blocks f) _) as [a|] eqn:Ea; simpl in Hc1;
    [|by apply not_elem_of_nil in Hc1].
  destruct (a !! block_digest b) as [l|] eqn:El; simpl in Hc1; [|by apply not_elem_of_nil in Hc1].
  unfold rooted. destruct (Ho _ _ _ _ _ Ea El Hc1) as [-> ->]. right; right. rewrite wrapping_back by done.
  rewrite Hin, bool_decide_true by done. by eexists.
Qed.
Lemma step_indexed f b f' children :
  step f b f' children → orphaned_blocks f' = orphaned_blocks f.
Proof. by intros []. Qed.

Definition u64_blocks (o : BTreeMap Z (gmap bytes (list Block))) : Prop :=
  ∀ h at_height p l b, BTree.get o h = Some at_height → at_height !! p = Some l → b ∈ l → is_u64 (block_height b).
Lemma step_u64 f b f' children c :
  u64_blocks (orphaned_blocks f) → step f b f' children → c ∈ children → is_u64 (block_height c).
Proof.
  intros Ho [f1 E1 E2 E3|f1 fs E1 E3 Hnone Hin] Hc1; [by apply not_elem_of_nil in Hc1|].
  unfold orphaned_children in Hc1. destruct (BTree.get (orphaned_blocks f) _) as [a|] eqn:Ea; simpl in Hc1;
    [|by apply not_elem_of_nil in Hc1].
  destruct (a !! block_digest b) as [l|] eqn:El; simpl in Hc1; [by eapply Ho|by apply not_elem_of_nil in Hc1].
Qed.

Lemma loop_fuel k fuel : ∀ work o f,
  orphans_indexed (orphaned_blocks f) → u64_blocks (orphaned_blocks f) →
  Forall (λ b, rooted f b ∧ is_u64 (block_height b)) work → length work + waiting f ≤ fuel →
  notarized_loop cfg (fuel + k) work o f = notarized_loop cfg fuel work o f.
Proof.
  induction fuel as [|fuel IH]; intros [|b work] o f Hoi Hou Hw Hn.
  - simpl. by destruct k.
  - simpl in Hn. lia.
  - done.
  - apply Forall_cons in Hw as [[Hr Hu] Hw]. simpl Nat.add. cbn [notarized_loop]. unfold mbind, F_bind.
    pose proof (post_process_step f b Hr) as Hp. unfold post in Hp.
    destruct (process_notarized cfg b f) as [[f' [[children deferred]|e]]|]; try done. simpl in Hp.
    pose proof (step_indexed _ _ _ _ Hp) as Eo. apply IH; rewrite ?Eo; try done.
    + apply Forall_app. split.
      * apply List.Forall_rev, Forall_forall. intros c Hc1.
        split; [by eapply step_children|by eapply step_u64].
      * eapply Forall_impl; [exact Hw|]. intros c [? ?]. split; [by eapply step_rooted|done].
    + pose proof (step_waiting _ _ _ _ Hu Hp). rewrite length_app, length_rev. simpl in Hn. lia.
Qed.

(** A block without a parent is buffered, and the loop ends. *)
Lemma process_unrooted f b :
  ¬ rooted f b → ∃ f' r, process_notarized cfg b f = Some (f', Ok ([], r)).
Proof.
  intros Hr. unfold process_notarized, mbind, F_bind, get. cbv zeta.
  destruct (Z.leb_spec (block_height b) (latest_height (canonical_state f))) as [|Hlt].
  { exfalso. apply Hr. by left. }
  case_bool_decide; [by do 2 eexists|]. destruct (match BTree.get _ _ with Some _ => _ | None => _ end); [by do 2 eexists|].
  unfold parent_state. destruct (Z.eqb_spec (block_height b) (wrapping_add (latest_height (canonical_state f)) 1)) as [E|].
  { exfalso. apply Hr. by right; left. }
  destruct (_ ≫= _) as [fs|] eqn:Ef; [|by do 2 eexists]. exfalso. apply Hr. right; right. by exists fs.
Qed.

End loop.
