(* ===== verification/FinalizerWaiters.v ===== *)
(** * FinalizerWaiters: every waiting proposer is answered

    A proposer or verifier waits for its parent to be executed with
    [NotifyAtHeight].  Every request is answered at most once, none is lost, and none
    waits for a height that is already finalized. *)
From S2P Require Import Prelude Codec Crypto BTree Epocher Account SszHash SszStateTree SszStateTreeFacts.
From S2P Require Import ConsensusState StateSync StateCodec StateRun Block Execution ExecutionFacts Chain.
From S2P Require Import ObserverKeys Db Finalizer FinalizerRun FinalizerFacts.

Section waiters.
Context `{Hc : Crypto} `{Hl : SszLib} `{Hb : BlockLib} `{He : !EngineClient} `{Hk : KvStore}.
Context `{Hv : Curve} `{Hg : !CertificateLib}.
Notation F := (F (T:=SszStateTree)).
Notation Finalizer := (Finalizer (T:=SszStateTree)).
Context (cfg : FinalizerConfig).
Implicit Type f : Finalizer.

Definition queued (m : BTreeMap (Z * bytes) (list Sender)) : list Sender := concat (map snd m).
Definition answers (l : list Event) : list Sender :=
  concat (map (λ e, match e with Send s _ => [s] | _ => [] end) l).
(** The requests [reg] are answered or wait for a height above [h]. *)
Record served (h : Z) (reg : list Sender) f : Prop := {
  sv_sorted : BTree.sorted (pending_height_notifys f);
  sv_above : Forall (λ e, (h < e.1.1)%Z) (pending_height_notifys f);
  sv_all : queued (pending_height_notifys f) ++ answers (events f) ≡ₚ reg
}.

Lemma answers_app l1 l2 : answers (l1 ++ l2) = answers l1 ++ answers l2.
Proof. unfold answers. by rewrite map_app, concat_app. Qed.
Lemma answers_sends l b : answers (map (λ s, Send s b) l) = l.
Proof. unfold answers. induction l; simpl; congruence. Qed.
Lemma queued_app m1 m2 : queued (m1 ++ m2) = queued m1 ++ queued m2.
Proof. unfold queued. by rewrite map_app, concat_app. Qed.

(** What the requests do not see. *)
Definition calm f f' : Prop :=
  pending_height_notifys f' = pending_height_notifys f ∧ answers (events f') = answers (events f).
Lemma served_calm h reg f f' : calm f f' → served h reg f → served h reg f'.
Proof. intros [E1 E2] []. split; rewrite ?E1, ?E2; done. Qed.

(** Answering the waiters of a key. *)
Lemma served_answer h reg f k l b :
  served h reg f → BTree.get (pending_height_notifys f) k = Some l →
  served h reg (f <| pending_height_notifys := BTree.remove (pending_height_notifys f) k |>
                  <| events := events f ++ map (λ s, Send s b) l |>).
Proof.
  intros [Hs Ha Hp] Hg1. destruct (BTree.get_Some_split _ _ _ Hs Hg1) as (m1 & m2 & E & _ & Er).
  split; simpl; rewrite ?Er.
  - rewrite <-Er. by apply BTree.sorted_remove.
  - rewrite E in Ha. apply Forall_app in Ha as [? [_ ?]%Forall_cons]. apply Forall_app. done.
  - rewrite <-Hp, E, !queued_app, answers_app, answers_sends. change (queued ((k, l) :: m2)) with (l ++ queued m2).
    solve_Permutation.
Qed.

Lemma served_bury h reg dead : ∀ f, served h reg f → served h reg (foldl bury_fork f dead).
Proof.
  induction dead as [|k dead IH]; intros f Hs; [done|]. simpl. apply IH. unfold bury_fork. cbv zeta.
  assert (served h reg (f <| dead_fork_digests := {[k]} ∪ dead_fork_digests f |>)) as Hs' by (by eapply served_calm; [|exact Hs]).
  destruct (BTree.get _ k) eqn:E; [|done]. by apply served_answer.
Qed.

(** The waiters up to a finalized height are answered, the others are kept. *)
Lemma sorted_skip {V} (m1 m2 : BTreeMap (Z * bytes) V) e : BTree.sorted (m1 ++ e :: m2) → BTree.sorted (m1 ++ m2).
Proof.
  induction m1 as [|[k v] m1 IH]; simpl.
  - destruct e. by intros []%BTree.sorted_cons.
  - intros [Hs Hf]%BTree.sorted_cons. apply BTree.sorted_cons. split; [by apply IH|].
    apply Forall_app in Hf as [? [_ ?]%Forall_cons]. by apply Forall_app.
Qed.
Lemma served_notify h reg d l : ∀ f,
  BTree.sorted (pending_height_notifys f ++ l) → Forall (λ e, (h < e.1.1)%Z) (pending_height_notifys f) →
  queued (pending_height_notifys f ++ l) ++ answers (events f) ≡ₚ reg →
  served h reg (foldl (notify_one h d) f l).
Proof.
  induction l as [|[[wh wd] ss] l IH]; intros f Hs Ha Hp; simpl.
  { rewrite app_nil_r in *. done. }
  assert (Forall (λ e, cmp e.1 (wh, wd) = Lt) (pending_height_notifys f)) as Hlast.
  { apply BTree.sorted_app in Hs as (_ & _ & Hs). apply Forall_forall. intros e He1.
    apply (Hs e (wh, wd, ss) He1). by left. }
  destruct (Z.ltb_spec h wh) as [Hlt|Hle]; apply IH; simpl.
  - rewrite BTree.insert_last, <-(assoc_L (++)) by done. done.
  - rewrite BTree.insert_last by done. apply Forall_app. by split; [|apply Forall_singleton].
  - rewrite BTree.insert_last, <-(assoc_L (++)) by done. done.
  - by eapply sorted_skip.
  - done.
  - rewrite <-Hp, !queued_app, answers_app, answers_sends. change (queued ((wh, wd, ss) :: l)) with (ss ++ queued l).
    solve_Permutation.
Qed.
Lemma post_notify_up_to h h' reg f d :
  served h reg f → post (height_notify_finalized_up_to h' d) f (λ _ f', served h' reg f').
Proof.
  intros [Hs Ha Hp]. apply post_modify. apply served_notify; simpl; [done|constructor|done].
Qed.

(** ** Handlers *)
Definition holds {A} (c : F A) : Prop := ∀ h reg f, served h reg f → post c f (λ _ f', served h reg f').
Lemma holds_calm {A} (c : F A) : (∀ f, post c f (λ _ f', calm f f')) → holds c.
Proof. intros Hq h reg f Hs. eapply post_mono; [apply Hq|]. intros a f' Hs'. exact (served_calm _ _ _ _ Hs' Hs). Qed.
Lemma holds_bind {A B} (c : F A) (k : A → F B) : holds c → (∀ a, holds (k a)) → holds (c ≫= k).
Proof. intros H1 H2 h reg f Hs. eapply post_seq; [by apply H1|]. intros a f' Hs'. by apply H2. Qed.
Lemma holds_ret {A} (a : A) : holds (mret a).
Proof. intros h reg f Hs. by apply post_ret. Qed.
Lemma holds_get {A} (k : Finalizer → F A) : (∀ f, holds (k f)) → holds (get ≫= k).
Proof. intros Hq h reg f Hs. apply post_bind, post_get. by apply Hq. Qed.
Lemma holds_expect {A} (o : option A) : holds (expect o).
Proof. intros h reg f Hs. by apply post_expect. Qed.
Lemma holds_fail {A} e : holds (f_fail (A:=A) e).
Proof. intros h reg f Hs. apply post_fail. Qed.
Lemma holds_modify g : (∀ f, calm f (g f)) → holds (modify g).
Proof. intros Hq. apply holds_calm. intros f. apply post_modify, Hq. Qed.
Lemma holds_db {A} (c : DB (result DbError A)) : holds (lift_db c).
Proof. apply holds_calm. intros f. unfold post, lift_db. by destruct (c (f_db f)) as [[db [a|e]]|]. Qed.
Lemma holds_read {A} (c : DB A) : holds (lift_read c).
Proof. apply holds_calm. intros f. unfold post, lift_read. by destruct (c (f_db f)) as [[db a]|]. Qed.
Lemma holds_emit e : (match e with Send _ _ => False | _ => True end) → holds (emit e).
Proof.
  intros Hn. apply holds_modify. intros f. split; [done|]. simpl. rewrite answers_app. destruct e; try done.
  all: apply app_nil_r.
Qed.
Lemma holds_execute b s fin : holds (execute cfg b s fin).
Proof.
  apply holds_calm. intros f. unfold post, execute. by destruct (execute_block _ _ _ _ _ _) as [[[e [o|err]] s']|].
Qed.
Lemma holds_executed h d : holds (height_notify_executed h d).
Proof.
  intros h0 reg f Hs. unfold height_notify_executed. apply post_bind, post_get.
  destruct (BTree.get _ _) eqn:E; [|by apply post_ret]. apply post_bind, post_modify. unfold send_all. apply post_modify.
  by apply (served_answer h0 reg f _ _ true).
Qed.

#[local] Hint Resolve holds_ret holds_expect holds_fail holds_db holds_read holds_execute holds_executed : core.

Lemma holds_warn : holds (update_pending_warn cfg).
Proof. apply holds_modify. intros f. cbv zeta. by repeat case_match. Qed.
Lemma holds_defer b : holds (defer_notarized cfg b).
Proof.
  apply holds_get. intros f. case_bool_decide; [auto|]. destruct (_ <=? _); [auto|].
  apply holds_bind; [by apply holds_modify|intros _; apply holds_warn].
Qed.
Lemma holds_process b : holds (process_notarized cfg b).
Proof.
  apply holds_get. intros f. cbv zeta. destruct (_ <=? _)%Z; [auto|]. case_bool_decide; [auto|].
  destruct (match BTree.get _ _ with Some _ => _ | None => _ end); [auto|].
  destruct (parent_state _ _ _); [auto|apply holds_bind; [by apply holds_modify|auto]|].
  apply holds_bind; [auto|]. intros [[] s'].
  - apply holds_bind; [by apply holds_modify|intros _]. apply holds_bind; [auto|intros _]. apply holds_get. auto.
  - auto.
  - apply holds_bind; [apply holds_defer|auto].
Qed.
Lemma holds_loop fuel : ∀ work o, holds (notarized_loop cfg fuel work o).
Proof.
  induction fuel as [|fuel IH]; intros [|b work] o; cbn [notarized_loop]; auto.
  apply holds_bind; [apply holds_process|]. intros [children deferred]. apply IH.
Qed.
Lemma holds_notarized b : holds (handle_notarized_block cfg b).
Proof. apply holds_get. intros f. apply holds_loop. Qed.
Lemma holds_readopt children : holds (readopt cfg children).
Proof.
  induction children as [|b children IH]; cbn [readopt]; [auto|]. apply holds_bind; [apply holds_notarized|auto].
Qed.
Lemma holds_adopt b : holds (adopt_finalized cfg b).
Proof.
  apply holds_get. intros f. cbv zeta. destruct (_ ≫= _).
  - apply holds_bind; [auto|intros _]. destruct (commit_forkchoice _ _) as [e [o|err]].
    all: apply holds_bind; [by apply holds_modify|intros _]; auto. destruct o; auto.
    apply holds_bind; [by apply holds_modify|auto].
  - destruct (negb _); [auto|]. apply holds_bind; [auto|]. intros [[] s']; auto.
    apply holds_bind; [by apply holds_modify|auto].
Qed.
Lemma holds_prune h d : holds (prune_finalized h d).
Proof.
  apply holds_bind; [by apply holds_modify|intros _]. apply holds_bind; [|intros _; apply holds_bind; intros; by apply holds_modify].
  intros h0 reg f Hs. unfold prune_fork_states_not_descending_from. apply post_modify. cbv zeta.
  destruct (prune_heights _ _) as [kept dead]. apply served_bury. by eapply served_calm; [|exact Hs].
Qed.
Lemma holds_epoch b fin ack : holds (finalize_epoch cfg b fin ack).
Proof.
  apply holds_bind; [auto|intros fz]. cbv zeta. apply holds_get. intros f. apply holds_bind; [auto|intros _].
  apply holds_bind; [auto|]. intros [[s exits] cp]. apply holds_bind; [by apply holds_modify|intros _].
  apply holds_bind; [destruct cp; auto|intros _]. apply holds_bind; [auto|intros s'].
  apply holds_bind; [by apply holds_modify|intros _]. apply holds_bind; [auto|intros _].
  apply holds_bind; [auto|intros _]. apply holds_bind; [auto|intros _]. apply holds_bind; [by apply holds_emit|intros _].
  apply holds_bind; [|intros _; apply holds_bind; [auto|intros vs; by apply holds_emit]].
  apply holds_get. intros f'. cbv zeta. do 3 (apply holds_bind; [auto|intros ?]). by apply holds_emit.
Qed.
Lemma holds_orphans h d : holds (take_orphans h d).
Proof.
  apply holds_get. intros f. cbv zeta. destruct (BTree.get _ _); [|auto]. apply holds_bind; [by apply holds_modify|auto].
Qed.

Lemma holds_set s : holds (set_canonical s).
Proof. by apply holds_modify. Qed.

(** Finalizing a block answers everyone at or below its height. *)
Lemma post_finish_served h reg f entry :
  served h reg f → post (finish_finalized cfg entry) f (λ _ f', served (block_height (pf_block entry)) reg f').
Proof.
  destruct entry as [b fin ack]. intros Hs. unfold finish_finalized. cbv zeta. apply post_bind, post_get.
  eapply post_seq; [by apply holds_expect|]. intros s f1 Hs1; cbv beta in Hs1. eapply post_seq; [by apply holds_set|].
  intros [] f2 Hs2; cbv beta in Hs2. eapply post_seq; [by apply holds_prune|]. intros [] f3 Hs3; cbv beta in Hs3.
  eapply post_seq; [by apply (post_notify_up_to _ (block_height b) _ _ _ Hs3)|]. intros [] f4 Hs4; cbv beta in Hs4. simpl.
  eapply post_seq; [by apply holds_expect|]. intros last f5 Hs5; cbv beta in Hs5.
  eapply post_seq with (R := λ _ f', served (block_height b) reg f').
  - destruct last; [|by apply holds_emit]. eapply post_seq; [by apply holds_epoch|]. intros [] f6 Hs6; cbv beta in Hs6.
    apply post_bind, post_get. by apply holds_emit.
  - intros [] f6 Hs6; cbv beta in Hs6. eapply post_seq; [by apply holds_orphans|]. intros l f7 Hs7; cbv beta in Hs7. by apply holds_readopt.
Qed.
End waiters.

Section answered.
Context `{Hc : Crypto} `{!CryptoOk} `{Hl : SszLib} `{!SszLibOk} `{Hb : BlockLib} `{He : !EngineClient}.
Context `{Hk : KvStore} `{Hv : Curve} `{Hg : !CertificateLib}.
Notation F := (F (T:=SszStateTree)).
Notation Finalizer := (Finalizer (T:=SszStateTree)).
Context (cfg : FinalizerConfig).
Notation consts := (protocol_consts cfg).
Notation domain := (cfg_deposit_domain cfg).
Notation key := (cfg_node_public_key cfg).
Context (s0 : ConsensusState SszStateTree) (agreed : list Block) (send : ConsensusState SszStateTree) (known : Block → Prop).
Hypothesis start_reachable : reachable s0.
Hypothesis start_steady : steady consts s0.
Hypothesis agreed_chain : chain_from consts domain key s0 agreed send.
Hypothesis agreed_known : ∀ b, b ∈ agreed → known b.
Hypothesis known_u64 : ∀ b, known b → is_u64 (block_height b).
Hypothesis known_inj : ∀ b1 b2, known b1 → known b2 → block_digest b1 = block_digest b2 → b1 = b2.
Notation inv := (inv cfg s0 agreed known).
Notation latest f := (latest_height (canonical_state f)).
Implicit Type f : Finalizer.

Lemma post_and {A} (c : F A) f Q1 Q2 : post c f Q1 → post c f Q2 → post c f (λ a f', Q1 a f' ∧ Q2 a f').
Proof. unfold post. by destruct (c f) as [[f' [a|e]]|]. Qed.

(** Nobody waits below the canonical head. *)
Definition attended (reg : list Sender) f : Prop := ∃ n, inv n f ∧ served (latest f) reg f.
Lemma attended_same n reg f f' : inv n f → inv n f' → served (latest f) reg f' → attended reg f'.
Proof.
  intros Hi Hi' Hs. exists n. split; [done|].
  by rewrite (inv_latest _ _ _ _ start_reachable start_steady _ _ Hi'), <-(inv_latest _ _ _ _ start_reachable start_steady _ _ Hi).
Qed.

Lemma finalized_served reg f entry :
  served (latest f) reg f →
  post (handle_finalized_block cfg entry) f (λ r f', match r with
    | Handled => served (Z.max (latest f) (block_height (pf_block entry))) reg f'
    | Buffered _ => served (latest f) reg f' end).
Proof.
  intros Hs. unfold handle_finalized_block. cbv zeta. apply post_bind, post_get.
  destruct (Z.leb_spec (block_height (pf_block entry)) (latest f)) as [Hle|Hlt].
  { destruct (_ && _); [apply post_fail|]. eapply post_seq; [by apply holds_emit|]. intros [] f1 Hs1; cbv beta in Hs1.
    apply post_ret. by rewrite Z.max_l by lia. }
  destruct (match pf_finalization _ with Some _ => _ | None => _ end); [apply post_fail|].
  destruct (_ || _); [apply post_fail|]. eapply post_seq; [by apply holds_adopt|]. intros [] f1 Hs1; cbv beta in Hs1.
  - eapply post_seq; [by eapply post_finish_served|]. intros [] f2 Hs2; cbv beta in Hs2. apply post_ret.
    by rewrite Z.max_r by lia.
  - by apply post_ret.
Qed.

Lemma attended_finalized reg f entry :
  attended reg f → pf_block entry ∈ agreed →
  post (handle_finalized_block cfg entry) f (λ r f', attended reg f' ∧
    match r with Handled => True | Buffered e => e = entry end).
Proof.
  intros (n & Hi & Hs) Hin. eapply post_mono; [apply post_and; [by eapply (post_handle_finalized _ _ _ send)|by apply finalized_served]|].
  intros [|e] f' [Hr Hs']; cbv beta in *.
  - destruct Hr as (n' & _ & Hi' & E). split; [|done]. exists n'. split; [done|]. by rewrite E.
  - destruct Hr as [-> Hi']. split; [|done]. exact (attended_same _ _ _ _ Hi Hi' Hs').
Qed.
Lemma attended_hold {A} reg n (c : F A) f :
  inv n f → post c f (λ _ f', inv n f') → holds c → served (latest f) reg f → post c f (λ _ f', attended reg f').
Proof.
  intros Hi Hp Hh Hs. eapply post_mono; [apply post_and; [exact Hp|by apply Hh]|].
  intros a f' [Hi' Hs']; cbv beta in *. exact (attended_same _ _ _ _ Hi Hi' Hs').
Qed.
Lemma attended_quiet {A} reg (c : F A) f : attended reg f → quiet c → holds c → post c f (λ _ f', attended reg f').
Proof.
  intros (n & Hi & Hs) Hq Hh. apply (attended_hold reg n); try done. eapply post_mono; [apply Hq|].
  intros a f' Hs'; cbv beta in *. by eapply inv_core.
Qed.
Lemma attended_notarized reg f b :
  attended reg f → known b → post (handle_notarized_block cfg b) f (λ _ f', attended reg f').
Proof.
  intros (n & Hi & Hs) Hkn. apply (attended_hold reg n); [done| |apply holds_notarized|done].
  by eapply post_handle_notarized.
Qed.

Lemma attended_pending reg f l :
  attended reg f → Forall (λ e, pf_block e ∈ agreed) l → attended reg (f <| pending_finalized := l |>).
Proof.
  intros (n & Hi & Hs) Hag. exists n. split; [by apply inv_pending|]. by eapply served_calm; [|exact Hs].
Qed.
Lemma attended_warn reg f : attended reg f → post (update_pending_warn cfg) f (λ _ f', attended reg f').
Proof. intros Ha. apply attended_quiet; [done|apply quiet_warn|apply holds_warn]. Qed.
Lemma attended_pendings reg f : attended reg f → Forall (λ e, pf_block e ∈ agreed) (pending_finalized f).
Proof. intros (n & Hi & _). apply (iv_finalized _ _ _ _ _ _ Hi). Qed.
Lemma attended_buffer reg f entry :
  attended reg f → pf_block entry ∈ agreed →
  post (_ ← modify (λ f, f <| pending_finalized := pending_finalized f ++ [entry] |>); update_pending_warn cfg) f
    (λ _ f', attended reg f').
Proof.
  intros Ha Hin. apply post_bind, post_modify, attended_warn, attended_pending; [done|]. apply Forall_app.
  split; [by eapply attended_pendings|by apply Forall_singleton].
Qed.

Lemma attended_drain_finalized reg fuel : ∀ f,
  attended reg f → post (drain_finalized cfg fuel) f (λ _ f', attended reg f').
Proof.
  induction fuel as [|fuel IH]; intros f Ha; cbn [drain_finalized]; apply post_bind, post_get;
    pose proof (attended_pendings _ _ Ha) as Hp; destruct (pending_finalized f) as [|entry rest] eqn:Ep;
    try (by apply post_ret); [by apply post_expect|].
  apply Forall_cons in Hp as [Hin Hp]. apply post_bind, post_modify.
  eapply post_seq; [apply attended_finalized; [by apply attended_pending|done]|].
  intros [|e] f1 [Ha1 He1]; [by apply IH|]. subst e. apply post_bind, post_modify.
  eapply post_seq; [apply attended_warn, attended_pending; [done|]|].
  { apply Forall_cons. split; [done|by eapply attended_pendings]. }
  intros [] f2 Ha2. by apply post_ret.
Qed.
Lemma attended_drain_notarized reg fuel : ∀ f,
  attended reg f → post (drain_notarized cfg fuel) f (λ _ f', attended reg f').
Proof.
  induction fuel as [|fuel IH]; intros f Ha; cbn [drain_notarized]; apply post_bind, post_get;
    assert (Forall known (pending_notarized f)) as Hp by (destruct Ha as (n & Hi & _); apply (iv_notarized _ _ _ _ _ _ Hi));
    destruct (pending_notarized f) as [|b rest] eqn:Ep; try by apply attended_warn. { by apply post_expect. }
  apply Forall_cons in Hp as [Hin Hp]. apply post_bind, post_modify.
  eapply post_seq; [apply attended_notarized; [|done]|].
  { destruct Ha as (n & [] & Hs). exists n. split; [by split|]. by eapply served_calm; [|exact Hs]. }
  intros [|e] f1 Ha1; [by apply IH|by apply attended_warn].
Qed.

Lemma attended_update reg f u :
  attended reg f → good_update agreed known u → post (handle_update cfg u) f (λ _ f', attended reg f').
Proof.
  intros Ha Hu. destruct u as [|b fin ack|b|]; simpl in Hu |- *; try (by apply post_ret).
  - apply post_bind, post_get. destruct (pending_finalized f) as [|e rest]; [|by apply attended_buffer].
    eapply post_seq; [by apply attended_finalized|]. intros [|e] f1 [Ha1 He1]; [by apply post_ret|]. subst e.
    by apply attended_buffer.
  - eapply post_seq; [by apply attended_notarized|]. intros r f1 Ha1. by apply post_ret.
Qed.
Lemma attended_drain reg f : attended reg f → post (drain_pending cfg) f (λ _ f', attended reg f').
Proof.
  intros Ha. apply post_bind, post_get. eapply post_seq; [by apply attended_drain_finalized|].
  intros [] f1 Ha1; [|by apply post_ret]. apply post_bind, post_get. by apply attended_drain_notarized.
Qed.

(** The new request is answered at once or waits above the head. *)
Lemma attended_send reg f r b : attended reg f → post (emit (Send r b)) f (λ _ f', attended (r :: reg) f').
Proof.
  intros (n & Hi & [Hs Hb1 Hp]). apply post_modify. exists n. split; [eapply inv_core; [|exact Hi]; by split|].
  split; [done|done|]. simpl. rewrite answers_app, <-Hp. simpl. solve_Permutation.
Qed.
Lemma attended_notify reg f h d r :
  attended reg f → post (notify_at_height h d r) f (λ _ f', attended (r :: reg) f').
Proof.
  intros Ha. unfold notify_at_height. apply post_bind, post_get. cbv zeta.
  destruct (Z.ltb_spec h (latest f)) as [|Hge]; [by apply attended_send|].
  destruct (Z.eqb_spec h (latest f)) as [|Hne]; [by apply attended_send|]. case_bool_decide; [by apply attended_send|].
  destruct (match BTree.get _ _ with Some _ => _ | None => _ end); [by apply attended_send|].
  destruct Ha as (n & Hi & [Hs Hb1 Hp]). apply post_modify. exists n. split; [eapply inv_core; [|exact Hi]; by split|].
  split; simpl; [by apply BTree.sorted_insert| |].
  - apply Forall_forall. intros e [->|Hin]%BTree.elem_of_insert; [simpl; lia|]. rewrite Forall_forall in Hb1. by apply Hb1.
  - rewrite <-Hp. destruct (BTree.get (pending_height_notifys f) (h, d)) as [l|] eqn:E.
    + destruct (BTree.get_Some_split _ _ _ Hs E) as (m1 & m2 & Em & Eins & _). rewrite Eins, Em, !queued_app. simpl.
      change (queued ((h, d, l ++ [r]) :: m2)) with ((l ++ [r]) ++ queued m2).
      change (queued ((h, d, l) :: m2)) with (l ++ queued m2). solve_Permutation.
    + destruct (BTree.get_None_split _ _ Hs E) as (m1 & m2 & Em & Eins). rewrite Eins, Em, !queued_app. simpl.
      change (queued ((h, d, [r]) :: m2)) with ([r] ++ queued m2). solve_Permutation.
Qed.

Definition senders (i : Input) : list Sender := match i with NotifyAtHeight _ _ r => [r] | _ => [] end.
Lemma attended_input reg f i :
  attended reg f → good_input agreed known i → post (run_input cfg i) f (λ _ f', attended (senders i ++ reg) f').
Proof.
  intros Ha Hi. assert (∀ A (c : F A), quiet c → holds c → post (_ ← c; mret ()) f (λ _ f', attended reg f')) as Hq.
  { intros A c Hq Hh. eapply post_seq; [by apply (attended_quiet reg c)|]. intros a f' Ha'. by apply post_ret. }
  destruct i as [u|h d r|h d|e|q| |]; cbn [run_input senders app].
  - by apply attended_update.
  - by apply attended_notify.
  - apply Hq; [apply quiet_aux|]. apply holds_get. intros g. destruct (aux_state _ _ _); [|apply holds_ret].
    apply holds_bind; [apply holds_expect|]. intros []; [|apply holds_ret]. destruct (pending_checkpoint _); [|apply holds_ret].
    apply holds_bind; [apply holds_read|intros o; apply holds_ret].
  - apply Hq; [apply quiet_epoch_genesis|]. apply holds_get. intros g. cbv zeta. repeat case_match; try apply holds_ret.
    apply holds_bind; [apply holds_read|intros o; apply holds_ret].
  - apply Hq; [apply quiet_query|]. apply holds_get. intros g. destruct q; try apply holds_ret;
      (apply holds_bind; [first [apply holds_read|apply holds_expect]|intros o; apply holds_ret]).
  - by apply attended_drain.
  - by apply post_ret.
Qed.
Lemma holds_cancel : holds cancel.
Proof. by apply holds_modify. Qed.
Lemma holds_start : holds (run_start cfg).
Proof.
  apply holds_get. intros f. cbv zeta. do 2 (apply holds_bind; [apply holds_expect|intros ?]).
  do 2 (apply holds_bind; [by apply holds_emit|intros _]). case_bool_decide; [apply holds_ret|].
  destruct (commit_hash _ _) as [e [st|err]].
  all: apply holds_bind; [by apply holds_modify|intros _].
  - destruct (_ || _); [apply holds_ret|]. apply holds_bind; [apply holds_cancel|intros _; apply holds_ret].
  - apply holds_bind; [apply holds_cancel|intros _; apply holds_ret].
Qed.

Definition accounted (reg : list Sender) (inputs : list Input) f' : Prop :=
  ∃ done rest, inputs = done ++ rest ∧ attended (concat (map senders (rev done)) ++ reg) f'.
Lemma attended_loop inputs : ∀ reg f,
  attended reg f → Forall (good_input agreed known) inputs →
  post (run_loop cfg inputs) f (λ _ f', accounted reg inputs f').
Proof.
  induction inputs as [|i inputs IH]; intros reg f Ha Hin; cbn [run_loop]; apply post_bind, post_get.
  all: assert (∀ l, accounted reg l f) as Hstop by (intros l; by exists [], l).
  all: eapply post_seq with (R := λ _ f', f' = f); [destruct (validator_exit f); [by apply post_expect|by apply post_ret]|].
  all: intros stop f' ->; destruct stop; [eapply post_mono; [apply (attended_quiet reg); [done|apply quiet_cancel|apply holds_cancel]|];
    intros [] f' Ha'; eexists [], _; split; [reflexivity|exact Ha']|].
  - by apply post_ret.
  - apply Forall_cons in Hin as [Hi1 Hin].
    assert (post (_ ← run_input cfg i; run_loop cfg inputs) f (λ _ f', accounted reg (i :: inputs) f')) as Hp.
    { eapply post_seq; [by apply attended_input|]. intros [] f1 Ha1; cbv beta in Ha1.
      eapply post_mono; [by apply IH|]. intros [] f2 (served_in & rest & -> & Ha2). exists (i :: served_in), rest.
      split; [done|]. simpl. rewrite map_app, concat_app. simpl. by rewrite app_nil_r, <-(assoc_L (++)). }
    destruct i; try apply Hp; by apply post_ret.
Qed.

Lemma concat_rev {A B} (g : A → list B) l : concat (map g (rev l)) ≡ₚ concat (map g l).
Proof.
  induction l as [|x l IH]; [done|]. simpl. rewrite map_app, concat_app. simpl. rewrite IH. solve_Permutation.
Qed.

End answered.
