(* ===== verification/FinalizerProgress.v ===== *)
(** * FinalizerProgress: the finalizer executes the chain it is given

    With an execution client that accepts blocks and a store that does not fail, every
    finalized block of the agreed chain is executed, acknowledged and, at the end of an
    epoch, stored: no handler panics or shuts the node down. *)
From S2P Require Import Prelude Codec Crypto BTree Epocher Account SszHash SszStateTree SszStateTreeFacts.
From S2P Require Import ConsensusState StateSync StateCodec StateRun StateInvariant StateBoundary Block Execution ExecutionFacts Chain.
From S2P Require Import ObserverKeys Db DbFacts Finalizer FinalizerRun FinalizerFacts.

(** ** Handlers that return *)
Section runs.
Context `{Hc : Crypto} `{Hl : SszLib} `{Hb : BlockLib} `{He : !EngineClient} `{Hk : KvStore}.
Notation F := (F (T:=SszStateTree)).
Notation Finalizer := (Finalizer (T:=SszStateTree)).
Implicit Type f : Finalizer.

Definition runs {A} (c : F A) f (Q : A → Finalizer → Prop) : Prop := ∃ f' a, c f = Some (f', Ok a) ∧ Q a f'.
Lemma runs_ret {A} (a : A) f (Q : A → Finalizer → Prop) : Q a f → runs (mret a) f Q.
Proof. by exists f, a. Qed.
Lemma runs_bind {A B} (c : F A) (k : A → F B) f Q : runs c f (λ a f', runs (k a) f' Q) → runs (c ≫= k) f Q.
Proof. intros (f' & a & E & HQ). unfold runs, mbind, F_bind. by rewrite E. Qed.
Lemma runs_mono {A} (c : F A) f (Q Q' : A → Finalizer → Prop) : runs c f Q → (∀ a f', Q a f' → Q' a f') → runs c f Q'.
Proof. intros (f' & a & E & HQ) Hw. exists f', a. auto. Qed.
Lemma runs_seq {A B} (c : F A) (k : A → F B) f R Q :
  runs c f R → (∀ a f', R a f' → runs (k a) f' Q) → runs (c ≫= k) f Q.
Proof. intros H1 H2. apply runs_bind. by eapply runs_mono. Qed.
Lemma runs_get f (Q : Finalizer → Finalizer → Prop) : Q f f → runs get f Q.
Proof. by exists f, f. Qed.
Lemma runs_modify g f (Q : () → Finalizer → Prop) : Q () (g f) → runs (modify g) f Q.
Proof. by exists (g f), (). Qed.
Lemma runs_expect {A} (o : option A) a f (Q : A → Finalizer → Prop) : o = Some a → Q a f → runs (expect o) f Q.
Proof. intros -> HQ. by exists f, a. Qed.
Lemma runs_post {A} (c : F A) f Q Q' : runs c f Q → post c f Q' → runs c f (λ a f', Q a f' ∧ Q' a f').
Proof. intros (f' & a & E & HQ) Hp. exists f', a. split; [done|]. split; [done|]. by eapply post_Some. Qed.
Lemma runs_db {A} (c : DB (result DbError A)) f db a (Q : A → Finalizer → Prop) :
  c (f_db f) = Some (db, Ok a) → Q a (f <| f_db := db |>) → runs (lift_db c) f Q.
Proof. intros E HQ. exists (f <| f_db := db |>), a. unfold lift_db. by rewrite E. Qed.
End runs.

Section progress.
Context `{Hc : Crypto} `{!CryptoOk} `{Hl : SszLib} `{!SszLibOk} `{Hb : BlockLib} `{He : !EngineClient}.
Context `{Hk : KvStore} `{Hv : Curve} `{Hg : !CertificateLib}.
Notation F := (F (T:=SszStateTree)).
Notation Finalizer := (Finalizer (T:=SszStateTree)).
Context (cfg : FinalizerConfig).
Notation consts := (protocol_consts cfg).
Notation domain := (cfg_deposit_domain cfg).
Notation key := (cfg_node_public_key cfg).
Context (s0 : ConsensusState SszStateTree) (agreed : list Block) (send : ConsensusState SszStateTree) (known : Block → Prop).
Hypothesis start_reachable : reachable s0.
Hypothesis start_steady : steady consts s0.
Hypothesis agreed_chain : chain_from consts domain key s0 agreed send.
Hypothesis agreed_known : ∀ b, b ∈ agreed → known b.
Hypothesis known_u64 : ∀ b, known b → is_u64 (block_height b).
Hypothesis known_inj : ∀ b1 b2, known b1 → known b2 → block_digest b1 = block_digest b2 → b1 = b2.
Notation inv := (inv cfg s0 agreed known).
Notation latest f := (latest_height (canonical_state f)).
Notation next_step := (next_step cfg s0 agreed known).
Implicit Type f : Finalizer.

(** The services work: the client finds blocks valid and follows the head, the store
    does not fail, and a valid key has observer keys. *)
Record services_up : Prop := {
  client_check e b : ∃ e', check_payload e b = (e', Ok VALID);
  client_commit e fc : ∃ e', commit_hash e fc = (e', Ok VALID);
  store_works : store_up;
  keys_derive pk i : ed25519_valid pk = true → is_Some (derive_child_public pk (observer_domain cfg) i)
}.
Hypothesis Hup : services_up.

Lemma commit_works e fc : ∃ e', commit_forkchoice e fc = (e', Ok Applied).
Proof. unfold commit_forkchoice. destruct (client_commit Hup e fc) as [e' ->]. by eexists. Qed.
Lemma execute_works e b (s s1 : ConsensusState SszStateTree) fin :
  block_epoch b = epoch s → extends b s → apply_block b s consts domain = Some s1 →
  ∃ e', execute_block e b s consts domain fin = Some (e', Ok Applied, s1).
Proof.
  intros Hep [_ Hw] Hap. unfold execute_block. rewrite Hep, Z.eqb_refl. simpl negb. cbv iota.
  destruct (client_check Hup e b) as [e1 ->]. simpl. rewrite Hw. cbn [mbind option_bind]. rewrite bool_decide_true by done.
  simpl. destruct (commit_works e1 (mkForkchoiceState (eth_block_hash b) (default (eth_block_hash b) fin)
    (default (eth_block_hash b) fin))) as [e2 ->]. rewrite Hap. by eexists.
Qed.

Lemma runs_adopt n f b s1 s' :
  inv n f → next_step n f b s1 s' → fits consts domain b (canonical_state f) → runs (adopt_finalized cfg b) f (λ ok f', ok = true ∧ f_db f' = f_db f).
Proof.
  intros Hi Hn Hfit. unfold adopt_finalized. apply runs_bind, runs_get.
  destruct (_ ≫= _) as [fs|] eqn:Hfs.
  - pose proof (iv_forks _ _ _ _ _ _ Hi _ _ _ Hfs) as [_ Hd _]. rewrite Hd.
    apply runs_bind. eapply runs_expect; [by rewrite bool_decide_true|].
    match goal with |- context [commit_forkchoice ?e ?fc] => destruct (commit_works e fc) as [e' ->] end.
    apply runs_bind, runs_modify, runs_bind, runs_modify. by apply runs_ret.
  - rewrite (ft_parent _ _ _ _ Hfit), bool_decide_true by done. simpl negb. cbv iota.
    destruct (execute_works (engine_client f) b (canonical_state f) s1 None) as [e' E];
      [apply Hfit|apply Hfit|apply Hn|].
    apply runs_bind. exists (f <| engine_client := e' |>), (Applied, s1). split; [unfold execute; by rewrite E|].
    apply runs_bind, runs_modify. by apply runs_ret.
Qed.

(** ** The keys of the next epoch *)
Lemma validators_where_keys (p : ValidatorStatus → bool) (s : ConsensusState SszStateTree) :
  accounts_ok (validator_accounts s) →
  ∃ l, validators_where p s = Some l ∧ Forall (λ e, ed25519_valid e.1 = true) l.
Proof.
  intros [_ Hf]. unfold validators_where, read_keys.
  assert (Forall (λ e, ed25519_valid e.1 = true) (retain (λ '(_, a), p (status a)) (validator_accounts s))) as Hr.
  { rewrite Forall_forall in *. intros e [Hin _]%elem_of_retain. by apply Hf. }
  rewrite read_keys_valid by done. cbn [mbind option_bind]. eexists. split; [done|]. simpl.
  rewrite merge_sort_Permutation. apply Forall_map. eapply Forall_impl; [exact Hr|]. by intros [k a].
Qed.
Lemma observer_keys_work pks n :
  Forall (λ pk, ed25519_valid pk = true) pks → is_Some (derive_observer_keys pks (observer_domain cfg) n).
Proof.
  intros Hf. unfold derive_observer_keys.
  enough (∀ acc, is_Some (for_each (λ acc pk, for_each (λ acc i, k ← derive_child_public pk (observer_domain cfg) (N.of_nat i);
    Some (acc ++ [k])) acc (range 0 (Z.to_nat n))) acc pks)) by done.
  induction Hf as [|pk pks Hpk _ IH]; intros acc; [by eexists|]. cbn [for_each].
  assert (∀ l acc, is_Some (for_each (λ acc i, k ← derive_child_public pk (observer_domain cfg) (N.of_nat i); Some (acc ++ [k])) acc l)) as Hi.
  { induction l as [|i l IHl]; intros a; [by eexists|]. cbn [for_each].
    destruct (keys_derive Hup pk (N.of_nat i) Hpk) as [k ->]. cbn [mbind option_bind]. apply IHl. }
  destruct (Hi (range 0 (Z.to_nat n)) acc) as [acc' ->]. cbn [mbind option_bind]. apply IH.
Qed.
Lemma steady_accounts (s : ConsensusState SszStateTree) : steady consts s → accounts_ok (validator_accounts s).
Proof. intros (first & last & _ & _ & Hlv). apply Hlv. Qed.

Lemma runs_track f : steady consts (canonical_state f) → runs (track_peers cfg) f (λ _ f', f_db f' = f_db f ∧ ∃ l, events f' = events f ++ l).
Proof.
  intros Hst%steady_accounts. unfold track_peers. apply runs_bind, runs_get. cbv zeta.
  destruct (validators_where_keys (λ st, bool_decide (st = Active)) _ Hst) as (l1 & E1 & _).
  destruct (validators_where_keys (λ st, bool_decide (st = Active) || bool_decide (st = Joining)) _ Hst) as (l2 & E2 & Hf2).
  apply runs_bind. eapply runs_expect; [exact E1|]. apply runs_bind. eapply runs_expect; [exact E2|].
  destruct (observer_keys_work (map fst l2) (observers_per_validator (canonical_state f))) as [ks Eks].
  { apply Forall_map. eapply Forall_impl; [exact Hf2|done]. }
  apply runs_bind. eapply runs_expect; [exact Eks|]. apply runs_modify. split; [done|]. by eexists.
Qed.

(** ** The last block of an epoch *)
Lemma runs_epoch f b fin ack s' :
  running (f_db f) → epoch_boundary (canonical_state f) b key = Some s' → steady consts s' →
  runs (finalize_epoch cfg b (Some fin) ack) f (λ _ f', running (f_db f') ∧ Acknowledge ack ∈ events f').
Proof.
  intros Hr Hbd Hst. unfold epoch_boundary in Hbd. apply bind_Some in Hbd as ([[s2 exits] cp] & Ec & Ea). simpl in Ea.
  unfold finalize_epoch. apply runs_bind. eapply runs_expect; [done|]. cbv zeta. apply runs_bind, runs_get.
  destruct (store_tracked_up (store_works Hup) (make_finalized_header_key (epoch (canonical_state f))) LATEST_FINALIZED_HEADER_EPOCH_KEY
    (epoch (canonical_state f)) (VFinalizedHeader (mkFinalizedHeader (header b) fin (certificate_signers fin))) (f_db f) Hr)
    as (db1 & E1 & Hr1).
  apply runs_bind. eapply runs_db; [exact E1|]. apply runs_bind. eapply runs_expect; [exact Ec|].
  apply runs_bind, runs_modify.
  eapply runs_seq with (R := λ _ f', running (f_db f')).
  { destruct cp as [cp|]; [|by apply runs_ret].
    destruct (store_tracked_up (store_works Hup) (make_checkpoint_key (epoch s2)) LATEST_CHECKPOINT_EPOCH_KEY
      (epoch s2) (VCheckpoint cp b) db1 Hr1) as (db2 & E2 & Hr2). eapply runs_db; [exact E2|done]. }
  intros [] f2 Hr2. apply runs_bind. eapply runs_expect; [exact Ea|]. apply runs_bind, runs_modify.
  destruct (validators_where_keys (λ st, bool_decide (st = Active)) s' (steady_accounts s' Hst)) as (l & El & _).
  apply runs_bind. eapply runs_expect; [exact El|].
  destruct (store_tracked_up (store_works Hup) (make_consensus_state_key (epoch s')) LATEST_CONSENSUS_STATE_EPOCH_KEY
    (epoch s') (VConsensusState s') (f_db f2) Hr2) as (db3 & E3 & Hr3).
  apply runs_bind. eapply runs_db; [exact E3|]. destruct (commit_up (store_works Hup) db3 Hr3) as (db4 & E4 & Hr4).
  apply runs_bind. eapply runs_db; [exact E4|]. apply runs_bind, runs_modify.
  eapply runs_seq; [by apply runs_track|]. intros [] f3 [Edb [l' Hev]]. apply runs_bind. eapply runs_expect; [exact El|]. apply runs_modify. simpl. rewrite Edb.
  split; [done|]. rewrite Hev. set_solver.
Qed.

(** ** A finalized block *)
Lemma runs_prune f h d : runs (prune_finalized h d) f (λ _ f', f_db f' = f_db f).
Proof.
  unfold prune_finalized. apply runs_bind, runs_modify, runs_bind.
  unfold prune_fork_states_not_descending_from. apply runs_modify. cbv zeta. destruct (prune_heights _ _) as [kept dead].
  apply runs_bind, runs_modify, runs_modify. simpl. clear.
  assert (∀ g : Finalizer, f_db (foldl bury_fork g dead) = f_db g) as Hbury; [|by rewrite Hbury].
  induction dead as [|k dead IH]; intros g; [done|]. simpl. rewrite IH. unfold bury_fork. cbv zeta. by destruct (BTree.get _ _).
Qed.
Lemma runs_notify_up_to f h d : runs (height_notify_finalized_up_to h d) f (λ _ f', f_db f' = f_db f).
Proof.
  apply runs_modify. generalize (pending_height_notifys f) as l. intros l.
  assert (∀ g : Finalizer, f_db (foldl (notify_one h d) g l) = f_db g) as Hn; [|by rewrite Hn].
  induction l as [|[[wh wd] ss] l IH]; intros g; [done|]. simpl. rewrite IH. by destruct (h <? wh)%Z.
Qed.

(** Caught up: nothing waits in the buffers. *)
Record ready n f : Prop := {
  rd_inv : inv n f;
  rd_db : running (f_db f);
  rd_orphans : orphaned_blocks f = [];
  rd_pending : pending_finalized f = []
}.
Lemma runs_finish n f0 f b fin ack s1 s' :
  ready n f0 → next_step n f0 b s1 s' → steady consts s' → same_core (f0 <| canonical_state := s1 |>) f → running (f_db f) →
  runs (finish_finalized cfg (mkPendingFinalized b (Some fin) ack)) f (λ _ f',
    running (f_db f') ∧ Acknowledge ack ∈ events f' ∧ orphaned_blocks f' = [] ∧ pending_finalized f' = []).
Proof.
  intros [Hi _ Ho Hp] Hn Hst Hs Hdb. unfold finish_finalized. cbv zeta. apply runs_bind, runs_get.
  apply runs_bind. eapply runs_expect.
  { rewrite (sc_canonical _ _ Hs). apply (ns_settled _ _ _ _ _ _ _ _ _ Hn). }
  apply runs_bind, runs_modify.
  eapply runs_seq; [apply runs_post; [apply runs_prune|apply post_prune_finalized]|]. intros [] f1 [Ed1 Hs1]; cbv beta in *.
  eapply runs_seq; [apply runs_post; [apply runs_notify_up_to|apply quiet_notify_up_to]|]. intros [] f2 [Ed2 Hs2]; cbv beta in *.
  pose proof (same_core_trans _ _ _ Hs1 Hs2) as [C1 C2 C3 C4 C5]. clear Hs1 Hs2. simpl in *.
  assert (orphaned_blocks f2 = []) as Ho2 by (rewrite C3, (sc_orphans _ _ Hs); simpl; by rewrite Ho).
  assert (pending_finalized f2 = []) as Hp2 by (rewrite C5, (sc_finalized _ _ Hs); done).
  assert (running (f_db f2)) as Hr2 by (rewrite Ed2, Ed1; done).
  assert (∃ last, is_last_block_of_epoch (epocher s1) (block_height b) = Some last) as [last El].
  { destruct (ns_last _ _ _ _ _ _ _ _ _ Hn) as [[_ E]|(_ & _ & E)]; by eexists. }
  apply runs_bind. eapply runs_expect; [exact El|].
  eapply runs_seq with (R := λ _ f', running (f_db f') ∧ Acknowledge ack ∈ events f' ∧ orphaned_blocks f' = [] ∧ pending_finalized f' = []).
  - destruct (ns_last _ _ _ _ _ _ _ _ _ Hn) as [[-> E]|(_ & Ebd & E)]; rewrite E in El; injection El as <-.
    + apply runs_modify. simpl. split_and!; try done. set_solver.
    + eapply runs_seq; [apply runs_post; [apply (runs_epoch _ _ _ _ s'); [done|by rewrite C1|done]|apply post_finalize_epoch]|].
      intros [] f3 [[Hr3 Hack] (s2 & _ & [D1 D2 D3 D4 D5])]; cbv beta in *. apply runs_bind, runs_get, runs_modify. simpl in *.
      split_and!; [done|set_solver|congruence|congruence].
  - intros [] f3 (Hr3 & Hack & Ho3 & Hp3). unfold take_orphans. apply runs_bind, runs_bind, runs_get. rewrite Ho3. simpl.
    apply runs_ret. by apply runs_ret.
Qed.

Lemma runs_finalized n f b c ack :
  ready n f → agreed !! n = Some b → signed_payload c = block_digest b →
  runs (handle_finalized_block cfg (mkPendingFinalized b (Some c) ack)) f (λ r f',
    r = Handled ∧ ready (S n) f' ∧ Acknowledge ack ∈ events f').
Proof.
  intros Hrd Hb1 Hcert. pose proof (rd_inv _ _ Hrd) as Hi. assert (b ∈ agreed) as Hin by (by eapply list_elem_of_lookup_2).
  destruct (canonical_ok _ _ _ _ start_reachable start_steady n f Hi) as (Hr & Hst & Hb2).
  pose proof (inv_latest _ _ _ _ start_reachable start_steady _ _ Hi) as Hlat.
  assert (block_height b = (latest f + 1)%Z) as Hh.
  { destruct (chain_heights _ _ _ _ _ _ start_reachable start_steady agreed_chain) as [_ Hall]. specialize (Hall n b Hb1). lia. }
  destruct (chain_next _ _ _ _ _ _ n _ b start_reachable start_steady agreed_chain (iv_chain _ _ _ _ _ _ Hi)
    (iv_count _ _ _ _ _ _ Hi) Hin Hh) as (_ & _ & s'' & Hfit & Efin & Hch).
  destruct (next_step_exists cfg s0 agreed send known start_reachable start_steady agreed_chain agreed_known n f b Hi Hin Hh)
    as (s1 & s' & Hn).
  pose proof (chain_unique _ _ _ _ _ _ _ Hch (ns_chain _ _ _ _ _ _ _ _ _ Hn)) as ->.
  destruct (chain_steady _ _ _ _ _ _ start_reachable start_steady Hch) as [_ Hst'].
  unfold handle_finalized_block. cbv zeta. cbn [pf_block pf_finalization]. apply runs_bind, runs_get.
  rewrite (proj2 (Z.leb_gt _ _)) by lia. rewrite Hcert, bool_decide_true by done. simpl negb. cbv iota.
  rewrite wrapping_add_small by u64_solve. rewrite (proj2 (Z.eqb_eq _ _) Hh), (ft_parent _ _ _ _ Hfit), bool_decide_true by done.
  simpl orb. cbv iota.
  eapply runs_seq.
  { apply runs_post; [by eapply runs_adopt|]. apply (post_adopt cfg s0 agreed known known_inj n f b s1); try done; apply Hn. }
  intros ok f1 [[-> Edb] Hs1]; cbv beta iota in *.
  eapply runs_seq.
  { apply runs_post; [eapply (runs_finish n f f1 b c ack s1 s'); try done; rewrite Edb; apply Hrd|].
    by eapply (post_finish cfg s0 agreed known). }
  intros [] f2 [(Hr2 & Hack & Ho2 & Hp2) Hi2]; cbv beta in *. apply runs_ret. by split_and!.
Qed.

(** ** Runs *)
Definition receive (e : PendingFinalized) : Input := Receive (FinalizedBlock (pf_block e) (pf_finalization e) (pf_ack e)).
Definition certified (e : PendingFinalized) : Prop :=
  ∃ c, pf_finalization e = Some c ∧ signed_payload c = block_digest (pf_block e).

Lemma runs_exit_check n f : ready n f →
  runs (if validator_exit f
        then expect (is_first_block_of_epoch (epocher (canonical_state f)) (latest f)) else mret false) f
    (λ stop f', f' = f ∧ (stop = true → validator_exit f = true)).
Proof.
  intros [Hi _ _ _]. destruct (validator_exit f); [|by apply runs_ret].
  destruct (canonical_ok _ _ _ _ start_reachable start_steady n f Hi) as (_ & (first & last & Hck & _) & Hb1).
  assert (is_u64 (latest f)) as Hu by u64_solve. unfold is_first_block_of_epoch.
  destruct (containing_no_panic _ _ (ck_sched _ _ _ Hck) Hu) as [o ->]. by eapply runs_expect.
Qed.
Lemma runs_loop entries : ∀ n f,
  ready n f → map pf_block entries = drop n agreed → Forall certified entries →
  runs (run_loop cfg (map receive entries)) f (λ _ f', ready (n + length entries) f' ∨ validator_exit f' = true).
Proof.
  induction entries as [|[b fin ack] entries IH]; intros n f Hrd Hag Hce; cbn [map run_loop]; apply runs_bind, runs_get.
  all: eapply runs_seq; [by eapply runs_exit_check|]; intros stop f' [-> Hstop]; destruct stop;
    [apply runs_modify; right; by apply Hstop|].
  { apply runs_ret. left. by rewrite Nat.add_0_r. }
  apply Forall_cons in Hce as [(c & Ec & Hc1) Hce]. cbn [pf_block pf_finalization] in Hc1, Ec. subst fin. simpl in Hag.
  assert (agreed !! n = Some b) as Hb1 by (rewrite <-(Nat.add_0_r n), <-lookup_drop, <-Hag; done).
  unfold receive at 1. cbn [pf_block pf_finalization pf_ack].
  eapply runs_seq with (R := λ _ f', ready (S n) f').
  - cbn [run_input handle_update]. apply runs_bind, runs_get. rewrite (rd_pending _ _ Hrd).
    eapply runs_seq; [by apply (runs_finalized n)|]. intros r f1 (-> & Hrd1 & _). by apply runs_ret.
  - intros [] f1 Hrd1; cbv beta in Hrd1. cbn [length]. rewrite <-Nat.add_succ_comm.
    apply IH; [done| |done]. rewrite <-(Nat.add_1_r n), <-drop_drop, <-Hag. done.
Qed.
Lemma runs_notify n f h d r : ready n f → runs (notify_at_height h d r) f (λ _ f', ready n f').
Proof.
  intros [Hi Hr Ho Hp]. eapply runs_mono; [apply runs_post; [|apply quiet_notify_at]|].
  { instantiate (1 := λ _ f', f_db f' = f_db f). unfold notify_at_height. apply runs_bind, runs_get. cbv zeta.
    repeat case_match; by apply runs_modify. }
  intros [] f' [Edb Hs]; cbv beta in *. destruct (id Hs) as [_ _ E3 _ E5].
  split; [by eapply inv_core|by rewrite Edb|congruence|congruence].
Qed.
Lemma runs_start f : ready 0 f → runs (run_start cfg) f (λ ok f', ok = true ∧ ready 0 f').
Proof.
  intros Hrd. destruct (canonical_ok _ _ _ _ start_reachable start_steady 0 f (rd_inv _ _ Hrd)) as (_ & Hst & _).
  apply steady_accounts in Hst.
  assert (runs (run_start cfg) f (λ ok f', ok = true ∧ f_db f' = f_db f)) as Hr.
  { unfold run_start. apply runs_bind, runs_get. cbv zeta.
    destruct (validators_where_keys is_current_epoch_signer _ Hst) as (l & El & Hf).
    apply runs_bind. eapply runs_expect; [exact El|].
    destruct (observer_keys_work (map fst l) (observers_per_validator (canonical_state f))) as [ks Eks].
    { apply Forall_map. eapply Forall_impl; [exact Hf|done]. }
    apply runs_bind. eapply runs_expect; [exact Eks|]. apply runs_bind, runs_modify, runs_bind, runs_modify.
    case_bool_decide; [by apply runs_ret|].
    destruct (client_commit Hup (engine_client f) (forkchoice (canonical_state f))) as [e' ->].
    apply runs_bind, runs_modify. by apply runs_ret. }
  eapply runs_mono; [apply runs_post; [exact Hr|apply quiet_start]|]. intros ok f' [[-> Edb] Hs]; cbv beta in *.
  split; [done|]. destruct Hrd as [Hi Hr0 Ho Hp], (id Hs) as [_ _ E3 _ E5].
  split; [by eapply inv_core|by rewrite Edb|congruence|congruence].
Qed.

Lemma runs_run inputs f Q :
  ready 0 f → (∀ f1, ready 0 f1 → runs (run_loop cfg inputs) f1 Q) → runs (run cfg inputs) f Q.
Proof.
  intros Hrd Hloop. unfold run. eapply runs_seq; [by apply runs_start|]. intros ok f1 [-> Hrd1]. by apply Hloop.
Qed.
Lemma ready_new engine db : running db → ready 0 (finalizer_new engine db s0).
Proof. intros Hdb. split; [apply inv_new|done..]. Qed.
(** A request before the blocks. *)
Lemma runs_loop_notify h d r entries n f :
  ready n f → map pf_block entries = drop n agreed → Forall certified entries →
  runs (run_loop cfg (NotifyAtHeight h d r :: map receive entries)) f (λ _ _, True).
Proof.
  intros Hrd Hag Hce. cbn [run_loop]. apply runs_bind, runs_get. eapply runs_seq; [by eapply runs_exit_check|].
  intros stop f2 [-> Hstop]. destruct stop; [by apply runs_modify|].
  eapply runs_seq; [by apply (runs_notify n)|]. intros [] f2 Hrd2; cbv beta in Hrd2. eapply runs_mono; [by eapply (runs_loop _ n)|done].
Qed.

End progress.
