(* ===== verification/FinalizerDemo.v ===== *)
(** * FinalizerDemo: the finalizer on a concrete chain

    Two validators run the nine blocks of a first epoch and the first block of the next
    one; the parameters of the model are small concrete functions. *)
From S2P Require Import Prelude Codec Crypto BTree Epocher Account SszHash SszStateTree SszStateTreeFacts.
From S2P Require Import ConsensusState StateSync StateCodec StateRun Block Execution ExecutionFacts Chain Genesis.
From S2P Require Import ObserverKeys Db DbFacts Finalizer FinalizerRun FinalizerFacts FinalizerLoop FinalizerWaiters FinalizerProgress.

#[local] Existing Instance ToyCrypto.toy.
#[local] Existing Instance ToyCrypto.toy_ok.
#[local] Existing Instance StateRun.Demo.toy_ssz.
#[local] Existing Instance StateRun.Demo.toy_ssz_ok.
#[local] Existing Instance Block.ToyBlocks.toy_blocks.
#[local] Existing Instance Block.ToyBlocks.toy_blocks_ok.
#[local] Existing Instance Genesis.Demo.toy_engine.
#[local] Existing Instance ObserverKeys.Toy.toy_curve.

(** A store in memory: what it shows and what is durable. *)
#[local] Instance toy_store : KvStore := {|
  Store := (bytes → option bytes) * (bytes → option bytes);
  StoreError := ();
  raw_get st k := Ok (st.1 k);
  raw_apply_batch st us := Ok (foldl put st.1 us, st.2);
  raw_commit st := Ok (st.1, st.1);
  write_opt_block _ _ := [];
  read_opt_block _ := λ buf, Ok (None, buf)
|}.
#[local] Instance toy_store_spec : KvStoreSpec := {| view st := st.1; durable st := st.2; reopen st := (st.2, st.2) |}.
#[local] Instance toy_store_ok : KvStoreOk.
Proof. split; simpl; try (by intros; simplify_eq). Qed.
Lemma toy_store_up : store_up.
Proof. split; intros; by eexists. Qed.
#[local] Instance toy_signers : CertificateLib := λ _, 2.

Definition demo_key : bytes := ascii_bytes Genesis.Demo.k1.
Definition demo_cfg : FinalizerConfig :=
  mkFinalizerConfig 10 20 (zero_bytes 32) Genesis.Demo.demo_consts Genesis.Demo.demo_domain demo_key (ascii_bytes "demo").
Definition next_block : Block :=
  let b := Genesis.Demo.demo_block 10 in mkBlock ((header b) <| h_epoch := 1%Z |>) (payload b) (execution_requests b).
Definition demo_chain : list Block := Genesis.Demo.demo_epoch ++ [next_block].
Definition demo_entries : list PendingFinalized := map (λ b, mkPendingFinalized b (Some (block_digest b)) 0%N) demo_chain.
Definition demo_db : FinalizerState := mkFinalizerState (Some (λ _, None, λ _, None)) false.

Definition okb {A} (o : option A) : bool := match o with Some _ => true | None => false end.
Lemma demo_chain_runs :
  okb (for_each (next_data Genesis.Demo.demo_consts Genesis.Demo.demo_domain demo_key) Genesis.Demo.demo_data demo_chain) = true.
Proof. vm_compute. reflexivity. Qed.

(** The chain of the demonstration, from a state at genesis. *)
Lemma demo_is_chain : ∃ s send : ConsensusState SszStateTree,
  reachable s ∧ steady Genesis.Demo.demo_consts s ∧
  chain_from Genesis.Demo.demo_consts Genesis.Demo.demo_domain demo_key s demo_chain send.
Proof.
  destruct Genesis.Demo.demo_start as (s & Hr & Hst & Hd). pose proof demo_chain_runs as Hrun. rewrite <-Hd in Hrun.
  destruct (for_each _ _ _) as [d|] eqn:E; [|done].
  destruct (chain_of_data _ _ _ demo_chain s d Hr Hst E) as (send & Hch & _). by exists s, send.
Qed.
Definition demo_known (b : Block) : Prop := b ∈ demo_chain.
Lemma demo_known_u64 b : demo_known b → is_u64 (block_height b).
Proof.
  intros Hb. assert (forallb (λ b, (0 <=? block_height b)%Z && (block_height b <=? u64_max)%Z) demo_chain = true) as Hall
    by (vm_compute; reflexivity).
  rewrite forallb_forall in Hall. specialize (Hall b). rewrite <-list_elem_of_In in Hall. specialize (Hall Hb). unfold is_u64. lia.
Qed.
Lemma nodup_inj {A B} (g : A → B) (l : list A) a b : NoDup (g <$> l) → a ∈ l → b ∈ l → g a = g b → a = b.
Proof.
  intros Hnd [i Hi]%list_elem_of_lookup [j Hj]%list_elem_of_lookup E.
  assert (i = j) as ->; [|congruence].
  eapply (NoDup_lookup _ i j (g a) Hnd); rewrite list_lookup_fmap; [by rewrite Hi|by rewrite Hj, E].
Qed.
Lemma demo_known_inj b1 b2 : demo_known b1 → demo_known b2 → block_digest b1 = block_digest b2 → b1 = b2.
Proof. apply nodup_inj. apply (bool_decide_unpack _). vm_compute. exact I. Qed.
Lemma demo_running : running demo_db.
Proof. by eexists. Qed.
Lemma demo_services : services_up demo_cfg.
Proof.
  split; intros; [by eexists|by eexists|apply toy_store_up|].
  unfold derive_child_public. cbn [decompress ObserverKeys.Toy.toy_curve mbind option_bind].
  match goal with |- is_Some (decode_public (compress ?p)) => destruct p end; by eexists.
Qed.
Lemma demo_entries_chain : map pf_block demo_entries = demo_chain ∧ Forall certified demo_entries.
Proof.
  unfold demo_entries. rewrite map_map, map_id. split; [done|]. apply Forall_map, Forall_forall. intros b _. by eexists.
Qed.


(** The run of the demonstration, for the properties of every run. *)
Lemma demo_finalizer_run s send :
  reachable s → steady Genesis.Demo.demo_consts s →
  chain_from Genesis.Demo.demo_consts Genesis.Demo.demo_domain demo_key s demo_chain send →
  ∃ f', run demo_cfg (NotifyAtHeight 3 (Genesis.Demo.demo_digest 3) 7%N :: map receive demo_entries)
          (finalizer_new Genesis.Demo.demo_engine demo_db s) = Some (f', Ok ()).
Proof.
  intros Hr Hst Hch. destruct demo_entries_chain as [He1 He2].
  destruct (runs_run demo_cfg s demo_chain demo_known Hr Hst demo_services
    (NotifyAtHeight 3 (Genesis.Demo.demo_digest 3) 7%N :: map receive demo_entries)
    (finalizer_new Genesis.Demo.demo_engine demo_db s) (λ _ _, True)
    (ready_new demo_cfg s demo_chain demo_known Genesis.Demo.demo_engine demo_db demo_running)) as (f' & [] & E & _); [|by exists f'].
  intros f1 Hrd1. exact (runs_loop_notify demo_cfg s demo_chain send demo_known Hr Hst Hch (λ b Hb, Hb) demo_known_u64
    demo_known_inj demo_services _ _ _ demo_entries 0 f1 Hrd1 He1 He2).
Qed.
Lemma demo_inputs_good :
  Forall (good_input demo_chain demo_known) (NotifyAtHeight 3 (Genesis.Demo.demo_digest 3) 7%N :: map receive demo_entries).
Proof.
  apply Forall_cons. split; [done|]. unfold demo_entries. rewrite map_map. apply Forall_map, Forall_forall. by intros b Hb.
Qed.

Lemma finalizer_follows_chain_witness : ∃ s f' n,
  run demo_cfg (NotifyAtHeight 3 (Genesis.Demo.demo_digest 3) 7%N :: map receive demo_entries)
    (finalizer_new Genesis.Demo.demo_engine demo_db s) = Some (f', Ok ()) ∧
  n ≤ length demo_chain ∧
  chain_from Genesis.Demo.demo_consts Genesis.Demo.demo_domain demo_key s (take n demo_chain) (canonical_state f').
Proof.
  destruct demo_is_chain as (s & send & Hr & Hst & Hch). destruct (demo_finalizer_run s send Hr Hst Hch) as [f' E].
  destruct (finalizer_follows_chain demo_cfg s demo_chain send demo_known Hr Hst Hch (λ b Hb, Hb) demo_known_u64 demo_known_inj
    Genesis.Demo.demo_engine demo_db _ f' demo_inputs_good E) as (n & Hn & Hc).
  exists s, f', n. split; [exact E|]. split; [exact Hn|exact Hc].
Defined.



(** A captured state and its checkpoint in the store. *)
Lemma demo_storable : ∃ s0 s : ConsensusState SszStateTree,
  storable 4 Block.ToyBlocks.demo_finalized (mkCheckpoint [] (sha256 [])) Block.ToyBlocks.demo_block s0 s 5.
Proof.
  destruct StateRun.Demo.demo_run as (s & s1 & _ & Hr & Hcap & _ & Hwf & _).
  destruct (reachable_coherent s Hr) as [_ [c Ht]]. rewrite (capture_state_root_eq s c 5 Ht) in Hcap.
  apply (inj Some) in Hcap as <-. exists s, (captured s 5). split.
  - unfold is_u64, u64_max. lia.
  - split; [exact Block.ToyBlocks.demo_fwf|]. split; [vm_compute; discriminate|].
    split; [exact I|]. split; [reflexivity|exact Block.ToyBlocks.demo_flen].
  - split; [reflexivity|vm_compute; reflexivity].
  - split; [exact Block.ToyBlocks.demo_header_wf|]. split; [exact Block.ToyBlocks.demo_bound|exact Block.ToyBlocks.demo_len].
  - done.
Qed.
Lemma demo_empty tracker e : tracked (λ _, None) tracker e.
Proof. by intros bs e0. Qed.
Lemma demo_holds : holds_store demo_db (λ _, None) (λ _, None).
Proof. by eexists. Qed.
Lemma store_epoch_up e fh cp b (s : ConsensusState SszStateTree) db :
  running db → ∃ db', store_epoch e fh cp b s db = Some (db', Ok ()).
Proof.
  intros Hr. unfold store_epoch, DB_try, mbind, DB_bind, mret, DB_ret.
  destruct (store_tracked_up toy_store_up (make_finalized_header_key e) LATEST_FINALIZED_HEADER_EPOCH_KEY e
    (VFinalizedHeader fh) db Hr) as (db1 & E1 & Hr1). unfold store_finalized_header. rewrite E1.
  destruct (store_tracked_up toy_store_up (make_checkpoint_key e) LATEST_CHECKPOINT_EPOCH_KEY e
    (VCheckpoint cp b) db1 Hr1) as (db2 & E2 & Hr2). unfold store_finalized_checkpoint. rewrite E2.
  destruct (store_tracked_up toy_store_up (make_consensus_state_key (e + 1)) LATEST_CONSENSUS_STATE_EPOCH_KEY (e + 1)
    (VConsensusState s) db2 Hr2) as (db3 & E3 & _). unfold store_consensus_state. by exists db3.
Qed.

Lemma epoch_commit_is_atomic_witness : ∃ (s : ConsensusState SszStateTree) db1 db2,
  store_epoch 4 Block.ToyBlocks.demo_finalized (mkCheckpoint [] (sha256 [])) Block.ToyBlocks.demo_block s demo_db = Some (db1, Ok ()) ∧
  commit db1 = Some (db2, Ok ()) ∧
  get_latest_consensus_state (restart_db db2) = Some (restart_db db2, Some (restarted s)).
Proof.
  destruct demo_storable as (s0 & s & Hso).
  destruct (store_epoch_up 4 Block.ToyBlocks.demo_finalized (mkCheckpoint [] (sha256 [])) Block.ToyBlocks.demo_block s
    demo_db demo_running) as [db1 E1].
  destruct (epoch_commit_is_atomic 4 _ _ _ s0 s 5 demo_db db1 _ _ Hso demo_holds (demo_empty _ _) (demo_empty _ _) (demo_empty _ _) E1)
    as [(st & Est & _) Hcommit].
  assert (running db1) as Hr1 by (destruct (store db1) eqn:Es1; [by eexists|unfold restart_db in Est; by rewrite Es1 in Est]).
  destruct (commit_up toy_store_up db1 Hr1) as (db2 & E2 & Hr2). exists s, db1, db2.
  split; [exact E1|]. split; [exact E2|]. apply (Hcommit db2 E2). destruct Hr2 as [st2 Es2].
  exists (reopen st2). split; [unfold restart_db; by rewrite Es2|]. intros k. by eexists.
Defined.
