(* ===== verification/Application.v ===== *)
(** * Application: proposing and verifying blocks (application/src/actor.rs)

    The application builds a block on the parent consensus gives it, and votes on the
    blocks of others.  Both ask the finalizer for the auxiliary data of a block on that
    parent ([FinalizerRun.handle_aux_data]).  What the syncer, the finalizer and the clock
    answer are arguments here; the execution client builds payloads ([BuilderClient]). *)
From S2P Require Import Prelude BTree Codec Crypto Epocher Withdrawal SszHash ConsensusState StateCodec Block Execution FinalizerRun.

Record Round := mkRound {
  round_epoch : Z;
  round_view : Z
}.

(** The fields of the payload that voting reads; [None] is a malformed [extraData]. *)
Class PayloadLib `{BlockLib} := {
  fee_recipient : Payload → bytes;
  prev_randao : Payload → bytes;
  blob_gas_used : Payload → Z;
  payload_timestamp_millis : Payload → option Z
}.
(** Building payloads (trait [EngineClient]). *)
Class BuilderClient `{EngineClient} := {
  PayloadId : Type;
  start_building_block : Engine → ForkchoiceState → Z → list Withdrawal → bytes → option bytes →
    Engine * result EngineClientError (option PayloadId);
  get_payload : Engine → PayloadId → Engine * result EngineClientError (Payload * list bytes)
}.

Section application.
Context `{Hc : Crypto} `{Hb : BlockLib} `{Hp : !PayloadLib} `{He : !EngineClient} `{Hu : !BuilderClient}.

(** ** Sizes *)
Definition block_encode_size (b : Block) : Z := 
  (4 + Z.of_nat (length (block_ssz (header b) (payload b) (execution_requests b))))%Z.
Definition max_block_size_bytes (max_message_size_bytes : Z) : Z := (max_message_size_bytes / 2)%Z.
Definition block_size_limit_violation (b : Block) (max_message_size_bytes : Z) : option (Z * Z) :=
  let block_size_bytes := block_encode_size b in
  let max_block_size_bytes := max_block_size_bytes max_message_size_bytes in
  if (block_size_bytes <? max_block_size_bytes)%Z then None else Some (block_size_bytes, max_block_size_bytes).

(** ** Timestamps *)
Definition proposal_timestamp_wait (now_millis min_child_timestamp allowed_timestamp_future_ms : Z) : Z :=
  let max_allowed_timestamp := saturating_add now_millis allowed_timestamp_future_ms in
  saturating_sub min_child_timestamp max_allowed_timestamp.
Definition select_proposal_timestamp (now_millis min_child_timestamp : Z) : Z := Z.max now_millis min_child_timestamp.
Definition proposal_wait_exceeds_leader_window (wait leader_timeout : Z) : bool := (leader_timeout <? wait)%Z.

(** The readings of the clock, one per round of the loop; [None] when they run out. *)
Fixpoint proposal_timestamp (clock : list Z) (min_child_timestamp allowed_timestamp_future_ms : Z) : option Z :=
  match clock with
  | [] => None
  | now_millis :: clock =>
      let wait := proposal_timestamp_wait now_millis min_child_timestamp allowed_timestamp_future_ms in
      if (wait =? 0)%Z then Some (select_proposal_timestamp now_millis min_child_timestamp)
      else proposal_timestamp clock min_child_timestamp allowed_timestamp_future_ms
  end.

(** ** Requests *)
Definition request_type (req : bytes) : Z := match req with [] => 0 | t :: _ => byte_to_u8 t end.
Definition request_le (r1 r2 : bytes) : Prop := (request_type r1 ≤ request_type r2)%Z.
#[global] Instance request_le_dec : RelDecision request_le.
Proof. intros r1 r2. unfold request_le. apply _. Defined.
Fixpoint requests_ascending_from (prev : option Z) (requests : list bytes) : bool :=
  match requests with
  | [] => true
  | req :: requests =>
      if length req <=? 1 then false else
      let request_type := request_type req in
      if (match prev with Some p => (request_type <=? p)%Z | None => false end) then false
      else requests_ascending_from (Some request_type) requests
  end.
Definition execution_requests_ascending (requests : list bytes) : bool := requests_ascending_from None requests.

(** ** Proposing *)
Record AppConfig := mkAppConfig {
  app_genesis_hash : bytes;
  max_message_size_bytes : Z;
  leader_timeout : Z
}.
Inductive ProposalError :=
| SubscriptionCanceled | OutdatedHeight | OutdatedAuxData | WrongEpoch | TooLarge | TimestampOverflow
| WaitExceedsLeader | BuildFailed (e : EngineClientError) | NoPayload | GetPayloadFailed (e : EngineClientError).

(** The parent: the genesis block or the answer of the syncer. *)
Definition parent_block (cfg : AppConfig) (parent_digest : bytes) (subscribed : option Block) : option Block :=
  if bool_decide (parent_digest = app_genesis_hash cfg) then Some (genesis (app_genesis_hash cfg)) else subscribed.

(** [None] is a panic: an unknown epoch, or a clock that stops. *)
Definition handle_proposal (cfg : AppConfig) (epocher : DynamicEpocher) (round : Round) (parent_digest : bytes)
    (subscribed : option Block) (parent_executed : bool) (aux_data : option BlockAuxData) (initial_now : Z)
    (clock : list Z) (engine : Engine) : option (Engine * result ProposalError Block) :=
  match parent_block cfg parent_digest subscribed with
  | None => Some (engine, Err SubscriptionCanceled)
  | Some parent =>
      if negb parent_executed then Some (engine, Err OutdatedHeight) else
      match aux_data with
      | None => Some (engine, Err OutdatedAuxData)
      | Some aux =>
          if negb (aux_epoch aux =? round_epoch round)%Z then Some (engine, Err WrongEpoch) else
          last_in_epoch ← Epocher.last epocher (aux_epoch aux);
          if (block_height parent =? last_in_epoch)%Z then
            match block_size_limit_violation parent (max_message_size_bytes cfg) with
            | Some _ => Some (engine, Err TooLarge)
            | None => Some (engine, Ok parent)
            end
          else
          match checked_add (timestamp (header parent)) 1 with
          | None => Some (engine, Err TimestampOverflow)
          | Some min_child_timestamp =>
              let allowed := aux_allowed_timestamp_future_ms aux in
              if proposal_wait_exceeds_leader_window (proposal_timestamp_wait initial_now min_child_timestamp allowed)
                   (leader_timeout cfg)
              then Some (engine, Err WaitExceedsLeader) else
              current ← proposal_timestamp clock min_child_timestamp allowed;
              match start_building_block engine (aux_forkchoice aux) current (aux_withdrawals aux)
                      (suggested_fee_recipient aux) (Some (aux_state_root aux)) with
              | (engine, Err e) => Some (engine, Err (BuildFailed e))
              | (engine, Ok None) => Some (engine, Err NoPayload)
              | (engine, Ok (Some payload_id)) =>
                  match get_payload engine payload_id with
                  | (engine, Err e) => Some (engine, Err (GetPayloadFailed e))
                  | (engine, Ok (payload, requests)) =>
                      let block := compute_digest (block_digest parent) (wrapping_add (block_height parent) 1) current
                        payload (merge_sort request_le requests) (round_epoch round) (round_view round)
                        (aux_checkpoint_hash aux) (aux_header_hash aux) (aux_added_validators aux)
                        (aux_removed_validators aux) (aux_state_root aux) in
                      match block_size_limit_violation block (max_message_size_bytes cfg) with
                      | Some _ => Some (engine, Err TooLarge)
                      | None => Some (engine, Ok block)
                      end
                  end
              end
          end
      end
  end.

(** ** Verifying

    The checks on a block that is not the parent again, in order. *)
Definition verify_child (round : Round) (block parent : Block) (signed_parent_view last_in_epoch : Z)
    (aux_data : BlockAuxData) (now_millis : Z) : bool :=
  (if (signed_parent_view =? 0)%Z
   then (block_height parent =? 0)%Z || (wrapping_add (block_epoch parent) 1 =? round_epoch round)%Z
   else (block_epoch parent =? round_epoch round)%Z && (block_view parent =? signed_parent_view)%Z)
  && (block_height block <=? last_in_epoch)%Z
  && (block_view block =? round_view round)%Z
  && (block_epoch block =? round_epoch round)%Z
  && bool_decide (block_parent block = block_digest parent)
  && bool_decide (eth_parent_hash block = eth_block_hash parent)
  && (block_height block =? wrapping_add (block_height parent) 1)%Z
  && (timestamp (header parent) <? timestamp (header block))%Z
  && (timestamp (header block) <=? wrapping_add now_millis (aux_allowed_timestamp_future_ms aux_data))%Z
  && bool_decide (prev_epoch_header_hash (header block) = aux_header_hash aux_data)
  && (block_number (payload block) =? block_height block)%Z
  && match payload_timestamp_millis (payload block) with
     | Some t => (t =? timestamp (header block))%Z | None => false end
  && bool_decide (parent_beacon_block_root (header block) = aux_state_root aux_data)
  && (bool_decide (aux_treasury_address aux_data = zero_bytes 20)
      || bool_decide (fee_recipient (payload block) = aux_treasury_address aux_data))
  && bool_decide (checkpoint_hash (header block) = default (zero_bytes 32) (aux_checkpoint_hash aux_data))
  && bool_decide (h_added_validators (header block) = aux_added_validators aux_data)
  && bool_decide (h_removed_validators (header block) = aux_removed_validators aux_data)
  && bool_decide (payload_withdrawals (payload block) = aux_withdrawals aux_data)
  && execution_requests_ascending (execution_requests block)
  && bool_decide (prev_randao (payload block) = zero_bytes 32)
  && negb (0 <? blob_gas_used (payload block))%Z.
Definition handle_verify (round : Round) (block parent : Block) (signed_parent_view : Z) (epocher : DynamicEpocher)
    (aux_data : BlockAuxData) (now_millis max_message_size_bytes : Z) : option bool :=
  if negb (round_epoch round =? aux_epoch aux_data)%Z then Some false else
  match block_size_limit_violation block max_message_size_bytes with
  | Some _ => Some false
  | None =>
      last_in_epoch ← Epocher.last epocher (aux_epoch aux_data);
      if bool_decide (block_digest parent = block_digest block) then Some (block_height block =? last_in_epoch)%Z
      else Some (verify_child round block parent signed_parent_view last_in_epoch aux_data now_millis)
  end.

(** [Message::Verify] after the blocks have arrived. *)
Definition verify (round : Round) (block parent : Block) (signed_parent_view : Z) (epocher : DynamicEpocher)
    (parent_confirmed : bool) (aux_data : option BlockAuxData) (now_millis max_message_size_bytes : Z) : option bool :=
  if negb parent_confirmed then Some false else
  match aux_data with
  | Some aux_data => handle_verify round block parent signed_parent_view epocher aux_data now_millis max_message_size_bytes
  | None => Some false
  end.

(** [Message::Certify]: the answers of the client until it is not syncing; [None] when the
    durability barrier of the syncer is closed or the client never answers. *)
Fixpoint check_until (fuel : nat) (engine : Engine) (block : Block) : option (Engine * bool) :=
  match fuel with
  | 0 => None
  | S fuel =>
      match check_payload engine block with
      | (engine, Err _) => Some (engine, false)
      | (engine, Ok status) => if is_syncing status then check_until fuel engine block else Some (engine, is_valid status)
      end
  end.
Definition certify (cfg : AppConfig) (block : Block) (parent_confirmed durable : bool) (fuel : nat) (engine : Engine)
  : option (Engine * option bool) :=
  match block_size_limit_violation block (max_message_size_bytes cfg) with
  | Some _ => Some (engine, Some false)
  | None =>
      if negb (bool_decide (block_parent block = app_genesis_hash cfg)) && negb parent_confirmed
      then Some (engine, Some false) else
      r ← check_until fuel engine block;
      let '(engine, valid) := r in
      Some (engine, if valid : bool then if durable then Some true else None else Some false)
  end.
End application.
