(* ===== verification/ApplicationFacts.v ===== *)
(** * ApplicationFacts: proposers, verifiers and the finalizer agree

    A block built from the auxiliary data of a state passes the vote of every node that
    has the same state, and a block that passed the vote is one the state executes. *)
From S2P Require Import Prelude BTree Codec Crypto Epocher Account Withdrawal SszHash SszStateTree SszStateTreeFacts.
From S2P Require Import ConsensusState StateSync StateCodec StateRun Block Execution ExecutionFacts.
From S2P Require Import CheckpointFacts ObserverKeys Db Finalizer FinalizerRun FinalizerFacts Application.

Section facts.
Context `{Hc : Crypto} `{!CryptoOk} `{Hl : SszLib} `{!SszLibOk} `{Hb : BlockLib} `{Hp : !PayloadLib}.
Context `{He : !EngineClient} `{Hu : !BuilderClient}.

(** ** Timestamps *)
Lemma wait_zero now m allowed :
  proposal_timestamp_wait now m allowed = 0%Z → (m ≤ saturating_add now allowed)%Z.
Proof. unfold proposal_timestamp_wait, saturating_sub. lia. Qed.
Lemma proposal_timestamp_spec clock m allowed t :
  Forall is_u64 clock → (0 ≤ allowed)%Z → proposal_timestamp clock m allowed = Some t →
  ∃ now, now ∈ clock ∧ (m ≤ t)%Z ∧ (t ≤ saturating_add now allowed)%Z.
Proof.
  intros Hck Ha. induction Hck as [|now clock Hn _ IH]; cbn [proposal_timestamp]; [done|].
  destruct (Z.eqb_spec (proposal_timestamp_wait now m allowed) 0) as [E|_].
  - intros [= <-]. exists now. apply wait_zero in E. unfold select_proposal_timestamp, is_u64 in *.
    split; [by left|]. unfold saturating_add in *. lia.
  - intros (now' & Hin & H1 & H2)%IH. exists now'. split; [by right|done].
Qed.
(** Sleeping for the wait is enough: the loop ends on the second reading. *)
Lemma proposal_timestamp_ends now now' rest m allowed :
  is_u64 m → (now + proposal_timestamp_wait now m allowed ≤ now')%Z →
  is_Some (proposal_timestamp (now :: now' :: rest) m allowed).
Proof.
  intros Hm Hn. cbn [proposal_timestamp]. destruct (Z.eqb_spec (proposal_timestamp_wait now m allowed) 0); [by eexists|].
  replace (proposal_timestamp_wait now' m allowed) with 0%Z; [by eexists|].
  unfold proposal_timestamp_wait, saturating_sub, saturating_add, is_u64 in *. lia.
Qed.

(** ** Requests *)
Definition types_distinct (requests : list bytes) : Prop :=
  NoDup (request_type <$> requests) ∧ Forall (λ r, 1 < length r) requests.
Lemma ascending_from prev l :
  StronglySorted request_le l → types_distinct l → (∀ p, prev = Some p → Forall (λ r, (p < request_type r)%Z) l) →
  requests_ascending_from prev l = true.
Proof.
  intros Hs. revert prev. induction Hs as [|r l Hs IH Hf]; intros prev [Hnd Hlen] Hprev; [done|].
  apply NoDup_cons in Hnd as [Hnin Hnd]. apply Forall_cons in Hlen as [Hr Hlen]. cbn [requests_ascending_from].
  rewrite (proj2 (Nat.leb_gt _ _)) by done.
  assert ((match prev with Some p => (request_type r <=? p)%Z | None => false end) = false) as ->.
  { destruct prev as [p|]; [|done]. specialize (Hprev p eq_refl). apply Forall_cons in Hprev as [? _]. lia. }
  apply IH; [done|]. intros p [= <-]. rewrite Forall_forall in *. intros r' Hr'.
  specialize (Hf r' Hr'). unfold request_le in Hf. destruct (decide (request_type r = request_type r')) as [E|]; [|lia].
  exfalso. apply Hnin. rewrite E. by apply list_elem_of_fmap_2.
Qed.
#[local] Instance request_le_total : Total request_le.
Proof. intros r1 r2. unfold request_le. lia. Qed.
#[local] Instance request_le_trans : Transitive request_le.
Proof. intros r1 r2 r3. unfold request_le. lia. Qed.
Lemma sorted_requests_ascend rs : types_distinct rs → execution_requests_ascending (merge_sort request_le rs) = true.
Proof.
  intros [Hnd Hlen]. apply ascending_from; [apply StronglySorted_merge_sort; apply _| |done].
  split; [by rewrite merge_sort_Permutation|by rewrite merge_sort_Permutation].
Qed.

(** The payload the client was asked for: on top of the head, at this time, with these
    withdrawals, no randomness, no blobs, and at most one request list per type. *)
Record built_for (head : bytes) (number current : Z) (ws : list Withdrawal) (fee : bytes)
    (p : Payload) (requests : list bytes) : Prop := {
  bu_parent : parent_hash p = head;
  bu_number : block_number p = number;
  bu_time : payload_timestamp_millis p = Some current;
  bu_withdrawals : payload_withdrawals p = ws;
  bu_fee : fee_recipient p = fee;
  bu_randao : prev_randao p = zero_bytes 32;
  bu_blobs : blob_gas_used p = 0%Z;
  bu_requests : types_distinct requests
}.

(** The node and the round a block on [parent] is proposed in. *)
Record proposal_context (round : Round) (parent : Block) (aux : BlockAuxData) (signed_parent_view last_in_epoch now now' : Z)
  : Prop := {
  pc_parent : is_u64 (timestamp (header parent)) ∧ (0 ≤ block_height parent < last_in_epoch)%Z ∧ (last_in_epoch ≤ u64_max)%Z;
  pc_view : if (signed_parent_view =? 0)%Z then block_height parent = 0%Z ∨ wrapping_add (block_epoch parent) 1 = round_epoch round
    else block_epoch parent = round_epoch round ∧ block_view parent = signed_parent_view;
  pc_head : head_block_hash (aux_forkchoice aux) = eth_block_hash parent;
  pc_fee : aux_treasury_address aux ≠ zero_bytes 20 → suggested_fee_recipient aux = aux_treasury_address aux;
  (** The verifier's clock is not behind and does not overflow. *)
  pc_clock : (now ≤ now')%Z ∧ is_u64 (now' + aux_allowed_timestamp_future_ms aux) ∧ (0 ≤ aux_allowed_timestamp_future_ms aux)%Z
}.

Lemma saturating_le now now' a t : (now ≤ now')%Z → is_u64 (now' + a) → (0 ≤ a)%Z → (t ≤ saturating_add now a)%Z →
  (t ≤ wrapping_add now' a)%Z.
Proof. intros H1 H2 H3. rewrite wrapping_add_small by done. unfold saturating_add, is_u64 in *. lia. Qed.

(** A block built from the data passes every check. *)
Lemma child_verifies round parent aux spv last now now' current p requests :
  proposal_context round parent aux spv last now now' →
  (timestamp (header parent) < current)%Z → (current ≤ saturating_add now (aux_allowed_timestamp_future_ms aux))%Z →
  built_for (head_block_hash (aux_forkchoice aux)) (block_height parent + 1) current (aux_withdrawals aux)
    (suggested_fee_recipient aux) p requests →
  verify_child round (compute_digest (block_digest parent) (wrapping_add (block_height parent) 1) current p
      (merge_sort request_le requests) (round_epoch round) (round_view round) (aux_checkpoint_hash aux) (aux_header_hash aux)
      (aux_added_validators aux) (aux_removed_validators aux) (aux_state_root aux)) parent spv last aux now' = true.
Proof.
  intros [(Ht & Hh1 & Hh2) Hview Hhead Hfee (Hc1 & Hc2 & Hc3)] Hlt Hle [Bp Bn Bt Bw Bf Br Bb Bq].
  assert (is_u64 (block_height parent + 1)) as Hhu by (unfold is_u64; lia).
  set (b := compute_digest _ _ _ _ _ _ _ _ _ _ _ _).
  assert (block_height b = (block_height parent + 1)%Z) as Ehb by (change (block_height b) with (wrapping_add (block_height parent) 1);
    by apply wrapping_add_small).
  unfold verify_child. rewrite Ehb. rewrite !andb_true_iff, !bool_decide_eq_true.
  split_and!; try reflexivity; try (apply Z.eqb_eq; reflexivity).
  all: try (change (payload b) with p); try (change (timestamp (header b)) with current).
  - destruct (spv =? 0)%Z; [apply orb_true_iff|apply andb_true_iff]; rewrite !Z.eqb_eq; done.
  - lia.
  - change (eth_parent_hash b) with (parent_hash p). congruence.
  - rewrite wrapping_add_small by done. apply Z.eqb_refl.
  - lia.
  - apply Z.leb_le. by eapply saturating_le.
  - rewrite Bn. apply Z.eqb_refl.
  - rewrite Bt. apply Z.eqb_refl.
  - apply orb_true_iff. rewrite !bool_decide_eq_true. destruct (decide (aux_treasury_address aux = zero_bytes 20)); [by left|right].
    rewrite Bf. by apply Hfee.
  - done.
  - by apply sorted_requests_ascend.
  - done.
  - by rewrite Bb.
Qed.


(** ** From the vote to the execution *)
Context `{Hk : KvStore}.

(** What the checks give. *)
Lemma verify_child_spec round b parent spv last aux now :
  verify_child round b parent spv last aux now = true →
  block_parent b = block_digest parent ∧ block_epoch b = round_epoch round ∧
  block_height b = wrapping_add (block_height parent) 1 ∧ (block_height b ≤ last)%Z ∧
  payload_withdrawals (payload b) = aux_withdrawals aux ∧ block_number (payload b) = block_height b ∧
  eth_parent_hash b = eth_block_hash parent ∧
  checkpoint_hash (header b) = default (zero_bytes 32) (aux_checkpoint_hash aux) ∧
  prev_epoch_header_hash (header b) = aux_header_hash aux ∧ h_added_validators (header b) = aux_added_validators aux ∧
  h_removed_validators (header b) = aux_removed_validators aux.
Proof.
  unfold verify_child. rewrite !andb_true_iff, !bool_decide_eq_true, !Z.eqb_eq, !Z.leb_le. intros Hv. by destruct_and! Hv.
Qed.

(** The data the finalizer gave: the epoch and the withdrawals of the parent's state. *)
Lemma aux_data_spec cfg h d (f f' : Finalizer) aux s :
  handle_aux_data cfg h d f = Some (f', Ok (Some aux)) → aux_state f (wrapping_sub h 1) d = Some s →
  epocher s = epocher (canonical_state f) →
  aux_epoch aux = epoch s ∧ expected_withdrawals s h = Some (aux_withdrawals aux) ∧ aux_state_root aux = state_root s ∧
  head_block_hash (aux_forkchoice aux) = head_block_hash (forkchoice s).
Proof.
  unfold handle_aux_data, mbind, F_bind, get, expect, mret, F_ret. intros E Hs Hep. rewrite Hs, <-Hep in E.
  unfold expected_withdrawals. destruct (is_last_block_of_epoch _ h) as [[]|]; [..|done]; cbn [mbind option_bind].
  - destruct (pending_checkpoint s) as [cp|]; [|done]. unfold lift_read in E.
    destruct (get_most_recent_finalized_header _) as [[db hd]|]; [|done]. by injection E as _ <-.
  - by injection E as _ <-.
Qed.

(** What a header carries for the verifiers of checkpoints. *)
Definition carries (cfg : FinalizerConfig) (f : Finalizer (T:=SszStateTree)) (s : ConsensusState SszStateTree) (b : Block) : Prop :=
  match is_last_block_of_epoch (epocher s) (block_height b) with
  | Some true => ∃ cp db recent, pending_checkpoint s = Some cp ∧
      get_most_recent_finalized_header (T:=SszStateTree) (f_db f) = Some (db, recent) ∧
      ∀ hs, list.last hs = recent → announces (cfg_genesis_hash cfg) hs s cp (header b)
  | Some false => prev_epoch_header_hash (header b) = zero_bytes 32
  | None => False
  end.
Lemma voted_block_carries cfg d (f f' : Finalizer) round b parent spv last aux now s :
  handle_aux_data cfg (block_height b) d f = Some (f', Ok (Some aux)) →
  aux_state f (wrapping_sub (block_height b) 1) d = Some s → epocher s = epocher (canonical_state f) →
  verify_child round b parent spv last aux now = true → carries cfg f s b.
Proof.
  intros E Hs Hep (_ & _ & _ & _ & _ & _ & _ & Vc & Vh & Va & Vr)%verify_child_spec.
  unfold handle_aux_data, mbind, F_bind, get, expect, mret, F_ret in E. rewrite Hs, <-Hep in E. unfold carries.
  destruct (is_last_block_of_epoch _ _) as [[]|]; [..|done].
  - destruct (pending_checkpoint s) as [cp|]; [|done]. unfold lift_read in E.
    destruct (get_most_recent_finalized_header _) as [[db recent]|]; [|done]. injection E as _ <-.
    exists cp, db, recent. split_and!; [done..|]. intros hs Hlast. split; [|done..]. unfold tip. by rewrite Hlast.
  - injection E as _ <-. exact Vh.
Qed.

(** The data of a block that does not end its epoch. *)
Definition plain_aux (cfg : FinalizerConfig) (f : Finalizer (T:=SszStateTree)) (s : ConsensusState SszStateTree) : BlockAuxData :=
  let finalized := finalized_block_hash (forkchoice (canonical_state f)) in
  mkBlockAuxData (epoch s) [] None (zero_bytes 32) [] []
    (mkForkchoiceState (head_block_hash (forkchoice s)) finalized finalized)
    (if bool_decide (treasury_address s = zero_bytes 20)
     then match get_account s (cfg_node_public_key cfg) with Some a => withdrawal_credentials a | None => zero_bytes 20 end
     else treasury_address s) (treasury_address s) (state_root s) (allowed_timestamp_future_ms s).
Lemma plain_aux_data cfg h d f s :
  aux_state f (wrapping_sub h 1) d = Some s → is_last_block_of_epoch (epocher (canonical_state f)) h = Some false →
  handle_aux_data cfg h d f = Some (f, Ok (Some (plain_aux cfg f s))).
Proof. intros Hs Hl1. unfold handle_aux_data, mbind, F_bind, get, expect, mret, F_ret. by rewrite Hs, Hl1. Qed.
Lemma handle_verify_child round b parent spv ep aux now max last :
  round_epoch round = aux_epoch aux → (block_encode_size b < max / 2)%Z → Epocher.last ep (aux_epoch aux) = Some last →
  block_digest parent ≠ block_digest b → verify_child round b parent spv last aux now = true →
  handle_verify round b parent spv ep aux now max = Some true.
Proof.
  intros He1 Hsz El Hd Hv. unfold handle_verify, block_size_limit_violation, max_block_size_bytes.
  rewrite (proj2 (Z.eqb_eq _ _) He1). simpl negb. cbv iota. rewrite (proj2 (Z.ltb_lt _ _) Hsz), El. cbn [mbind option_bind].
  rewrite bool_decide_false by done. by rewrite Hv.
Qed.

(** C4: A block that passed the vote is executed.  Let a node vote for a new block with
    the auxiliary data its finalizer computed for the parent's state.  If the execution
    client accepts the block, executing it on that state returns [Applied] -- the epoch,
    the parent, the height and the withdrawals the vote checked are exactly those the
    execution insists on -- and the new head is the block.  If it ends its epoch its
    header announces the pending checkpoint, the committee changes and the previous
    finalized header, which is what the verifiers of checkpoints rely on. *)
Theorem verified_block_is_executed cfg (f f' : Finalizer) round b parent spv aux now max s engine e1 e2 fin domain :
  handle_aux_data cfg (wrapping_add (block_height parent) 1) (block_digest parent) f = Some (f', Ok (Some aux)) →
  aux_state f (block_height parent) (block_digest parent) = Some s → epocher s = epocher (canonical_state f) →
  reachable s → steady (protocol_consts cfg) s → latest_height s = block_height parent → head_digest s = block_digest parent →
  handle_verify round b parent spv (epocher s) aux now max = Some true → block_digest parent ≠ block_digest b →
  capacity (protocol_consts cfg) b s →
  check_payload engine b = (e1, Ok VALID) →
  commit_hash e1 (mkForkchoiceState (eth_block_hash b) (default (eth_block_hash b) fin) (default (eth_block_hash b) fin)) = (e2, Ok VALID) →
  ∃ s', execute_block engine b s (protocol_consts cfg) domain fin = Some (e2, Ok Applied, s') ∧
    block_parent b = head_digest s ∧ reachable s' ∧ applied b s s' ∧ carries cfg f s b.
Proof.
  intros Haux Hs Hep Hr Hst Hlat Hhd Hv Hne Hcap Hch Hco.
  assert (0 ≤ latest_height s < u64_max)%Z as Hu64.
  { destruct Hst as (first & last & Hck & Hlt & _). pose proof (ck_height _ _ _ Hck). pose proof (ck_last _ _ _ Hck). lia. }
  assert (wrapping_add (block_height parent) 1 = latest_height s + 1)%Z as Eh by (rewrite wrapping_add_small by u64_solve; lia).
  destruct (aux_data_spec cfg _ _ f f' aux s Haux) as (Ae & Aw & _ & _); [|done|].
  { rewrite Eh, wrapping_sub_small by u64_solve. by rewrite Hlat, Z.add_simpl_r. }
  unfold handle_verify in Hv. destruct (Z.eqb_spec (round_epoch round) (aux_epoch aux)) as [Hre|]; [|done]. simpl negb in Hv. cbv iota in Hv.
  destruct (block_size_limit_violation b max); [done|]. apply bind_Some in Hv as (last & _ & Hv).
  rewrite bool_decide_false in Hv by done. apply (inj Some) in Hv.
  pose proof (verify_child_spec _ _ _ _ _ _ _ Hv) as (Vp & Ve & Vh & _ & Vw & _).
  assert (carries cfg f s b) as Hca.
  { eapply voted_block_carries; [by rewrite Vh| |done|done]. rewrite Vh, Eh, wrapping_sub_small by u64_solve.
    by rewrite Hlat, Z.add_simpl_r. }
  rewrite Eh in Vh, Aw. rewrite <-Vh in Aw.
  assert (extends b s) as Hex by (split; [done|by rewrite Aw, Vw]).
  destruct (apply_block_total (protocol_consts cfg) domain b s Hr Hst Hex Hcap) as (s' & Ea & Hr' & Hap & _).
  exists s'. split; [|by split_and!; [congruence|..]]. unfold execute_block.
  rewrite (proj2 (Z.eqb_eq _ _)) by congruence. simpl negb. cbv iota. rewrite Hch. cbv zeta. simpl.
  rewrite (ex_withdrawals _ _ Hex). cbn [mbind option_bind]. rewrite bool_decide_true by done. simpl.
  unfold commit_forkchoice. rewrite Hco. simpl. by rewrite Ea.
Qed.
End facts.
