(* ===== verification/ApplicationDemo.v ===== *)
(** * ApplicationDemo: a proposal and a vote on concrete blocks *)
From S2P Require Import Prelude Codec Crypto BTree Epocher Account Withdrawal SszHash SszStateTree SszStateTreeFacts.
From S2P Require Import ConsensusState StateSync StateCodec StateRun Block Execution ExecutionFacts Genesis.
From S2P Require Import ObserverKeys Db DbFacts Finalizer FinalizerRun FinalizerFacts FinalizerDemo Application ApplicationFacts.

#[local] Existing Instance ToyCrypto.toy.
#[local] Existing Instance ToyCrypto.toy_ok.
#[local] Existing Instance StateRun.Demo.toy_ssz.
#[local] Existing Instance StateRun.Demo.toy_ssz_ok.
#[local] Existing Instance Block.ToyBlocks.toy_blocks.
#[local] Existing Instance Genesis.Demo.toy_engine.
#[local] Existing Instance FinalizerDemo.toy_store.

(** Payloads at second five, built for that time and no withdrawals. *)
#[local] Instance toy_payload : PayloadLib := {|
  fee_recipient _ := ascii_bytes Genesis.Demo.addr;
  prev_randao _ := zero_bytes 32;
  blob_gas_used _ := 0%Z;
  payload_timestamp_millis _ := Some 5000%Z
|}.
Definition demo_parent : Block :=
  compute_digest (zero_bytes 32) 3 1000 (u64_to_le_bytes 3) [] 0 3 None (zero_bytes 32) [] [] (zero_bytes 32).
Definition demo_payload : bytes := u64_to_le_bytes 4 ++ eth_block_hash demo_parent.
(** Two request lists out of order. *)
Definition demo_requests : list bytes := [ascii_bytes "bb"; ascii_bytes "aa"].
#[local] Instance toy_builder : BuilderClient := {|
  PayloadId := ();
  start_building_block e _ t ws _ _ := (e, Ok (if (t =? 5000)%Z && bool_decide (ws = []) then Some () else None));
  get_payload e _ := (e, Ok (demo_payload, demo_requests))
|}.
Definition demo_aux : BlockAuxData :=
  mkBlockAuxData 0 [] None (zero_bytes 32) [] []
    (mkForkchoiceState (eth_block_hash demo_parent) (zero_bytes 32) (zero_bytes 32))
    (ascii_bytes Genesis.Demo.addr) (ascii_bytes Genesis.Demo.addr) (zero_bytes 32) 10000.
Definition demo_app : AppConfig := mkAppConfig (ascii_bytes "genesis") 1000000 2000.
Definition demo_schedule : DynamicEpocher := Epocher.new 10.
Definition demo_round : Round := mkRound 0 4.
Definition demo_child : Block :=
  compute_digest (block_digest demo_parent) 4 5000 demo_payload [ascii_bytes "aa"; ascii_bytes "bb"] 0 4 None
    (zero_bytes 32) [] [] (zero_bytes 32).

Lemma demo_proposal :
  handle_proposal demo_app demo_schedule demo_round (block_digest demo_parent) (Some demo_parent) true (Some demo_aux)
    5000 [5000%Z] Genesis.Demo.demo_engine = Some (Genesis.Demo.demo_engine, Ok demo_child).
Proof. match goal with |- _ = ?r => vm_cast_no_check (eq_refl r) end. Qed.


(** ** The first block after genesis *)
Definition genesis_parent : Block := genesis (Genesis.Demo.demo_digest 0).
Definition first_payload : bytes := u64_to_le_bytes 1 ++ Genesis.Demo.demo_digest 0.
Definition first_block (aux : BlockAuxData) : Block :=
  let b := compute_digest (block_digest genesis_parent) (wrapping_add (block_height genesis_parent) 1) 5000 first_payload
    (merge_sort request_le []) 0 4 (aux_checkpoint_hash aux) (aux_header_hash aux) (aux_added_validators aux)
    (aux_removed_validators aux) (aux_state_root aux) in
  mkBlock ((header b) <| digest := Some (zero_bytes 32) |>) (payload b) (execution_requests b).
Definition fields_of {T} (s : ConsensusState T) :=
  (latest_height s, head_digest s, epoch s, forkchoice s, treasury_address s, allowed_timestamp_future_ms s,
   is_last_block_of_epoch (epocher s) 1, Epocher.last (epocher s) 0).
Lemma demo_fields :
  fields_of Genesis.Demo.demo_data
  = (0%Z, Genesis.Demo.demo_digest 0, 0%Z, mkForkchoiceState (Genesis.Demo.demo_digest 0) (Genesis.Demo.demo_digest 0) (Genesis.Demo.demo_digest 0),
     ascii_bytes Genesis.Demo.addr, 10000%Z, Some false, Some 9%Z).
Proof. vm_compute. reflexivity. Qed.
#[local] Notation demo_cfg := FinalizerDemo.demo_cfg.
#[local] Notation start s := (finalizer_new Genesis.Demo.demo_engine FinalizerDemo.demo_db s).
Definition first_aux (s : ConsensusState SszStateTree) : BlockAuxData := plain_aux demo_cfg (start s) s.
Definition first_round : Round := mkRound 0 4.

Section first.
Context (s : ConsensusState SszStateTree) (Hd : data_of s = Genesis.Demo.demo_data).
Lemma start_fields :
  latest_height s = 0%Z ∧ head_digest s = Genesis.Demo.demo_digest 0 ∧ epoch s = 0%Z ∧
  head_block_hash (forkchoice s) = Genesis.Demo.demo_digest 0 ∧ treasury_address s = ascii_bytes Genesis.Demo.addr ∧
  allowed_timestamp_future_ms s = 10000%Z ∧ is_last_block_of_epoch (epocher s) 1 = Some false ∧
  Epocher.last (epocher s) 0 = Some 9%Z.
Proof.
  pose proof demo_fields as E. rewrite <-Hd in E. change (fields_of (data_of s)) with (fields_of s) in E.
  unfold fields_of in E. injection E as E1 E2 E3 E4 E5 E6 E7 E8. rewrite E4. by split_and!.
Qed.
Lemma first_aux_data :
  handle_aux_data demo_cfg (wrapping_add (block_height genesis_parent) 1) (block_digest genesis_parent) (start s)
    = Some (start s, Ok (Some (first_aux s))).
Proof.
  destruct start_fields as (E1 & E2 & _ & _ & _ & _ & E7 & _). apply plain_aux_data; [|exact E7].
  change (wrapping_sub (wrapping_add (block_height genesis_parent) 1) 1) with 0%Z.
  unfold aux_state. simpl fork_states. simpl canonical_state. simpl BTree.get.
  rewrite E1. rewrite bool_decide_true by (rewrite E2; reflexivity). reflexivity.
Qed.
Lemma first_context : proposal_context first_round genesis_parent (first_aux s) 0 9 5000 5001.
Proof.
  destruct start_fields as (_ & _ & _ & E4 & E5 & E6 & _ & _).
  split; change (block_height genesis_parent) with 0%Z; unfold first_aux, plain_aux; simpl aux_forkchoice; 
    cbn [aux_allowed_timestamp_future_ms suggested_fee_recipient aux_treasury_address head_block_hash].
  - change (timestamp (header genesis_parent)) with 0%Z. unfold is_u64, u64_max. lia.
  - by left.
  - rewrite E4. reflexivity.
  - intros Ht. by rewrite bool_decide_false.
  - rewrite E6. unfold is_u64, u64_max. lia.
Qed.
Lemma first_built :
  built_for (head_block_hash (aux_forkchoice (first_aux s))) (block_height genesis_parent + 1) 5000
    (aux_withdrawals (first_aux s)) (suggested_fee_recipient (first_aux s)) first_payload [].
Proof.
  destruct start_fields as (_ & _ & _ & E4 & E5 & _). unfold first_aux, plain_aux.
  split; cbn [aux_forkchoice suggested_fee_recipient head_block_hash aux_withdrawals]; rewrite ?E4; try reflexivity.
  - rewrite bool_decide_false; [by rewrite E5|]. rewrite E5. vm_compute. discriminate.
  - split; [apply NoDup_nil_2|apply Forall_nil_2].
Qed.
Lemma first_verifies :
  handle_verify first_round (first_block (first_aux s)) genesis_parent 0 (epocher s) (first_aux s) 5001
    (2 * (block_encode_size (first_block (first_aux s)) + 1)) = Some true.
Proof.
  destruct start_fields as (_ & _ & E3 & _ & _ & E6 & _ & E8).
  apply (handle_verify_child _ _ _ _ _ _ _ _ 9).
  - symmetry. exact E3.
  - rewrite Z.mul_comm, Z.div_mul by done. lia.
  - change (aux_epoch (first_aux s)) with (epoch s). by rewrite E3.
  - vm_compute. discriminate.
  - apply (child_verifies first_round genesis_parent (first_aux s) 0 9 5000 5001 5000 first_payload [] first_context).
    + reflexivity.
    + change (aux_allowed_timestamp_future_ms (first_aux s)) with (allowed_timestamp_future_ms s). rewrite E6. vm_compute. discriminate.
    + exact first_built.
Qed.
End first.

Lemma verified_block_is_executed_witness :
  ∃ s : ConsensusState SszStateTree,
    data_of s = Genesis.Demo.demo_data ∧
    ∃ s', execute_block (T:=SszStateTree) Genesis.Demo.demo_engine (first_block (first_aux s)) s Genesis.Demo.demo_consts
        Genesis.Demo.demo_domain None = Some (Genesis.Demo.demo_engine, Ok Applied, s') ∧
      block_parent (first_block (first_aux s)) = head_digest s ∧ reachable s' ∧ applied (first_block (first_aux s)) s s' ∧
      carries demo_cfg (start s) s (first_block (first_aux s)).
Proof.
  destruct Genesis.Demo.demo_start as (s & Hr & Hst & Hd). exists s. split; [exact Hd|].
  destruct (start_fields s Hd) as (E1 & E2 & _).
  apply (verified_block_is_executed demo_cfg (start s) (start s) first_round (first_block (first_aux s)) genesis_parent 0
    (first_aux s) 5001 (2 * (block_encode_size (first_block (first_aux s)) + 1)) s Genesis.Demo.demo_engine
    Genesis.Demo.demo_engine Genesis.Demo.demo_engine None Genesis.Demo.demo_domain (first_aux_data s Hd)).
  - unfold aux_state. simpl fork_states. simpl canonical_state. simpl BTree.get.
    rewrite E1, bool_decide_true by (rewrite E2; reflexivity). reflexivity.
  - reflexivity.
  - exact Hr.
  - exact Hst.
  - rewrite E1. reflexivity.
  - rewrite E2. reflexivity.
  - exact (first_verifies s Hd).
  - vm_compute. discriminate.
  - enough (capacity Genesis.Demo.demo_consts (first_block (first_aux s)) (data_of s)) as [Hw Hi] by (by split).
    rewrite Hd. split; [simpl; unfold is_u64, u64_max; lia|vm_compute; reflexivity].
  - reflexivity.
  - reflexivity.
Defined.
