(* ===== verification/Startup.v ===== *)
(** * Startup: choosing the state a node starts from (finalizer/src/startup.rs)

    Before its actors start, a node compares what its database holds with the checkpoint
    it was given, if any: a checkpoint that is newer is staged, offered to the execution
    client and imported; one that is not is ignored; an import that a crash interrupted is
    completed first.  Operations thread the database and the execution client; [None] is
    a panic and [Err] the [Result] of the code, with its texts. *)
From S2P Require Import Prelude Codec Crypto BTree Epocher Account SszHash SszStateTree.
From S2P Require Import ConsensusState StateCodec Block Execution Genesis CheckpointChain Db.

(** The round a certificate was made in. *)
Class CertificateRounds `{BlockLib} := {
  certificate_epoch : Finalization → Z;
  certificate_view : Finalization → Z
}.

Section startup.
Context `{Hc : Crypto} `{Hl : SszLib} `{Hb : BlockLib} `{Hms : !MultisigLib} `{Hr : !CertificateRounds}.
Context `{He : !EngineClient} `{Hk : KvStore} {T : Type} `{HT : StateTree T}.
Notation state := (ConsensusState T).

Inductive StartupError :=
| DbFailed (e : DbError)
| EngineFailed (e : EngineClientError)
| CheckpointInvalid (e : Error)
| BlockInvalid (e : string)
| Rejected (text : string).
Notation Result := (result StartupError).

(** A computation that can panic or fail. *)
Definition Try (A : Type) : Type := option (Result A).
#[global] Instance Try_ret : MRet Try := λ A a, Some (Ok a).
#[global] Instance Try_bind : MBind Try := λ A B f c,
  match c with Some (Ok a) => f a | Some (Err e) => Some (Err e) | None => None end.
Definition panics {A} (o : option A) : Try A := Ok <$> o.
Definition ensure (b : bool) (text : string) : Try () := Some (if b then Ok () else Err (Rejected text)).

(** ** Effects *)
Definition St (A : Type) : Type := FinalizerState → Engine → option (FinalizerState * Engine * Result A).
#[global] Instance St_ret : MRet St := λ A a db e, Some (db, e, Ok a).
#[global] Instance St_bind : MBind St := λ A B f c db e,
  match c db e with
  | Some (db, e, Ok a) => f a db e
  | Some (db, e, Err x) => Some (db, e, Err x)
  | None => None
  end.
Definition db_try {A} (c : DB (result DbError A)) : St A := λ db e,
  match c db with
  | Some (db, Ok a) => Some (db, e, Ok a)
  | Some (db, Err x) => Some (db, e, Err (DbFailed x))
  | None => None
  end.
Definition db_read {A} (c : DB A) : St A := λ db e,
  match c db with Some (db, a) => Some (db, e, Ok a) | None => None end.
Definition pure_try {A} (r : Try A) : St A := λ db e,
  match r with Some r => Some (db, e, r) | None => None end.
Definition require (b : bool) (text : string) : St () := pure_try (ensure b text).
Definition client_commit (fc : ForkchoiceState) : St PayloadStatus := λ db e,
  match commit_hash e fc with
  | (e, Ok status) => Some (db, e, Ok status)
  | (e, Err x) => Some (db, e, Err (EngineFailed x))
  end.
Fixpoint each {A} (f : A → St ()) (l : list A) : St () :=
  match l with [] => mret () | a :: l => _ ← f a; each f l end.

(** ** History *)
Definition opt_list {A} (o : option A) : list A := match o with Some a => [a] | None => [] end.
Definition check_import (header : FinalizedHeader) (local : CheckpointImport) : St () :=
  let h := fh_header header in
  let l := fh_header (finalized_header local) in
  if (h_epoch l =? h_epoch h)%Z then
    require (bool_decide (computed_digest l = computed_digest h)) "checkpoint conflicts with imported history"
  else if bool_decide (checked_add (h_epoch l) 1 = Some (h_epoch h)) then
    require (bool_decide (prev_epoch_header_hash h = computed_digest l)) "checkpoint does not extend imported history"
  else mret ().
Definition check_header (locals : list CheckpointImport) (header : FinalizedHeader) : St () :=
  let h := fh_header header in
  local ← db_read (get_finalized_header (T:=T) (h_epoch h));
  _ ← match local with
      | Some local => require (bool_decide (computed_digest (fh_header local) = computed_digest h))
                        "checkpoint conflicts with local finalized history"
      | None => mret ()
      end;
  _ ← (if (1 <=? h_epoch h)%Z then
         local ← db_read (get_finalized_header (T:=T) (h_epoch h - 1));
         match local with
         | Some local => require (bool_decide (prev_epoch_header_hash h = computed_digest (fh_header local)))
                           "checkpoint does not extend local finalized history"
         | None => mret ()
         end
       else mret ());
  each (check_import header) locals.
Definition check_history (headers : list FinalizedHeader) : St () :=
  imported ← db_try (get_checkpoint_import (T:=T));
  pending ← db_try (get_pending_import (T:=T));
  _ ← each (check_header (opt_list imported ++ opt_list (snd <$> pending))) headers;
  db_try ensure_healthy.

(** ** The candidate *)
(** The checks on the terminal header, once the state is restored. *)
Definition check_terminal (restored : state) (raw : Checkpoint) (header : FinalizedHeader) (config_digest : bytes) : Try () :=
  let h := fh_header header in
  let f := fh_finalization header in
  _ ← ensure (bool_decide (checked_add (latest_height restored) 1 = Some (height h))) "checkpoint terminal is not the state's successor";
  last ← panics (is_last_block_of_epoch (epocher restored) (height h));
  _ ← ensure last "checkpoint anchor is not epoch-terminal";
  _ ← ensure (h_epoch h =? epoch restored)%Z "checkpoint epoch mismatch";
  _ ← ensure (bool_decide (parent h = head_digest restored)) "checkpoint parent mismatch";
  _ ← ensure (bool_decide (checkpoint_hash h = cp_digest raw)) "checkpoint hash mismatch";
  _ ← ensure (bool_decide (computed_digest h = signed_payload f)) "checkpoint header/certificate mismatch";
  _ ← ensure ((certificate_epoch f =? epoch restored)%Z && (h_view h <=? certificate_view f)%Z) "checkpoint certificate round mismatch";
  participants ← panics (get_current_epoch_validators restored);
  match scheme_verifier (chain_domain config_digest) participants with
  | None => Some (Err (Rejected "invalid checkpoint committee"))
  | Some scheme => ensure (verify_finalization scheme f) "checkpoint terminal signature verification failed"
  end.
Definition check_last_block (header : FinalizedHeader) (last_block : option Block) : Try () :=
  match last_block with
  | None => mret ()
  | Some block =>
      _ ← ensure (bool_decide (block_digest block = signed_payload (fh_finalization header))) "checkpoint last_block mismatch";
      match new_with_verify (Block.header block) (payload block) (execution_requests block) with
      | Ok _ => mret ()
      | Err e => Some (Err (BlockInvalid e))
      end
  end.
(** [ConsensusState::try_from] *)
Definition decode_checkpoint (raw : Checkpoint) : Try state :=
  match state_try_from raw with
  | Err e => Some (Err (CheckpointInvalid e))
  | Ok None => None
  | Ok (Some decoded) => Some (Ok decoded)
  end.
Definition validate_candidate (s : state) (header : FinalizedHeader) (last_block : option Block) (config_digest : bytes)
  : Try (state * CheckpointImport) :=
  let raw := match pending_checkpoint s with Some cp => cp | None => checkpoint_new s end in
  decoded ← decode_checkpoint raw;
  restored ← panics (set_pending_checkpoint decoded (Some raw));
  restored ← panics (capture_state_root restored (latest_height restored));
  _ ← ensure (bool_decide (write_state s = write_state decoded) || bool_decide (write_state s = write_state restored))
        "checkpoint state differs from its authenticated snapshot";
  _ ← check_terminal restored raw header config_digest;
  _ ← check_last_block header last_block;
  mret (restored, mkCheckpointImport (latest_height restored) config_digest header last_block).

(** ** The import *)
Definition finish_import (s : state) (record : CheckpointImport) : St () :=
  status ← client_commit (forkchoice s);
  if negb (is_valid status) && negb (is_syncing status) then
    _ ← db_try (discard_pending_import (T:=T));
    pure_try (Some (Err (Rejected "execution client rejected checkpoint")))
  else db_try (import_checkpoint s record).
(** Stage, offer, commit. *)
Definition stage_and_finish (s : state) (record : CheckpointImport) : St () :=
  _ ← db_try (stage_checkpoint_import s record);
  finish_import s record.

(** What the start has found so far: the state, the import, whether the client was asked. *)
Notation found := (option state * option CheckpointImport * bool)%type.

Definition resume_pending (candidate : option (state * CheckpointImport)) (config_digest : bytes) (x : found) : St found :=
  let '(stored, imported, checked) := x in
  p ← db_try (get_pending_import (T:=T));
  match p with
  | None => mret x
  | Some (pending, record) =>
      _ ← require (bool_decide (ci_config_digest record = config_digest)) "pending checkpoint belongs to a different chain";
      _ ← require (latest_height pending =? processed_height record)%Z "pending import height mismatch";
      _ ← require (match stored with Some s => (latest_height s <=? processed_height record)%Z | None => true end)
            "pending import is behind durable state";
      v ← pure_try (validate_candidate pending (finalized_header record) (last_block record) config_digest);
      let '(pending, record) := v in
      _ ← match candidate with
          | Some (_, candidate) =>
              if (processed_height candidate =? processed_height record)%Z then
                require (bool_decide (computed_digest (fh_header (finalized_header candidate))
                                      = computed_digest (fh_header (finalized_header record))))
                  "checkpoint conflicts with pending import"
              else mret ()
          | None => mret ()
          end;
      _ ← finish_import pending record;
      mret (Some pending, Some record, true)
  end.

Definition consider_candidate (initial : state) (candidate : option (state * CheckpointImport)) (x : found) : St found :=
  let '(stored, imported, checked) := x in
  match candidate with
  | Some (candidate, record) =>
      let height := latest_height candidate in
      let import := _ ← stage_and_finish candidate record; mret (Some candidate, Some record, true) in
      match stored with
      | Some local =>
          if (height <? latest_height local)%Z then mret x else
          if (latest_height local =? height)%Z then
            same ← (if bool_decide (head_digest local = head_digest candidate) then
                      r1 ← pure_try (panics (tree_root (ssz_tree local)));
                      r2 ← pure_try (panics (tree_root (ssz_tree candidate)));
                      mret (bool_decide (r1 = r2))
                    else mret false);
            _ ← require same "checkpoint conflicts with state at the same height";
            if match imported with Some old => (processed_height old <? height)%Z | None => true end
            then import else mret x
          else import
      | None => import
      end
  | None =>
      match stored with
      | Some local =>
          _ ← require (latest_height initial <=? latest_height local)%Z "newer initial state requires a verified checkpoint";
          mret x
      | None => mret x
      end
  end.

Definition prepare (initial : state) (header : option FinalizedHeader) (last_block : option Block) (config_digest : bytes)
  : St (state * option CheckpointImport) :=
  candidate ← match header with
              | Some header => v ← pure_try (validate_candidate initial header last_block config_digest); mret (Some v)
              | None =>
                  _ ← require (match last_block with None => true | Some _ => false end)
                        "checkpoint last_block requires a verified terminal header";
                  mret None
              end;
  _ ← match candidate with
      | Some (_, record) => check_history [finalized_header record]
      | None => mret ()
      end;
  stored ← db_read (get_latest_consensus_state (T:=T));
  imported ← db_try (get_checkpoint_import (T:=T));
  _ ← db_try ensure_healthy;
  _ ← match imported with
      | Some record =>
          _ ← require (bool_decide (ci_config_digest record = config_digest)) "stored checkpoint belongs to a different chain";
          require (match stored with Some s => (processed_height record <=? latest_height s)%Z | None => false end)
            "import authorization has no backing state"
      | None => mret ()
      end;
  x ← resume_pending candidate config_digest (stored, imported, false);
  x ← consider_candidate initial candidate x;
  let '(stored, imported, execution_checked) := x in
  let state := default initial stored in
  _ ← match imported with
      | Some _ =>
          if execution_checked : bool then mret () else
          status ← client_commit (forkchoice state);
          require (is_valid status || is_syncing status) "execution client rejected recovered checkpoint state"
      | None => mret ()
      end;
  _ ← db_try ensure_healthy;
  mret (state, imported).
End startup.
