(* ===== verification/StartupFacts.v ===== *)
(** * StartupFacts: a start never goes back and completes what was interrupted

    The state a node starts from is never behind the one in its database; and if a crash
    hits between the staging of a checkpoint and the end of its import, the next start
    completes the import from what is durable. *)
From S2P Require Import Prelude Codec Crypto BTree Epocher Account SszHash SszStateTree SszStateTreeFacts.
From S2P Require Import ConsensusState StateSync StateCodec StateDecode StateRun Block Execution Genesis CheckpointChain.
From S2P Require Import Db DbFacts Startup.

(** [Option<Block>] decodes to what was encoded. *)
Class OptBlockOk `{Hc : Crypto} `{Hb : BlockLib} `{Hk : KvStore} : Prop :=
  opt_block_decode (o : option Block) rest :
    (∀ b, o = Some b → header_wf (header b) ∧ digest (header b) = None ∧ body_bound b ∧
       len_ok (length (block_ssz (header b) (payload b) (execution_requests b)))) →
    read_opt_block (write_opt_block o ++ rest) = Ok (o, rest).

Section facts.
Context `{Hc : Crypto} `{!CryptoOk} `{Hl : SszLib} `{!SszLibOk} `{Hb : BlockLib} `{!BlockLibOk}.
Context `{Hms : !MultisigLib} `{Hr : !CertificateRounds} `{He : !EngineClient} `{Hk : KvStore}.
Notation state := (ConsensusState SszStateTree).
Implicit Types (s : state) (db : FinalizerState).

(** ** Inversion *)
Lemma St_bind_Ok {A B} (c : St A) (f : A → St B) db e db' e' b :
  (c ≫= f) db e = Some (db', e', Ok b) →
  ∃ db1 e1 a, c db e = Some (db1, e1, Ok a) ∧ f a db1 e1 = Some (db', e', Ok b).
Proof. unfold mbind, St_bind. destruct (c db e) as [[[db1 e1] [a|x]]|]; [|done..]. by eauto 10. Qed.
Lemma Try_bind_Ok {A B} (c : Try A) (f : A → Try B) b :
  (c ≫= f) = Some (Ok b) → ∃ a, c = Some (Ok a) ∧ f a = Some (Ok b).
Proof. unfold mbind, Try_bind. destruct c as [[a|x]|]; [|done..]. by eauto. Qed.
Lemma require_met b text db e db' e' a :
  require b text db e = Some (db', e', Ok a) → b = true ∧ db' = db ∧ e' = e.
Proof. unfold require, pure_try, ensure. destruct b; [|done]. by intros [= <- <- _]. Qed.
Lemma ensure_met b text a : ensure b text = Some (Ok a) → b = true.
Proof. unfold ensure. by destruct b. Qed.

(** ** Reading leaves the store alone *)
Definition quiet {A} (c : St A) : Prop := ∀ db e db' e' r, c db e = Some (db', e', r) → store db' = store db.
Lemma unmoved_ret {A} (a : A) : quiet (mret a).
Proof. by intros db e db' e' r [= <- _ _]. Qed.
Lemma quiet_pure {A} (c : Try A) : quiet (pure_try c).
Proof. intros db e db' e' r. unfold pure_try. destruct c; [|done]. by intros [= <- _ _]. Qed.
Lemma unmoved_bind {A B} (c : St A) (f : A → St B) : quiet c → (∀ a, quiet (f a)) → quiet (c ≫= f).
Proof.
  intros Hq Hf db e db' e' r. unfold mbind, St_bind. destruct (c db e) as [[[db1 e1] [a|x]]|] eqn:E; [..|done].
  - intros E2. rewrite (Hf a _ _ _ _ _ E2). by eapply Hq.
  - intros [= <- _ _]. by eapply Hq.
Qed.
Lemma quiet_each {A} (f : A → St ()) l : (∀ a, quiet (f a)) → quiet (each f l).
Proof. intros Hf. induction l; simpl; [apply unmoved_ret|by apply unmoved_bind]. Qed.
Lemma read_or_store {A} (a : A) g key db r : read_or (T:=SszStateTree) a g key db = Some r → store r.1 = store db.
Proof.
  unfold read_or, mbind, DB_bind, mret, DB_ret. destruct (store_get key db) as [[db1 v]|] eqn:E; [|done].
  apply store_get_db in E. simpl in E. subst db1. destruct v; by intros [= <-].
Qed.
Lemma quiet_header n : quiet (db_read (get_finalized_header (T:=SszStateTree) n)).
Proof.
  intros db e db' e' r. unfold db_read, get_finalized_header. destruct (read_or _ _ _ db) as [[db1 a]|] eqn:E; [|done].
  intros [= <- _ _]. by apply read_or_store in E.
Qed.
Lemma quiet_imported : quiet (db_try (get_checkpoint_import (T:=SszStateTree))).
Proof.
  intros db e db' e' r. unfold db_try, get_checkpoint_import, mbind, DB_bind, mret, DB_ret.
  destruct (store_get _ db) as [[db1 v]|] eqn:E; [|done]. apply store_get_db in E. simpl in E. subst db1.
  destruct v as [[[]|]|]; unfold db_fail; by intros [= <- _ _].
Qed.
Lemma quiet_pending : quiet (db_try (get_pending_import (T:=SszStateTree))).
Proof.
  intros db e db' e' r. unfold db_try, get_pending_import, get_or_fail, DB_try, mbind, DB_bind, mret, DB_ret.
  destruct (store_get _ db) as [[db1 v]|] eqn:E; [|done]. apply store_get_db in E. simpl in E. subst db1.
  destruct v as [v|]; [|unfold db_fail; by intros [= <- _ _]].
  destruct (store_get _ db) as [[db1 w]|] eqn:E; [|done]. apply store_get_db in E. simpl in E. subst db1.
  destruct w as [w|]; [|unfold db_fail; by intros [= <- _ _]].
  destruct v as [[]|], w as [[]|]; unfold db_fail; by intros [= <- _ _].
Qed.
Lemma quiet_healthy : quiet (db_try ensure_healthy).
Proof. intros db e db' e' r. unfold db_try, ensure_healthy. destruct (cancelled db); by intros [= <- _ _]. Qed.
#[local] Hint Resolve unmoved_ret quiet_pure quiet_header quiet_imported quiet_pending quiet_healthy : quiet.
Lemma quiet_history headers : quiet (check_history (T:=SszStateTree) headers).
Proof.
  unfold check_history. apply unmoved_bind; [auto with quiet|]. intros imported. apply unmoved_bind; [auto with quiet|]. intros pending.
  apply unmoved_bind; [|auto with quiet]. apply quiet_each. intros h. unfold check_header.
  apply unmoved_bind; [auto with quiet|]. intros local. apply unmoved_bind; [destruct local; auto with quiet; apply quiet_pure|].
  intros _. apply unmoved_bind.
  - destruct (1 <=? _)%Z; [|auto with quiet]. apply unmoved_bind; [auto with quiet|]. intros []; [apply quiet_pure|auto with quiet].
  - intros _. apply quiet_each. intros r. unfold check_import.
    destruct (_ =? _)%Z; [apply quiet_pure|]. destruct (bool_decide _); [apply quiet_pure|auto with quiet].
Qed.

(** ** Heights *)
Lemma write_state_height s1 s2 :
  is_u64 (latest_height s1) → is_u64 (latest_height s2) → write_state s1 = write_state s2 → latest_height s1 = latest_height s2.
Proof.
  unfold write_state. intros H1' H2' E. apply app_inj_1 in E as [_ E]; [|by rewrite !length_u64_to_be_bytes].
  apply app_inj_1 in E as [_ E]; [|by rewrite !length_u64_to_be_bytes].
  apply app_inj_1 in E as [E _]; [|by rewrite !length_u64_to_be_bytes].
  pose proof (try_get_u64_app (latest_height s1) [] H1') as E1. rewrite E in E1. rewrite try_get_u64_app in E1 by done. congruence.
Qed.

Lemma on_tree_height s op s' : on_tree s op = Some s' → latest_height s' = latest_height s.
Proof. unfold on_tree. by intros (t & _ & [= <-])%bind_Some. Qed.
Lemma restore_height s raw n s1 s2 :
  set_pending_checkpoint s raw = Some s1 → capture_state_root s1 n = Some s2 → latest_height s2 = latest_height s.
Proof.
  unfold set_pending_checkpoint. intros E1%on_tree_height. simpl in E1.
  unfold capture_state_root. intros (s3 & E3%on_tree_height & E)%bind_Some. apply bind_Some in E as (r & _ & E).
  injection E as <-. simpl. congruence.
Qed.
Lemma decode_checkpoint_ok raw s : decode_checkpoint raw = Some (Ok s) → decoded_wf s ∧ coherent s.
Proof.
  unfold decode_checkpoint. destruct (state_try_from raw) as [[s1|]|] eqn:E; [|done..]. intros [= <-].
  unfold state_try_from in E. destruct (negb _); [done|]. destruct (read_state (cp_data raw)) as [[[s2|] rest]|] eqn:Er; [|done..].
  destruct (pending_checkpoint s2); [done|]. injection E as <-. unfold read_state in Er.
  split; [by eapply read_state_wf|by eapply read_state_coherent].
Qed.

(** What validation goes through. *)
Definition raw_of s : Checkpoint := match pending_checkpoint s with Some cp => cp | None => checkpoint_new s end.
Lemma validate_inv s0 h lb config s r :
  validate_candidate s0 h lb config = Some (Ok (s, r)) → ∃ d s1,
    decode_checkpoint (raw_of s0) = Some (Ok d) ∧ set_pending_checkpoint d (Some (raw_of s0)) = Some s1 ∧
    capture_state_root s1 (latest_height s1) = Some s ∧ (write_state s0 = write_state d ∨ write_state s0 = write_state s) ∧
    check_terminal s (raw_of s0) h config = Some (Ok ()) ∧ check_last_block h lb = Some (Ok ()) ∧
    r = mkCheckpointImport (latest_height s) config h lb.
Proof.
  unfold validate_candidate. cbv zeta. fold (raw_of s0). intros (d & Ed & E)%Try_bind_Ok.
  apply Try_bind_Ok in E as (s1 & E1 & E). apply Try_bind_Ok in E as (s2 & E2 & E). apply Try_bind_Ok in E as ([] & E3%ensure_met & E).
  apply Try_bind_Ok in E as ([] & E4 & E). apply Try_bind_Ok in E as ([] & E5 & E). injection E as <- <-.
  unfold panics in E1, E2. apply fmap_Some in E1 as (? & E1 & [= <-]), E2 as (? & E2 & [= <-]).
  rewrite orb_true_iff, !bool_decide_eq_true in E3. by exists d, s1.
Qed.
Lemma validate_spec s h lb config s' r :
  validate_candidate s h lb config = Some (Ok (s', r)) →
  r = mkCheckpointImport (latest_height s') config h lb ∧ (is_u64 (latest_height s) → latest_height s' = latest_height s).
Proof.
  intros (d & s1 & [[Hwf _] _]%decode_checkpoint_ok & E1 & E2 & E3 & _ & _ & ->)%validate_inv. split; [done|].
  pose proof (restore_height _ _ _ _ _ E1 E2) as Eh. pose proof (wf_height _ Hwf) as Hu. simpl in Hu. intros Hs. rewrite Eh.
  destruct E3 as [E3|E3]; [symmetry; by apply write_state_height|].
  rewrite <-Eh. symmetry. apply write_state_height; [done|by rewrite Eh|done].
Qed.

Lemma state_value_wf bs s : decode_all read_value bs = Ok (Some (VConsensusState s)) → decoded_wf s.
Proof.
  unfold decode_all. destruct (read_value bs) as [[v rest]|] eqn:E; [|done]. destruct rest; [|done]. intros [= ->].
  unfold read_value in E. apply reader_bind_Ok in E as (t & buf & _ & E).
  repeat case_match; try done; repeat (apply reader_bind_Ok in E as (? & ? & ? & E); try done).
  match goal with Hr : read_state buf = Ok (?x, _) |- _ => unfold read_state in Hr; destruct x; [|discriminate E] end.
  injection E as <- _. by eapply read_state_wf.
Qed.
Lemma store_get_decoded key db db' v :
  store_get (T:=SszStateTree) key db = Some (db', Ok (Some v)) → ∃ bs, decode_all read_value bs = Ok (Some v).
Proof.
  unfold store_get. intros (st & _ & E)%bind_Some. destruct (raw_get st key) as [[bs|]|]; [|done..].
  destruct (decode_all read_value bs) as [[w|]|] eqn:Ed; [|done..]. injection E as _ <-. by exists bs.
Qed.
Lemma pending_u64 db e db' e' s r :
  db_try get_pending_import db e = Some (db', e', Ok (Some (s, r))) → is_u64 (latest_height s).
Proof.
  unfold db_try, get_pending_import, get_or_fail, DB_try, mbind, DB_bind, mret, DB_ret.
  destruct (store_get _ db) as [[db1 [v|x]]|] eqn:E1; [|done..].
  destruct (store_get _ db1) as [[db2 [w|x]]|]; [|done..].
  destruct v as [[]|], w as [[]|]; try done. intros [= <- <- <- <-].
  apply store_get_decoded in E1 as [bs [Hwf _]%state_value_wf]. exact (wf_height _ Hwf).
Qed.

(** What the start has found: the import is of this chain and backed by the state. *)
Definition found_ok (config : bytes) (x : option state * option CheckpointImport * bool) : Prop :=
  ∀ r, x.1.2 = Some r → ci_config_digest r = config ∧ ∃ s, x.1.1 = Some s ∧ (processed_height r ≤ latest_height s)%Z.
Definition advances (x x' : option state * option CheckpointImport * bool) : Prop :=
  ∀ s, x.1.1 = Some s → ∃ s', x'.1.1 = Some s' ∧ (latest_height s ≤ latest_height s')%Z.
Lemma advances_refl x : advances x x.
Proof. intros s E. by exists s. Qed.
Lemma advances_trans x y z : advances x y → advances y z → advances x z.
Proof. intros Hxy Hyz s (s1 & (s2 & ? & ?)%Hyz & ?)%Hxy. exists s2. split; [done|lia]. Qed.

Lemma resume_spec candidate config x db e db' e' x' :
  found_ok config x → resume_pending candidate config x db e = Some (db', e', Ok x') → found_ok config x' ∧ advances x x'.
Proof.
  intros Hx. destruct x as [[stored imported] checked]. unfold resume_pending.
  intros (db1 & e1 & p & Ep & E)%St_bind_Ok. destruct p as [[pending record]|]; [|injection E as _ _ <-; split; [exact Hx|apply advances_refl]].
  pose proof (pending_u64 _ _ _ _ _ _ Ep) as Hu. clear Ep.
  apply St_bind_Ok in E as (? & ? & [] & (Hcfg & -> & ->)%require_met & E).
  apply St_bind_Ok in E as (? & ? & [] & (Hh & -> & ->)%require_met & E).
  apply St_bind_Ok in E as (? & ? & [] & (Hle & -> & ->)%require_met & E).
  apply St_bind_Ok in E as (db2 & e2 & [s r] & Ev & E). unfold pure_try in Ev.
  destruct (validate_candidate _ _ _ _) as [v|] eqn:Hv; [|done]. injection Ev as <- <- ->.
  apply validate_spec in Hv as [-> Hs]. specialize (Hs Hu). apply Z.eqb_eq in Hh.
  apply St_bind_Ok in E as (? & ? & [] & _ & E). apply St_bind_Ok in E as (? & ? & [] & _ & E). injection E as _ _ <-. split.
  - intros r' [= <-]. split; [done|]. exists s. by split.
  - intros s0 Es. exists s. split; [done|]. simpl in Es. subst stored. apply Z.leb_le in Hle. lia.
Qed.

Lemma consider_spec initial candidate config x db e db' e' x' :
  (∀ s r, candidate = Some (s, r) → ci_config_digest r = config ∧ processed_height r = latest_height s) →
  found_ok config x → consider_candidate initial candidate x db e = Some (db', e', Ok x') →
  found_ok config x' ∧ advances x x'.
Proof.
  intros Hcand Hx. destruct x as [[stored imported] checked]. unfold consider_candidate. cbv zeta.
  assert (∀ s r c db e db' e', candidate = Some (s, r) → (∀ s0, stored = Some s0 → latest_height s0 ≤ latest_height s)%Z →
    (stage_and_finish s r ≫= λ _, mret (Some s, Some r, true)) db e = Some (db', e', Ok c) →
    found_ok config c ∧ advances (stored, imported, checked) c) as Himp.
  { intros s r c db0 e0 db1 e1 Ec Hle (? & ? & [] & _ & E)%St_bind_Ok. injection E as _ _ <-. destruct (Hcand s r Ec) as [Hcfg Hph].
    split; [intros r' [= <-]; split; [done|exists s; split; [done|lia]]|]. intros s0 Es. exists s. by split; [|apply Hle]. }
  destruct candidate as [[s r]|].
  - destruct stored as [local|]; [|by apply Himp].
    destruct (Z.ltb_spec (latest_height s) (latest_height local)) as [|Hge]; [intros [= _ _ <-]; split; [exact Hx|apply advances_refl]|].
    destruct (Z.eqb_spec (latest_height local) (latest_height s)) as [Eq|Hne].
    + intros (? & ? & same & _ & E)%St_bind_Ok. apply St_bind_Ok in E as (? & ? & [] & _ & E). destruct (match imported with Some _ => _ | None => _ end).
      * revert E. apply (Himp s r); [done|]. intros s0 [= <-]. lia.
      * injection E as _ _ <-. split; [exact Hx|apply advances_refl].
    + apply (Himp s r); [done|]. intros s0 [= <-]. lia.
  - destruct stored as [local|]; [|intros [= _ _ <-]; split; [exact Hx|apply advances_refl]].
    intros (? & ? & [] & _ & E)%St_bind_Ok. injection E as _ _ <-. split; [exact Hx|apply advances_refl].
Qed.

(** A read shows the store, whatever the health of the node. *)
Lemma read_or_same {A} (a : A) g key db1 db2 x v :
  store db1 = store db2 → read_or (T:=SszStateTree) a g key db1 = Some (x, v) →
  ∃ y, read_or (T:=SszStateTree) a g key db2 = Some (y, v) ∧ store y = store x.
Proof.
  intros Es. unfold read_or, store_get, mbind, DB_bind, mret, DB_ret. rewrite Es. destruct (store db2) as [st|] eqn:E2; [|done].
  cbn [mbind option_bind]. destruct (raw_get st key) as [[bs|]|].
  - destruct (decode_all read_value bs) as [[w|]|]; [|done|]; intros [= <- <-]; (eexists; split; [done|]; simpl; congruence).
  - intros [= <- <-]; (eexists; split; [done|]; simpl; congruence).
  - intros [= <- <-]; (eexists; split; [done|]; simpl; congruence).
Qed.
Lemma latest_same db1 db2 x v :
  store db1 = store db2 → get_latest_consensus_state (T:=SszStateTree) db1 = Some (x, v) →
  ∃ y, get_latest_consensus_state (T:=SszStateTree) db2 = Some (y, v).
Proof.
  intros Es. unfold get_latest_consensus_state, mbind, DB_bind, mret, DB_ret.
  destruct (read_or _ _ _ db1) as [[x1 o]|] eqn:E; [|done].
  destruct (read_or_same _ _ _ _ _ _ _ Es E) as (y1 & -> & Ey). destruct o as [n|]; [|intros [= _ <-]; by eexists].
  unfold get_consensus_state. intros E2. destruct (read_or_same _ _ _ _ y1 _ _ (eq_sym Ey) E2) as (y2 & E3 & _). by eexists.
Qed.

(** C8: Starting never goes back.  Whatever the database holds, whatever checkpoint the
    node is given and however the execution client answers, if the start succeeds then
    the state it chooses is not behind the one the database held, and the import it
    hands to the syncer, if any, belongs to this chain and is backed by that state. *)
Theorem start_never_goes_back initial header lb config db e db' e' s imported :
  prepare initial header lb config db e = Some (db', e', Ok (s, imported)) →
  (∀ db1 stored, get_latest_consensus_state (T:=SszStateTree) db = Some (db1, Some stored) →
     (latest_height stored ≤ latest_height s)%Z) ∧
  ∀ r, imported = Some r → ci_config_digest r = config ∧ (processed_height r ≤ latest_height s)%Z.
Proof.
  unfold prepare. intros (db1 & e1 & cand & Ecand & E)%St_bind_Ok.
  assert (store db1 = store db ∧ ∀ s r, cand = Some (s, r) → ci_config_digest r = config ∧ processed_height r = latest_height s)
    as [Hs1 Hcand].
  { destruct header as [h|].
    - apply St_bind_Ok in Ecand as (? & ? & [s1 r1] & Ev & [= <- <- <-]). split; [by eapply quiet_pure|]. intros s2 r2 [= <- <-].
      unfold pure_try in Ev. destruct (validate_candidate _ _ _ _) eqn:Hv; [|done]. injection Ev as _ _ ->.
      apply validate_spec in Hv as [-> _]. done.
    - by apply St_bind_Ok in Ecand as (? & ? & [] & (_ & -> & _)%require_met & [= <- <- <-]). }
  apply St_bind_Ok in E as (db2 & e2 & [] & Ehist & E).
  assert (store db2 = store db) as Hs2.
  { rewrite <-Hs1. destruct cand as [[? r]|]; [by eapply quiet_history|by injection Ehist as <- _]. }
  apply St_bind_Ok in E as (db3 & e3 & stored & Est & E). apply St_bind_Ok in E as (db4 & e4 & imp & _ & E).
  apply St_bind_Ok in E as (db5 & e5 & [] & _ & E). apply St_bind_Ok in E as (db6 & e6 & [] & Eok & E).
  assert (found_ok config (stored, imp, false)) as Hx0.
  { intros r Er. simpl in Er. subst imp. apply St_bind_Ok in Eok as (? & ? & [] & (Hcfg & -> & ->)%require_met & Eb). apply bool_decide_eq_true in Hcfg.
    apply require_met in Eb as (Hb1 & _). destruct stored as [s1|]; [|done]. split; [done|]. exists s1. split; [done|]. by apply Z.leb_le. }
  apply St_bind_Ok in E as (db7 & e7 & x1 & E1 & E). destruct (resume_spec _ _ _ _ _ _ _ _ Hx0 E1) as [Hx1 Ha1].
  apply St_bind_Ok in E as (db8 & e8 & x2 & E2 & E). destruct (consider_spec _ _ _ _ _ _ _ _ _ Hcand Hx1 E2) as [Hx2 Ha2].
  destruct x2 as [[st2 imp2] ck]. apply St_bind_Ok in E as (? & ? & [] & _ & E). apply St_bind_Ok in E as (? & ? & [] & _ & E).
  injection E as _ _ <- <-. split.
  - intros dbx st0 Hget. destruct (latest_same db db2 _ _ (eq_sym Hs2) Hget) as [y Hy]. unfold db_read in Est. rewrite Hy in Est.
    injection Est as _ _ <-. destruct (advances_trans _ _ _ Ha1 Ha2 st0 eq_refl) as (s' & Es & Hle). simpl in Es. by subst st2.
  - intros r ->. destruct (Hx2 r eq_refl) as (Hcfg & s' & Es & Hle). simpl in Es. by subst st2.
Qed.

(** ** An interrupted import *)
Context `{Hv : !KvStoreSpec} `{!KvStoreOk} `{Ho : !OptBlockOk}.

(** The record fits its encoding; its header and block are as they are decoded. *)
Record importable (r : CheckpointImport) : Prop := {
  im_height : is_u64 (processed_height r);
  im_config : length (ci_config_digest r) = 32;
  im_header : header_wf (fh_header (finalized_header r)) ∧ digest (fh_header (finalized_header r)) = None ∧
    (Z.of_nat (participant_count (finalized_header r)) ≤ MAX_FINALIZED_HEADER_PARTICIPANTS)%Z ∧
    certificate_fits (participant_count (finalized_header r)) (fh_finalization (finalized_header r)) ∧
    signed_payload (fh_finalization (finalized_header r)) = computed_digest (fh_header (finalized_header r)) ∧
    len_ok (length (finalized_ssz (header_ssz (fh_header (finalized_header r)))
      (as_u32 (participant_count (finalized_header r))) (write_finalization (fh_finalization (finalized_header r)))));
  im_block : ∀ b, last_block r = Some b → header_wf (header b) ∧ digest (header b) = None ∧ body_bound b ∧
    len_ok (length (block_ssz (header b) (payload b) (execution_requests b)))
}.
Lemma cold_id h : digest h = None → cold h = h.
Proof. destruct h. simpl. by intros ->. Qed.
Lemma record_value r : importable r →
  decode_all (read_value (T:=SszStateTree)) (write_value (T:=SszStateTree) (VCheckpointImport r)) = Ok (Some (VCheckpointImport r)).
Proof.
  intros [Hh Hcfg (Hw & Hd & Hn & Hf & Hs & Hlen) Hblk]. apply decode_all_app.
  unfold read_value, write_value. rewrite <-?(assoc_L (++)). erewrite reader_bind_step by (apply try_get_u8_app; lia). cbv iota beta.
  erewrite reader_bind_step by (by apply try_get_u64_app). erewrite reader_bind_step by (by apply take_bytes_app).
  unfold MAX_FINALIZED_HEADER_PARTICIPANTS in Hn. unfold mbind at 1, reader_bind. rewrite read_finalized_app by (done || lia).
  rewrite (proj2 (Z.ltb_ge _ _)) by (unfold MAX_FINALIZED_HEADER_PARTICIPANTS; lia).
  unfold finalized_new. rewrite computed_digest_cold, Hs, bool_decide_true by done. simpl negb. cbv iota.
  unfold mbind, reader_bind. rewrite opt_block_decode by done. rewrite (cold_id _ Hd). by destruct r as [? ? [] ?].
Qed.

Lemma get_or_fail_spec key db c d :
  reads_up db → holds_store db c d →
  match c key with
  | None => get_or_fail (T:=SszStateTree) key db = Some (db, Ok None)
  | Some bs => ∀ w, decode_all read_value bs = Ok (Some w) → get_or_fail (T:=SszStateTree) key db = Some (db, Ok (Some w))
  end.
Proof.
  intros (st & E & Hup) (st' & E' & Hc1 & _). rewrite E in E'. injection E' as <-.
  unfold get_or_fail, store_get, mbind, DB_bind, mret, DB_ret. rewrite E. cbn [mbind option_bind].
  destruct (Hup key) as [v Hget]. rewrite Hget. apply raw_get_view in Hget as ->. rewrite Hc1.
  destruct (c key); [|done]. by intros w ->.
Qed.
Lemma read_or_none {A} (a : A) g key db c d :
  reads_up db → holds_store db c d → c key = None → read_or (T:=SszStateTree) a g key db = Some (db, g None).
Proof.
  intros Hup Hst Hnone. pose proof (get_or_fail_spec key db c d Hup Hst) as G. rewrite Hnone in G.
  unfold get_or_fail, read_or, mbind, DB_bind, mret, DB_ret in *. destruct (store_get key db) as [[db1 [v|x]]|]; [|done..].
  by injection G as -> ->.
Qed.
Lemma commit_updates_spec us db db' c d :
  holds_store db c d → commit_updates (T:=SszStateTree) us db = Some (db', Ok ()) →
  let c' := foldl put c (map (λ '(k, v), (k, write_value <$> v)) us) in holds_store db' c' c'.
Proof.
  intros (st & E & Hc1 & _). unfold commit_updates, DB_try, apply_updates, mbind, DB_bind, mret, DB_ret. rewrite E.
  destruct (raw_apply_batch _ _) as [st1|] eqn:Eb; [|done]. intros Ec. cbv zeta.
  eapply commit_spec; [|exact Ec]. exists st1. split; [done|]. split; [|intros k; reflexivity].
  intros k. rewrite (apply_batch_view _ _ _ _ Eb). generalize (map (λ '(k, v), (k, write_value <$> v)) us).
  intros l. revert Hc1. generalize (view st) as v. intros v Hc1. revert v c Hc1. induction l as [|u l IH]; intros v c Hc1; simpl; [done|].
  apply IH. intros k'. unfold put. by rewrite Hc1.
Qed.
Lemma commit_updates_up us db : store_up → running db →
  ∃ db', commit_updates (T:=SszStateTree) us db = Some (db', Ok ()) ∧ cancelled db' = cancelled db.
Proof.
  intros Hup [st E]. unfold commit_updates, DB_try, apply_updates, commit, mbind, DB_bind, mret, DB_ret. rewrite E.
  destruct (up_apply Hup st (map (λ '(k, v), (k, write_value <$> v)) us)) as [st1 ->]. simpl.
  destruct (up_commit Hup st1) as [st2 ->]. by eexists.
Qed.

(** A validated candidate validates again when it is read back. *)
Lemma revalidate s0 h lb config s r :
  validate_candidate s0 h lb config = Some (Ok (s, r)) → validate_candidate (restarted s) h lb config = Some (Ok (s, r)).
Proof.
  intros (d & s1 & Ed & E1 & E2 & _ & E4 & E5 & ->)%validate_inv.
  assert (raw_of (restarted s) = raw_of s0) as Hraw.
  { unfold set_pending_checkpoint, on_tree in E1. apply bind_Some in E1 as (t & _ & [= <-]).
    unfold capture_state_root, on_tree in E2. apply bind_Some in E2 as (s3 & E3 & E2). apply bind_Some in E3 as (t3 & _ & [= <-]).
    by apply bind_Some in E2 as (r3 & _ & [= <-]). }
  unfold validate_candidate. cbv zeta. fold (raw_of (restarted s)). rewrite Hraw. unfold mbind, Try_bind, panics.
  rewrite Ed, E1. cbn [fmap option_fmap option_map]. rewrite E2. cbn [fmap option_fmap option_map].
  rewrite (bool_decide_true (write_state (restarted s) = write_state s)) by reflexivity. rewrite orb_true_r. simpl ensure.
  cbv iota beta. by rewrite E4, E5.
Qed.
(** The validated state is as its root was captured. *)
Lemma validated_captured s0 h lb config s r :
  validate_candidate s0 h lb config = Some (Ok (s, r)) → ∃ s1 n, s = captured s1 n.
Proof.
  intros (d & s1 & [_ Hd]%decode_checkpoint_ok & E1 & E2 & _)%validate_inv.
  pose proof (run_state_op_step d (op_set_pending_checkpoint (Some (raw_of s0))) Hd) as Hsim. cbn [run_state_op] in Hsim.
  rewrite E1 in Hsim. inversion Hsim as [? ? [[_ [c Ht]] _]|]; subst.
  rewrite (capture_state_root_eq s1 c (latest_height s1) Ht) in E2. apply (inj Some) in E2 as <-. by eexists _, _.
Qed.
(** It fits its encoding if its checkpoint and its snapshot do. *)
Lemma validated_wf s0 h lb config s r :
  validate_candidate s0 h lb config = Some (Ok (s, r)) → (∀ cp, pending_checkpoint s = Some cp → checkpoint_wf cp) →
  (∀ bs, captured_bytes s = Some bs → len_ok (length bs)) → state_wf s.
Proof.
  intros (d & s1 & [[Hwf _] _]%decode_checkpoint_ok & E1 & E2 & _)%validate_inv.
  unfold set_pending_checkpoint, on_tree in E1. apply bind_Some in E1 as (t & _ & [= <-]).
  unfold capture_state_root, on_tree in E2. apply bind_Some in E2 as (s3 & E3 & E2). apply bind_Some in E3 as (t3 & _ & [= <-]).
  apply bind_Some in E2 as (r3 & _ & [= <-]). intros Hcp Hcap. destruct Hwf. by split.
Qed.

Lemma St_bind_step {A B} (c : St A) (f : A → St B) db e db1 e1 a :
  c db e = Some (db1, e1, Ok a) → (c ≫= f) db e = f a db1 e1.
Proof. unfold mbind, St_bind. by intros ->. Qed.
Lemma require_true text b db e : b = true → require b text db e = Some (db, e, Ok ()).
Proof. by intros ->. Qed.
Ltac keys_differ := first [ by apply state_key_epoch | by apply state_key_ne | by apply epoch_key_ne
  | apply not_eq_sym; first [by apply state_key_epoch | by apply epoch_key_ne] ].

(** What is durable once a checkpoint is staged. *)
Definition staged_contents (c : bytes → option bytes) s r : bytes → option bytes :=
  foldl put c [(pad_key PENDING_IMPORT_STATE_KEY, Some (write_value (VConsensusState s)));
               (pad_key PENDING_IMPORT_RECORD_KEY, Some (write_value (T:=SszStateTree) (VCheckpointImport r)))].
Lemma staged_read s0 h lb config s r db c d e :
  validate_candidate s0 h lb config = Some (Ok (s, r)) → importable r → state_wf s → reads_up db →
  holds_store db (staged_contents c s r) d →
  db_try (get_pending_import (T:=SszStateTree)) db e = Some (db, e, Ok (Some (restarted s, r))).
Proof.
  intros Hval Him Hwf Hup Hst. destruct (validated_captured _ _ _ _ _ _ Hval) as (s1 & n & Es).
  assert (staged_contents c s r (pad_key PENDING_IMPORT_STATE_KEY) = Some (write_value (VConsensusState s))) as E1.
  { unfold staged_contents. simpl. rewrite put_ne by keys_differ. apply put_eq. }
  assert (staged_contents c s r (pad_key PENDING_IMPORT_RECORD_KEY) = Some (write_value (T:=SszStateTree) (VCheckpointImport r))) as E2
    by apply put_eq.
  pose proof (get_or_fail_spec (pad_key PENDING_IMPORT_STATE_KEY) _ _ _ Hup Hst) as G1. rewrite E1 in G1.
  pose proof (get_or_fail_spec (pad_key PENDING_IMPORT_RECORD_KEY) _ _ _ Hup Hst) as G2. rewrite E2 in G2.
  specialize (G1 (VConsensusState (restarted s))). specialize (G2 _ (record_value r Him)).
  unfold db_try, get_pending_import, DB_try, mbind, DB_bind, mret, DB_ret. rewrite G1, G2; [done|].
  apply (state_value s1 s n); [by rewrite <-Es|done|by rewrite <-Es].
Qed.

(** The import, offered to a client that does not refuse it. *)
Lemma finish_import_up s r db e e' st c d :
  store_up → holds_store db c d → latest_height s = processed_height r →
  commit_hash e (forkchoice s) = (e', Ok st) → is_valid st || is_syncing st = true →
  ∃ db', finish_import s r db e = Some (db', e', Ok ()) ∧ cancelled db' = cancelled db ∧
    let c' := foldl put c [(make_consensus_state_key (epoch s), Some (write_value (VConsensusState s)));
       (pad_key LATEST_CONSENSUS_STATE_EPOCH_KEY, Some (write_value (T:=SszStateTree) (VU64 (epoch s))));
       (pad_key CHECKPOINT_IMPORT_KEY, Some (write_value (T:=SszStateTree) (VCheckpointImport r)));
       (pad_key PENDING_IMPORT_STATE_KEY, None); (pad_key PENDING_IMPORT_RECORD_KEY, None)] in
    holds_store db' c' c'.
Proof.
  intros Hup Hst Hh Hcm Hok. unfold finish_import.
  erewrite St_bind_step by (unfold client_commit; by rewrite Hcm). rewrite <-negb_orb, Hok. cbn [negb].
  unfold db_try, import_checkpoint. rewrite (proj2 (Z.eqb_eq _ _) Hh). cbn [negb].
  assert (running db) as Hrun by (destruct Hst as (st0 & ? & _); by exists st0).
  match goal with |- context [commit_updates ?us db] => destruct (commit_updates_up us db Hup Hrun) as (db' & E & Hcan) end. rewrite E.
  exists db'. split_and!; [done|done|]. exact (commit_updates_spec _ _ _ _ _ Hst E).
Qed.

(** The imported checkpoint is found by the next start. *)
Lemma imported_read s0 h lb config s r db c d :
  validate_candidate s0 h lb config = Some (Ok (s, r)) → importable r → state_wf s → reads_up db →
  holds_store db (foldl put c [(make_consensus_state_key (epoch s), Some (write_value (VConsensusState s)));
       (pad_key LATEST_CONSENSUS_STATE_EPOCH_KEY, Some (write_value (T:=SszStateTree) (VU64 (epoch s))));
       (pad_key CHECKPOINT_IMPORT_KEY, Some (write_value (T:=SszStateTree) (VCheckpointImport r)));
       (pad_key PENDING_IMPORT_STATE_KEY, None); (pad_key PENDING_IMPORT_RECORD_KEY, None)]) d →
  get_latest_consensus_state db = Some (db, Some (restarted s)) ∧
  get_checkpoint_import (T:=SszStateTree) db = Some (db, Ok (Some r)) ∧
  get_pending_import (T:=SszStateTree) db = Some (db, Ok None).
Proof.
  intros Hval Him Hwf Hup Hst. destruct (validated_captured _ _ _ _ _ _ Hval) as (s1 & n & Es). set (c' := foldl _ _ _) in Hst.
  assert (c' (make_consensus_state_key (epoch s)) = Some (write_value (VConsensusState s))) as E1.
  { unfold c'. simpl. do 4 rewrite put_ne by keys_differ. apply put_eq. }
  assert (c' (pad_key LATEST_CONSENSUS_STATE_EPOCH_KEY) = Some (write_value (T:=SszStateTree) (VU64 (epoch s)))) as E2.
  { unfold c'. simpl. do 3 rewrite put_ne by keys_differ. apply put_eq. }
  assert (c' (pad_key CHECKPOINT_IMPORT_KEY) = Some (write_value (T:=SszStateTree) (VCheckpointImport r))) as E3.
  { unfold c'. simpl. do 2 rewrite put_ne by keys_differ. apply put_eq. }
  assert (c' (pad_key PENDING_IMPORT_STATE_KEY) = None) as E4.
  { unfold c'. simpl. rewrite put_ne by keys_differ. apply put_eq. }
  assert (c' (pad_key PENDING_IMPORT_RECORD_KEY) = None) as E5 by apply put_eq. clearbody c'.
  assert (decode_all read_value (write_value (VConsensusState s)) = Ok (Some (VConsensusState (restarted s)))) as Hdec
    by (apply (state_value s1 s n); [by rewrite <-Es|done|by rewrite <-Es]).
  split_and!.
  - unfold get_latest_consensus_state, mbind, DB_bind.
    erewrite read_or_spec; [|done|exact Hst|exact E2|apply read_u64_value, Hwf]. unfold get_consensus_state.
    by rewrite (read_or_spec _ _ _ _ _ _ _ _ Hup Hst E1 Hdec).
  - pose proof (get_or_fail_spec (pad_key CHECKPOINT_IMPORT_KEY) _ _ _ Hup Hst) as G. rewrite E3 in G.
    specialize (G _ (record_value r Him)). unfold get_or_fail, get_checkpoint_import, mbind, DB_bind, mret, DB_ret in *.
    destruct (store_get _ db) as [[db1 [v|x]]|]; [|done..]. by injection G as -> ->.
  - pose proof (get_or_fail_spec (pad_key PENDING_IMPORT_STATE_KEY) _ _ _ Hup Hst) as G1. rewrite E4 in G1.
    pose proof (get_or_fail_spec (pad_key PENDING_IMPORT_RECORD_KEY) _ _ _ Hup Hst) as G2. rewrite E5 in G2.
    unfold get_pending_import, DB_try, mbind, DB_bind, mret, DB_ret. by rewrite G1, G2.
Qed.

Lemma restart_reads_up db c d : store_up → holds_store db c d → reads_up (restart_db db).
Proof.
  intros Hup (st & E & _). exists (reopen st). unfold restart_db. rewrite E. split; [done|]. intros k. apply (up_get Hup).
Qed.
Lemma restart_holds db c d : holds_store db c d → ∃ d', holds_store (restart_db db) d d'.
Proof. intros Hs. destruct (restart_spec _ _ _ Hs) as (st & E & Hvw). exists (durable st), st. by split_and!. Qed.

(** C9: An interrupted import is completed.  Let a validated checkpoint be staged and the
    node crash before the import is committed, whether or not the execution client has
    already seen it.  Then the next start, without the checkpoint at hand, finds it,
    validates it again, offers it to the client and, unless the client refuses it, starts
    from its state with its record; and after any later crash the database has that state
    as the latest one, the record, and nothing pending. *)
Theorem interrupted_import_is_completed s0 h lb config s r db db1 c d e e' st initial stored imported :
  validate_candidate s0 h lb config = Some (Ok (s, r)) → importable r → state_wf s →
  holds_store db c d → stage_checkpoint_import s r db = Some (db1, Ok ()) → store_up →
  get_latest_consensus_state (restart_db db1) = Some (restart_db db1, stored) →
  get_checkpoint_import (T:=SszStateTree) (restart_db db1) = Some (restart_db db1, Ok imported) →
  found_ok config (stored, imported, false) → (∀ s1, stored = Some s1 → latest_height s1 ≤ latest_height s)%Z →
  (latest_height initial ≤ latest_height s)%Z →
  commit_hash e (forkchoice s) = (e', Ok st) → is_valid st || is_syncing st = true →
  ∃ db2, prepare initial None None config (restart_db db1) e = Some (db2, e', Ok (s, Some r)) ∧
    let db3 := restart_db db2 in
    get_latest_consensus_state db3 = Some (db3, Some (restarted s)) ∧
    get_checkpoint_import (T:=SszStateTree) db3 = Some (db3, Ok (Some r)) ∧
    get_pending_import (T:=SszStateTree) db3 = Some (db3, Ok None).
Proof.
  intros Hval Him Hwf Hst Hstage Hup Hlat Himp Hfound Hle Hinit Hcm Hok.
  apply (commit_updates_spec _ _ _ _ _ Hst) in Hstage. pose proof (restart_reads_up _ _ _ Hup Hstage) as Hreads.
  destruct (restart_holds _ _ _ Hstage) as [d1 Hst1]. pose proof (staged_read _ _ _ _ _ _ _ c d1 e Hval Him Hwf Hreads Hst1) as Hpend.
  pose proof (validate_spec _ _ _ _ _ _ Hval) as [Er _].
  assert (latest_height s = processed_height r ∧ finalized_header r = h ∧ last_block r = lb ∧ ci_config_digest r = config)
    as (Hhr & Eh & Elb & Ecfg) by by rewrite Er.
  destruct (finish_import_up s r _ e e' st _ _ Hup Hst1 Hhr Hcm Hok) as (db2 & Hfin & Hcan & Hst2). exists db2. split.
  - unfold prepare. erewrite St_bind_step by reflexivity. erewrite St_bind_step by reflexivity.
    erewrite St_bind_step by (unfold db_read; by rewrite Hlat). erewrite St_bind_step by (unfold db_try; by rewrite Himp).
    erewrite St_bind_step by done.
    erewrite (St_bind_step _ _ _ _ (restart_db db1) e ()).
    2: { destruct imported as [r0|]; [|done]. destruct (Hfound r0 eq_refl) as (Hcfg & s1 & Es1 & Hs1). simpl in Es1. subst stored.
      erewrite St_bind_step by (by apply require_true, bool_decide_true). by apply require_true, Z.leb_le. }
    erewrite St_bind_step.
    2: { unfold resume_pending. erewrite St_bind_step by exact Hpend. cbv iota beta.
      erewrite St_bind_step by (by apply require_true, bool_decide_true).
      erewrite St_bind_step by (apply require_true, Z.eqb_eq; exact Hhr).
      erewrite St_bind_step by (apply require_true; destruct stored; [apply Z.leb_le; rewrite <-Hhr; by apply Hle|done]).
      erewrite St_bind_step by (unfold pure_try; rewrite Eh, Elb, (revalidate _ _ _ _ _ _ Hval); reflexivity).
      cbv iota beta. erewrite St_bind_step by done. by erewrite St_bind_step by exact Hfin. }
    erewrite St_bind_step by (unfold consider_candidate; by erewrite St_bind_step by (by apply require_true, Z.leb_le)).
    cbv iota beta. simpl default. erewrite St_bind_step by done.
    erewrite St_bind_step by (unfold db_try, ensure_healthy; by rewrite Hcan). done.
  - cbv zeta. destruct (restart_holds _ _ _ Hst2) as [d2 Hst3].
    exact (imported_read _ _ _ _ _ _ _ _ _ Hval Him Hwf (restart_reads_up _ _ _ Hup Hst2) Hst3).
Qed.
End facts.
