(* ===== verification/StartupDemo.v ===== *)
(** * StartupDemo: the import of a concrete checkpoint

    The checkpoint of CheckpointDemo is imported into an empty database, once without
    interruption and once with a crash in between. *)
From S2P Require Import Prelude Codec Crypto BTree Epocher Account SszHash SszStateTree SszStateTreeFacts.
From S2P Require Import ConsensusState StateSync StateCodec StateRun Block Execution Genesis CheckpointChain CheckpointDemo.
From S2P Require Import Db DbFacts Startup StartupFacts.

#[local] Existing Instance ToyCrypto.toy.
#[local] Existing Instance ToyCrypto.toy_ok.
#[local] Existing Instance StateRun.Demo.toy_ssz.
#[local] Existing Instance StateRun.Demo.toy_ssz_ok.
#[local] Existing Instance Block.ToyBlocks.toy_blocks.
#[local] Existing Instance Block.ToyBlocks.toy_blocks_ok.
#[local] Existing Instance Genesis.Demo.toy_genesis.
#[local] Existing Instance Genesis.Demo.toy_engine.
#[local] Existing Instance CheckpointDemo.toy_multisig.
#[local] Instance toy_rounds : CertificateRounds := {| certificate_epoch _ := 1%Z; certificate_view _ := 19%Z |}.

(** A store in memory, with the codec of optional blocks. *)
#[local] Instance memory_store : KvStore := {|
  Store := (bytes → option bytes) * (bytes → option bytes);
  StoreError := ();
  raw_get st k := Ok (st.1 k);
  raw_apply_batch st us := Ok (foldl put st.1 us, st.2);
  raw_commit st := Ok (st.1, st.1);
  write_opt_block _ o := match o with None => put_u8 0 | Some b => put_u8 1 ++ write_block b end;
  read_opt_block _ := t ← try_get_u8; if (t =? 0)%Z then mret None else b ← read_block; mret (Some b)
|}.
#[local] Instance memory_store_spec : KvStoreSpec := {| view st := st.1; durable st := st.2; reopen st := (st.2, st.2) |}.
#[local] Instance memory_store_ok : KvStoreOk.
Proof. split; simpl; try (by intros; simplify_eq). Qed.
Lemma memory_store_up : store_up.
Proof. split; intros; by eexists. Qed.
#[local] Instance memory_opt_block : OptBlockOk.
Proof.
  intros [b|] rest Hb1; unfold read_opt_block, write_opt_block, memory_store.
  - destruct (Hb1 b eq_refl) as (Hw & Hd & Hbb & Hlen). rewrite <-(assoc_L (++)).
    assert (read_block (write_block b ++ rest) = Ok (b, rest)) as Hread.
    { rewrite read_block_app by done. rewrite block_ssz_decode by done. cbn [mbind option_bind]. rewrite (cold_id _ Hd).
      assert (new_with_verify (header b) (payload b) (execution_requests b) = Ok b) as ->; [|done].
      apply new_with_verify_Ok. split; [by destruct b|done]. }
    erewrite reader_bind_step by (apply try_get_u8_app; lia). change (1 =? 0)%Z with false. cbv iota.
    by erewrite reader_bind_step by exact Hread.
  - erewrite reader_bind_step by (apply try_get_u8_app; lia). done.
Qed.

Definition demo_config : bytes := config_digest demo_genesis.
Definition empty_db : FinalizerState := mkFinalizerState (Some (λ _, None, λ _, None)) false.
Definition given_state : option (ConsensusState SszStateTree) :=
  match state_try_from demo_checkpoint with Ok o => o | Err _ => None end.

Definition validates : bool :=
  match given_state with
  | Some s =>
      match validate_candidate s second_header None demo_config with
      | Some (Ok (s, r)) =>
          (latest_height s =? 18)%Z
          && match pending_checkpoint s with
             | Some cp => bool_decide (sha256 (cp_data cp) = cp_digest cp)
                 && (Z.of_nat (length (ssz_container (cp_data cp) (cp_digest cp))) <? 10000)%Z
             | None => false end
          && match captured_bytes s with Some bs => (Z.of_nat (length bs) <? 10000)%Z | None => false end
      | _ => false
      end
  | None => false
  end.
Ltac evaluate := match goal with |- _ = ?r => vm_cast_no_check (eq_refl r) end.
Lemma demo_validates : validates = true.
Proof. evaluate. Qed.
Lemma second_header_fits :
  bool_decide (header_wf (fh_header second_header)) && bool_decide (digest (fh_header second_header) = None)
  && bool_decide (signed_payload (fh_finalization second_header) = computed_digest (fh_header second_header))
  && (Z.of_nat (length (finalized_ssz (header_ssz (fh_header second_header)) (as_u32 (participant_count second_header))
        (write_finalization (fh_finalization second_header)))) <? 10000)%Z && (participant_count second_header =? 2)
  && (length demo_config =? 32) = true.
Proof. evaluate. Qed.

Lemma demo_candidate : ∃ s0 s r, validate_candidate (T:=SszStateTree) s0 second_header None demo_config = Some (Ok (s, r)) ∧
  importable r ∧ state_wf s ∧ latest_height s = 18%Z.
Proof.
  pose proof demo_validates as Ht. unfold validates in Ht. destruct given_state as [s0|]; [|done].
  destruct (validate_candidate s0 second_header None demo_config) as [[[s r]|]|] eqn:Hval; [|done..].
  rewrite !andb_true_iff in Ht. destruct Ht as [[Hh Hcp] Hcap]. apply Z.eqb_eq in Hh. exists s0, s, r. split_and!; [done| | |done].
  - pose proof (validate_spec _ _ _ _ _ _ Hval) as [-> _]. pose proof second_header_fits as Hf.
    rewrite !andb_true_iff, !bool_decide_eq_true, !Nat.eqb_eq, Z.ltb_lt in Hf. destruct Hf as [[[[[Hw Hd] Hs] Hlen] Hn] Hcfg].
    split; cbn [processed_height ci_config_digest finalized_header last_block]; [rewrite Hh; u64_unfold; lia|done| |done].
    split_and!; [done|done|rewrite Hn; unfold MAX_FINALIZED_HEADER_PARTICIPANTS; lia|done|done|unfold len_ok; lia].
  - apply (validated_wf _ _ _ _ _ _ Hval).
    + intros cp E. rewrite E in Hcp. apply andb_true_iff in Hcp as [?%bool_decide_eq_true ?%Z.ltb_lt]. split; [done|unfold len_ok; lia].
    + intros bs E. rewrite E in Hcap. apply Z.ltb_lt in Hcap. unfold len_ok. lia.
Qed.

Lemma interrupted_import_is_completed_witness : ∃ s r db1 db2,
  stage_checkpoint_import (T:=SszStateTree) s r empty_db = Some (db1, Ok ()) ∧
  prepare s None None demo_config (restart_db db1) Genesis.Demo.demo_engine = Some (db2, Genesis.Demo.demo_engine, Ok (s, Some r)) ∧
  get_latest_consensus_state (restart_db db2) = Some (restart_db db2, Some (restarted s)) ∧
  get_pending_import (T:=SszStateTree) (restart_db db2) = Some (restart_db db2, Ok None).
Proof.
  destruct demo_candidate as (s0 & s & r & Hval & Him & Hwf & Hh).
  assert (holds_store empty_db (λ _, None) (λ _, None)) as Hst by (by eexists).
  destruct (commit_updates_up [(pad_key PENDING_IMPORT_STATE_KEY, Some (VConsensusState s));
    (pad_key PENDING_IMPORT_RECORD_KEY, Some (VCheckpointImport r))] empty_db memory_store_up) as (db1 & Estage & _); [by eexists|].
  pose proof (commit_updates_spec _ _ _ _ _ Hst Estage) as Hst1. cbv zeta in Hst1.
  pose proof (restart_reads_up _ _ _ memory_store_up Hst1) as Hup. destruct (restart_holds _ _ _ Hst1) as [d1 Hst2].
  assert (∀ n, u8_to_byte n ≠ u8_to_byte 4 → u8_to_byte n ≠ u8_to_byte 5 →
    foldl put (λ _, None) (map (λ '(k, v), (k, write_value <$> v)) [(pad_key PENDING_IMPORT_STATE_KEY, Some (VConsensusState s));
      (pad_key PENDING_IMPORT_RECORD_KEY, Some (VCheckpointImport r))]) (pad_key (state_variable n)) = None) as Hnone.
  { intros n H4 H5. simpl. rewrite !put_ne by (by apply state_key_ne). done. }
  destruct (interrupted_import_is_completed s0 second_header None demo_config s r empty_db db1 _ _ Genesis.Demo.demo_engine Genesis.Demo.demo_engine VALID s None None
    Hval Him Hwf Hst Estage memory_store_up) as (db2 & Hprep & Hlat & _ & Hpend).
  - unfold get_latest_consensus_state, mbind, DB_bind. erewrite read_or_none; [|exact Hup|exact Hst2|by apply Hnone]. reflexivity.
  - pose proof (get_or_fail_spec (pad_key CHECKPOINT_IMPORT_KEY) _ _ _ Hup Hst2) as G.
    unfold CHECKPOINT_IMPORT_KEY in G at 1. rewrite Hnone in G by done.
    unfold get_or_fail, get_checkpoint_import, mbind, DB_bind, mret, DB_ret in *.
    destruct (store_get _ _) as [[db3 [v|x]]|]; [|done..]. by injection G as -> ->.
  - by intros r0.
  - by intros s1.
  - lia.
  - reflexivity.
  - reflexivity.
  - exists s, r, db1, db2. split; [exact Estage|]. split; [exact Hprep|]. split; [exact Hlat|exact Hpend].
Defined.

(** A start that imports the checkpoint, and the next one. *)
Definition two_starts : bool :=
  match given_state with
  | Some s =>
      match prepare s (Some second_header) None demo_config empty_db Genesis.Demo.demo_engine with
      | Some (db, e, Ok _) =>
          match prepare s None None demo_config db e, get_latest_consensus_state (T:=SszStateTree) db with
          | Some (_, _, Ok (_, Some _)), Some (_, Some _) => true
          | _, _ => false
          end
      | _ => false
      end
  | None => false
  end.
Lemma two_starts_succeed : two_starts = true.
Proof. evaluate. Qed.
Lemma start_never_goes_back_witness : ∃ s db e db' e' s' r db1 stored,
  prepare (T:=SszStateTree) s None None demo_config db e = Some (db', e', Ok (s', Some r)) ∧
  get_latest_consensus_state (T:=SszStateTree) db = Some (db1, Some stored) ∧
  (latest_height stored ≤ latest_height s')%Z ∧ (processed_height r ≤ latest_height s')%Z.
Proof.
  pose proof two_starts_succeed as Ht. unfold two_starts in Ht. destruct given_state as [s|]; [|done].
  destruct (prepare s (Some second_header) None demo_config empty_db Genesis.Demo.demo_engine) as [[[db e] [x|]]|]; [|done..].
  destruct (prepare s None None demo_config db e) as [[[db' e'] [[s' [r|]]|]]|] eqn:E2; [|done..].
  destruct (get_latest_consensus_state db) as [[db1 [stored|]]|] eqn:E3; [|done..].
  exists s, db, e, db', e', s', r, db1, stored. split; [exact E2|]. split; [exact E3|].
  destruct (start_never_goes_back s None None demo_config db e db' e' s' (Some r) E2) as [H1 H2].
  split; [exact (H1 _ _ E3)|]. by apply (H2 r eq_refl).
Defined.
